(** * FTL: controller data-access layer and build engine

  A shallow embedding of the parts of the FTL repository that carry the
  specified behaviour, followed by the properties proved of them.

  The embedding:
  - [GoStrings]    the functions of package strings that are used;
  - [DalErrs]      db/dalerrs: the sentinel errors and [TranslatePGError];
  - [Sql]          backend/controller/sql/schema/001_init.sql: the table
                   [deployments] with its unique partial index, the table
                   [runners] with its triggers;
  - [AsyncCalls]   the async-call queue over the tables [async_calls] and
                   [leases];
  - [FsmDal]       backend/controller/dal: [StartFSMTransition] and
                   [FinishFSMTransition];
  - [BuildEngine]  buildengine/engine.go: [Graph], [buildWithCallback],
                   [tryBuild], [BuildAndDeploy] and the select loop of
                   [watchForModuleChanges].

  Go maps are [gmap]s, Go strings are [string]s (byte sequences), a nil
  error is [None].  The SQL text of the queries and some Go files are not
  among the sources; what is modelled from the specification instead says
  so where it is defined.  The workers that engine.go starts for the
  modules of one group run here one after the other, in the order of the
  group. *)

From stdpp Require Import gmap strings list fin_maps pretty.
From Stdlib Require Import ZArith Lia.

Open Scope string_scope.
Open Scope list_scope.
Open Scope Z_scope.
Open Scope nat_scope.
Open Scope stdpp_scope.

(* ===================================================================== *)
(** ** Go string helpers (package strings)                                *)
(* ===================================================================== *)

Module GoStrings.

(** [strip_prefix p s] is [Some r] when [s = p ++ r]. *)
Fixpoint strip_prefix (p s : string) : option string :=
  match p with
  | EmptyString => Some s
  | String c p' =>
      match s with
      | EmptyString => None
      | String d s' => if Ascii.eqb c d then strip_prefix p' s' else None
      end
  end.

(** strings.HasPrefix *)
Definition HasPrefix (s p : string) : bool :=
  match strip_prefix p s with Some _ => true | None => false end.

(** strings.TrimPrefix: [s] without the leading [p], or [s] itself. *)
Definition TrimPrefix (s p : string) : string :=
  match strip_prefix p s with Some r => r | None => s end.

(** strings.HasSuffix *)
Definition HasSuffix (s suf : string) : bool :=
  let n := String.length s in
  let k := String.length suf in
  (k <=? n)%nat && String.eqb (String.substring (n - k) k s) suf.

(** strings.TrimSuffix: [s] without the trailing [suf], or [s] itself. *)
Definition TrimSuffix (s suf : string) : string :=
  if HasSuffix s suf
  then String.substring 0 (String.length s - String.length suf) s
  else s.

End GoStrings.

(* ===================================================================== *)
(** ** db/dalerrs                                                         *)
(* ===================================================================== *)

Module DalErrs.
Import GoStrings.

(** The fields of [*pgconn.PgError] that the translator and [Error()]
    read. *)
Record PgError := mkPgError {
  Severity : string;
  Code : string;
  Message : string;
  TableName : string;
  ConstraintName : string
}.

(** Go error values.  The three sentinels of the package, the two "no
    rows" sentinels of database/sql and pgx, a Postgres error, an error
    built by [fmt.Errorf("<prefix>: %w", inner)], and any other error,
    known only by its message. *)
Inductive error : Type :=
| ErrConflict
| ErrNotFound
| ErrConstraint
| SqlErrNoRows
| PgxErrNoRows
| PgErr (pe : PgError)
| Errorf (prefix : string) (inner : error)
| Opaque (msg : string).

#[global] Instance PgError_eq_dec : EqDecision PgError.
Proof. solve_decision. Defined.

#[global] Instance error_eq_dec : EqDecision error.
Proof. solve_decision. Defined.

(** The [Error()] method. *)
Fixpoint Error (e : error) : string :=
  match e with
  | ErrConflict => "conflict"
  | ErrNotFound => "not found"
  | ErrConstraint => "constraint violation"
  | SqlErrNoRows => "sql: no rows in result set"
  | PgxErrNoRows => "no rows in result set"
  | PgErr pe => Severity pe +:+ ": " +:+ Message pe +:+ " (SQLSTATE " +:+ Code pe +:+ ")"
  | Errorf prefix inner => prefix +:+ ": " +:+ Error inner
  | Opaque msg => msg
  end.

(** errors.Is: [target] is found by [==] somewhere on the unwrap chain. *)
Fixpoint errors_Is (err target : error) : bool :=
  if decide (err = target) then true
  else match err with
       | Errorf _ inner => errors_Is inner target
       | _ => false
       end.

(** errors.As into a [*pgconn.PgError]: the first one on the chain. *)
Fixpoint errors_As_PgError (err : error) : option PgError :=
  match err with
  | PgErr pe => Some pe
  | Errorf _ inner => errors_As_PgError inner
  | _ => None
  end.

(** SQLSTATE codes of package pgerrcode, class 23. *)
Definition IntegrityConstraintViolation : string := "23000".
Definition RestrictViolation : string := "23001".
Definition NotNullViolation : string := "23502".
Definition ForeignKeyViolation : string := "23503".
Definition UniqueViolation : string := "23505".
Definition CheckViolation : string := "23514".
Definition ExclusionViolation : string := "23P01".

Definition IsNotFound (err : error) : bool :=
  errors_Is err SqlErrNoRows || errors_Is err PgxErrNoRows.

(** What a foreign-key violation shows of its constraint:
    the constraint name without the [<table>_] prefix and the
    [_id_fkey] suffix. *)
Definition constraint_stem (pe : PgError) : string :=
  TrimSuffix (TrimPrefix (ConstraintName pe) (TableName pe +:+ "_")) "_id_fkey".

Definition TranslatePGError (err : option error) : option error :=
  match err with
  | None => None
  | Some err =>
      match errors_As_PgError err with
      | Some pgErr =>
          if String.eqb (Code pgErr) ForeignKeyViolation then
            Some (Errorf (constraint_stem pgErr) ErrNotFound)
          else if String.eqb (Code pgErr) UniqueViolation then
            Some (Errorf (Message pgErr) ErrConflict)
          else if String.eqb (Code pgErr) IntegrityConstraintViolation
               || String.eqb (Code pgErr) RestrictViolation
               || String.eqb (Code pgErr) NotNullViolation
               || String.eqb (Code pgErr) CheckViolation
               || String.eqb (Code pgErr) ExclusionViolation then
            Some (Errorf (Message pgErr) ErrConstraint)
          else Some err
      | None => if IsNotFound err then Some ErrNotFound else Some err
      end
  end.

(** The "other integrity" codes of the third case of the switch. *)
Definition constraint_code (c : string) : Prop :=
  c = IntegrityConstraintViolation \/ c = RestrictViolation \/
  c = NotNullViolation \/ c = CheckViolation \/ c = ExclusionViolation.

(** Any code of the switch. *)
Definition translated_code (c : string) : Prop :=
  c = ForeignKeyViolation \/ c = UniqueViolation \/ constraint_code c.

(** An error that the translator has a rule for. *)
Definition has_rule (err : error) : Prop :=
  (exists pe, errors_As_PgError err = Some pe /\ translated_code (Code pe))
  \/ IsNotFound err = true.

End DalErrs.

(* ===================================================================== *)
(** ** backend/controller/sql/schema/001_init.sql                         *)
(* ===================================================================== *)

Module Sql.
Import DalErrs.

(** *** Three-valued logic of SQL expressions

    A nullable value is an [option]; a comparison with NULL is NULL, and
    a PL/pgSQL [IF] takes its branch only on TRUE. *)

Definition sql_eq {A} `{EqDecision A} (a b : option A) : option bool :=
  match a, b with
  | Some x, Some y => Some (bool_decide (x = y))
  | _, _ => None
  end.

Definition sql_neq {A} `{EqDecision A} (a b : option A) : option bool :=
  negb <$> sql_eq a b.

Definition sql_and (a b : option bool) : option bool :=
  match a, b with
  | Some false, _ | _, Some false => Some false
  | Some true, Some true => Some true
  | _, _ => None
  end.

Definition sql_is_null {A} (a : option A) : option bool :=
  Some (if a is Some _ then false else true).

Definition plpgsql_if (c : option bool) : bool :=
  match c with Some true => true | _ => false end.

(** *** Table deployments (lines 54-71) *)

Record deployment := mkDeployment {
  d_id : Z;
  d_created_at : Z;
  d_module_id : Z;
  d_key : string;
  d_schema : string;
  d_labels : string;
  d_min_replicas : Z
}.

#[global] Instance deployment_eq_dec : EqDecision deployment.
Proof. solve_decision. Defined.

(** The rows a partial index [WHERE min_replicas > 0] covers. *)
Definition indexed (d : deployment) : bool := (0 <? d_min_replicas d)%Z.

(** CREATE UNIQUE INDEX deployments_unique_idx ON deployments (module_id)
    WHERE min_replicas > 0: the index accepts a table when no two covered
    rows have the same [module_id]. *)
Definition deployments_unique_idx (t : list deployment) : bool :=
  bool_decide (NoDup (d_module_id <$> filter (fun d => indexed d = true) t)).

Definition quoted (s : string) : string :=
  String (Ascii.ascii_of_nat 34) (s +:+ String (Ascii.ascii_of_nat 34) EmptyString).

(** What Postgres raises when a write would break the index. *)
Definition unique_violation : PgError :=
  {| Severity := "ERROR";
     Code := UniqueViolation;
     Message := "duplicate key value violates unique constraint "
                +:+ quoted "deployments_unique_idx";
     TableName := "deployments";
     ConstraintName := "deployments_unique_idx" |}.

(** A statement either commits a new table or fails with a Postgres
    error; a failed statement leaves the table as it was. *)
Definition stmt_result : Type := list deployment + PgError.

(** INSERT INTO deployments: the index is checked on the new row. *)
Definition sql_insert (d : deployment) (t : list deployment) : stmt_result :=
  if deployments_unique_idx (t ++ [d]) then inl (t ++ [d]) else inr unique_violation.

(** UPDATE deployments SET ... WHERE ...: rows are visited in table order
    and the index is checked at every row that is written, the rows not
    yet visited still holding their old values. *)
Fixpoint update_rows (matches : deployment -> bool) (set : deployment -> deployment)
    (visited todo : list deployment) : stmt_result :=
  match todo with
  | [] => inl visited
  | d :: rest =>
      if matches d then
        if deployments_unique_idx (visited ++ set d :: rest)
        then update_rows matches set (visited ++ [set d]) rest
        else inr unique_violation
      else update_rows matches set (visited ++ [d]) rest
  end.

Definition sql_update (matches : deployment -> bool) (set : deployment -> deployment)
    (t : list deployment) : stmt_result :=
  update_rows matches set [] t.

(** DELETE FROM deployments WHERE ... *)
Definition sql_delete (matches : deployment -> bool) (t : list deployment) : stmt_result :=
  inl (filter (fun d => matches d = false) t).

(** Any single write statement on the table. *)
Inductive statement :=
| Insert (d : deployment)
| Update (matches : deployment -> bool) (set : deployment -> deployment)
| Delete (matches : deployment -> bool).

Definition exec (s : statement) (t : list deployment) : stmt_result :=
  match s with
  | Insert d => sql_insert d t
  | Update matches set => sql_update matches set t
  | Delete matches => sql_delete matches t
  end.

(** Modelled from the spec: the DAL wrapper around a statement, which is
    not among the sources (only the [Querier] declarations are).  "Every DAL
    call funnels database-specific errors through a single translator":
    the table after the call and the translated error. *)
Definition dal_exec (s : statement) (t : list deployment)
    : list deployment * option error :=
  match exec s t with
  | inl t' => (t', None)
  | inr pe => (t, TranslatePGError (Some (PgErr pe)))
  end.

(** The table after a sequence of DAL writes. *)
Definition dal_run (stmts : list statement) (t : list deployment) : list deployment :=
  foldl (fun t s => (dal_exec s t).1) t stmts.

Definition set_min_replicas (n : Z) (d : deployment) : deployment :=
  {| d_id := d_id d; d_created_at := d_created_at d; d_module_id := d_module_id d;
     d_key := d_key d; d_schema := d_schema d; d_labels := d_labels d;
     d_min_replicas := n |}.

(** Modelled from the spec: [SetDeploymentDesiredReplicas(key, minReplicas)]
    of the [Querier] interface, whose SQL text is not among the sources:
    set [min_replicas] of the deployment with that key. *)
Definition SetDeploymentDesiredReplicas (key : string) (minReplicas : Z) : statement :=
  Update (fun d => String.eqb (d_key d) key) (set_min_replicas minReplicas).

(** Modelled from the spec: [ReplaceDeployment(old, new, minReplicas)] of
    the [Querier] interface, whose SQL text is not among the sources: "set
    the new row's min_replicas, set the old row's min_replicas = 0", as one
    statement. *)
Definition ReplaceDeployment (oldDeployment newDeployment : string) (minReplicas : Z)
    : statement :=
  Update (fun d => String.eqb (d_key d) oldDeployment || String.eqb (d_key d) newDeployment)
         (fun d => if String.eqb (d_key d) newDeployment
                   then set_min_replicas minReplicas d
                   else set_min_replicas 0 d).

(** Invariant 1: at most one deployment row per module has
    [min_replicas > 0]. *)
Definition one_active_per_module (t : list deployment) : Prop :=
  forall i j di dj,
    t !! i = Some di -> t !! j = Some dj ->
    d_module_id di = d_module_id dj ->
    (0 < d_min_replicas di)%Z -> (0 < d_min_replicas dj)%Z ->
    i = j.

(** *** Table runners and its triggers (lines 102-173) *)

Inductive runner_state := idle | reserved | assigned | dead.

#[global] Instance runner_state_eq_dec : EqDecision runner_state.
Proof. solve_decision. Defined.

Record runner := mkRunner {
  r_id : Z;
  r_key : string;
  r_created : Z;
  r_last_seen : Z;
  r_reservation_timeout : option Z;
  r_state : runner_state;
  r_endpoint : string;
  r_module_name : option string;
  r_deployment_id : option Z;
  r_labels : string
}.

(** INTERVAL '2 minutes', timestamps counted in microseconds. *)
Definition two_minutes : Z := 120000000.

(** Function runners_set_reservation_timeout().  [OLD] is the NULL record
    when the trigger fires for an INSERT, so every field of it is NULL. *)
Definition runners_set_reservation_timeout
    (now : Z) (OLD : option runner) (NEW : runner) : runner :=
  if plpgsql_if
       (sql_and (sql_and (sql_neq (r_state <$> OLD) (Some reserved))
                         (sql_eq (Some (r_state NEW)) (Some reserved)))
                (sql_is_null (r_reservation_timeout NEW)))
  then {| r_id := r_id NEW; r_key := r_key NEW; r_created := r_created NEW;
          r_last_seen := r_last_seen NEW;
          r_reservation_timeout := Some (now + two_minutes)%Z;
          r_state := r_state NEW; r_endpoint := r_endpoint NEW;
          r_module_name := r_module_name NEW;
          r_deployment_id := r_deployment_id NEW; r_labels := r_labels NEW |}
  else NEW.

(** Function runners_update_module_name(); [module_of] is the join of
    modules and deployments on the deployment id. *)
Definition runners_update_module_name
    (module_of : Z -> option string) (NEW : runner) : runner :=
  {| r_id := r_id NEW; r_key := r_key NEW; r_created := r_created NEW;
     r_last_seen := r_last_seen NEW;
     r_reservation_timeout := r_reservation_timeout NEW;
     r_state := r_state NEW; r_endpoint := r_endpoint NEW;
     r_module_name := match r_deployment_id NEW with
                      | None => None
                      | Some d => module_of d
                      end;
     r_deployment_id := r_deployment_id NEW; r_labels := r_labels NEW |}.

(** The BEFORE INSERT OR UPDATE row triggers of the table, fired in the
    order of their names. *)
Definition runners_before_write
    (module_of : Z -> option string) (now : Z) (OLD : option runner) (NEW : runner) : runner :=
  runners_update_module_name module_of (runners_set_reservation_timeout now OLD NEW).

(** INSERT INTO runners: the row that is stored. *)
Definition runners_insert (module_of : Z -> option string) (now : Z)
    (NEW : runner) (t : list runner) : list runner :=
  t ++ [runners_before_write module_of now None NEW].

(** UPDATE runners on the row at position [i], [set] giving the new row. *)
Definition runners_update (module_of : Z -> option string) (now : Z)
    (i : nat) (set : runner -> runner) (t : list runner) : list runner :=
  match t !! i with
  | Some OLD => <[i := runners_before_write module_of now (Some OLD) (set OLD)]> t
  | None => t
  end.

(** Invariant 4: a reserved runner has a reservation timeout. *)
Definition reserved_has_timeout (t : list runner) : Prop :=
  forall r, r ∈ t -> r_state r = reserved -> r_reservation_timeout r <> None.

End Sql.

(* ===================================================================== *)
(** ** The async-call queue (tables async_calls and leases)               *)
(* ===================================================================== *)

Module AsyncCalls.
Import DalErrs.

(** CREATE TYPE async_call_state (001_init.sql, lines 396-401). *)
Inductive async_call_state := st_pending | st_executing | st_success | st_error.

#[global] Instance async_call_state_eq_dec : EqDecision async_call_state.
Proof. solve_decision. Defined.

(** CREATE TABLE async_calls (lines 404-430); [id] is the key of the
    table map below. *)
Record async_call := mkAsyncCall {
  created_at : Z;
  lease_id : option Z;
  verb : string;
  state : async_call_state;
  origin : string;
  scheduled_at : Z;
  request : string;
  response : option string;
  error_text : option string;
  remaining_attempts : Z;
  backoff : Z;
  max_backoff : Z
}.

(** CREATE TABLE leases (lines 386-392). *)
Record lease := mkLease {
  idempotency_key : string;
  lease_key : string;
  lease_created_at : Z;
  expires_at : Z
}.

(** Both tables, by primary key, and the identity counters. *)
Record db := mkDb {
  async_calls : gmap Z async_call;
  leases : gmap Z lease;
  next_call_id : Z;
  next_lease_id : Z
}.

Definition empty_db : db :=
  {| async_calls := ∅; leases := ∅; next_call_id := 1; next_lease_id := 1 |}.

Definition with_calls (d : db) (calls : gmap Z async_call) : db :=
  {| async_calls := calls; leases := leases d;
     next_call_id := next_call_id d; next_lease_id := next_lease_id d |}.

(** Modelled from the spec: the queue operations, whose Go and SQL text
    is not among the sources.  "Enqueue: insert with state='pending',
    scheduled_at=t, remaining_attempts, backoff, max_backoff." *)
Definition Enqueue (verb origin request : string) (t : Z)
    (remaining_attempts backoff max_backoff : Z) (d : db) : db * Z :=
  let id := next_call_id d in
  ({| async_calls :=
        <[id := {| created_at := t; lease_id := None; verb := verb;
                   state := st_pending; origin := origin; scheduled_at := t;
                   request := request; response := None; error_text := None;
                   remaining_attempts := remaining_attempts;
                   backoff := backoff; max_backoff := max_backoff |}]>
          (async_calls d);
      leases := leases d;
      next_call_id := (id + 1)%Z;
      next_lease_id := next_lease_id d |}, id).

(** Modelled from the spec: a row that Acquire may take: "pending or
    lease-expired-executing row with scheduled_at <= now", the second
    being "lease_id NULL'd by the lease reaper but state still executing". *)
Definition eligible (now : Z) (c : async_call) : bool :=
  (bool_decide (state c = st_pending)
   || (bool_decide (state c = st_executing) && bool_decide (lease_id c = None)))
  && (scheduled_at c <=? now)%Z.

(** "Among eligible calls, earliest scheduled_at wins; ties broken by row
    id." *)
Definition earlier (a b : Z * async_call) : bool :=
  (scheduled_at a.2 <? scheduled_at b.2)%Z
  || ((scheduled_at a.2 =? scheduled_at b.2)%Z && (a.1 <=? b.1)%Z).

Fixpoint earliest (best : Z * async_call) (rows : list (Z * async_call)) : Z * async_call :=
  match rows with
  | [] => best
  | r :: rows' => earliest (if earlier best r then best else r) rows'
  end.

Definition select_call (now : Z) (calls : gmap Z async_call) : option (Z * async_call) :=
  match filter (fun r => eligible now r.2 = true) (map_to_list calls) with
  | [] => None
  | r :: rows => Some (earliest r rows)
  end.

Definition set_executing (lid : Z) (c : async_call) : async_call :=
  {| created_at := created_at c; lease_id := Some lid; verb := verb c;
     state := st_executing; origin := origin c; scheduled_at := scheduled_at c;
     request := request c; response := response c; error_text := error_text c;
     remaining_attempts := remaining_attempts c; backoff := backoff c;
     max_backoff := max_backoff c |}.

(** Modelled from the spec: "Acquire: in one statement, select the oldest
    pending or lease-expired-executing row with scheduled_at <= now,
    acquire a lease (insert a leases row with TTL; bind its id).  Return
    the row or not found if the queue is empty." *)
Definition Acquire (now ttl : Z) (uuid : string) (d : db)
    : db * (Z * async_call + error) :=
  match select_call now (async_calls d) with
  | None => (d, inr ErrNotFound)
  | Some (id, c) =>
      let lid := next_lease_id d in
      let c' := set_executing lid c in
      ({| async_calls := <[id := c']> (async_calls d);
          leases := <[lid := {| idempotency_key := uuid;
                                lease_key := "/system/async_call/" +:+ pretty id
                                             +:+ ":" +:+ uuid;
                                lease_created_at := now;
                                expires_at := (now + ttl)%Z |}]> (leases d);
          next_call_id := next_call_id d;
          next_lease_id := (lid + 1)%Z |}, inl (id, c'))
  end.

(** The outcome handed to Complete: a response or an error text. *)
Inductive call_result := Succeeded (response : string) | Failed (err : string).

(** A call is acquired while it is executing under a lease. *)
Definition acquired (c : async_call) : bool :=
  bool_decide (state c = st_executing) && bool_decide (lease_id c <> None).

(** Modelled from the spec: "Complete: on success, set state='success',
    response=..., lease_id=NULL; on failure with remaining_attempts > 0,
    set state='pending', scheduled_at = now + backoff, backoff =
    min(backoff*2, max_backoff), remaining_attempts -= 1, lease_id = NULL;
    on terminal failure, set state='error', error=...".  The right-hand
    sides read the row as it was before the update. *)
Definition completed (now : Z) (r : call_result) (c : async_call) : async_call :=
  match r with
  | Succeeded resp =>
      {| created_at := created_at c; lease_id := None; verb := verb c;
         state := st_success; origin := origin c; scheduled_at := scheduled_at c;
         request := request c; response := Some resp; error_text := error_text c;
         remaining_attempts := remaining_attempts c; backoff := backoff c;
         max_backoff := max_backoff c |}
  | Failed err =>
      if (0 <? remaining_attempts c)%Z then
        {| created_at := created_at c; lease_id := None; verb := verb c;
           state := st_pending; origin := origin c;
           scheduled_at := (now + backoff c)%Z;
           request := request c; response := response c; error_text := error_text c;
           remaining_attempts := (remaining_attempts c - 1)%Z;
           backoff := Z.min (backoff c * 2) (max_backoff c);
           max_backoff := max_backoff c |}
      else
        {| created_at := created_at c; lease_id := lease_id c; verb := verb c;
           state := st_error; origin := origin c; scheduled_at := scheduled_at c;
           request := request c; response := response c; error_text := Some err;
           remaining_attempts := remaining_attempts c; backoff := backoff c;
           max_backoff := max_backoff c |}
  end.

(** Complete is an operation on an acquired call; on any other id it
    reports not found and changes nothing. *)
Definition Complete (id now : Z) (r : call_result) (d : db) : db * option error :=
  match async_calls d !! id with
  | Some c =>
      if acquired c
      then (with_calls d (<[id := completed now r c]> (async_calls d)), None)
      else (d, Some ErrNotFound)
  | None => (d, Some ErrNotFound)
  end.

Definition clear_lease (gone : Z -> bool) (c : async_call) : async_call :=
  match lease_id c with
  | Some l =>
      if gone l then
        {| created_at := created_at c; lease_id := None; verb := verb c;
           state := state c; origin := origin c; scheduled_at := scheduled_at c;
           request := request c; response := response c; error_text := error_text c;
           remaining_attempts := remaining_attempts c; backoff := backoff c;
           max_backoff := max_backoff c |}
      else c
  | None => c
  end.

(** DELETE FROM leases for the rows [gone] selects; async_calls.lease_id
    REFERENCES leases(id) ON DELETE SET NULL (line 411). *)
Definition delete_leases (gone : Z -> lease -> bool) (d : db) : db :=
  let dead := filter (fun kv => gone kv.1 kv.2 = true) (leases d) in
  {| async_calls := clear_lease (fun l => bool_decide (is_Some (dead !! l))) <$> async_calls d;
     leases := filter (fun kv => gone kv.1 kv.2 = false) (leases d);
     next_call_id := next_call_id d;
     next_lease_id := next_lease_id d |}.

(** Releasing one lease, and the reaper of expired leases. *)
Definition ReleaseLease (lid : Z) : db -> db :=
  delete_leases (fun k _ => bool_decide (k = lid)).

Definition ExpireLeases (now : Z) : db -> db :=
  delete_leases (fun _ l => (expires_at l <? now)%Z).

(** The operations a controller runs against the queue. *)
Inductive op :=
| OpEnqueue (verb origin request : string) (t attempts backoff max_backoff : Z)
| OpAcquire (now ttl : Z) (uuid : string)
| OpComplete (id now : Z) (r : call_result)
| OpReleaseLease (lid : Z)
| OpExpireLeases (now : Z).

Definition step (o : op) (d : db) : db :=
  match o with
  | OpEnqueue v og rq t n b mb => (Enqueue v og rq t n b mb d).1
  | OpAcquire now ttl uuid => (Acquire now ttl uuid d).1
  | OpComplete id now r => (Complete id now r d).1
  | OpReleaseLease lid => ReleaseLease lid d
  | OpExpireLeases now => ExpireLeases now d
  end.

Definition run (ops : list op) (d : db) : db := foldl (fun d o => step o d) d ops.

(** The id an operation acquires, if it is an Acquire that finds a call. *)
Definition acquires (o : op) (d : db) : option Z :=
  match o with
  | OpAcquire now ttl uuid =>
      match (Acquire now ttl uuid d).2 with
      | inl (id, _) => Some id
      | inr _ => None
      end
  | _ => None
  end.

(** The ids acquired along a run, in order. *)
Fixpoint acquired_ids (ops : list op) (d : db) : list Z :=
  match ops with
  | [] => []
  | o :: ops' =>
      match acquires o d with
      | Some id => id :: acquired_ids ops' (step o d)
      | None => acquired_ids ops' (step o d)
      end
  end.

End AsyncCalls.

(* ===================================================================== *)
(** ** backend/controller/dal: FSM transitions                            *)
(* ===================================================================== *)

Module FsmDal.
Import DalErrs.

(** schema.RefKey and its String(). *)
Record RefKey := mkRefKey { rk_Module : string; rk_Name : string }.

#[global] Instance RefKey_eq_dec : EqDecision RefKey.
Proof. solve_decision. Defined.

Definition RefKey_String (r : RefKey) : string := rk_Module r +:+ "." +:+ rk_Name r.

(** schema.RetryParams; durations in microseconds. *)
Record RetryParams := mkRetryParams { Count : Z; MinBackoff : Z; MaxBackoff : Z }.

(** The conversion int32(x) of a Go int. *)
Definition int32 (x : Z) : Z := ((x + 2 ^ 31) mod 2 ^ 32 - 2 ^ 31)%Z.

(** CREATE TYPE fsm_status, CREATE TABLE fsm_instances (001_init.sql,
    lines 434-453). *)
Inductive fsm_status := running | completed | failed.

Record fsm_instance := mkFsmInstance {
  fi_id : Z;
  fi_created_at : Z;
  fi_fsm : RefKey;
  fi_key : string;
  fi_status : fsm_status;
  fi_current_state : option RefKey;
  fi_destination_state : option RefKey;
  fi_async_call_id : option Z
}.

(** The tables the FSM layer writes. *)
Record db := mkDb {
  queue : AsyncCalls.db;
  fsm_instances : list fsm_instance;
  next_fsm_id : Z
}.

Definition empty_db : db :=
  {| queue := AsyncCalls.empty_db; fsm_instances := []; next_fsm_id := 1 |}.

(** The row of the unique index idx_fsm_instances_fsm_key (fsm, key). *)
Definition is_instance (fsm : RefKey) (key : string) (i : fsm_instance) : bool :=
  bool_decide (fi_fsm i = fsm) && String.eqb (fi_key i) key.

Definition find_instance (fsm : RefKey) (key : string) (d : db) : option fsm_instance :=
  List.find (is_instance fsm key) (fsm_instances d).

(** Modelled from the spec: AsyncOriginFSM.String(), not among the
    sources: "origin fsm:<fsm_ref>:<instance_key>". *)
Definition AsyncOriginFSM_String (fsm : RefKey) (key : string) : string :=
  "fsm:" +:+ RefKey_String fsm +:+ ":" +:+ key.

(** The parameters of the CreateAsyncCall query. *)
Record CreateAsyncCallParams := mkCreateAsyncCallParams {
  p_Verb : RefKey;
  p_Origin : string;
  p_Request : string;
  p_RemainingAttempts : Z;
  p_Backoff : Z;
  p_MaxBackoff : Z
}.

(** Modelled from the spec: the sqlc query CreateAsyncCall, whose SQL text
    is not among the sources: the Enqueue of the async-call queue,
    scheduled at the time of the insert, returning the new id. *)
Definition CreateAsyncCall (now : Z) (arg : CreateAsyncCallParams) (d : db)
    : db * (Z + error) :=
  let r := AsyncCalls.Enqueue (RefKey_String (p_Verb arg)) (p_Origin arg) (p_Request arg)
             now (p_RemainingAttempts arg) (p_Backoff arg) (p_MaxBackoff arg) (queue d) in
  ({| queue := r.1; fsm_instances := fsm_instances d; next_fsm_id := next_fsm_id d |},
   inl r.2).

Definition start_transition (dest : RefKey) (call : Z) (i : fsm_instance) : fsm_instance :=
  {| fi_id := fi_id i; fi_created_at := fi_created_at i; fi_fsm := fi_fsm i;
     fi_key := fi_key i; fi_status := fi_status i;
     fi_current_state := fi_current_state i;
     fi_destination_state := Some dest;
     fi_async_call_id := Some call |}.

Definition replace_instance (fsm : RefKey) (key : string) (f : fsm_instance -> fsm_instance)
    (d : db) : db :=
  {| queue := queue d;
     fsm_instances :=
       (fun i => if is_instance fsm key i then f i else i) <$> fsm_instances d;
     next_fsm_id := next_fsm_id d |}.

(** The parameters of the StartFSMTransition query. *)
Record StartFSMTransitionParams := mkStartFSMTransitionParams {
  p_Fsm : RefKey;
  p_Key : string;
  p_DestinationState : RefKey;
  p_AsyncCallID : Z
}.

(** Modelled from the spec: the sqlc query StartFSMTransition, whose SQL
    text is not among the sources: "Upsert the FSM instance row: set
    destination_state, bind async_call_id, require prior destination_state
    IS NULL (i.e. idle).  Violation surfaces as not found from the
    underlying query": a query for one row that finds none. *)
Definition query_StartFSMTransition (now : Z) (arg : StartFSMTransitionParams) (d : db)
    : db * (fsm_instance + error) :=
  match find_instance (p_Fsm arg) (p_Key arg) d with
  | None =>
      let row := {| fi_id := next_fsm_id d; fi_created_at := now;
                    fi_fsm := p_Fsm arg; fi_key := p_Key arg; fi_status := running;
                    fi_current_state := None;
                    fi_destination_state := Some (p_DestinationState arg);
                    fi_async_call_id := Some (p_AsyncCallID arg) |} in
      ({| queue := queue d; fsm_instances := fsm_instances d ++ [row];
          next_fsm_id := (next_fsm_id d + 1)%Z |}, inl row)
  | Some i =>
      match fi_destination_state i with
      | None =>
          (replace_instance (p_Fsm arg) (p_Key arg)
             (start_transition (p_DestinationState arg) (p_AsyncCallID arg)) d,
           inl (start_transition (p_DestinationState arg) (p_AsyncCallID arg) i))
      | Some _ => (d, inr PgxErrNoRows)
      end
  end.

Definition finish_transition (i : fsm_instance) : fsm_instance :=
  {| fi_id := fi_id i; fi_created_at := fi_created_at i; fi_fsm := fi_fsm i;
     fi_key := fi_key i; fi_status := fi_status i;
     fi_current_state := fi_destination_state i;
     fi_destination_state := None;
     fi_async_call_id := None |}.

(** Modelled from the spec: the sqlc query FinishFSMTransition, whose SQL
    text is not among the sources: "clears destination_state and
    async_call_id; finish also promotes current_state =
    destination_state". *)
Definition query_FinishFSMTransition (fsm : RefKey) (key : string) (d : db)
    : db * (fsm_instance + error) :=
  match find_instance fsm key d with
  | None => (d, inr PgxErrNoRows)
  | Some i => (replace_instance fsm key finish_transition d, inl (finish_transition i))
  end.

(** fmt.Errorf("<prefix>: %w", err); a nil operand prints as %!w(<nil>). *)
Definition Errorf_w (prefix : string) (err : option error) : error :=
  match err with
  | Some e => Errorf prefix e
  | None => Opaque (prefix +:+ ": %!w(<nil>)")
  end.

Definition is_err (err : option error) (target : error) : bool :=
  match err with
  | Some e => errors_Is e target
  | None => false
  end.

(** func (d *DAL) StartFSMTransition (part_004, lines 31-61). *)
Definition StartFSMTransition (now : Z) (fsm : RefKey) (executionKey : string)
    (destinationState : RefKey) (request : string) (retryParams : RetryParams)
    (d : db) : db * option error :=
  let origin := AsyncOriginFSM_String fsm executionKey in
  match CreateAsyncCall now
          {| p_Verb := destinationState;
             p_Origin := origin;
             p_Request := request;
             p_RemainingAttempts := int32 (Count retryParams);
             p_Backoff := MinBackoff retryParams;
             p_MaxBackoff := MaxBackoff retryParams |} d with
  | (d1, inr err) =>
      (d1, Some (Errorf_w "failed to create FSM async call" (TranslatePGError (Some err))))
  | (d1, inl asyncCallID) =>
      match query_StartFSMTransition now
              {| p_Fsm := fsm;
                 p_Key := executionKey;
                 p_DestinationState := destinationState;
                 p_AsyncCallID := asyncCallID |} d1 with
      | (d2, inr err) =>
          let err := TranslatePGError (Some err) in
          if is_err err ErrNotFound
          then (d2, Some (Errorf_w "transition already executing" (Some ErrConflict)))
          else (d2, Some (Errorf_w "failed to start FSM transition" err))
      | (d2, inl _) => (d2, None)
      end
  end.

(** func (d *DAL) FinishFSMTransition (part_004, lines 63-66). *)
Definition FinishFSMTransition (fsm : RefKey) (instanceKey : string) (d : db)
    : db * option error :=
  match query_FinishFSMTransition fsm instanceKey d with
  | (d1, inr err) => (d1, TranslatePGError (Some err))
  | (d1, inl _) => (d1, TranslatePGError None)
  end.

(** An instance with a transition in flight. *)
Definition in_flight (fsm : RefKey) (key : string) (d : db) : Prop :=
  exists i, find_instance fsm key d = Some i /\ fi_destination_state i <> None.

(** An instance that is absent or idle. *)
Definition idle_or_absent (fsm : RefKey) (key : string) (d : db) : Prop :=
  match find_instance fsm key d with
  | None => True
  | Some i => fi_destination_state i = None
  end.

End FsmDal.

(* ===================================================================== *)
(** ** buildengine/engine.go                                              *)
(* ===================================================================== *)

Module BuildEngine.

(** moduleconfig.ModuleConfig, the fields the engine reads. *)
Record ModuleConfig := mkModuleConfig {
  cfg_Module : string;
  cfg_Dir : string;
  cfg_DeployDir : string;
  cfg_Schema : string
}.

(** buildengine.Module *)
Record Module := mkModule {
  Config : ModuleConfig;
  Dependencies : list string
}.

(** moduleMeta wraps a module with the start time of its last build; a
    [time.Time] is an instant on the integer line and its zero value is 0. *)
Record moduleMeta := mkModuleMeta {
  module : Module;
  lastBuildStartTime : Z
}.

(** *schema.Module, as far as the engine looks into it: its name, what
    [Imports()] returns and what [String()] returns. *)
Record SchemaModule := mkSchemaModule {
  sm_Name : string;
  sm_Imports : list string;
  sm_String : string
}.

(** The errors of the package. *)
#[warnings="-register-all"]
Inductive error :=
| ErrModuleNotFound (name : string)          (* "module %q not found" *)
| ErrModuleNotFoundCap (name : string)       (* "Module %q not found" *)
| ErrCouldNotLoadSchema (name : string) (inner : error)
                                             (* "could not load schema for module %q: %w" *)
| ErrExternal (msg : string)                 (* returned by a collaborator *)
| ErrJoin (errs : list error).               (* errors.Join(errs...) *)

(** What the engine does to the outside: log lines, listener callbacks and
    calls of the compiler, the deployer and the controller. *)
Inductive Event :=
| Warnf_module_not_found (name : string)
| Warnf_build_skipped (scope dep : string)
| Debugf_skipping_stale (eventTime lastBuildTime : Z)
| Infof_all_deployed
| Infof_schema_changed (name : string) (dependents : list string)
| Infof_waiting_to_build (names : list string)
| Tracef_schema_unchanged (name : string)
| Errorf_initial_deploy_failed (err : error)
| Errorf_compute_hash_failed (name : string) (err : error)
| Errorf_deploy_failed (name : string) (err : error)
| Errorf_terminate_failed (name : string) (err : error)
| Errorf_build_and_deploy_failed (name : string) (err : error)
| OnBuildStarted (m : Module)
| OnBuildSuccess
| OnBuildFailed (err : error)
| Call_UpdateDependencies (m : Module)
| Call_Build (m : Module)
| Call_ModuleFromProtoFile (path : string)
| Call_Deploy (m : Module) (replicas : Z) (waitForDeployOnline : bool)
| Call_terminateModuleDeployment (name : string).

(** The collaborators of the engine that are outside engine.go.  Each
    answer may depend on when it is asked: the first argument counts the
    interactions with the outside so far. *)
Record World := mkWorld {
  UpdateDependencies : nat -> Module -> Module + error;
  Build : nat -> gmap string (option SchemaModule) -> Module -> option error;
  ModuleFromProtoFile : nat -> string -> SchemaModule + error;
  Deploy : nat -> Module -> Z -> bool -> option error;
  terminateModuleDeployment : nat -> string -> option error;
  TopologicalSort : gmap string (list string) -> list (list string) + error;
  Builtins : SchemaModule;
  time_Now : nat -> Z;
  sha256_Sum : string -> string
}.

(** The Engine struct, with the outside it has acted on. *)
Record Engine := mkEngine {
  moduleMetas : gmap string moduleMeta;
  controllerSchema : gmap string SchemaModule;
  modulesToBuild : gmap string bool;
  listener : bool;                 (* e.listener != nil *)
  buildGroupErr : option error;    (* first error of the running errgroup *)
  ticks : nat;
  trace : list Event
}.

Definition with_moduleMetas (f : gmap string moduleMeta -> gmap string moduleMeta)
    (e : Engine) : Engine :=
  {| moduleMetas := f (moduleMetas e); controllerSchema := controllerSchema e;
     modulesToBuild := modulesToBuild e; listener := listener e;
     buildGroupErr := buildGroupErr e; ticks := ticks e; trace := trace e |}.

Definition with_modulesToBuild (f : gmap string bool -> gmap string bool)
    (e : Engine) : Engine :=
  {| moduleMetas := moduleMetas e; controllerSchema := controllerSchema e;
     modulesToBuild := f (modulesToBuild e); listener := listener e;
     buildGroupErr := buildGroupErr e; ticks := ticks e; trace := trace e |}.

Definition with_buildGroupErr (f : option error -> option error) (e : Engine) : Engine :=
  {| moduleMetas := moduleMetas e; controllerSchema := controllerSchema e;
     modulesToBuild := modulesToBuild e; listener := listener e;
     buildGroupErr := f (buildGroupErr e); ticks := ticks e; trace := trace e |}.

Definition with_event (ev : Event) (e : Engine) : Engine :=
  {| moduleMetas := moduleMetas e; controllerSchema := controllerSchema e;
     modulesToBuild := modulesToBuild e; listener := listener e;
     buildGroupErr := buildGroupErr e; ticks := ticks e; trace := trace e ++ [ev] |}.

Definition with_tick (e : Engine) : Engine :=
  {| moduleMetas := moduleMetas e; controllerSchema := controllerSchema e;
     modulesToBuild := modulesToBuild e; listener := listener e;
     buildGroupErr := buildGroupErr e; ticks := S (ticks e); trace := trace e |}.

(** *** The engine monad: state passing, with [Abort] for a run that does
    not come back (a nil dereference, an unbounded recursion). *)

Inductive outcome (A : Type) :=
| Done (a : A) (e : Engine)
| Abort.
Arguments Done {A} a e.
Arguments Abort {A}.

Definition M (A : Type) : Type := Engine -> outcome A.

#[global] Instance M_ret : MRet M := fun A a e => Done a e.

#[global] Instance M_bind : MBind M := fun A B k m e =>
  match m e with
  | Done a e' => k a e'
  | Abort => Abort
  end.

Definition gets {A} (f : Engine -> A) : M A := fun e => Done (f e) e.
Definition modify (f : Engine -> Engine) : M unit := fun e => Done tt (f e).
Definition abort {A} : M A := fun _ => Abort.

Definition when (b : bool) (m : M unit) : M unit := if b then m else mret tt.

(** A log line, a listener callback or the record of an outside call. *)
Definition emit (ev : Event) : M unit := modify (with_event ev).

(** One interaction with the outside. *)
Definition ask {A} (f : nat -> A) : M A := fun e => Done (f (ticks e)) (with_tick e).

Definition Load_moduleMeta (name : string) : M (option moduleMeta) :=
  gets (fun e => moduleMetas e !! name).

Definition Store_moduleMeta (name : string) (meta : moduleMeta) : M unit :=
  modify (with_moduleMetas (insert name meta)).

Definition Delete_moduleMeta (name : string) : M unit :=
  modify (with_moduleMetas (delete name)).

(** for _, x := range xs { body }, the body threading an accumulator and
    leaving the loop early on [inr]. *)
Fixpoint for_each {A S R} (body : A -> S -> M (S + R)) (xs : list A) (s : S) : M (S + R) :=
  match xs with
  | [] => mret (inl s)
  | x :: xs' =>
      r ← body x s;
      match r with
      | inl s' => for_each body xs' s'
      | inr out => mret (inr out)
      end
  end.

(** *** Graph (lines 174-210) *)

(** The result of a graph walk: the map, an error, or a walk cut short by
    its recursion bound. *)
Inductive graph_result :=
| GraphOk (out : gmap string (list string))
| GraphErr (err : error)
| GraphFuel.

(** The dependencies of a name: the local meta first, the controller
    schema second. *)
Definition resolve (metas : gmap string moduleMeta) (ctrl : gmap string SchemaModule)
    (moduleName : string) : option (list string) :=
  match metas !! moduleName with
  | Some meta => Some (Dependencies (module meta))
  | None =>
      match ctrl !! moduleName with
      | Some sch => Some (sm_Imports sch)
      | None => None
      end
  end.

(** for _, dep := range deps { if err := visit(dep, out); err != nil {
    return err } } *)
Fixpoint visit_all (visit : string -> gmap string (list string) -> graph_result)
    (names : list string) (out : gmap string (list string)) : graph_result :=
  match names with
  | [] => GraphOk out
  | n :: names' =>
      match visit n out with
      | GraphOk out' => visit_all visit names' out'
      | r => r
      end
  end.

Fixpoint buildGraph (fuel : nat) (metas : gmap string moduleMeta)
    (ctrl : gmap string SchemaModule) (moduleName : string)
    (out : gmap string (list string)) : graph_result :=
  match fuel with
  | O => GraphFuel
  | S fuel' =>
      (* Short-circuit previously explored nodes *)
      match out !! moduleName with
      | Some _ => GraphOk out
      | None =>
          match resolve metas ctrl moduleName with
          | None => GraphErr (ErrModuleNotFound moduleName)
          | Some deps =>
              visit_all (buildGraph fuel' metas ctrl) deps (<[moduleName := deps]> out)
          end
      end
  end.

(** Every walk marks an unmarked known name before it recurses, so one
    more than the number of known names bounds the depth. *)
Definition graph_fuel (metas : gmap string moduleMeta) (ctrl : gmap string SchemaModule)
    : nat :=
  S (size (dom metas ∪ dom ctrl)).

(** The keys of moduleMetas, in the order [Range] happens to visit them. *)
Definition Modules_of (metas : gmap string moduleMeta) : list string :=
  (map_to_list metas).*1.

Definition Graph_of (metas : gmap string moduleMeta) (ctrl : gmap string SchemaModule)
    (moduleNames : list string) : graph_result :=
  let moduleNames :=
    match moduleNames with
    | [] => Modules_of metas
    | _ => moduleNames
    end in
  visit_all (buildGraph (graph_fuel metas ctrl) metas ctrl) moduleNames ∅.

Definition Graph (moduleNames : list string) : M graph_result :=
  gets (fun e => Graph_of (moduleMetas e) (controllerSchema e) moduleNames).

Definition Modules : M (list string) :=
  gets (fun e => Modules_of (moduleMetas e)).

(** *** Building (lines 514-685) *)

Section Building.
Context (W : World).

(** type buildCallback func(ctx context.Context, module Module) error *)
Definition buildCallback : Type := Module -> M (option error).

(** gatherSchemas (lines 662-685).  The recursion follows the declared
    dependencies and has no bound of its own; [fuel] bounds its depth. *)
Fixpoint gatherSchemas (fuel : nat) (moduleSchemas : gmap string SchemaModule)
    (m : Module) (out : gmap string (option SchemaModule))
    : M (gmap string (option SchemaModule) + error) :=
  match fuel with
  | O => abort
  | S fuel' =>
      latest ← Load_moduleMeta (cfg_Module (Config m));
      let latestModule :=
        match latest with
        | Some meta => meta
        | None => {| module := m; lastBuildStartTime := 0 |}
        end in
      for_each
        (fun dep out =>
           let out := <[dep := moduleSchemas !! dep]> out in
           if decide (dep <> "builtin") then
             depModule ← Load_moduleMeta dep;
             match depModule with
             | Some depModule => gatherSchemas fuel' moduleSchemas (module depModule) out
             | None => mret (inl out)
             end
           else mret (inl out))
        (Dependencies (module latestModule)) out
  end.

(** filepath.Join of three clean relative elements. *)
Definition schema_path (config : ModuleConfig) : string :=
  cfg_Dir config +:+ "/" +:+ cfg_DeployDir config +:+ "/" +:+ cfg_Schema config.

(** build (lines 633-659): the schemas it publishes and its error. *)
Definition build (moduleName : string) (builtModules : gmap string SchemaModule)
    : M (list SchemaModule * option error) :=
  meta ← Load_moduleMeta moduleName;
  match meta with
  | None => mret ([], Some (ErrModuleNotFound moduleName))
  | Some meta =>
      n ← gets (fun e => size (moduleMetas e));
      combined ← gatherSchemas (S n) builtModules (module meta) ∅;
      match combined with
      | inr err => mret ([], Some err)
      | inl combined =>
          has_listener ← gets listener;
          when has_listener (emit (OnBuildStarted (module meta)));;
          emit (Call_Build (module meta));;
          err ← ask (fun t => Build W t combined (module meta));
          match err with
          | Some err => mret ([], Some err)
          | None =>
              let config := Config (module meta) in
              emit (Call_ModuleFromProtoFile (schema_path config));;
              r ← ask (fun t => ModuleFromProtoFile W t (schema_path config));
              match r with
              | inr err => mret ([], Some (ErrCouldNotLoadSchema (cfg_Module config) err))
              | inl moduleSchema => mret ([moduleSchema], None)
              end
          end
      end
  end.

(** mustSchema (lines 622-628) *)
Definition mustSchema (moduleName : string) (builtModules : gmap string SchemaModule)
    : M (list SchemaModule * option error) :=
  sch ← gets (fun e => controllerSchema e !! moduleName);
  match sch with
  | Some sch => mret ([sch], None)
  | None => build moduleName builtModules
  end.

(** The first dependency that is not in the built map, if any. *)
Definition missing_dependency (builtModules : gmap string SchemaModule)
    (deps : list string) : option string :=
  List.find (fun dep => bool_decide (builtModules !! dep = None)) deps.

(** mustBuild[moduleName] on a map[string]bool *)
Definition mustBuild_at (mustBuild : gmap string bool) (moduleName : string) : bool :=
  default false (mustBuild !! moduleName).

(** tryBuild (lines 592-619) *)
Definition tryBuild (mustBuild : gmap string bool) (moduleName : string)
    (builtModules : gmap string SchemaModule) (callback : option buildCallback)
    : M (list SchemaModule * option error) :=
  if negb (mustBuild_at mustBuild moduleName) then
    mustSchema moduleName builtModules
  else
    meta ← Load_moduleMeta moduleName;
    match meta with
    | None => mret ([], Some (ErrModuleNotFoundCap moduleName))
    | Some meta =>
        match missing_dependency builtModules (Dependencies (module meta)) with
        | Some dep =>
            emit (Warnf_build_skipped moduleName dep);;
            mret ([], None)
        | None =>
            now ← ask (time_Now W);
            let meta := {| module := module meta; lastBuildStartTime := now |} in
            Store_moduleMeta moduleName meta;;
            r ← build moduleName builtModules;
            match r.2, callback with
            | None, Some callback =>
                err ← callback (module meta);
                mret (r.1, err)
            | _, _ => mret r
            end
        end
    end.

(** errCh := make(chan error, 1024) *)
Definition errCh_capacity : nat := 1024.

(** The workers of one group (lines 555-565), one after the other: the
    schemas sent on the channel and the errors sent on errCh, which holds
    [pending] errors of earlier groups and is not read before the last
    group is done; a worker that finds it full never returns. *)
Definition buildGroupOf (mustBuild : gmap string bool)
    (builtModules : gmap string SchemaModule) (callback : option buildCallback)
    (pending : nat) (group : list string)
    : M (list SchemaModule * list error + error) :=
  for_each
    (fun moduleName (acc : list SchemaModule * list error) =>
       r ← tryBuild mustBuild moduleName builtModules callback;
       match r.2 with
       | Some err =>
           if decide (errCh_capacity <= pending + length acc.2) then abort
           else mret (inl (acc.1 ++ r.1, acc.2 ++ [err]))
       | None => mret (inl (acc.1 ++ r.1, acc.2))
       end)
    group ([], []).

(** for sch := range schemas { builtModules[sch.Name] = sch } *)
Definition collect (schemas : list SchemaModule) (builtModules : gmap string SchemaModule)
    : gmap string SchemaModule :=
  foldl (fun built sch => <[sm_Name sch := sch]> built) builtModules schemas.

(** The loop over the topology (lines 549-577). *)
Definition buildGroups (mustBuild : gmap string bool) (callback : option buildCallback)
    (topology : list (list string)) (builtModules : gmap string SchemaModule)
    : M (gmap string SchemaModule * list error + error) :=
  for_each
    (fun group (acc : gmap string SchemaModule * list error) =>
       r ← buildGroupOf mustBuild acc.1 callback (length acc.2) group;
       match r with
       | inl (schemas, errs) => mret (inl (collect schemas acc.1, acc.2 ++ errs))
       | inr err => mret (inr err)
       end)
    topology (builtModules, []).

(** The first loop of buildWithCallback (lines 522-535). *)
Definition updateAll (moduleNames : list string) : M (gmap string bool + error) :=
  for_each
    (fun name (mustBuild : gmap string bool) =>
       meta ← Load_moduleMeta name;
       match meta with
       | None => mret (inr (ErrModuleNotFound name))
       | Some meta =>
           (* Update dependencies before building. *)
           emit (Call_UpdateDependencies (module meta));;
           r ← ask (fun t => UpdateDependencies W t (module meta));
           match r with
           | inr err => mret (inr err)
           | inl m =>
               Store_moduleMeta name {| module := m; lastBuildStartTime := 0 |};;
               mret (inl (<[name := true]> mustBuild))
           end
       end)
    moduleNames ∅.

(** buildWithCallback (lines 514-590) *)
Definition buildWithCallback (callback : option buildCallback) (moduleNames : list string)
    : M (option error) :=
  moduleNames ← match moduleNames with
                | [] => Modules
                | _ => mret moduleNames
                end;
  mustBuild ← updateAll moduleNames;
  match mustBuild with
  | inr err => mret (Some err)
  | inl mustBuild =>
      graph ← Graph moduleNames;
      match graph with
      | GraphFuel => abort
      | GraphErr err => mret (Some err)
      | GraphOk graph =>
          let builtModules : gmap string SchemaModule := {[ "builtin" := Builtins W ]} in
          match TopologicalSort W graph with
          | inr err => mret (Some err)
          | inl topology =>
              r ← buildGroups mustBuild callback topology builtModules;
              match r with
              | inr err => mret (Some err)
              | inl (_, allErrors) =>
                  match allErrors with
                  | [] => mret None
                  | _ => mret (Some (ErrJoin allErrors))
                  end
              end
          end
      end
  end.

(** Build (lines 219-221) *)
Definition Build_all : M (option error) := buildWithCallback None [].

(** The callback of BuildAndDeploy (lines 484-490): it starts a deploy in
    the errgroup and returns nil; the deploy runs at once here, and its
    error goes where the errgroup keeps its first error. *)
Definition deployCallback (replicas : Z) (waitForDeployOnline : bool) : buildCallback :=
  fun m =>
    modify (with_modulesToBuild (insert (cfg_Module (Config m)) false));;
    emit (Call_Deploy m replicas waitForDeployOnline);;
    err ← ask (fun t => Deploy W t m replicas waitForDeployOnline);
    modify (with_buildGroupErr (fun first => if first is Some _ then first else err));;
    mret None.

(** BuildAndDeploy (lines 475-510) *)
Definition BuildAndDeploy (replicas : Z) (waitForDeployOnline : bool)
    (moduleNames : list string) : M (option error) :=
  moduleNames ← match moduleNames with
                | [] => Modules
                | _ => mret moduleNames
                end;
  modify (with_buildGroupErr (fun _ => None));;
  err ← buildWithCallback (Some (deployCallback replicas waitForDeployOnline)) moduleNames;
  modify (with_buildGroupErr (fun first => if first is Some _ then first else err));;
  (* Wait for all build and deploy attempts to complete *)
  buildErr ← gets buildGroupErr;
  pendingInitialBuilds ←
    gets (fun e => (filter (fun kv => kv.2 = true) (map_to_list (modulesToBuild e))).*1);
  match pendingInitialBuilds with
  | [] => mret tt
  | _ => emit (Infof_waiting_to_build pendingInitialBuilds)
  end;;
  mret buildErr.

(** *** The dev loop (lines 298-472) *)

(** watcher events *)
Inductive WatchEvent :=
| WatchEventModuleAdded (m : Module)
| WatchEventModuleRemoved (m : Module)
| WatchEventModuleChanged (m : Module) (Time : Z).

Inductive DeploymentChangeType :=
| DEPLOYMENT_ADDED
| DEPLOYMENT_REMOVED
| DEPLOYMENT_CHANGED.

#[global] Instance DeploymentChangeType_eq_dec : EqDecision DeploymentChangeType.
Proof. solve_decision. Defined.

(** schemaChange: the change type and the embedded *schema.Module, nil for
    a removal. *)
Record schemaChange := mkSchemaChange {
  ChangeType : DeploymentChangeType;
  changed_Module : option SchemaModule
}.

(** The variables of watchForModuleChanges that live across iterations. *)
Record loopState := mkLoopState {
  moduleHashes : gmap string string;
  didUpdateDeployments : bool;
  didError : bool
}.

Definition set_didUpdateDeployments (b : bool) (s : loopState) : loopState :=
  {| moduleHashes := moduleHashes s; didUpdateDeployments := b; didError := didError s |}.

Definition set_didError (b : bool) (s : loopState) : loopState :=
  {| moduleHashes := moduleHashes s; didUpdateDeployments := didUpdateDeployments s;
     didError := b |}.

Definition set_moduleHash (name hash : string) (s : loopState) : loopState :=
  {| moduleHashes := <[name := hash]> (moduleHashes s);
     didUpdateDeployments := didUpdateDeployments s; didError := didError s |}.

(** The cases of the select statement. *)
Inductive selectCase :=
| CtxDone
| CompletedUpdatesTimer
| OnWatchEvent (event : WatchEvent)
| OnSchemaChange (change : schemaChange).

(** time.Time.Before *)
Definition Before (t u : Z) : bool := (t <? u)%Z.

(** bytes.Equal *)
Definition bytes_Equal (a b : string) : bool := String.eqb a b.

(** moduleHashes[name] on a map[string][]byte: nil when absent. *)
Definition moduleHash_at (s : loopState) (name : string) : string :=
  default "" (moduleHashes s !! name).

(** computeModuleHash (lines 451-459); Write on a hash never fails. *)
Definition computeModuleHash (m : SchemaModule) : string + error :=
  inl (sha256_Sum W (sm_String m)).

Definition reportBuildFailed (err : error) : M unit :=
  has_listener ← gets listener;
  when has_listener (emit (OnBuildFailed err)).

Definition reportSuccess : M unit :=
  has_listener ← gets listener;
  when has_listener (emit OnBuildSuccess).

(** getDependentModuleNames (lines 461-472): the keys of the local modules
    that list [moduleName] among their dependencies. *)
Definition depends_on (moduleName : string) (meta : moduleMeta) : bool :=
  existsb (String.eqb moduleName) (Dependencies (module meta)).

Definition dependentModuleNames (metas : gmap string moduleMeta) (moduleName : string)
    : list string :=
  (filter (fun kv => depends_on moduleName kv.2 = true) (map_to_list metas)).*1.

Definition getDependentModuleNames (moduleName : string) : M (list string) :=
  gets (fun e => dependentModuleNames (moduleMetas e) moduleName).

(** The end of the three build-and-deploy branches of the loop. *)
Definition afterBuildAndDeploy (failed : error -> Event) (err : option error)
    (s : loopState) : M loopState :=
  match err with
  | Some err =>
      reportBuildFailed err;;
      emit (failed err);;
      mret (set_didError true s)
  | None => mret (set_didUpdateDeployments true s)
  end.

(** case event := <-watchEvents (lines 362-413) *)
Definition onWatchEvent (event : WatchEvent) (s : loopState) : M loopState :=
  match event with
  | WatchEventModuleAdded m =>
      let config := Config m in
      existing ← Load_moduleMeta (cfg_Module config);
      match existing with
      | Some _ => mret s
      | None =>
          Store_moduleMeta (cfg_Module config) {| module := m; lastBuildStartTime := 0 |};;
          let s := set_didError false s in
          err ← BuildAndDeploy 1 true [cfg_Module config];
          afterBuildAndDeploy (Errorf_deploy_failed (cfg_Module config)) err s
      end
  | WatchEventModuleRemoved m =>
      let config := Config m in
      emit (Call_terminateModuleDeployment (cfg_Module config));;
      err ← ask (fun t => terminateModuleDeployment W t (cfg_Module config));
      s ← afterBuildAndDeploy (Errorf_terminate_failed (cfg_Module config)) err s;
      Delete_moduleMeta (cfg_Module config);;
      mret s
  | WatchEventModuleChanged m Time =>
      let config := Config m in
      meta ← Load_moduleMeta (cfg_Module config);
      match meta with
      | None =>
          emit (Warnf_module_not_found (cfg_Module config));;
          mret s
      | Some meta =>
          if Before Time (lastBuildStartTime meta) then
            emit (Debugf_skipping_stale Time (lastBuildStartTime meta));;
            mret s (* Skip this event as it's outdated *)
          else
            let s := set_didError false s in
            err ← BuildAndDeploy 1 true [cfg_Module config];
            afterBuildAndDeploy (Errorf_build_and_deploy_failed (cfg_Module config)) err s
      end
  end.

(** case change := <-schemaChanges (lines 414-446) *)
Definition onSchemaChange (change : schemaChange) (s : loopState) : M loopState :=
  if negb (bool_decide (ChangeType change = DEPLOYMENT_CHANGED)) then mret s
  else
    match changed_Module change with
    | None => abort
    | Some m =>
        match computeModuleHash m with
        | inr err =>
            reportBuildFailed err;;
            emit (Errorf_compute_hash_failed (sm_Name m) err);;
            mret (set_didError true s)
        | inl hash =>
            if bytes_Equal hash (moduleHash_at s (sm_Name m)) then
              emit (Tracef_schema_unchanged (sm_Name m));;
              mret s
            else
              let s := set_moduleHash (sm_Name m) hash s in
              dependentModuleNames ← getDependentModuleNames (sm_Name m);
              match dependentModuleNames with
              | [] => mret s
              | _ =>
                  emit (Infof_schema_changed (sm_Name m) dependentModuleNames);;
                  let s := set_didError false s in
                  err ← BuildAndDeploy 1 true dependentModuleNames;
                  afterBuildAndDeploy (Errorf_deploy_failed (sm_Name m)) err s
              end
        end
    end.

(** One pass through the select statement (lines 346-448): the next loop
    state, or [None] when the loop returns. *)
Definition iteration (c : selectCase) (s : loopState) : M (option loopState) :=
  match c with
  | CtxDone => mret None
  | CompletedUpdatesTimer =>
      (* the timer channel is nil unless didUpdateDeployments *)
      if didUpdateDeployments s then
        emit Infof_all_deployed;;
        (* Some cases, this will trigger after a build failure, so report accordingly. *)
        when (negb (didError s)) reportSuccess;;
        mret (Some (set_didUpdateDeployments false s))
      else mret (Some s)
  | OnWatchEvent event => s ← onWatchEvent event s; mret (Some s)
  | OnSchemaChange change => s ← onSchemaChange change s; mret (Some s)
  end.

(** The loop, fed the cases the select takes. *)
Fixpoint iterations (cs : list selectCase) (s : loopState) : M loopState :=
  match cs with
  | [] => mret s
  | c :: cs' =>
      r ← iteration c s;
      match r with
      | Some s' => iterations cs' s'
      | None => mret s
      end
  end.

(** The Range over controllerSchema at the start of the loop (lines
    330-340), on the entries it visits, in order.  The schema sync stores
    into the map from its own goroutine while the loop starts, so what the
    Range visits is the map of no one moment of the loop: it is given. *)
Fixpoint hashAll (visited : list (string * SchemaModule))
    (moduleHashes : gmap string string) : M (gmap string string) :=
  match visited with
  | [] => mret moduleHashes
  | (name, sch) :: visited' =>
      match computeModuleHash sch with
      | inr err =>
          emit (Errorf_compute_hash_failed name err);;
          reportBuildFailed err;;
          mret moduleHashes (* return false *)
      | inl hash => hashAll visited' (<[name := hash]> moduleHashes)
      end
  end.

(** The start of watchForModuleChanges (lines 320-344). *)
Definition startLoop (visited : list (string * SchemaModule)) : M loopState :=
  err ← BuildAndDeploy 1 true [];
  match err with
  | Some err => emit (Errorf_initial_deploy_failed err);; reportBuildFailed err
  | None => emit Infof_all_deployed;; reportSuccess
  end;;
  hashes ← hashAll visited ∅;
  mret {| moduleHashes := hashes; didUpdateDeployments := false; didError := false |}.

End Building.

End BuildEngine.

(* ===================================================================== *)
(** ** buildengine/engine.go: Import, the schema sync, Deploy             *)
(* ===================================================================== *)

Module EngineMore.
Import BuildEngine.

Definition with_controllerSchema
    (f : gmap string SchemaModule -> gmap string SchemaModule) (e : Engine) : Engine :=
  {| moduleMetas := moduleMetas e; controllerSchema := f (controllerSchema e);
     modulesToBuild := modulesToBuild e; listener := listener e;
     buildGroupErr := buildGroupErr e; ticks := ticks e; trace := trace e |}.

(** Import (lines 214-216) *)
Definition Import (schema : SchemaModule) : M unit :=
  modify (with_controllerSchema (insert (sm_Name schema) schema)).

(** ftlv1.DeploymentChangeType as a message carries it: the enum is an
    int32 on the wire, so a value is one of the three the engine names or
    some other number. *)
Inductive ChangeTypeValue :=
| Named (changeType : DeploymentChangeType)
| Unnamed (number : Z).

(** *ftlv1.PullSchemaResponse, with [ps_Schema] what schema.ModuleFromProto
    makes of its Schema field. *)
Record PullSchemaResponse := mkPullSchemaResponse {
  ps_ChangeType : ChangeTypeValue;
  ps_ModuleName : string;
  ps_Schema : SchemaModule + error
}.

(** The function startSchemaSync returns (lines 146-161): its error and
    what it publishes on the schemaChanges topic.  The switch has no
    default: a message of another change type is answered with nil and
    nothing is stored or published. *)
Definition schemaSync (msg : PullSchemaResponse) : M (option error * list schemaChange) :=
  match ps_ChangeType msg with
  | Named (DEPLOYMENT_ADDED as changeType) | Named (DEPLOYMENT_CHANGED as changeType) =>
      match ps_Schema msg with
      | inr err => mret (Some err, [])
      | inl sch =>
          modify (with_controllerSchema (insert (sm_Name sch) sch));;
          mret (None, [{| ChangeType := changeType; changed_Module := Some sch |}])
      end
  | Named DEPLOYMENT_REMOVED =>
      modify (with_controllerSchema (delete (ps_ModuleName msg)));;
      mret (None, [{| ChangeType := DEPLOYMENT_REMOVED; changed_Module := None |}])
  | Unnamed _ => mret (None, [])
  end.

(** The messages of a stream, one after the other, up to the first error:
    everything published, in order. *)
Fixpoint schemaSyncAll (msgs : list PullSchemaResponse)
    : M (option error * list schemaChange) :=
  match msgs with
  | [] => mret (None, [])
  | msg :: msgs' =>
      r ← schemaSync msg;
      match r.1 with
      | Some err => mret r
      | None =>
          r' ← schemaSyncAll msgs';
          mret (r'.1, r.2 ++ r'.2)
      end
  end.

(** The errors of Engine.Deploy: the error of Graph as it is, or one of
    the two wrappers. *)
Inductive DeployError :=
| GraphFailed (err : error)                  (* return err *)
| TopologicalSortFailed (err : error)        (* "topological sort failed: %w" *)
| DeployFailed (err : error).                (* "deploy failed: %w" *)

Section Deploying.
Context (W : World).

(** The function a deploy group runs for one module (lines 255-261). *)
Definition deployModule (replicas : Z) (waitForDeployOnline : bool) (moduleName : string)
    : M (option error) :=
  meta ← Load_moduleMeta moduleName;
  match meta with
  | None => mret (Some (ErrModuleNotFound moduleName))
  | Some meta =>
      emit (Call_Deploy (module meta) replicas waitForDeployOnline);;
      ask (fun t => Deploy W t (module meta) replicas waitForDeployOnline)
  end.

(** One group (lines 250-266): every module but builtin is started, and
    Wait returns the first error. *)
Definition deployGroup (replicas : Z) (waitForDeployOnline : bool) (group : list string)
    : M (option error) :=
  r ← for_each
        (fun moduleName (first : option error) =>
           if String.eqb moduleName "builtin" then mret (inl first)
           else
             err ← deployModule replicas waitForDeployOnline moduleName;
             mret (inl (if first is Some _ then first else err)
                   : option error + option error))
        group None;
  match r with
  | inl first => mret first
  | inr first => mret first
  end.

(** The loop over the groups (lines 249-266). *)
Definition deployGroups (replicas : Z) (waitForDeployOnline : bool)
    (groups : list (list string)) : M (option DeployError) :=
  r ← for_each
        (fun group (_ : unit) =>
           err ← deployGroup replicas waitForDeployOnline group;
           match err with
           | Some err => mret (inr (DeployFailed err))
           | None => mret (inl tt)
           end)
        groups tt;
  match r with
  | inl _ => mret None
  | inr err => mret (Some err)
  end.

(** Deploy (lines 238-269) *)
Definition Deploy_all (replicas : Z) (waitForDeployOnline : bool)
    : M (option DeployError) :=
  moduleNames ← Modules;
  graph ← Graph moduleNames;
  match graph with
  | GraphFuel => abort
  | GraphErr err => mret (Some (GraphFailed err))
  | GraphOk graph =>
      match TopologicalSort W graph with
      | inr err => mret (Some (TopologicalSortFailed err))
      | inl groups =>
          err ← deployGroups replicas waitForDeployOnline groups;
          match err with
          | Some err => mret (Some err)
          | None => emit Infof_all_deployed;; mret None
          end
      end
  end.

End Deploying.

End EngineMore.

(* ===================================================================== *)
(** ** 001_init.sql: writes on the table runners                          *)
(* ===================================================================== *)

Module SqlMore.
Import Sql.

(** A row write on runners: an INSERT of a row, or an UPDATE of the row at
    a position. *)
Inductive runner_write :=
| RunnerInsert (NEW : runner)
| RunnerUpdate (i : nat) (set : runner -> runner).

Definition runner_exec (module_of : Z -> option string) (now : Z)
    (w : runner_write) (t : list runner) : list runner :=
  match w with
  | RunnerInsert NEW => runners_insert module_of now NEW t
  | RunnerUpdate i set => runners_update module_of now i set t
  end.

(** A sequence of writes, each at its own time. *)
Definition runner_run (module_of : Z -> option string)
    (ws : list (Z * runner_write)) (t : list runner) : list runner :=
  foldl (fun t w => runner_exec module_of w.1 w.2 t) t ws.

End SqlMore.

(* ===================================================================== *)
(** ** backend/controller/dal: the other FSM operations                   *)
(* ===================================================================== *)

Module FsmDalMore.
Import DalErrs FsmDal.

Definition end_instance (status : fsm_status) (i : fsm_instance) : fsm_instance :=
  {| fi_id := fi_id i; fi_created_at := fi_created_at i; fi_fsm := fi_fsm i;
     fi_key := fi_key i; fi_status := status;
     fi_current_state := fi_current_state i;
     fi_destination_state := None;
     fi_async_call_id := None |}.

(** Modelled from the spec: the sqlc queries FailFSMInstance and
    SucceedFSMInstance, whose SQL text is not among the sources: "Each
    clears destination_state and async_call_id; [...] fail sets
    status=failed; succeed sets status=completed". *)
Definition query_EndFSMInstance (status : fsm_status) (fsm : RefKey) (key : string) (d : db)
    : db * (fsm_instance + error) :=
  match find_instance fsm key d with
  | None => (d, inr PgxErrNoRows)
  | Some i => (replace_instance fsm key (end_instance status) d, inl (end_instance status i))
  end.

(** func (d *DAL) FailFSMInstance (part_004, lines 68-71). *)
Definition FailFSMInstance (fsm : RefKey) (instanceKey : string) (d : db)
    : db * option error :=
  match query_EndFSMInstance failed fsm instanceKey d with
  | (d1, inr err) => (d1, TranslatePGError (Some err))
  | (d1, inl _) => (d1, TranslatePGError None)
  end.

(** func (d *DAL) SucceedFSMInstance (part_004, lines 73-76). *)
Definition SucceedFSMInstance (fsm : RefKey) (instanceKey : string) (d : db)
    : db * option error :=
  match query_EndFSMInstance completed fsm instanceKey d with
  | (d1, inr err) => (d1, TranslatePGError (Some err))
  | (d1, inl _) => (d1, TranslatePGError None)
  end.

(** The operations of the FSM layer on the database. *)
Inductive fsm_op :=
| OpStart (now : Z) (fsm : RefKey) (key : string) (dest : RefKey) (request : string)
          (retry : RetryParams)
| OpFinish (fsm : RefKey) (key : string)
| OpFail (fsm : RefKey) (key : string)
| OpSucceed (fsm : RefKey) (key : string).

Definition fsm_step (o : fsm_op) (d : db) : db * option error :=
  match o with
  | OpStart now fsm key dest request retry =>
      StartFSMTransition now fsm key dest request retry d
  | OpFinish fsm key => FinishFSMTransition fsm key d
  | OpFail fsm key => FailFSMInstance fsm key d
  | OpSucceed fsm key => SucceedFSMInstance fsm key d
  end.

Definition fsm_run (ops : list fsm_op) (d : db) : db :=
  foldl (fun d o => (fsm_step o d).1) d ops.

(** type FSMInstance struct (part_004, lines 86-95), over the type of
    leases. *)
Record FSMInstance (Lease : Type) := mkFSMInstance {
  FSM_Lease : Lease;
  FSM_FSM : RefKey;
  FSM_Key : string;
  FSM_Status : fsm_status;
  FSM_CurrentState : option RefKey;
  FSM_DestinationState : option RefKey
}.
Arguments mkFSMInstance {Lease}.
Arguments FSM_Lease {Lease}.
Arguments FSM_FSM {Lease}.
Arguments FSM_Key {Lease}.
Arguments FSM_Status {Lease}.
Arguments FSM_CurrentState {Lease}.
Arguments FSM_DestinationState {Lease}.

(** Modelled from the spec: leases.SystemKey, not among the sources:
    "/system/fsm_instance/<fsm>/<key>". *)
Definition SystemKey (kind : string) (parts : list string) : string :=
  "/system/" +:+ kind +:+ String.concat "" ((fun p => "/" +:+ p) <$> parts).

(** time.Second*5, in microseconds *)
Definition five_seconds : Z := 5000000.

Section Acquire.
(** The two operations AcquireFSMInstance calls that are not among the
    sources: the DAL's AcquireLease, and the sqlc query GetFSMInstance,
    which returns a row and an error as Go does. *)
Context {Lease : Type}.
Context (AcquireLease : string -> Z -> db -> db * (Lease + error)).
Context (GetFSMInstance : RefKey -> string -> db -> fsm_instance * option error).

(** func (d *DAL) AcquireFSMInstance (part_004, lines 100-121). *)
Definition AcquireFSMInstance (fsm : RefKey) (instanceKey : string) (d : db)
    : db * (FSMInstance Lease + error) :=
  match AcquireLease (SystemKey "fsm_instance" [RefKey_String fsm; instanceKey])
                     five_seconds d with
  | (d1, inr err) => (d1, inr (Errorf "failed to acquire FSM lease" err))
  | (d1, inl lease) =>
      let (row, err) := GetFSMInstance fsm instanceKey d1 in
      let instance (status : fsm_status) :=
        {| FSM_Lease := lease; FSM_FSM := fsm; FSM_Key := instanceKey;
           FSM_Status := status;
           FSM_CurrentState := fi_current_state row;
           FSM_DestinationState := fi_destination_state row |} in
      match err with
      | Some err =>
          match TranslatePGError (Some err) with
          | Some err =>
              if negb (errors_Is err ErrNotFound) then (d1, inr err)
              else (d1, inl (instance running))
          | None => (d1, inl (instance running))
          end
      | None => (d1, inl (instance (fi_status row)))
      end
  end.

End Acquire.

(** The zero value of the row type. *)
Definition zero_instance : fsm_instance :=
  {| fi_id := 0; fi_created_at := 0; fi_fsm := mkRefKey "" ""; fi_key := "";
     fi_status := running; fi_current_state := None; fi_destination_state := None;
     fi_async_call_id := None |}.

(** Modelled from the spec: the sqlc query GetFSMInstance on the tables of
    [FsmDal]: the row of (fsm, key), or no rows and the zero row. *)
Definition query_GetFSMInstance (fsm : RefKey) (key : string) (d : db)
    : fsm_instance * option error :=
  match find_instance fsm key d with
  | Some i => (i, None)
  | None => (zero_instance, Some PgxErrNoRows)
  end.

End FsmDalMore.

(* ===================================================================== *)
(** ** common/configuration/dal/dal.go                                    *)
(* ===================================================================== *)

Module ConfigDal.
Import DalErrs.

(** sql.ModuleConfiguration: a row of module_configuration (001_init.sql,
    lines 456-464). *)
Record ModuleConfiguration := mkModuleConfiguration {
  mc_id : Z;
  mc_created_at : Z;
  mc_module : option string;
  mc_name : string;
  mc_value : string
}.

(** sql.DBI: the queries the DAL calls, over a database state [S]; each
    returns what the Go method returns. *)
Record DBI (S : Type) := mkDBI {
  db_GetModuleConfiguration : option string -> string -> S -> S * (string * option error);
  db_SetModuleConfiguration : option string -> string -> string -> S -> S * option error;
  db_UnsetModuleConfiguration : option string -> string -> S -> S * option error;
  db_ListModuleConfiguration : S -> S * (list ModuleConfiguration * option error)
}.
Arguments db_GetModuleConfiguration {S}.
Arguments db_SetModuleConfiguration {S}.
Arguments db_UnsetModuleConfiguration {S}.
Arguments db_ListModuleConfiguration {S}.

Section Dal.
Context {S : Type} (db : DBI S).

(** GetModuleConfiguration (lines 23-29); a nil slice is the empty
    string. *)
Definition GetModuleConfiguration (module : option string) (name : string) (s : S)
    : S * (string * option error) :=
  match db_GetModuleConfiguration db module name s with
  | (s1, (b, Some err)) => (s1, ("", TranslatePGError (Some err)))
  | (s1, (b, None)) => (s1, (b, None))
  end.

(** SetModuleConfiguration (lines 31-34) *)
Definition SetModuleConfiguration (module : option string) (name value : string) (s : S)
    : S * option error :=
  match db_SetModuleConfiguration db module name value s with
  | (s1, err) => (s1, TranslatePGError err)
  end.

(** UnsetModuleConfiguration (lines 36-39) *)
Definition UnsetModuleConfiguration (module : option string) (name : string) (s : S)
    : S * option error :=
  match db_UnsetModuleConfiguration db module name s with
  | (s1, err) => (s1, TranslatePGError err)
  end.

(** ListModuleConfiguration (lines 41-47) *)
Definition ListModuleConfiguration (s : S)
    : S * (list ModuleConfiguration * option error) :=
  match db_ListModuleConfiguration db s with
  | (s1, (l, Some err)) => (s1, ([], TranslatePGError (Some err)))
  | (s1, (l, None)) => (s1, (l, None))
  end.

End Dal.

End ConfigDal.

(* ===================================================================== *)
(** ** kotlin-runtime/ftl-generator: ModuleGenerator.kt                   *)
(* ===================================================================== *)

Module KotlinGen.

(** KotlinPoet's TypeName, as far as the generator builds it: a class
    name, or a raw type with its type arguments; each nullable or not. *)
#[warnings="-register-all"]
Inductive TypeName :=
| ClassName (packageName simpleName : string) (nullable : bool)
| Parameterized (rawType : TypeName) (typeArguments : list TypeName) (nullable : bool).

Definition isNullable (t : TypeName) : bool :=
  match t with
  | ClassName _ _ n => n
  | Parameterized _ _ n => n
  end.

(** TypeName.copy(nullable = true) *)
Definition copy_nullable (t : TypeName) : TypeName :=
  match t with
  | ClassName p s _ => ClassName p s true
  | Parameterized r a _ => Parameterized r a true
  end.

(** ClassName.parameterizedBy *)
Definition parameterizedBy (raw : TypeName) (args : list TypeName) : TypeName :=
  Parameterized raw args false.

(** xyz.block.ftl.v1.schema.DataRef *)
Record DataRef := mkDataRef { ref_name : string; ref_module : string }.

(** xyz.block.ftl.v1.schema.Type: a message of nullable fields, looked at
    in the order of getTypeClass; a scalar field holds an empty message,
    so only whether it is set matters.  Array, Map and Optional hold
    types that may be missing themselves. *)
#[warnings="-register-all"]
Inductive SchemaType :=
| mkType (t_int t_float t_string t_bytes t_bool t_time : bool)
         (t_array : option (option SchemaType))
         (t_map : option (option SchemaType * option SchemaType))
         (t_dataRef : option DataRef)
         (t_optional : option (option SchemaType)).

Definition t_optional_of (t : SchemaType) : option (option SchemaType) :=
  match t with mkType _ _ _ _ _ _ _ _ _ o => o end.

(** A value or the message of the IllegalArgumentException thrown. *)
Definition thrown (A : Type) : Type := A + string.

(** getTypeClass (lines 141-182) *)
Fixpoint getTypeClass (type : SchemaType) (namespace : string) : thrown TypeName :=
  match type with
  | mkType t_int t_float t_string t_bytes t_bool t_time t_array t_map t_dataRef t_optional =>
      if t_int then inl (ClassName "kotlin" "Long" false)
      else if t_float then inl (ClassName "kotlin" "Float" false)
      else if t_string then inl (ClassName "kotlin" "String" false)
      else if t_bytes then inl (ClassName "kotlin" "ByteArray" false)
      else if t_bool then inl (ClassName "kotlin" "Boolean" false)
      else if t_time then inl (ClassName "java.time" "OffsetDateTime" false)
      else
        match t_array with
        | Some array =>
            match array with
            | None => inr "Missing element type in kotlin array generator"
            | Some element =>
                match getTypeClass element namespace with
                | inr ex => inr ex
                | inl elementType =>
                    let arrayList := ClassName "kotlin.collections" "ArrayList" false in
                    inl (parameterizedBy arrayList [elementType])
                end
            end
        | None =>
            match t_map with
            | Some (key, value) =>
                let map := ClassName "kotlin.collections" "Map" false in
                match key with
                | None => inr "Missing map key in kotlin map generator"
                | Some key =>
                    match value with
                    | None => inr "Missing map value in kotlin map generator"
                    | Some value =>
                        match getTypeClass key namespace with
                        | inr ex => inr ex
                        | inl keyType =>
                            match getTypeClass value namespace with
                            | inr ex => inr ex
                            | inl valueType => inl (parameterizedBy map [keyType; valueType])
                            end
                        end
                    end
                end
            | None =>
                match t_dataRef with
                | Some dataRef =>
                    let module :=
                      if String.eqb (ref_module dataRef) "" then namespace
                      else "ftl." +:+ ref_module dataRef in
                    inl (ClassName module (ref_name dataRef) false)
                | None =>
                    match t_optional with
                    | Some optional =>
                        match optional with
                        | None => inr "Missing wrapped type in kotlin optional generator"
                        | Some wrapped =>
                            match getTypeClass wrapped namespace with
                            | inr ex => inr ex
                            | inl t => inl (copy_nullable t)
                            end
                        end
                    | None => inr "Unknown type in kotlin generator"
                    end
                end
            end
        end
  end.

(** xyz.block.ftl.v1.schema.Field and Data *)
Record Field := mkField {
  f_name : string;
  f_comments : list string;
  f_type : option SchemaType
}.

Record Data := mkData {
  data_name : string;
  data_comments : list string;
  data_fields : list Field
}.

(** KotlinPoet's ParameterSpec, PropertySpec and the TypeSpec of a data
    class, by what the generator puts into them; the default value, the
    initializer and the kdoc hold the text of their code blocks. *)
Record ParameterSpec := mkParameterSpec {
  param_name : string;
  param_type : TypeName;
  param_defaultValue : option string
}.

Record PropertySpec := mkPropertySpec {
  prop_name : string;
  prop_type : TypeName;
  prop_initializer : string
}.

Record TypeSpec := mkTypeSpec {
  ts_name : string;
  ts_kdoc : string;
  ts_parameters : list ParameterSpec;
  ts_properties : list PropertySpec
}.

(** Unit::class *)
Definition Unit_class : TypeName := ClassName "kotlin" "Unit" false.

(** joinToString("\n") *)
Definition joinLines (lines : list string) : string :=
  String.concat (String (Ascii.ascii_of_nat 10) "") lines.

Section Poet.
(** KotlinPoet's CodeBlock.of(format) without arguments, which addKdoc,
    defaultValue and initializer make of the format they are given: the
    text of the block, or the message of the IllegalArgumentException for
    a format it refuses, such as one with a percent sign that starts a
    placeholder without its argument.  KotlinPoet is not among the
    sources; the generator is embedded for every such function. *)
Context (CodeBlock_of : string -> thrown string).

(** TypeSpec.Builder.addKdoc(format) *)
Definition addKdoc (format : string) (ts : TypeSpec) : thrown TypeSpec :=
  match CodeBlock_of format with
  | inr ex => inr ex
  | inl block =>
      inl {| ts_name := ts_name ts; ts_kdoc := ts_kdoc ts +:+ block;
             ts_parameters := ts_parameters ts; ts_properties := ts_properties ts |}
  end.

(** if (it.optional != null) { parameter = parameter.defaultValue("null") } *)
Definition defaultValue_of (it : SchemaType) : thrown (option string) :=
  if t_optional_of it is Some _ then
    match CodeBlock_of "null" with
    | inr ex => inr ex
    | inl block => inl (Some block)
    end
  else inl None.

(** The body of type.fields.forEach (lines 65-78) on the builders. *)
Definition addField (namespace : string) (field : Field) (ts : TypeSpec) : thrown TypeSpec :=
  match addKdoc (joinLines (f_comments field)) ts with
  | inr ex => inr ex
  | inl ts =>
      match f_type field with
      | None => inl ts
      | Some it =>
          match getTypeClass it namespace with
          | inr ex => inr ex
          | inl t =>
              match defaultValue_of it with
              | inr ex => inr ex
              | inl defaultValue =>
                  let parameter :=
                    {| param_name := f_name field; param_type := t;
                       param_defaultValue := defaultValue |} in
                  match CodeBlock_of (f_name field) with
                  | inr ex => inr ex
                  | inl initializer =>
                      inl {| ts_name := ts_name ts; ts_kdoc := ts_kdoc ts;
                             ts_parameters := ts_parameters ts ++ [parameter];
                             ts_properties :=
                               ts_properties ts
                               ++ [{| prop_name := f_name field; prop_type := t;
                                      prop_initializer := initializer |}] |}
                  end
              end
          end
      end
  end.

Fixpoint addFields (namespace : string) (fields : list Field) (ts : TypeSpec)
    : thrown TypeSpec :=
  match fields with
  | [] => inl ts
  | field :: fields' =>
      match addField namespace field ts with
      | inr ex => inr ex
      | inl ts' => addFields namespace fields' ts'
      end
  end.

(** Handle empty data classes (lines 81-88). *)
Definition addEmpty (ts : TypeSpec) : thrown TypeSpec :=
  match CodeBlock_of "Unit" with
  | inr ex => inr ex
  | inl defaultValue =>
      match CodeBlock_of "_empty" with
      | inr ex => inr ex
      | inl initializer =>
          inl {| ts_name := ts_name ts; ts_kdoc := ts_kdoc ts;
                 ts_parameters :=
                   ts_parameters ts
                   ++ [mkParameterSpec "_empty" Unit_class (Some defaultValue)];
                 ts_properties :=
                   ts_properties ts
                   ++ [mkPropertySpec "_empty" Unit_class initializer] |}
      end
  end.

(** buildDataClass (lines 59-93) *)
Definition buildDataClass (type : Data) (namespace : string) : thrown TypeSpec :=
  let builder := {| ts_name := data_name type; ts_kdoc := "";
                    ts_parameters := []; ts_properties := [] |} in
  match addKdoc (joinLines (data_comments type)) builder with
  | inr ex => inr ex
  | inl builder =>
      match addFields namespace (data_fields type) builder with
      | inr ex => inr ex
      | inl ts =>
          match data_fields type with
          | [] => addEmpty ts
          | _ => inl ts
          end
      end
  end.

End Poet.

(** xyz.block.ftl.v1.schema.IngressPathComponent: a literal with its text,
    a parameter with its name, or neither. *)
Record IngressPathComponent := mkIngressPathComponent {
  ingressPathLiteral : option string;
  ingressPathParameter : option string
}.

(** The transform of joinToString in ingressPathString (lines 133-137). *)
Definition componentString (component : IngressPathComponent) : thrown string :=
  match ingressPathLiteral component with
  | Some text => inl text
  | None =>
      match ingressPathParameter component with
      | Some name => inl ("{" +:+ name +:+ "}")
      | None => inr "Unknown ingress path component"
      end
  end.

(** The elements of a joinToString, in order, up to the first that
    throws. *)
Fixpoint transformAll (components : list IngressPathComponent) : thrown (list string) :=
  match components with
  | [] => inl []
  | c :: cs =>
      match componentString c with
      | inr ex => inr ex
      | inl s =>
          match transformAll cs with
          | inr ex => inr ex
          | inl ss => inl (s :: ss)
          end
      end
  end.

(** ingressPathString (lines 131-139) *)
Definition ingressPathString (components : list IngressPathComponent) : thrown string :=
  match transformAll components with
  | inr ex => inr ex
  | inl parts => inl ("/" +:+ String.concat "/" parts)
  end.

End KotlinGen.

(* ===================================================================== *)
(** ** go-runtime/ftl/call.go                                             *)
(* ===================================================================== *)

Module FtlCall.
Import DalErrs.

Section Call.
(** The request and response types of a verb and the dynamic values a
    mock returns. *)
Context {Req Resp Any : Type}.

(** modulecontext's behaviours of a verb, and one that is none of them. *)
Inductive Behavior :=
| MockBehavior (Mock : Req -> Any + error)
| DirectBehavior
| StandardBehavior
| OtherBehavior (name : string).

(** The oneof of ftlv1.CallResponse. *)
Inductive CallResponse :=
| CallResponse_Error (Message : string)
| CallResponse_Body (Body : string)
| CallResponse_other (T : string).

(** What call uses of its surroundings. *)
Record Runtime := mkRuntime {
  Marshal : Req -> string + error;                   (* encoding.Marshal *)
  BehaviorForVerb : string -> Behavior + error;      (* of the module context *)
  assertResp : Any -> option Resp;                   (* uncheckedResp.(Resp) *)
  typeName : Any -> string;                          (* %T *)
  TypeFor_Resp : string;                             (* reflect.TypeFor[Resp]() *)
  client_Call : string -> string -> CallResponse + error;  (* of the verb service *)
  (* encoding.Unmarshal(data, &resp): what resp holds when it returns,
     and its error *)
  Unmarshal : string -> Resp -> Resp * option error;
  zero : Resp                                        (* var resp Resp *)
}.

(** What a call does to the outside. *)
Inductive Effect :=
| Effect_Mock (req : Req)
| Effect_client_Call (verb : string) (body : string).

(** How a call ends. *)
Inductive Result :=
| Returns (resp : Resp) (err : option error)
| Panics (msg : string).

(** call (lines 17-62); [callee] is the callee as %s prints it. *)
Definition call (R : Runtime) (callee : string) (req : Req) : list Effect * Result :=
  match Marshal R req with
  | inr err =>
      ([], Returns (zero R) (Some (Errorf (callee +:+ ": failed to marshal request") err)))
  | inl reqData =>
      match BehaviorForVerb R callee with
      | inr err => ([], Returns (zero R) (Some (Errorf callee err)))
      | inl (MockBehavior Mock) =>
          match Mock req with
          | inr err => ([Effect_Mock req], Returns (zero R) (Some (Errorf callee err)))
          | inl uncheckedResp =>
              match assertResp R uncheckedResp with
              | Some r => ([Effect_Mock req], Returns r None)
              | None =>
                  ([Effect_Mock req],
                   Returns (zero R)
                     (Some (Opaque (callee +:+ ": overridden verb had invalid response type "
                                    +:+ typeName R uncheckedResp +:+ ", expected "
                                    +:+ TypeFor_Resp R))))
              end
          end
      | inl DirectBehavior => ([], Panics "not implemented")
      | inl StandardBehavior =>
          match client_Call R callee reqData with
          | inr err =>
              ([Effect_client_Call callee reqData],
               Returns (zero R) (Some (Errorf (callee +:+ ": failed to call Verb") err)))
          | inl (CallResponse_Error Message) =>
              ([Effect_client_Call callee reqData],
               Returns (zero R) (Some (Opaque (callee +:+ ": " +:+ Message))))
          | inl (CallResponse_Body Body) =>
              match Unmarshal R Body (zero R) with
              | (resp, Some err) =>
                  ([Effect_client_Call callee reqData],
                   Returns resp
                     (Some (Errorf (callee +:+ ": failed to decode response") err)))
              | (resp, None) => ([Effect_client_Call callee reqData], Returns resp None)
              end
          | inl (CallResponse_other T) =>
              ([Effect_client_Call callee reqData],
               Panics (callee +:+ ": invalid response type " +:+ T))
          end
      | inl (OtherBehavior name) => ([], Panics ("unknown behavior: " +:+ name))
      end
  end.

End Call.

Arguments Behavior : clear implicits.
Arguments Runtime : clear implicits.
Arguments Effect : clear implicits.
Arguments Result : clear implicits.

End FtlCall.

(* ===================================================================== *)
(** ** buildengine/engine.go: New                                         *)
(* ===================================================================== *)

Module EngineNew.
Import BuildEngine.

(** The errors of New: the one of DiscoverModules wrapped, or the one of
    UpdateDependencies as it is. *)
Inductive NewError :=
| CouldNotFindModules (err : error)       (* "could not find modules: %w" *)
| UpdateDependenciesFailed (err : error). (* return nil, err *)

(** The engine New starts from (lines 89-98), with or without a
    listener. *)
Definition fresh (has_listener : bool) : Engine :=
  {| moduleMetas := ∅; controllerSchema := ∅; modulesToBuild := ∅;
     listener := has_listener; buildGroupErr := None; ticks := 0; trace := [] |}.

Section New.
Context (W : World).

(** The loop over the discovered modules (lines 110-117). *)
Definition storeModules (modules : list Module) : M (option NewError) :=
  r ← for_each
        (fun module (_ : unit) =>
           emit (Call_UpdateDependencies module);;
           r ← ask (fun t => UpdateDependencies W t module);
           match r with
           | inr err => mret (inr (UpdateDependenciesFailed err))
           | inl module =>
               Store_moduleMeta (cfg_Module (Config module))
                 {| module := module; lastBuildStartTime := 0 |};;
               modify (with_modulesToBuild (insert (cfg_Module (Config module)) true));;
               mret (inl tt)
           end)
        modules tt;
  match r with
  | inl _ => mret None
  | inr err => mret (Some err)
  end.

(** New without a client (lines 87-120); [discovered] is what
    DiscoverModules returns, which is not among the sources. *)
Definition New (discovered : list Module + error) : M (option NewError) :=
  modify (EngineMore.with_controllerSchema (insert "builtin" (Builtins W)));;
  match discovered with
  | inr err => mret (Some (CouldNotFindModules err))
  | inl modules => storeModules modules
  end.

End New.

End EngineNew.

(* ===================================================================== *)
(** * Specification vocabulary and scenarios                              *)
(* ===================================================================== *)

(** The predicates the properties below are stated with, and the
    scenarios S1, S2, S4 and S6 of the specification as data. *)

Module SqlSpec.
Import DalErrs Sql.

(** The module ids under the partial index. *)
Definition covered (t : list deployment) : list Z :=
  d_module_id <$> filter (fun d => indexed d = true) t.

(** Scenario S4: d1 active and d2 created for one module, d2 replacing d1
    with two replicas. *)
Definition S4_d1 : deployment := mkDeployment 1 0 7 "m-aaaa" "schema" "{}" 1.

Definition S4_d2 : deployment := mkDeployment 2 0 7 "m-bbbb" "schema" "{}" 0.

Definition S4_replaced : list deployment :=
  (dal_exec (ReplaceDeployment "m-aaaa" "m-bbbb" 2) [S4_d1; S4_d2]).1.

(** Scenario S4 as writes on the empty table: d1 inserted active, d2
    inserted, d2 replacing d1. *)
Definition S4_writes : list statement :=
  [Insert S4_d1; Insert S4_d2; ReplaceDeployment "m-aaaa" "m-bbbb" 2].

(** A runner that registers already reserved. *)
Definition reserved_runner : runner :=
  {| r_id := 1; r_key := "rnr-1"; r_created := 0; r_last_seen := 0;
     r_reservation_timeout := None; r_state := reserved;
     r_endpoint := "http://127.0.0.1:8893"; r_module_name := None;
     r_deployment_id := None; r_labels := "{}" |}.

End SqlSpec.

Module AsyncCallsSpec.
Import DalErrs AsyncCalls.

(** Identities are handed out upwards: every row id is below the
    counter. *)
Definition well_formed (d : db) : Prop :=
  forall k, is_Some (async_calls d !! k) -> (k < next_call_id d)%Z.

(** The call [id] is in state [error]. *)
Definition in_error (id : Z) (d : db) : Prop :=
  exists c, async_calls d !! id = Some c /\ state c = st_error.

(** Scenario S6: a call with two attempts, a backoff of 10ms and a
    maximal backoff of 1s, times in milliseconds from the enqueue. *)
Definition S6_enqueued : db := (Enqueue "m.v" "cron:m.v" "{}" 0 2 10 1000 empty_db).1.

Definition S6_acquired1 : db := (Acquire 0 5000 "lease-1" S6_enqueued).1.

Definition S6_failed1 : db := (Complete 1 0 (Failed "boom") S6_acquired1).1.

Definition S6_acquired2 : db := (Acquire 10 5000 "lease-2" S6_failed1).1.

Definition S6_failed2 : db := (Complete 1 10 (Failed "boom") S6_acquired2).1.

Definition S6_acquired3 : db := (Acquire 30 5000 "lease-3" S6_failed2).1.

Definition S6_failed3 : db := (Complete 1 30 (Failed "boom") S6_acquired3).1.

End AsyncCallsSpec.

Module FsmDalSpec.
Import DalErrs FsmDal.

(** Scenario S2, the two calls of TestSendFSMEvent. *)
Definition S2_fsm : RefKey := mkRefKey "test" "test".

Definition S2_ref : RefKey := mkRefKey "module" "verb".

Definition S2_first : db * option error :=
  StartFSMTransition 0 S2_fsm "invoiceID" S2_ref "{}" (mkRetryParams 0 0 0) empty_db.

End FsmDalSpec.

Module GraphSpec.
Import BuildEngine.

Section Walk.
Context (metas : gmap string moduleMeta) (ctrl : gmap string SchemaModule).

(** The names the engine knows. *)
Definition known : gset string := dom metas ∪ dom ctrl.

(** What a walk from [out] to [out'] has added: the old entries are kept,
    and every new entry holds the resolved dependencies of its key, each
    of them a key of [out']. *)
Definition extends (out out' : gmap string (list string)) : Prop :=
  out ⊆ out'
  /\ forall n ds, out' !! n = Some ds -> out !! n = None ->
       resolve metas ctrl n = Some ds /\ forall d, d ∈ ds -> is_Some (out' !! d).

(** The result of a walk over [names] from [out]. *)
Definition walk_ok (names : list string) (out : gmap string (list string))
    (r : graph_result) : Prop :=
  match r with
  | GraphOk out' => extends out out' /\ forall n, n ∈ names -> is_Some (out' !! n)
  | GraphErr err => exists x, err = ErrModuleNotFound x /\ resolve metas ctrl x = None
  | GraphFuel => True
  end.

(** The known names a walk has not reached yet. *)
Definition unexplored (out : gmap string (list string)) : nat :=
  size (known ∖ dom out).

(** The names a request reaches through resolved dependencies. *)
Inductive reachable (names : list string) : string -> Prop :=
| reach_requested n : n ∈ names -> reachable names n
| reach_dependency n deps d :
    reachable names n -> resolve metas ctrl n = Some deps -> d ∈ deps ->
    reachable names d.

(** The names Graph walks from: all local modules when none is given. *)
Definition requested (moduleNames : list string) : list string :=
  match moduleNames with
  | [] => Modules_of metas
  | _ => moduleNames
  end.

End Walk.

(** Scenario S1: local modules a (depends on b) and b (depends on builtin),
    builtin known from the controller schema. *)
Definition S1_config (name : string) : ModuleConfig :=
  mkModuleConfig name ("/modules/" +:+ name) "_ftl" "schema.pb".

Definition S1_a : Module := mkModule (S1_config "a") ["b"].

Definition S1_b : Module := mkModule (S1_config "b") ["builtin"].

Definition S1_builtin : SchemaModule := mkSchemaModule "builtin" [] "module builtin {}".

(** The schema the compiler leaves in the deploy directory of a module. *)
Definition S1_schema_at (path : string) : SchemaModule :=
  if String.eqb path "/modules/a/_ftl/schema.pb" then mkSchemaModule "a" ["b"] "module a {}"
  else if String.eqb path "/modules/b/_ftl/schema.pb"
       then mkSchemaModule "b" ["builtin"] "module b {}"
       else mkSchemaModule "c" ["a"] "module c {}".

Definition S1_metas : gmap string moduleMeta :=
  <["a" := mkModuleMeta S1_a 0]> (<["b" := mkModuleMeta S1_b 0]> ∅).

Definition S1_ctrl : gmap string SchemaModule := {[ "builtin" := S1_builtin ]}.

Definition S1_graph : gmap string (list string) :=
  <["a" := ["b"]]> (<["b" := ["builtin"]]> (<["builtin" := []]> ∅)).

End GraphSpec.

Module BuildSpec.
Import BuildEngine.

(** A callback as the engine passes it: none ([Build]), or the one of
    [BuildAndDeploy]. *)
Definition engine_callback (W : World) (callback : option (buildCallback)) : Prop :=
  callback = None
  \/ exists replicas waitForDeployOnline,
       callback = Some (deployCallback W replicas waitForDeployOnline).

(** What the proofs need of a callback: it returns nil and leaves the
    metas alone. *)
Definition quiet (callback : option buildCallback) : Prop :=
  match callback with
  | None => True
  | Some f => forall m e r e', f m e = Done r e' ->
                               r = None /\ moduleMetas e' = moduleMetas e
  end.

Section Attribution.
Context (W : World).

(** Every module that must be built has a local meta. *)
Definition metas_cover (mustBuild : gmap string bool) (e : Engine) : Prop :=
  forall n, mustBuild_at mustBuild n = true -> is_Some (moduleMetas e !! n).

(** One worker of a build: the module it was started for, the built map
    and the engine it started with, what [tryBuild] returned (the schemas
    it published and its error) and the engine it left. *)
Record worker := mkWorker {
  w_name : string;
  w_built : gmap string SchemaModule;
  w_before : Engine;
  w_result : list SchemaModule * option error;
  w_after : Engine
}.

(** The workers of one group, in the order they run: each is [tryBuild]
    of its module on the built map of the group, from the engine the one
    before it left. *)
Fixpoint group_workers (mustBuild : gmap string bool) (callback : option buildCallback)
    (builtModules : gmap string SchemaModule) (group : list string)
    (e : Engine) (ws : list worker) (e' : Engine) : Prop :=
  match group, ws with
  | [], [] => e' = e
  | moduleName :: group', w :: ws' =>
      w_name w = moduleName /\ w_built w = builtModules /\ w_before w = e
      /\ tryBuild W mustBuild moduleName builtModules callback e
         = Done (w_result w) (w_after w)
      /\ group_workers mustBuild callback builtModules group' (w_after w) ws' e'
  | _, _ => False
  end.

(** The schemas the workers published, in order. *)
Definition worker_schemas (ws : list worker) : list SchemaModule :=
  concat ((fun w => (w_result w).1) <$> ws).

(** The errors the workers returned, in order: what was sent on errCh. *)
Definition worker_errors (ws : list worker) : list error :=
  omap (fun w => (w_result w).2) ws.

(** The workers of the groups of a topology: the groups run one after the
    other, and the schemas the workers of a group published are in the
    built map of the groups after it. *)
Fixpoint topology_workers (mustBuild : gmap string bool) (callback : option buildCallback)
    (topology : list (list string)) (builtModules : gmap string SchemaModule)
    (e : Engine) (ws : list worker) (e' : Engine) : Prop :=
  match topology with
  | [] => ws = [] /\ e' = e
  | group :: topology' =>
      exists here later e1,
        ws = here ++ later
        /\ group_workers mustBuild callback builtModules group e here e1
        /\ topology_workers mustBuild callback topology'
             (collect (worker_schemas here) builtModules) e1 later e'
  end.

(** The worker was skipped: its module had to be built, and a dependency
    of the module was not in the built map. *)
Definition skipped (mustBuild : gmap string bool) (w : worker) : Prop :=
  mustBuild_at mustBuild (w_name w) = true
  /\ exists meta dep,
       moduleMetas (w_before w) !! w_name w = Some meta
       /\ dep ∈ Dependencies (module meta) /\ w_built w !! dep = None.

(** The engine [build] starts from in a worker: for a module that has to
    be built, the time was asked and stored as the start of its build. *)
Definition build_start (mustBuild : gmap string bool) (w : worker) : Engine :=
  if mustBuild_at mustBuild (w_name w) then
    match moduleMetas (w_before w) !! w_name w with
    | Some meta =>
        with_moduleMetas
          (insert (w_name w)
             {| module := module meta;
                lastBuildStartTime := time_Now W (ticks (w_before w)) |})
          (with_tick (w_before w))
    | None => w_before w
    end
  else w_before w.

(** What [build] can return for a module, started from [e0]: the module
    is not local; or it is, and its compilation failed or its schema file
    could not be loaded. *)
Definition build_error_kind (e0 : Engine) (moduleName : string) (err : error) : Prop :=
  match moduleMetas e0 !! moduleName with
  | None => err = ErrModuleNotFound moduleName
  | Some meta =>
      (exists t combined, Build W t combined (module meta) = Some err)
      \/ exists inner t,
           err = ErrCouldNotLoadSchema (cfg_Module (Config (module meta))) inner
           /\ ModuleFromProtoFile W t (schema_path (Config (module meta))) = inr inner
  end.

(** What holds of a worker of a build.  A skipped worker logs the warning
    and does nothing else: it publishes no schema and returns no error.
    A worker that returns an error was not skipped, and the error is the
    one [build] returned for its module. *)
Definition worker_fact (mustBuild : gmap string bool) (w : worker) : Prop :=
  (skipped mustBuild w ->
   w_result w = ([], None)
   /\ exists dep, w_after w = with_event (Warnf_build_skipped (w_name w) dep) (w_before w))
  /\ forall err,
       (w_result w).2 = Some err ->
       ~ skipped mustBuild w
       /\ build W (w_name w) (w_built w) (build_start mustBuild w)
          = Done (w_result w) (w_after w)
       /\ build_error_kind (build_start mustBuild w) (w_name w) err.

(** The names the build works on: all local modules when none is given. *)
Definition requested_names (e : Engine) (moduleNames : list string) : list string :=
  match moduleNames with
  | [] => Modules_of (moduleMetas e)
  | _ => moduleNames
  end.

(** The build stopped before its workers, with [err]: a requested module
    is not local or its dependencies could not be updated, or the graph
    or its topological sort failed. *)
Definition preparation_failed (moduleNames : list string) (e : Engine) (err : error)
    : Prop :=
  (exists e1, updateAll W (requested_names e moduleNames) e = Done (inr err) e1)
  \/ exists mustBuild e1,
       updateAll W (requested_names e moduleNames) e = Done (inl mustBuild) e1
       /\ (Graph_of (moduleMetas e1) (controllerSchema e1) (requested_names e moduleNames)
           = GraphErr err
           \/ exists graph,
                Graph_of (moduleMetas e1) (controllerSchema e1)
                         (requested_names e moduleNames) = GraphOk graph
                /\ TopologicalSort W graph = inr err).

(** if len(allErrors) > 0 { return errors.Join(allErrors...) }; return nil *)
Definition joined (allErrors : list error) : option error :=
  match allErrors with
  | [] => None
  | _ => Some (ErrJoin allErrors)
  end.

End Attribution.

(** A build of scenario S1 in which the compiler fails on b. *)
Definition S9_world : World :=
  {| UpdateDependencies := fun _ m => inl m;
     Build := fun _ _ m =>
       if String.eqb (cfg_Module (Config m)) "b"
       then Some (ErrExternal "compile error") else None;
     ModuleFromProtoFile := fun _ path => inl (GraphSpec.S1_schema_at path);
     Deploy := fun _ _ _ _ => None;
     terminateModuleDeployment := fun _ _ => None;
     TopologicalSort := fun _ => inl [["builtin"]; ["b"]; ["a"]];
     Builtins := GraphSpec.S1_builtin;
     time_Now := fun t => Z.of_nat t;
     sha256_Sum := fun s => s |}.

Definition S9_engine : Engine :=
  {| moduleMetas := GraphSpec.S1_metas;
     controllerSchema := GraphSpec.S1_ctrl;
     modulesToBuild := <["a" := true]> (<["b" := true]> ∅);
     listener := false;
     buildGroupErr := None;
     ticks := 0;
     trace := [] |}.

Definition S9_mustBuild : gmap string bool := <["a" := true]> (<["b" := true]> ∅).

Definition S9_built : gmap string SchemaModule := {[ "builtin" := GraphSpec.S1_builtin ]}.

Definition S9_result : option error :=
  match Build_all S9_world S9_engine with
  | Done r _ => r
  | Abort => None
  end.

Definition S9_final : Engine :=
  match Build_all S9_world S9_engine with
  | Done _ e => e
  | Abort => S9_engine
  end.

End BuildSpec.

Module DevLoopSpec.
Import BuildEngine.

(** A run of scenario S1 in which everything succeeds. *)
Definition S1_world : World :=
  {| UpdateDependencies := fun _ m => inl m;
     Build := fun _ _ _ => None;
     ModuleFromProtoFile := fun _ path => inl (GraphSpec.S1_schema_at path);
     Deploy := fun _ _ _ _ => None;
     terminateModuleDeployment := fun _ _ => None;
     TopologicalSort := fun _ => inl [["builtin"]; ["b"]; ["a"]];
     Builtins := GraphSpec.S1_builtin;
     time_Now := fun t => Z.of_nat t;
     sha256_Sum := fun s => "sha256:" +:+ s |}.

(** The engine of S1 after a build of a that started at time 5. *)
Definition S1_engine : Engine :=
  {| moduleMetas := <["a" := mkModuleMeta GraphSpec.S1_a 5]> GraphSpec.S1_metas;
     controllerSchema := GraphSpec.S1_ctrl;
     modulesToBuild := ∅;
     listener := false;
     buildGroupErr := None;
     ticks := 0;
     trace := [] |}.

Definition S1_loop : loopState :=
  {| moduleHashes := ∅; didUpdateDeployments := false; didError := false |}.

Section Loop.
Context (W : World).

(** What a build-and-deploy branch of the loop does for [names]. *)
Definition buildAndDeployThen (names : list string) (failed : error -> Event)
    (s : loopState) : M loopState :=
  err ← BuildAndDeploy W 1 true names;
  afterBuildAndDeploy failed err (set_didError false s).

(** What the loop does with a changed schema whose hash is new. *)
Definition rebuildDependents (sch : SchemaModule) (s : loopState) : M loopState :=
  fun e =>
    let s1 := set_moduleHash (sm_Name sch) (sha256_Sum W (sm_String sch)) s in
    match dependentModuleNames (moduleMetas e) (sm_Name sch) with
    | [] => Done s1 e
    | dependents =>
        buildAndDeployThen dependents (Errorf_deploy_failed (sm_Name sch)) s1
          (with_event (Infof_schema_changed (sm_Name sch) dependents) e)
    end.

End Loop.

(** A module c that depends on a, not known to the engine of S1. *)
Definition S1_c : Module := mkModule (GraphSpec.S1_config "c") ["a"].

(** The schema of b as the controller reports it changed. *)
Definition S1_b_schema : SchemaModule := mkSchemaModule "b" ["builtin"] "module b { }".

End DevLoopSpec.

(* ===================================================================== *)
(** * More vocabulary and scenarios                                       *)
(* ===================================================================== *)

Module DalErrsSpec.
Import DalErrs.

(** The three kinds of the DAL. *)
Definition is_kind (k : error) : Prop :=
  k = ErrNotFound \/ k = ErrConflict \/ k = ErrConstraint.

End DalErrsSpec.

Module ConfigDalSpec.
Import DalErrs ConfigDal.

(** What Postgres raises for a second row ("echo", "timeout"): UNIQUE
    (module, name) of module_configuration (001_init.sql, line 463). *)
Definition one_entry_violation : PgError :=
  {| Severity := "ERROR"; Code := UniqueViolation;
     Message := "duplicate key value violates unique constraint";
     TableName := "module_configuration";
     ConstraintName := "module_configuration_module_name_key" |}.

Definition is_echo_timeout (module : option string) (name : string) : bool :=
  match module with
  | Some m => String.eqb m "echo" && String.eqb name "timeout"
  | None => false
  end.

(** The queries on a database that holds the one entry "timeout" = "30"
    of module "echo" and refuses to insert it again. *)
Definition one_entry_db : DBI unit :=
  {| db_GetModuleConfiguration := fun module name s =>
       if is_echo_timeout module name
       then (s, ("30", None)) else (s, ("", Some PgxErrNoRows));
     db_SetModuleConfiguration := fun module name value s =>
       if is_echo_timeout module name
       then (s, Some (PgErr one_entry_violation)) else (s, None);
     db_UnsetModuleConfiguration := fun module name s => (s, None);
     db_ListModuleConfiguration := fun s =>
       (s, ([mkModuleConfiguration 1 0 (Some "echo") "timeout" "30"], None)) |}.

End ConfigDalSpec.

Module GraphMoreSpec.
Import BuildEngine GraphSpec.

(** Two modules that depend on each other, and a third that depends on a
    module nobody knows. *)
Definition cyclic_metas : gmap string moduleMeta :=
  <["a" := mkModuleMeta (mkModule (S1_config "a") ["b"]) 0]>
    (<["b" := mkModuleMeta (mkModule (S1_config "b") ["a"; "builtin"]) 0]>
       (<["c" := mkModuleMeta (mkModule (S1_config "c") ["time"]) 0]> ∅)).

Definition cyclic_graph : gmap string (list string) :=
  <["a" := ["b"]]> (<["b" := ["a"; "builtin"]]> (<["builtin" := []]> ∅)).

End GraphMoreSpec.

Module BuildMoreSpec.
Import BuildEngine.

(** What a build without a callback does to the outside; the listener is
    told of a start only when there is one. *)
Definition emitted_by_build (has_listener : bool) (ev : Event) : bool :=
  match ev with
  | Call_UpdateDependencies _ | Warnf_build_skipped _ _
  | Call_Build _ | Call_ModuleFromProtoFile _ => true
  | OnBuildStarted _ => has_listener
  | _ => false
  end.

(** The names of the modules whose deploy was started. *)
Definition deployed (evs : list Event) : list string :=
  omap (fun ev => match ev with
                  | Call_Deploy m _ _ => Some (cfg_Module (Config m))
                  | _ => None
                  end) evs.

(** The engine after a run is the engine before it but for its local
    modules, whose names stay, its clock and what it did to the outside,
    [evs]. *)
Definition build_run (e e' : Engine) (evs : list Event) : Prop :=
  trace e' = trace e ++ evs
  /\ dom (moduleMetas e') = dom (moduleMetas e)
  /\ controllerSchema e' = controllerSchema e
  /\ listener e' = listener e.

(** Only what a build without a callback does, and the flags of the
    pending builds and the error of the deploy group are as before. *)
Definition only_builds (e e' : Engine) : Prop :=
  exists evs,
    build_run e e' evs
    /\ Forall (fun ev => emitted_by_build (listener e) ev = true) evs
    /\ modulesToBuild e' = modulesToBuild e
    /\ buildGroupErr e' = buildGroupErr e.

(** Before the deploy of a module starts, the module was compiled and its
    schema file was read. *)
Definition deploys_after_builds (evs : list Event) : Prop :=
  forall pre m replicas waitForDeployOnline post,
    evs = pre ++ Call_Deploy m replicas waitForDeployOnline :: post ->
    Call_Build m ∈ pre /\ Call_ModuleFromProtoFile (schema_path (Config m)) ∈ pre.

(** Deploys come after builds, each with the replicas and the flag given,
    and the flags of the pending builds are cleared for the modules whose
    deploy was started and for no other. *)
Definition builds_then_deploys (replicas : Z) (waitForDeployOnline : bool)
    (e e' : Engine) : Prop :=
  exists evs,
    build_run e e' evs
    /\ deploys_after_builds evs
    /\ Forall (fun ev => forall m r w, ev = Call_Deploy m r w ->
                                       r = replicas /\ w = waitForDeployOnline) evs
    /\ forall n, modulesToBuild e' !! n
                 = if decide (n ∈ deployed evs) then Some false else modulesToBuild e !! n.

(** Nothing is compiled and nothing deployed. *)
Definition only_prepares (evs : list Event) : Prop :=
  Forall (fun ev => exists m, ev = Call_UpdateDependencies m) evs.

(** Scenario S1 after a build and deploy of all its modules. *)
Definition S1_deployed : Engine :=
  match BuildAndDeploy DevLoopSpec.S1_world 1 true [] DevLoopSpec.S1_engine with
  | Done _ e => e
  | Abort => DevLoopSpec.S1_engine
  end.

End BuildMoreSpec.

Module EngineMoreSpec.
Import BuildEngine EngineMore.

(** The engine after a run is the engine before it but for its clock and
    what it did to the outside, [evs]. *)
Definition same_but_trace (e e' : Engine) (evs : list Event) : Prop :=
  trace e' = trace e ++ evs
  /\ moduleMetas e' = moduleMetas e
  /\ controllerSchema e' = controllerSchema e
  /\ modulesToBuild e' = modulesToBuild e
  /\ listener e' = listener e
  /\ buildGroupErr e' = buildGroupErr e.

(** The start of the deploy of a local module that is not builtin. *)
Definition deploy_of_local (e : Engine) (replicas : Z) (waitForDeployOnline : bool)
    (ev : Event) : Prop :=
  exists name meta,
    name <> "builtin" /\ moduleMetas e !! name = Some meta
    /\ ev = Call_Deploy (module meta) replicas waitForDeployOnline.

(** Every module of the groups but builtin is local and its deploy was
    started. *)
Definition all_deployed (e : Engine) (replicas : Z) (waitForDeployOnline : bool)
    (groups : list (list string)) (evs : list Event) : Prop :=
  forall group name,
    group ∈ groups -> name ∈ group -> name <> "builtin" ->
    exists meta, moduleMetas e !! name = Some meta
                 /\ Call_Deploy (module meta) replicas waitForDeployOnline ∈ evs.

(** Scenario S1 with a local module c that depends on a module "time" the
    engine knows from the controller only. *)
Definition time_schema : SchemaModule := mkSchemaModule "time" [] "module time {}".

Definition S1_with_time : Engine :=
  {| moduleMetas :=
       <["c" := mkModuleMeta (mkModule (GraphSpec.S1_config "c") ["time"]) 0]> ∅;
     controllerSchema := <["time" := time_schema]> GraphSpec.S1_ctrl;
     modulesToBuild := ∅;
     listener := false;
     buildGroupErr := None;
     ticks := 0;
     trace := [] |}.

Definition S1_time_world : World :=
  {| UpdateDependencies := fun _ m => inl m;
     Build := fun _ _ _ => None;
     ModuleFromProtoFile := fun _ path => inl (GraphSpec.S1_schema_at path);
     Deploy := fun _ _ _ _ => None;
     terminateModuleDeployment := fun _ _ => None;
     TopologicalSort := fun _ => inl [["time"]; ["c"]];
     Builtins := GraphSpec.S1_builtin;
     time_Now := fun t => Z.of_nat t;
     sha256_Sum := fun s => s |}.

End EngineMoreSpec.

Module SyncSpec.
Import BuildEngine EngineMore.

(** The engine after a run is the engine before it but for its controller
    schema. *)
Definition only_schema_changes (e e' : Engine) : Prop :=
  moduleMetas e' = moduleMetas e /\ modulesToBuild e' = modulesToBuild e
  /\ listener e' = listener e /\ buildGroupErr e' = buildGroupErr e
  /\ ticks e' = ticks e /\ trace e' = trace e.

(** The controller tells that the deployment of builtin is gone. *)
Definition builtin_removed : PullSchemaResponse :=
  {| ps_ChangeType := Named DEPLOYMENT_REMOVED; ps_ModuleName := "builtin";
     ps_Schema := inr (ErrExternal "no schema") |}.

(** The change type of a message, when it is one the engine names. *)
Definition named_type (msg : PullSchemaResponse) : option DeploymentChangeType :=
  match ps_ChangeType msg with
  | Named changeType => Some changeType
  | Unnamed _ => None
  end.

(** The controller tells of a changed schema of b, then something of a
    change type the engine has no name for, and then that the deployment
    of builtin is gone. *)
Definition S1_stream : list PullSchemaResponse :=
  [{| ps_ChangeType := Named DEPLOYMENT_CHANGED; ps_ModuleName := "b";
      ps_Schema := inl DevLoopSpec.S1_b_schema |};
   {| ps_ChangeType := Unnamed 7; ps_ModuleName := "b";
      ps_Schema := inl DevLoopSpec.S1_b_schema |};
   builtin_removed].

(** A schema for the local module b that imports a module nobody knows. *)
Definition S1_b_imported : SchemaModule := mkSchemaModule "b" ["nowhere"] "module b {}".

End SyncSpec.

Module LoopMoreSpec.
Import BuildEngine BuildMoreSpec.

(** What a run of the dev loop keeps: the controller schema and the
    listener are as before, deploys come after builds, each deploy is of
    one replica and waits for it to be online, and the flags of the
    pending builds are cleared for the modules whose deploy was started
    and for no other. *)
Definition loop_run (e e' : Engine) : Prop :=
  exists evs,
    trace e' = trace e ++ evs
    /\ controllerSchema e' = controllerSchema e
    /\ listener e' = listener e
    /\ deploys_after_builds evs
    /\ Forall (fun ev => forall m r w, ev = Call_Deploy m r w -> r = 1%Z /\ w = true) evs
    /\ forall n, modulesToBuild e' !! n
                 = if decide (n ∈ deployed evs) then Some false else modulesToBuild e !! n.

(** Dev, fed the entries its Range over the controller schema visits and
    the cases its select takes. *)
Definition Dev (W : World) (visited : list (string * SchemaModule))
    (cs : list selectCase) : M loopState :=
  s ← startLoop W visited; iterations W cs s.

(** The loop between other goroutines: it takes its cases one after the
    other, each from the engine as the others left it by then, and ends
    with the case at which it returns or with the last one.  Only the
    variables of the loop pass from one case to the next. *)
Inductive loop_reaches (W : World) : loopState -> list selectCase -> loopState -> Prop :=
| reaches_end s : loop_reaches W s [] s
| reaches_return c cs s e e1 :
    iteration W c s e = Done None e1 -> loop_reaches W s (c :: cs) s
| reaches_step c cs s e s1 e1 s2 :
    iteration W c s e = Done (Some s1) e1 -> loop_reaches W s1 cs s2 ->
    loop_reaches W s (c :: cs) s2.

(** The last visit of [name] by a Range saw the schema [sch]. *)
Definition last_visit (visited : list (string * SchemaModule)) (name : string)
    (sch : SchemaModule) : Prop :=
  exists before after, visited = before ++ (name, sch) :: after /\ name ∉ after.*1.

(** The Range of S1 visits the one schema the controller schema holds. *)
Definition S1_visited : list (string * SchemaModule) :=
  [("builtin", GraphSpec.S1_builtin)].

(** A session on scenario S1: a is changed, the timer fires, b is removed
    and the controller tells of a new schema of b. *)
Definition S1_session : list selectCase :=
  [OnWatchEvent (WatchEventModuleChanged GraphSpec.S1_a 7);
   CompletedUpdatesTimer;
   OnWatchEvent (WatchEventModuleRemoved GraphSpec.S1_b);
   OnSchemaChange {| ChangeType := DEPLOYMENT_CHANGED;
                     changed_Module := Some DevLoopSpec.S1_b_schema |}].

Definition S1_session_state : loopState :=
  match Dev DevLoopSpec.S1_world S1_visited S1_session DevLoopSpec.S1_engine with
  | Done s _ => s
  | Abort => DevLoopSpec.S1_loop
  end.

Definition S1_session_engine : Engine :=
  match Dev DevLoopSpec.S1_world S1_visited S1_session DevLoopSpec.S1_engine with
  | Done _ e => e
  | Abort => DevLoopSpec.S1_engine
  end.

(** The session without the change of the schema. *)
Definition S1_watch_session : list selectCase :=
  [OnWatchEvent (WatchEventModuleChanged GraphSpec.S1_a 7);
   CompletedUpdatesTimer;
   OnWatchEvent (WatchEventModuleRemoved GraphSpec.S1_b)].

(** The loop state and the engine of S1 after the start of the loop. *)
Definition S1_started_state : loopState :=
  match startLoop DevLoopSpec.S1_world S1_visited DevLoopSpec.S1_engine with
  | Done s _ => s
  | Abort => DevLoopSpec.S1_loop
  end.

Definition S1_started_engine : Engine :=
  match startLoop DevLoopSpec.S1_world S1_visited DevLoopSpec.S1_engine with
  | Done _ e => e
  | Abort => DevLoopSpec.S1_engine
  end.

(** The loop state of S1 after the session without the change. *)
Definition S1_watch_state : loopState :=
  match iterations DevLoopSpec.S1_world S1_watch_session S1_started_state
          S1_started_engine with
  | Done s _ => s
  | Abort => DevLoopSpec.S1_loop
  end.

End LoopMoreSpec.

Module SqlMoreSpec.
Import Sql SqlMore.

(** The denormalised column: the module name of a runner is the name of
    the module of its deployment, NULL when it has none. *)
Definition module_name_follows (module_of : Z -> option string) (t : list runner) : Prop :=
  forall r, r ∈ t -> r_module_name r = r_deployment_id r ≫= module_of.

(** A write that does not take a reserved runner and leave it reserved
    with its timeout set to NULL. *)
Definition keeps_timeout (t : list runner) (w : runner_write) : Prop :=
  match w with
  | RunnerInsert NEW => r_state NEW = reserved -> r_reservation_timeout NEW <> None
  | RunnerUpdate i set =>
      forall OLD, t !! i = Some OLD -> r_state OLD = reserved ->
                  r_state (set OLD) = reserved -> r_reservation_timeout (set OLD) <> None
  end.

(** The columns of a runner the triggers do not write. *)
Definition same_but_derived (a b : runner) : Prop :=
  r_id a = r_id b /\ r_key a = r_key b /\ r_created a = r_created b
  /\ r_last_seen a = r_last_seen b /\ r_state a = r_state b
  /\ r_endpoint a = r_endpoint b /\ r_deployment_id a = r_deployment_id b
  /\ r_labels a = r_labels b.

(** The deployments of the examples: deployment 7 is of module "echo". *)
Definition echo_deployments (d : Z) : option string :=
  if (d =? 7)%Z then Some "echo" else None.

(** An idle runner that is written with the module name "time". *)
Definition idle_runner : runner :=
  {| r_id := 1; r_key := "rnr-1"; r_created := 0; r_last_seen := 0;
     r_reservation_timeout := None; r_state := idle; r_endpoint := "http://localhost:8894";
     r_module_name := Some "time"; r_deployment_id := None; r_labels := "{}" |}.

(** UPDATE runners SET state = 'reserved', deployment_id = 7 *)
Definition reserve_for_echo (r : runner) : runner :=
  {| r_id := r_id r; r_key := r_key r; r_created := r_created r;
     r_last_seen := r_last_seen r; r_reservation_timeout := r_reservation_timeout r;
     r_state := reserved; r_endpoint := r_endpoint r;
     r_module_name := r_module_name r; r_deployment_id := Some 7%Z;
     r_labels := r_labels r |}.

End SqlMoreSpec.

Module FsmMoreSpec.
Import DalErrs FsmDal FsmDalMore.

(** The columns of the unique index of fsm_instances. *)
Definition instance_key (i : fsm_instance) : RefKey * string := (fi_fsm i, fi_key i).

(** The tables are consistent: one row for a machine and a key; a row has
    a call exactly when it has a destination; and the call of a row is a
    row of async_calls. *)
Definition consistent (d : db) : Prop :=
  NoDup (instance_key <$> fsm_instances d)
  /\ forall i, i ∈ fsm_instances d ->
       (fi_destination_state i = None <-> fi_async_call_id i = None)
       /\ forall id, fi_async_call_id i = Some id ->
                     is_Some (AsyncCalls.async_calls (queue d) !! id).

(** The call StartFSMTransition creates. *)
Definition fsm_call (now : Z) (fsm : RefKey) (key : string) (dest : RefKey)
    (request : string) (retry : RetryParams) : AsyncCalls.async_call :=
  {| AsyncCalls.created_at := now; AsyncCalls.lease_id := None;
     AsyncCalls.verb := RefKey_String dest; AsyncCalls.state := AsyncCalls.st_pending;
     AsyncCalls.origin := "fsm:" +:+ RefKey_String fsm +:+ ":" +:+ key;
     AsyncCalls.scheduled_at := now; AsyncCalls.request := request;
     AsyncCalls.response := None; AsyncCalls.error_text := None;
     AsyncCalls.remaining_attempts := int32 (Count retry);
     AsyncCalls.backoff := MinBackoff retry; AsyncCalls.max_backoff := MaxBackoff retry |}.

(** A session of the machine of scenario S2: a transition is started and
    started again, finished, started anew and the instance fails. *)
Definition S2_session : list fsm_op :=
  [OpStart 0 FsmDalSpec.S2_fsm "invoiceID" FsmDalSpec.S2_ref "{}" (mkRetryParams 3 1 10);
   OpStart 1 FsmDalSpec.S2_fsm "invoiceID" FsmDalSpec.S2_ref "{}" (mkRetryParams 3 1 10);
   OpFinish FsmDalSpec.S2_fsm "invoiceID";
   OpStart 2 FsmDalSpec.S2_fsm "invoiceID" FsmDalSpec.S2_ref "{}" (mkRetryParams 3 1 10);
   OpFail FsmDalSpec.S2_fsm "invoiceID"].

(** A lease service that grants every lease, and one that grants none. *)
Definition grant_lease (key : string) (ttl : Z) (d : db) : db * (string + error) :=
  (d, inl key).

Definition refuse_lease (key : string) (ttl : Z) (d : db) : db * (string + error) :=
  (d, inr ErrConflict).

End FsmMoreSpec.

Module KotlinGenSpec.
Import KotlinGen.

(** The field of a type message getTypeClass goes by: the first that is
    set, in the order it asks. *)
Inductive variant :=
| VInt | VFloat | VString | VBytes | VBool | VTime
| VArray | VMap | VDataRef | VOptional | VUnknown.

Definition variant_of (type : SchemaType) : variant :=
  match type with
  | mkType t_int t_float t_string t_bytes t_bool t_time t_array t_map t_dataRef t_optional =>
      if t_int then VInt else if t_float then VFloat else if t_string then VString
      else if t_bytes then VBytes else if t_bool then VBool else if t_time then VTime
      else if t_array is Some _ then VArray
      else if t_map is Some _ then VMap
      else if t_dataRef is Some _ then VDataRef
      else if t_optional is Some _ then VOptional
      else VUnknown
  end.

(** The types the generator has a class for: a scalar, a data reference,
    or an array, a map or an optional whose parts are there and are
    supported. *)
#[warnings="-register-all"]
Inductive supported : SchemaType -> Prop :=
| supported_leaf type :
    (variant_of type = VInt \/ variant_of type = VFloat \/ variant_of type = VString
     \/ variant_of type = VBytes \/ variant_of type = VBool \/ variant_of type = VTime
     \/ variant_of type = VDataRef) ->
    supported type
| supported_array a b c d e f element m r o :
    variant_of (mkType a b c d e f (Some (Some element)) m r o) = VArray ->
    supported element ->
    supported (mkType a b c d e f (Some (Some element)) m r o)
| supported_map a b c d e f arr key value r o :
    variant_of (mkType a b c d e f arr (Some (Some key, Some value)) r o) = VMap ->
    supported key -> supported value ->
    supported (mkType a b c d e f arr (Some (Some key, Some value)) r o)
| supported_optional a b c d e f arr m r wrapped :
    variant_of (mkType a b c d e f arr m r (Some (Some wrapped))) = VOptional ->
    supported wrapped ->
    supported (mkType a b c d e f arr m r (Some (Some wrapped))).

(** The types of the examples. *)
Definition no_type : SchemaType :=
  mkType false false false false false false None None None None.

Definition type_string : SchemaType :=
  mkType false false true false false false None None None None.

Definition type_optional (wrapped : SchemaType) : SchemaType :=
  mkType false false false false false false None None None (Some (Some wrapped)).

Definition type_array (element : SchemaType) : SchemaType :=
  mkType false false false false false false (Some (Some element)) None None None.

(** The formats the generator hands to KotlinPoet for a field: its
    comments and, when the field has a type, null for the default of an
    optional and its name for the initializer. *)
Definition field_formats (field : Field) : list string :=
  joinLines (f_comments field)
  :: match f_type field with
     | None => []
     | Some it => (if t_optional_of it is Some _ then ["null"] else []) ++ [f_name field]
     end.

(** The formats of a data type: its comments, those of its fields, and
    those of the parameter _empty when it has no field. *)
Definition data_formats (type : Data) : list string :=
  joinLines (data_comments type)
  :: concat (field_formats <$> data_fields type)
  ++ (if data_fields type is [] then ["Unit"; "_empty"] else []).

(** KotlinPoet refuses the format. *)
Definition refused (CodeBlock_of : string -> thrown string) (format : string) : Prop :=
  exists ex, CodeBlock_of format = inr ex.

(** What holds of the parameters and the properties of a class: the
    properties are the parameters, by name and type and in order, each
    initialised with the block of its name, and a parameter of a nullable
    type has the block of null for its default. *)
Definition mirrored (CodeBlock_of : string -> thrown string) (ts : TypeSpec) : Prop :=
  prop_name <$> ts_properties ts = param_name <$> ts_parameters ts
  /\ prop_type <$> ts_properties ts = param_type <$> ts_parameters ts
  /\ Forall (fun q => CodeBlock_of (prop_name q) = inl (prop_initializer q))
       (ts_properties ts)
  /\ Forall (fun p => isNullable (param_type p) = true ->
                      exists block, CodeBlock_of "null" = inl block
                                    /\ param_defaultValue p = Some block)
       (ts_parameters ts).

(** Whether a string has a percent sign. *)
Fixpoint has_percent (s : string) : bool :=
  match s with
  | EmptyString => false
  | String c s' => if Ascii.eqb c (Ascii.ascii_of_nat 37) then true else has_percent s'
  end.

(** An example of a format parser: a format without a percent sign is its
    own text, and every other is refused. *)
Definition plain_CodeBlock_of (format : string) : thrown string :=
  if has_percent format then inr "dangling format characters" else inl format.

(** A data type with supported field types and a percent sign in its
    comment. *)
Definition Discount : Data :=
  {| data_name := "Discount"; data_comments := ["Up to 100% off."];
     data_fields := [mkField "rate" [] (Some type_string)] |}.

(** data class EchoRequest(val name: String? = null, val tags: ArrayList<String>) *)
Definition EchoRequest : Data :=
  {| data_name := "EchoRequest"; data_comments := [];
     data_fields := [mkField "name" [] (Some (type_optional type_string));
                     mkField "tags" [] (Some (type_array type_string))] |}.

End KotlinGenSpec.

Module FtlCallSpec.
Import DalErrs FtlCall.

(** What call did to the outside is nothing, one call of the mock, or one
    call of the controller with the callee and the marshalled request. *)
Definition at_most_one_effect {Req} (effects : list (Effect Req)) : Prop :=
  (length effects <= 1)%nat.

(** A runtime for verbs from strings to strings in which "echo.echo" is
    mocked by a function that returns a number, and every other verb goes
    to a controller that answers with the request. *)
Definition echo_runtime : Runtime string string (string + Z) :=
  {| Marshal := fun req => inl req;
     BehaviorForVerb := fun callee =>
       if String.eqb callee "echo.echo"
       then inl (MockBehavior (fun _ => inl (inr 42%Z)))
       else inl StandardBehavior;
     assertResp := fun any => match any with inl s => Some s | inr _ => None end;
     typeName := fun any => match any with inl _ => "string" | inr _ => "int" end;
     TypeFor_Resp := "string";
     client_Call := fun verb body => inl (CallResponse_Body body);
     Unmarshal := fun body _ => (body, None);
     zero := "" |}.

End FtlCallSpec.

Module EngineNewSpec.
Import BuildEngine EngineNew.

(** What New leaves: the controller schema holds builtin and nothing
    else; the local modules are stored under the names of their
    configurations, never built; and the modules flagged as pending are
    the local modules. *)
Definition as_new (W : World) (e : Engine) : Prop :=
  controllerSchema e = {[ "builtin" := Builtins W ]}
  /\ (forall n meta, moduleMetas e !! n = Some meta ->
        cfg_Module (Config (module meta)) = n /\ lastBuildStartTime meta = 0%Z)
  /\ forall n, modulesToBuild e !! n = Some true <-> is_Some (moduleMetas e !! n).

(** The engine New makes of the modules of scenario S1. *)
Definition S1_new : Engine :=
  match New DevLoopSpec.S1_world (inl [GraphSpec.S1_a; GraphSpec.S1_b]) (fresh false) with
  | Done _ e => e
  | Abort => fresh false
  end.

(** The engine after module b alone was built and deployed. *)
Definition S1_new_b_deployed : Engine :=
  match BuildAndDeploy DevLoopSpec.S1_world 1 true ["b"] S1_new with
  | Done _ e => e
  | Abort => S1_new
  end.

End EngineNewSpec.

Module GatherSpec.
Import BuildEngine.

Section Gather.
Context (metas : gmap string moduleMeta).

(** The dependencies of a local module. *)
Definition deps_of (n : string) : list string :=
  match metas !! n with
  | Some meta => Dependencies (module meta)
  | None => []
  end.

(** gatherSchemas goes on from a module into a dependency that is local
    and not builtin. *)
Definition enters (a b : string) : Prop :=
  b ∈ deps_of a /\ b <> "builtin" /\ is_Some (metas !! b).

(** The names gatherSchemas writes for a module: its dependencies and
    those of the modules it goes into. *)
Definition gathered (n d : string) : Prop :=
  d ∈ deps_of n \/ exists x, tc enters n x /\ d ∈ deps_of x.

(** No local module depends on itself through local modules. *)
Definition acyclic : Prop := forall n, ~ tc enters n n.

(** The local modules are stored under the names of their
    configurations. *)
Definition keyed : Prop :=
  forall n meta, metas !! n = Some meta -> cfg_Module (Config (module meta)) = n.

End Gather.

End GatherSpec.

(* ===================================================================== *)
(** * Properties                                                          *)
(* ===================================================================== *)

Module GoStringsFacts.
Import GoStrings.

Lemma strip_prefix_app p r : strip_prefix p (p +:+ r) = Some r.
Proof.
  induction p as [|c p IH]; simpl; [reflexivity|].
  rewrite Ascii.eqb_refl. exact IH.
Qed.

Lemma HasPrefix_app p r : HasPrefix (p +:+ r) p = true.
Proof. unfold HasPrefix. now rewrite strip_prefix_app. Qed.

End GoStringsFacts.

Module DalErrsFacts.
Import GoStrings DalErrs.

Lemma errors_Is_refl e : errors_Is e e = true.
Proof. destruct e; cbn [errors_Is]; rewrite decide_True by reflexivity; reflexivity. Qed.

Lemma errors_Is_Errorf p e target :
  Errorf p e <> target -> errors_Is (Errorf p e) target = errors_Is e target.
Proof. intros Hne. cbn [errors_Is]. now rewrite decide_False. Qed.

(** A chain that ends in a "no rows" sentinel holds no Postgres error. *)
Lemma errors_Is_leaf_not_pg err target :
  (forall pe, target <> PgErr pe) -> (forall p e, target <> Errorf p e) ->
  errors_Is err target = true -> errors_As_PgError err = None.
Proof.
  intros Hpg Hwrap.
  induction err as [| | | | |pe|p inner IH|msg];
    cbn [errors_Is errors_As_PgError]; intros H; try reflexivity.
  - destruct (decide (PgErr pe = target)) as [<-|_]; [|discriminate].
    now destruct (Hpg pe).
  - destruct (decide (Errorf p inner = target)) as [<-|_]; [|now apply IH].
    now destruct (Hwrap p inner).
Qed.

Lemma IsNotFound_not_pg err : IsNotFound err = true -> errors_As_PgError err = None.
Proof.
  unfold IsNotFound. intros [H|H]%orb_true_iff;
    eapply errors_Is_leaf_not_pg; try exact H; congruence.
Qed.

Lemma code_cases (c : string) :
  c = ForeignKeyViolation \/ c = UniqueViolation \/ constraint_code c \/
  (String.eqb c ForeignKeyViolation = false /\ String.eqb c UniqueViolation = false /\
   (String.eqb c IntegrityConstraintViolation || String.eqb c RestrictViolation
    || String.eqb c NotNullViolation || String.eqb c CheckViolation
    || String.eqb c ExclusionViolation) = false).
Proof.
  unfold constraint_code.
  destruct (String.eqb_spec c ForeignKeyViolation); [tauto|].
  destruct (String.eqb_spec c UniqueViolation); [tauto|].
  destruct (String.eqb_spec c IntegrityConstraintViolation); [tauto|].
  destruct (String.eqb_spec c RestrictViolation); [tauto|].
  destruct (String.eqb_spec c NotNullViolation); [tauto|].
  destruct (String.eqb_spec c CheckViolation); [tauto|].
  destruct (String.eqb_spec c ExclusionViolation); [tauto|].
  right; right; right. auto.
Qed.

(** C3.  [TranslatePGError] maps a foreign-key violation to an error that
    wraps [ErrNotFound] and whose message begins with the constraint stem,
    a unique violation to an error that wraps [ErrConflict], each of the
    integrity, restrict, not-null, check and exclusion violations to an
    error that wraps [ErrConstraint], a "no rows" error to [ErrNotFound]
    itself, and gives back every other error, and nil, as it came. *)
Theorem TranslatePGError_taxonomy :
  (forall err pe,
      errors_As_PgError err = Some pe -> Code pe = ForeignKeyViolation ->
      exists e, TranslatePGError (Some err) = Some e
                /\ errors_Is e ErrNotFound = true
                /\ Error e = constraint_stem pe +:+ ": not found")
  /\ (forall err pe,
      errors_As_PgError err = Some pe -> Code pe = UniqueViolation ->
      exists e, TranslatePGError (Some err) = Some e
                /\ errors_Is e ErrConflict = true
                /\ Error e = Message pe +:+ ": conflict")
  /\ (forall err pe,
      errors_As_PgError err = Some pe -> constraint_code (Code pe) ->
      exists e, TranslatePGError (Some err) = Some e
                /\ errors_Is e ErrConstraint = true
                /\ Error e = Message pe +:+ ": constraint violation")
  /\ (forall err, IsNotFound err = true -> TranslatePGError (Some err) = Some ErrNotFound)
  /\ (forall err, ~ has_rule err -> TranslatePGError (Some err) = Some err)
  /\ TranslatePGError None = None.
Proof.
  repeat split.
  - intros err pe Has Hc. unfold TranslatePGError. rewrite Has, Hc. simpl.
    eexists; repeat split; reflexivity.
  - intros err pe Has Hc. unfold TranslatePGError. rewrite Has, Hc. simpl.
    eexists; repeat split; reflexivity.
  - intros err pe Has Hc. unfold TranslatePGError. rewrite Has.
    destruct Hc as [Hc|[Hc|[Hc|[Hc|Hc]]]]; rewrite Hc; simpl;
      eexists; repeat split; reflexivity.
  - intros err H. unfold TranslatePGError.
    now rewrite (IsNotFound_not_pg err H), H.
  - intros err Hno. unfold TranslatePGError.
    destruct (errors_As_PgError err) as [pe|] eqn:Has.
    + destruct (code_cases (Code pe)) as [Hc|[Hc|[Hc|(H1 & H2 & H3)]]].
      * destruct Hno. left. exists pe. unfold translated_code. auto.
      * destruct Hno. left. exists pe. unfold translated_code. auto.
      * destruct Hno. left. exists pe. unfold translated_code. auto.
      * now rewrite H1, H2, H3.
    + destruct (IsNotFound err) eqn:Hnf; [|reflexivity].
      destruct Hno. now right.
Qed.

(** The taxonomy at a foreign-key violation on [runners], a wrapped
    unique violation, a check violation, pgx's "no rows", and an error
    without a rule. *)
Lemma TranslatePGError_taxonomy_witness :
  (exists e,
      TranslatePGError
        (Some (PgErr (mkPgError "ERROR" "23503" "insert or update violates foreign key"
                                "runners" "runners_deployment_id_fkey"))) = Some e
      /\ errors_Is e ErrNotFound = true
      /\ Error e = "deployment: not found")
  /\ (exists e,
      TranslatePGError
        (Some (Errorf "exec" (PgErr (mkPgError "ERROR" "23505" "duplicate key" "runners"
                                               "runners_key")))) = Some e
      /\ errors_Is e ErrConflict = true
      /\ Error e = "duplicate key: conflict")
  /\ (exists e,
      TranslatePGError
        (Some (PgErr (mkPgError "ERROR" "23514" "check failed" "t" "c"))) = Some e
      /\ errors_Is e ErrConstraint = true
      /\ Error e = "check failed: constraint violation")
  /\ TranslatePGError (Some (Errorf "load" PgxErrNoRows)) = Some ErrNotFound
  /\ TranslatePGError (Some (Opaque "connection refused")) = Some (Opaque "connection refused").
Proof.
  destruct TranslatePGError_taxonomy as (Hfk & Huq & Hck & Hnr & Hother & _).
  split; [|split; [|split; [|split]]].
  - apply (Hfk _ (mkPgError "ERROR" "23503" "insert or update violates foreign key"
                            "runners" "runners_deployment_id_fkey")); reflexivity.
  - apply (Huq _ (mkPgError "ERROR" "23505" "duplicate key" "runners" "runners_key"));
      reflexivity.
  - apply (Hck _ (mkPgError "ERROR" "23514" "check failed" "t" "c")); [reflexivity|].
    right; right; right; left; reflexivity.
  - apply Hnr. reflexivity.
  - apply Hother. intros [(pe & Has & _)|Hnf]; discriminate.
Defined.

End DalErrsFacts.

Module SqlFacts.
Import DalErrs Sql SqlSpec.

Lemma covered_app t u : covered (t ++ u) = covered t ++ covered u.
Proof. unfold covered. now rewrite filter_app, fmap_app. Qed.

Lemma elem_of_covered m t :
  m ∈ covered t <-> exists d, d ∈ t /\ d_module_id d = m /\ (0 < d_min_replicas d)%Z.
Proof.
  unfold covered. rewrite list_elem_of_fmap. split.
  - intros (d & -> & Hd). apply list_elem_of_filter in Hd as [Hi Hd].
    exists d. unfold indexed in Hi. apply Z.ltb_lt in Hi. auto.
  - intros (d & Hd & <- & Hpos). exists d. split; [reflexivity|].
    apply list_elem_of_filter. split; [|assumption].
    unfold indexed. now apply Z.ltb_lt.
Qed.

Lemma unique_idx_NoDup t : deployments_unique_idx t = true <-> NoDup (covered t).
Proof. unfold deployments_unique_idx. apply bool_decide_eq_true. Qed.

(** The index, a test on the table, is invariant 1. *)
Lemma unique_idx_iff t : deployments_unique_idx t = true <-> one_active_per_module t.
Proof.
  rewrite unique_idx_NoDup. unfold one_active_per_module.
  induction t as [|a t IH].
  - split; [intros _ i j di dj H; now rewrite lookup_nil in H | constructor].
  - change (a :: t) with ([a] ++ t) at 1. rewrite covered_app.
    destruct (decide (0 < d_min_replicas a)%Z) as [Ha|Ha].
    + assert (covered [a] = [d_module_id a]) as ->.
      { unfold covered. rewrite filter_cons_True; [reflexivity|].
        unfold indexed. now apply Z.ltb_lt. }
      simpl. rewrite NoDup_cons, IH. split.
      * intros [Hnin Ht] i j di dj Hi Hj Hm Hpi Hpj.
        destruct i as [|i], j as [|j]; simpl in *; try reflexivity.
        -- injection Hi as <-. destruct Hnin. rewrite Hm.
           apply elem_of_covered. exists dj. split; [|auto].
           now apply list_elem_of_lookup_2 in Hj.
        -- injection Hj as <-. destruct Hnin. rewrite <- Hm.
           apply elem_of_covered. exists di. split; [|auto].
           now apply list_elem_of_lookup_2 in Hi.
        -- f_equal. eapply Ht; eauto.
      * intros H. split.
        -- intros (d & Hd & Hm & Hpos)%elem_of_covered.
           apply list_elem_of_lookup_1 in Hd as [j Hj].
           specialize (H 0 (S j) a d eq_refl Hj (eq_sym Hm) Ha Hpos). discriminate.
        -- intros i j di dj Hi Hj Hm Hpi Hpj.
           specialize (H (S i) (S j) di dj Hi Hj Hm Hpi Hpj). now injection H.
    + assert (covered [a] = []) as ->.
      { unfold covered. rewrite filter_cons_False; [reflexivity|].
        unfold indexed. rewrite Z.ltb_lt. exact Ha. }
      simpl. rewrite IH. split.
      * intros Ht i j di dj Hi Hj Hm Hpi Hpj.
        destruct i as [|i], j as [|j]; simpl in *; try reflexivity.
        -- injection Hi as <-. contradiction.
        -- injection Hj as <-. contradiction.
        -- f_equal. eapply Ht; eauto.
      * intros H i j di dj Hi Hj Hm Hpi Hpj.
        specialize (H (S i) (S j) di dj Hi Hj Hm Hpi Hpj). now injection H.
Qed.

(** Two covered rows of one module at different places of a table break
    the index. *)
Lemma unique_idx_two_active (pre post : list deployment) (d1 d2 : deployment) :
  d2 ∈ pre ++ post ->
  d_module_id d1 = d_module_id d2 ->
  (0 < d_min_replicas d1)%Z -> (0 < d_min_replicas d2)%Z ->
  deployments_unique_idx (pre ++ d1 :: post) = false.
Proof.
  intros Hin Hm H1 H2. apply not_true_is_false. rewrite unique_idx_iff.
  intros Huniq. apply elem_of_app in Hin as [Hin|Hin].
  - apply list_elem_of_lookup_1 in Hin as [j Hj].
    assert (j < length pre) as Hlt by (eapply lookup_lt_Some; eauto).
    specialize (Huniq (length pre) j d1 d2).
    rewrite lookup_app_r, Nat.sub_diag in Huniq by lia.
    rewrite lookup_app_l in Huniq by lia.
    specialize (Huniq eq_refl Hj Hm H1 H2). lia.
  - apply list_elem_of_lookup_1 in Hin as [j Hj].
    specialize (Huniq (length pre) (length pre + S j) d1 d2).
    rewrite lookup_app_r, Nat.sub_diag in Huniq by lia.
    rewrite lookup_app_r in Huniq by lia.
    replace (length pre + S j - length pre) with (S j) in Huniq by lia.
    specialize (Huniq eq_refl Hj Hm H1 H2). lia.
Qed.

Lemma update_rows_ok matches set visited todo t' :
  deployments_unique_idx (visited ++ todo) = true ->
  update_rows matches set visited todo = inl t' ->
  deployments_unique_idx t' = true.
Proof.
  revert visited. induction todo as [|d rest IH]; intros visited Hidx; simpl.
  - intros [= <-]. now rewrite app_nil_r in Hidx.
  - destruct (matches d).
    + destruct (deployments_unique_idx (visited ++ set d :: rest)) eqn:Hchk; [|discriminate].
      apply IH. now rewrite <- app_assoc.
    + apply IH. now rewrite <- app_assoc.
Qed.

Lemma update_rows_err matches set visited todo pe :
  update_rows matches set visited todo = inr pe -> pe = unique_violation.
Proof.
  revert visited. induction todo as [|d rest IH]; intros visited; simpl; [discriminate|].
  destruct (matches d).
  - destruct (deployments_unique_idx (visited ++ set d :: rest)); [apply IH|].
    now intros [= <-].
  - apply IH.
Qed.

(** An update that would make [d1] a second covered row of the module of
    an untouched covered row [d2] fails. *)
Lemma update_rows_conflict matches set visited todo d1 d2 :
  d1 ∈ todo -> matches d1 = true ->
  d2 ∈ visited ++ todo -> matches d2 = false ->
  d_module_id (set d1) = d_module_id d2 ->
  (0 < d_min_replicas (set d1))%Z -> (0 < d_min_replicas d2)%Z ->
  update_rows matches set visited todo = inr unique_violation.
Proof.
  intros H1 Hm1 H2 Hm2 Hmod Hp1 Hp2. revert visited H1 H2.
  induction todo as [|d rest IH]; intros visited H1 H2; [inversion H1|].
  simpl. apply elem_of_cons in H1 as [<-|H1].
  - rewrite Hm1.
    rewrite (unique_idx_two_active visited rest (set d1) d2); auto.
    apply elem_of_app in H2 as [H2|H2]; apply elem_of_app; [now left|].
    apply elem_of_cons in H2 as [->|H2]; [congruence|now right].
  - destruct (matches d) eqn:Hmd.
    + destruct (deployments_unique_idx (visited ++ set d :: rest)); [|reflexivity].
      apply IH; [assumption|].
      apply elem_of_app in H2 as [H2|H2].
      * apply elem_of_app. left. apply elem_of_app. now left.
      * apply elem_of_cons in H2 as [->|H2]; [congruence|].
        apply elem_of_app. now right.
    + apply IH; [assumption|]. now rewrite <- app_assoc.
Qed.

Lemma delete_keeps_idx matches t :
  NoDup (covered t) -> NoDup (covered (filter (fun d => matches d = false) t)).
Proof.
  induction t as [|a t IH]; [intros _; constructor|].
  change (a :: t) with ([a] ++ t). rewrite filter_app, !covered_app.
  rewrite !NoDup_app. intros (Ha & Hdisj & Ht).
  destruct (matches a) eqn:Hm.
  - rewrite filter_cons_False by (rewrite Hm; discriminate).
    rewrite filter_nil. repeat split; [constructor|intros x Hx; inversion Hx|auto].
  - rewrite filter_cons_True by exact Hm. rewrite filter_nil.
    repeat split; [assumption| |auto].
    intros x Hx Hin. apply (Hdisj x Hx).
    apply elem_of_covered in Hin as (d & Hd & Hmd & Hp).
    apply elem_of_covered. exists d. repeat split; auto.
    apply list_elem_of_filter in Hd. tauto.
Qed.

(** A statement commits a table the index accepts, or fails with a unique
    violation. *)
Lemma exec_sound s t :
  deployments_unique_idx t = true ->
  match exec s t with
  | inl t' => deployments_unique_idx t' = true
  | inr pe => pe = unique_violation
  end.
Proof.
  intros Hidx. destruct s as [d|matches set|matches]; simpl.
  - unfold sql_insert. destruct (deployments_unique_idx (t ++ [d])) eqn:H; auto.
  - unfold sql_update. destruct (update_rows matches set [] t) as [t'|pe] eqn:H.
    + eapply update_rows_ok; [|exact H]. exact Hidx.
    + eapply update_rows_err; eauto.
  - apply unique_idx_NoDup, delete_keeps_idx. now apply unique_idx_NoDup.
Qed.

Lemma unique_violation_is_conflict :
  exists e, TranslatePGError (Some (PgErr unique_violation)) = Some e
            /\ errors_Is e ErrConflict = true.
Proof. eexists. split; reflexivity. Qed.

Lemma dal_exec_keeps_idx s t :
  deployments_unique_idx t = true -> deployments_unique_idx (dal_exec s t).1 = true.
Proof.
  intros Hidx. pose proof (exec_sound s t Hidx) as Hs. unfold dal_exec.
  destruct (exec s t) as [t'|pe]; [exact Hs|exact Hidx].
Qed.

Lemma dal_run_keeps_idx stmts t :
  deployments_unique_idx t = true -> deployments_unique_idx (dal_run stmts t) = true.
Proof.
  revert t. induction stmts as [|s stmts IH]; intros t Hidx; simpl; [exact Hidx|].
  apply IH, dal_exec_keeps_idx, Hidx.
Qed.

(** C1.  After any sequence of DAL writes on the empty table, at most one
    deployment per module is active.  On such a table every DAL write
    either commits a table that still has at most one active deployment
    per module, or fails with a conflict and leaves the table as it was;
    and setting a positive [min_replicas] on a deployment while another
    deployment of its module is active is such a failure. *)
Theorem one_active_deployment_per_module :
  (forall stmts, one_active_per_module (dal_run stmts []))
  /\ (forall t s,
        one_active_per_module t ->
        (exists t', dal_exec s t = (t', None) /\ one_active_per_module t')
        \/ (exists e, dal_exec s t = (t, Some e) /\ errors_Is e ErrConflict = true))
  /\ (forall t d1 d2 n,
        d1 ∈ t -> d2 ∈ t -> d_key d1 <> d_key d2 ->
        d_module_id d1 = d_module_id d2 ->
        (0 < d_min_replicas d2)%Z -> (0 < n)%Z ->
        exists e, dal_exec (SetDeploymentDesiredReplicas (d_key d1) n) t = (t, Some e)
                  /\ errors_Is e ErrConflict = true).
Proof.
  split; [|split].
  - intros stmts. apply unique_idx_iff, dal_run_keeps_idx. reflexivity.
  - intros t s Hinv. apply unique_idx_iff in Hinv.
    pose proof (exec_sound s t Hinv) as Hs. unfold dal_exec.
    destruct (exec s t) as [t'|pe].
    + left. exists t'. split; [reflexivity|]. now apply unique_idx_iff.
    + right. subst pe. destruct unique_violation_is_conflict as (e & He & Hc).
      exists e. now rewrite He.
  - intros t d1 d2 n H1 H2 Hkey Hmod Hp2 Hn.
    unfold dal_exec, SetDeploymentDesiredReplicas, exec, sql_update.
    rewrite (update_rows_conflict _ _ [] t d1 d2); auto.
    + destruct unique_violation_is_conflict as (e & He & Hc).
      exists e. now rewrite He.
    + apply String.eqb_refl.
    + apply String.eqb_neq. congruence.
Qed.

Lemma S4_ReplaceDeployment :
  dal_exec (ReplaceDeployment "m-aaaa" "m-bbbb" 2) [S4_d1; S4_d2]
  = ([set_min_replicas 0 S4_d1; set_min_replicas 2 S4_d2], None).
Proof. reflexivity. Qed.

Lemma S4_dal_run : dal_run S4_writes [] = S4_replaced.
Proof. reflexivity. Qed.

(** After the replace of S4, setting [min_replicas = 1] on d1 is a
    conflict and both rows stay as they are. *)
Lemma one_active_deployment_per_module_witness :
  one_active_per_module (dal_run S4_writes [])
  /\ exists e, dal_exec (SetDeploymentDesiredReplicas "m-aaaa" 1) S4_replaced
               = (S4_replaced, Some e)
               /\ errors_Is e ErrConflict = true.
Proof.
  destruct one_active_deployment_per_module as (Hrun & _ & Hset).
  split; [apply Hrun|].
  apply (Hset S4_replaced (set_min_replicas 0 S4_d1) (set_min_replicas 2 S4_d2) 1%Z).
  - apply elem_of_cons. now left.
  - apply elem_of_cons. right. apply elem_of_cons. now left.
  - discriminate.
  - reflexivity.
  - reflexivity.
  - reflexivity.
Defined.

(** The part of the reservation trigger that works: an UPDATE that takes
    a runner from another state into [reserved] without a timeout gets
    the default of two minutes. *)
Lemma reservation_timeout_on_update now OLD NEW :
  r_state OLD <> reserved -> r_state NEW = reserved ->
  r_reservation_timeout NEW = None ->
  r_reservation_timeout (runners_set_reservation_timeout now (Some OLD) NEW)
  = Some (now + two_minutes)%Z.
Proof.
  intros Hold Hnew Hnull. unfold runners_set_reservation_timeout.
  rewrite Hnew, Hnull. simpl. unfold sql_neq, sql_eq. simpl.
  rewrite bool_decide_eq_false_2 by exact Hold. reflexivity.
Qed.

(** A condition with a NULL first operand never takes the IF. *)
Lemma null_condition_not_taken (a b : option bool) :
  plpgsql_if (sql_and (sql_and None a) b) = false.
Proof. destruct a as [[|]|], b as [[|]|]; reflexivity. Qed.

(** C8, as the code has it.  On an INSERT the OLD record is NULL, the
    comparison [OLD.state != 'reserved'] is NULL and the IF is not taken:
    the trigger returns every inserted row as it came, so a runner
    inserted in state [reserved] without a timeout keeps a NULL timeout
    and invariant 4 fails for the table. *)
Theorem reservation_trigger_skips_insert :
  (forall now NEW, runners_set_reservation_timeout now None NEW = NEW)
  /\ (forall module_of now,
        runners_insert module_of now reserved_runner [] = [reserved_runner])
  /\ ~ reserved_has_timeout [reserved_runner].
Proof.
  split; [|split].
  - intros now NEW. unfold runners_set_reservation_timeout.
    change (sql_neq (r_state <$> None) (Some reserved)) with (@None bool).
    now rewrite null_condition_not_taken.
  - reflexivity.
  - intros H. apply (H reserved_runner); [apply elem_of_cons; now left|reflexivity|reflexivity].
Qed.

End SqlFacts.

Module AsyncCallsFacts.
Import DalErrs AsyncCalls AsyncCallsSpec.

Lemma well_formed_empty : well_formed empty_db.
Proof. intros k [c Hc]. simpl in Hc. now rewrite lookup_empty in Hc. Qed.

Lemma earliest_elem best rows : earliest best rows ∈ best :: rows.
Proof.
  revert best. induction rows as [|r rows IH]; intros best; simpl.
  - apply elem_of_cons. now left.
  - specialize (IH (if earlier best r then best else r)).
    apply elem_of_cons in IH as [IH|IH].
    + rewrite IH. destruct (earlier best r).
      * apply elem_of_cons. now left.
      * apply elem_of_cons. right. apply elem_of_cons. now left.
    + apply elem_of_cons. right. apply elem_of_cons. now right.
Qed.

(** What Acquire selects is an eligible row of the table. *)
Lemma select_call_eligible now calls id c :
  select_call now calls = Some (id, c) ->
  calls !! id = Some c /\ eligible now c = true.
Proof.
  unfold select_call.
  destruct (filter (fun r => eligible now r.2 = true) (map_to_list calls))
    as [|r rows] eqn:Hf; [discriminate|].
  intros [= Hsel].
  pose proof (earliest_elem r rows) as Hin. rewrite Hsel, <- Hf in Hin.
  apply list_elem_of_filter in Hin as [Hel Hin]. simpl in Hel.
  apply elem_of_map_to_list in Hin. auto.
Qed.

Lemma eligible_not_error now c : state c = st_error -> eligible now c = false.
Proof. intros H. unfold eligible. rewrite H. reflexivity. Qed.

Lemma acquired_not_error c : state c = st_error -> acquired c = false.
Proof. intros H. unfold acquired. rewrite H. reflexivity. Qed.

Lemma state_clear_lease gone c : state (clear_lease gone c) = state c.
Proof. unfold clear_lease. destruct (lease_id c) as [l|]; [destruct (gone l)|]; reflexivity. Qed.

Lemma delete_leases_keys gone d k :
  is_Some (async_calls (delete_leases gone d) !! k) <-> is_Some (async_calls d !! k).
Proof. unfold delete_leases. simpl. rewrite lookup_fmap. apply fmap_is_Some. Qed.

Lemma step_well_formed o d : well_formed d -> well_formed (step o d).
Proof.
  intros Hwf. destruct o as [v og rq t n b mb|now ttl uuid|id now r|lid|now]; simpl.
  - intros k. simpl. destruct (decide (next_call_id d = k)) as [<-|Hne].
    + intros _. lia.
    + rewrite lookup_insert_ne by exact Hne. intros H%Hwf. lia.
  - unfold Acquire. destruct (select_call now (async_calls d)) as [[id c]|] eqn:Hsel;
      [|exact Hwf].
    apply select_call_eligible in Hsel as [Hc _].
    intros k. simpl. destruct (decide (id = k)) as [<-|Hne].
    + intros _. apply Hwf. now rewrite Hc.
    + rewrite lookup_insert_ne by exact Hne. apply Hwf.
  - unfold Complete. destruct (async_calls d !! id) as [c|] eqn:Hc; [|exact Hwf].
    destruct (acquired c); [|exact Hwf].
    intros k. simpl. destruct (decide (id = k)) as [<-|Hne].
    + intros _. apply Hwf. now rewrite Hc.
    + rewrite lookup_insert_ne by exact Hne. apply Hwf.
  - intros k H. apply delete_leases_keys in H. now apply Hwf.
  - intros k H. apply delete_leases_keys in H. now apply Hwf.
Qed.

Lemma run_well_formed ops d : well_formed d -> well_formed (run ops d).
Proof.
  revert d. induction ops as [|o ops IH]; intros d Hwf; simpl; [exact Hwf|].
  apply IH, step_well_formed, Hwf.
Qed.

(** No operation takes a call out of [error], and no Acquire returns it. *)
Lemma step_in_error o d id :
  well_formed d -> in_error id d ->
  in_error id (step o d) /\ acquires o d <> Some id.
Proof.
  intros Hwf (c & Hc & Hst).
  destruct o as [v og rq t n b mb|now ttl uuid|id' now r|lid|now]; simpl.
  - split; [|discriminate]. exists c. split; [|exact Hst].
    unfold Enqueue. cbn [fst async_calls].
    rewrite lookup_insert_ne; [exact Hc|].
    assert (id < next_call_id d)%Z by (apply Hwf; now rewrite Hc). lia.
  - unfold Acquire. destruct (select_call now (async_calls d)) as [[id' c']|] eqn:Hsel.
    + apply select_call_eligible in Hsel as [Hc' Hel]. simpl.
      assert (id' <> id) as Hne.
      { intros ->. rewrite Hc in Hc'. injection Hc' as <-.
        rewrite (eligible_not_error now c Hst) in Hel. discriminate. }
      split; [|congruence]. exists c. split; [|exact Hst].
      cbn [fst async_calls]. now rewrite lookup_insert_ne.
    + simpl. split; [|discriminate]. now exists c.
  - split; [|discriminate]. unfold Complete.
    destruct (async_calls d !! id') as [c'|] eqn:Hc'; [|now exists c].
    destruct (acquired c') eqn:Hacq; [|now exists c].
    assert (id' <> id) as Hne.
    { intros ->. rewrite Hc in Hc'. injection Hc' as <-.
      rewrite (acquired_not_error c Hst) in Hacq. discriminate. }
    exists c. split; [|exact Hst]. cbn [fst with_calls async_calls].
    now rewrite lookup_insert_ne.
  - split; [|discriminate]. eexists. split.
    + unfold ReleaseLease, delete_leases. simpl. rewrite lookup_fmap, Hc. reflexivity.
    + now rewrite state_clear_lease.
  - split; [|discriminate]. eexists. split.
    + unfold ExpireLeases, delete_leases. simpl. rewrite lookup_fmap, Hc. reflexivity.
    + now rewrite state_clear_lease.
Qed.

Lemma run_in_error ops d id :
  well_formed d -> in_error id d ->
  in_error id (run ops d) /\ id ∉ acquired_ids ops d.
Proof.
  revert d. induction ops as [|o ops IH]; intros d Hwf Herr; simpl.
  - split; [exact Herr|]. intros H. inversion H.
  - destruct (step_in_error o d id Hwf Herr) as [Herr' Hacq].
    destruct (IH (step o d) (step_well_formed o d Hwf) Herr') as [Hrun Hnot].
    split; [exact Hrun|].
    destruct (acquires o d) as [id'|] eqn:Ha; [|exact Hnot].
    intros [->|H]%elem_of_cons; [now destruct Hacq|now destruct Hnot].
Qed.

(** How a failed Complete leaves an acquired call. *)
Lemma Complete_failed d id c now err :
  async_calls d !! id = Some c -> acquired c = true ->
  Complete id now (Failed err) d
  = (with_calls d (<[id := completed now (Failed err) c]> (async_calls d)), None).
Proof. intros Hc Hacq. unfold Complete. now rewrite Hc, Hacq. Qed.

(** C4.  A failed Complete of an acquired call that has attempts left
    puts it back to [pending], scheduled at now plus its backoff, with the
    backoff doubled up to [max_backoff], one attempt less and no lease;
    with no attempt left it puts the call in [error]; and from then on, in
    every run of queue operations, the call stays in [error] and no
    Acquire returns it. *)
Theorem complete_with_failure :
  (forall d id c now err,
      async_calls d !! id = Some c -> acquired c = true ->
      (0 < remaining_attempts c)%Z ->
      exists d' c',
        Complete id now (Failed err) d = (d', None)
        /\ async_calls d' !! id = Some c'
        /\ state c' = st_pending
        /\ scheduled_at c' = (now + backoff c)%Z
        /\ backoff c' = Z.min (backoff c * 2) (max_backoff c)
        /\ (backoff c' <= max_backoff c)%Z
        /\ remaining_attempts c' = (remaining_attempts c - 1)%Z
        /\ lease_id c' = None)
  /\ (forall d id c now err,
      well_formed d ->
      async_calls d !! id = Some c -> acquired c = true ->
      remaining_attempts c = 0%Z ->
      exists d',
        Complete id now (Failed err) d = (d', None)
        /\ in_error id d'
        /\ forall ops, in_error id (run ops d') /\ id ∉ acquired_ids ops d').
Proof.
  split.
  - intros d id c now err Hc Hacq Hrem.
    exists (with_calls d (<[id := completed now (Failed err) c]> (async_calls d))).
    exists (completed now (Failed err) c).
    rewrite (Complete_failed d id c now err Hc Hacq).
    split; [reflexivity|]. split; [simpl; apply lookup_insert_eq|].
    unfold completed. apply Z.ltb_lt in Hrem. rewrite Hrem. simpl.
    repeat split. lia.
  - intros d id c now err Hwf Hc Hacq Hrem.
    exists (with_calls d (<[id := completed now (Failed err) c]> (async_calls d))).
    rewrite (Complete_failed d id c now err Hc Hacq).
    split; [reflexivity|].
    assert (in_error id
              (with_calls d (<[id := completed now (Failed err) c]> (async_calls d))))
      as Herr.
    { exists (completed now (Failed err) c). split; [simpl; apply lookup_insert_eq|].
      unfold completed. rewrite Hrem. reflexivity. }
    split; [exact Herr|]. intros ops. apply run_in_error; [|exact Herr].
    pose proof (step_well_formed (OpComplete id now (Failed err)) d Hwf) as H.
    simpl in H. now rewrite (Complete_failed d id c now err Hc Hacq) in H.
Qed.

(** The three acquires of S6 return call 1 with 2, 1 and 0 attempts left
    and backoffs 10, 20 and 40; before its time the call is not handed
    out. *)
Lemma S6_acquires :
  (exists c, (Acquire 0 5000 "lease-1" S6_enqueued).2 = inl (1%Z, c)
             /\ remaining_attempts c = 2%Z /\ backoff c = 10%Z)
  /\ (Acquire 9 5000 "lease-2" S6_failed1).2 = inr ErrNotFound
  /\ (exists c, (Acquire 10 5000 "lease-2" S6_failed1).2 = inl (1%Z, c)
                /\ remaining_attempts c = 1%Z /\ backoff c = 20%Z)
  /\ (exists c, (Acquire 30 5000 "lease-3" S6_failed2).2 = inl (1%Z, c)
                /\ remaining_attempts c = 0%Z)
  /\ (Acquire 1000000 5000 "lease-4" S6_failed3).2 = inr ErrNotFound.
Proof.
  split; [eexists; split; [vm_compute; reflexivity|split; reflexivity]|].
  split; [vm_compute; reflexivity|].
  split; [eexists; split; [vm_compute; reflexivity|split; reflexivity]|].
  split; [eexists; split; [vm_compute; reflexivity|reflexivity]|].
  vm_compute; reflexivity.
Qed.

Lemma S6_well_formed : well_formed S6_acquired3.
Proof.
  change S6_acquired3 with
    (run [OpEnqueue "m.v" "cron:m.v" "{}" 0 2 10 1000; OpAcquire 0 5000 "lease-1";
          OpComplete 1 0 (Failed "boom"); OpAcquire 10 5000 "lease-2";
          OpComplete 1 10 (Failed "boom"); OpAcquire 30 5000 "lease-3"] empty_db).
  apply run_well_formed, well_formed_empty.
Qed.

(** The first failure of S6 reschedules the call at 10 with backoff 20 and
    one attempt left; the third, with no attempt left, ends in [error] and
    a later Acquire finds nothing. *)
Lemma complete_with_failure_witness :
  (exists d' c',
      Complete 1 0 (Failed "boom") S6_acquired1 = (d', None)
      /\ async_calls d' !! 1%Z = Some c'
      /\ state c' = st_pending
      /\ scheduled_at c' = 10%Z
      /\ backoff c' = 20%Z
      /\ remaining_attempts c' = 1%Z
      /\ lease_id c' = None)
  /\ (exists d',
      Complete 1 30 (Failed "boom") S6_acquired3 = (d', None)
      /\ in_error 1 d'
      /\ 1%Z ∉ acquired_ids [OpExpireLeases 6000; OpAcquire 6000 5000 "lease-4"] d').
Proof.
  destruct complete_with_failure as [Hretry Hterminal]. split.
  - destruct (Hretry S6_acquired1 1%Z
                (set_executing 1 (mkAsyncCall 0 None "m.v" st_pending "cron:m.v" 0 "{}"
                                              None None 2 10 1000))
                0%Z "boom") as (d' & c' & HC & Hc' & Hst & Hsch & Hb & _ & Hrem & Hl);
      [vm_compute; reflexivity|reflexivity|reflexivity|].
    exists d', c'. repeat split; assumption.
  - destruct (Hterminal S6_acquired3 1%Z
                (set_executing 3 (mkAsyncCall 0 None "m.v" st_pending "cron:m.v" 30 "{}"
                                              None None 0 40 1000))
                30%Z "boom") as (d' & HC & Herr & Hnever);
      [exact S6_well_formed|vm_compute; reflexivity|reflexivity|reflexivity|].
    exists d'. split; [exact HC|]. split; [exact Herr|]. apply Hnever.
Defined.

End AsyncCallsFacts.

Module FsmDalFacts.
Import GoStrings DalErrs FsmDal FsmDalSpec.

Lemma find_app_None {A} (p : A -> bool) l x :
  List.find p l = None -> p x = true -> List.find p (l ++ [x]) = Some x.
Proof.
  induction l as [|a l IH]; simpl; intros Hl Hx; [now rewrite Hx|].
  destruct (p a); [discriminate|]. now apply IH.
Qed.

Lemma find_fmap_if {A} (p : A -> bool) (f : A -> A) l :
  (forall x, p (f x) = p x) ->
  List.find p ((fun x => if p x then f x else x) <$> l) = f <$> List.find p l.
Proof.
  intros Hp. induction l as [|a l IH]; simpl; [reflexivity|].
  destruct (p a) eqn:Ha.
  - now rewrite Hp, Ha.
  - now rewrite Ha.
Qed.

Lemma is_instance_refl fsm key i :
  fi_fsm i = fsm -> fi_key i = key -> is_instance fsm key i = true.
Proof.
  intros <- <-. unfold is_instance.
  rewrite bool_decide_eq_true_2 by reflexivity. apply String.eqb_refl.
Qed.

Lemma is_instance_start fsm key dest call i :
  is_instance fsm key (start_transition dest call i) = is_instance fsm key i.
Proof. reflexivity. Qed.

(** The row the upsert leaves for [(fsm, key)] when the instance was
    absent or idle has a transition in flight. *)
Lemma query_StartFSMTransition_idle now fsm key dest call d :
  idle_or_absent fsm key d ->
  exists d' row,
    query_StartFSMTransition now (mkStartFSMTransitionParams fsm key dest call) d
    = (d', inl row)
    /\ find_instance fsm key d' = Some row
    /\ fi_destination_state row = Some dest
    /\ fi_async_call_id row = Some call.
Proof.
  unfold idle_or_absent, query_StartFSMTransition. simpl.
  destruct (find_instance fsm key d) as [i|] eqn:Hfind.
  - intros Hidle. rewrite Hidle. eexists _, _. split; [reflexivity|].
    split; [|split; reflexivity].
    unfold find_instance, replace_instance in *. simpl.
    rewrite find_fmap_if by (intros x; apply is_instance_start).
    now rewrite Hfind.
  - intros _. eexists _, _. split; [reflexivity|].
    split; [|split; reflexivity].
    unfold find_instance in *. simpl.
    apply find_app_None; [exact Hfind|]. now apply is_instance_refl.
Qed.

Lemma query_StartFSMTransition_in_flight now fsm key dest call d :
  in_flight fsm key d ->
  query_StartFSMTransition now (mkStartFSMTransitionParams fsm key dest call) d
  = (d, inr PgxErrNoRows).
Proof.
  intros (i & Hfind & Hdest). unfold query_StartFSMTransition. simpl.
  rewrite Hfind. destruct (fi_destination_state i); [reflexivity|contradiction].
Qed.

Lemma CreateAsyncCall_instances now arg d :
  exists d1 id, CreateAsyncCall now arg d = (d1, inl id)
                /\ fsm_instances d1 = fsm_instances d.
Proof. eexists _, _. split; reflexivity. Qed.

Lemma find_instance_ext fsm key d d1 :
  fsm_instances d1 = fsm_instances d -> find_instance fsm key d1 = find_instance fsm key d.
Proof. unfold find_instance. now intros ->. Qed.

(** C2.  While an instance has a transition in flight, StartFSMTransition
    for it returns the error "transition already executing: conflict",
    which errors.Is finds to be [ErrConflict], and leaves the instances as
    they are; for an absent or idle instance it returns nil and leaves the
    instance with a transition in flight, so that a second call before any
    finish is the conflict. *)
Theorem StartFSMTransition_single_flight
    (now : Z) (fsm : RefKey) (key : string) (dest : RefKey) (request : string)
    (retry : RetryParams) (d : db) :
  (in_flight fsm key d ->
   exists d' e,
     StartFSMTransition now fsm key dest request retry d = (d', Some e)
     /\ HasPrefix (Error e) "transition already executing" = true
     /\ Error e = "transition already executing: conflict"
     /\ errors_Is e ErrConflict = true
     /\ fsm_instances d' = fsm_instances d)
  /\ (idle_or_absent fsm key d ->
      exists d',
        StartFSMTransition now fsm key dest request retry d = (d', None)
        /\ in_flight fsm key d').
Proof.
  unfold StartFSMTransition.
  destruct (CreateAsyncCall_instances now
              {| p_Verb := dest; p_Origin := AsyncOriginFSM_String fsm key;
                 p_Request := request; p_RemainingAttempts := int32 (Count retry);
                 p_Backoff := MinBackoff retry; p_MaxBackoff := MaxBackoff retry |} d)
    as (d1 & id & -> & Hsame).
  split.
  - intros Hfl.
    assert (in_flight fsm key d1) as Hfl1.
    { destruct Hfl as (i & Hi & Hd). exists i. split; [|exact Hd].
      now rewrite (find_instance_ext fsm key d d1 Hsame). }
    rewrite (query_StartFSMTransition_in_flight now fsm key dest id d1 Hfl1).
    eexists _, _. split; [reflexivity|].
    repeat split; try reflexivity. exact Hsame.
  - intros Hidle.
    assert (idle_or_absent fsm key d1) as Hidle1.
    { unfold idle_or_absent in *. now rewrite (find_instance_ext fsm key d d1 Hsame). }
    destruct (query_StartFSMTransition_idle now fsm key dest id d1 Hidle1)
      as (d' & row & -> & Hfind & Hdest & _).
    exists d'. split; [reflexivity|].
    exists row. split; [exact Hfind|]. rewrite Hdest. discriminate.
Qed.

(** The first call of S2 succeeds on the empty database; the second is
    the conflict. *)
Lemma StartFSMTransition_single_flight_witness :
  S2_first.2 = None
  /\ exists d' e,
       StartFSMTransition 1 S2_fsm "invoiceID" S2_ref "{}" (mkRetryParams 0 0 0) S2_first.1
       = (d', Some e)
       /\ HasPrefix (Error e) "transition already executing" = true
       /\ Error e = "transition already executing: conflict"
       /\ errors_Is e ErrConflict = true
       /\ fsm_instances d' = fsm_instances S2_first.1.
Proof.
  destruct (proj2 (StartFSMTransition_single_flight 0 S2_fsm "invoiceID" S2_ref "{}"
                     (mkRetryParams 0 0 0) empty_db) I) as (d1 & Hfirst & Hfl).
  unfold S2_first. rewrite Hfirst. split; [reflexivity|].
  exact (proj1 (StartFSMTransition_single_flight 1 S2_fsm "invoiceID" S2_ref "{}"
                  (mkRetryParams 0 0 0) d1) Hfl).
Defined.

(** After a finish the instance is idle again and may start anew. *)
Lemma finish_then_start fsm key d :
  in_flight fsm key d ->
  exists d', FinishFSMTransition fsm key d = (d', None) /\ idle_or_absent fsm key d'.
Proof.
  intros (i & Hfind & _). unfold FinishFSMTransition, query_FinishFSMTransition.
  rewrite Hfind. eexists. split; [reflexivity|].
  unfold idle_or_absent, find_instance, replace_instance in *. simpl.
  rewrite find_fmap_if by reflexivity. now rewrite Hfind.
Qed.

End FsmDalFacts.

Module GraphFacts.
Import BuildEngine GraphSpec.

Section Walk.
Context (metas : gmap string moduleMeta) (ctrl : gmap string SchemaModule).

Local Abbreviation known := (GraphSpec.known metas ctrl).
Local Abbreviation extends := (GraphSpec.extends metas ctrl).
Local Abbreviation walk_ok := (GraphSpec.walk_ok metas ctrl).
Local Abbreviation unexplored := (GraphSpec.unexplored metas ctrl).
Local Abbreviation reachable := (GraphSpec.reachable metas ctrl).
Local Abbreviation requested := (GraphSpec.requested metas).

Lemma resolve_known name deps : resolve metas ctrl name = Some deps -> name ∈ known.
Proof.
  unfold resolve, known. destruct (metas !! name) eqn:Hm.
  - intros _. apply elem_of_union_l, elem_of_dom. eauto.
  - destruct (ctrl !! name) eqn:Hc; [|discriminate].
    intros _. apply elem_of_union_r, elem_of_dom. eauto.
Qed.

(** The local meta wins over the controller schema. *)
Lemma resolve_prefers_local name deps :
  resolve metas ctrl name = Some deps <->
  (exists meta, metas !! name = Some meta /\ deps = Dependencies (module meta))
  \/ (metas !! name = None
      /\ exists sch, ctrl !! name = Some sch /\ deps = sm_Imports sch).
Proof.
  unfold resolve. destruct (metas !! name) as [meta|].
  - split.
    + intros [= <-]. left. eauto.
    + intros [(m & [= <-] & ->)|[? _]]; [reflexivity|discriminate].
  - destruct (ctrl !! name) as [sch|].
    + split.
      * intros [= <-]. right. eauto.
      * intros [(m & ? & _)|(_ & s & [= <-] & ->)]; [discriminate|reflexivity].
    + split; [discriminate|].
      intros [(m & ? & _)|(_ & s & ? & _)]; discriminate.
Qed.

Lemma extends_refl out : extends out out.
Proof. split; [reflexivity|]. intros n ds H1 H2. congruence. Qed.

Lemma extends_trans o1 o2 o3 : extends o1 o2 -> extends o2 o3 -> extends o1 o3.
Proof.
  intros [S12 N12] [S23 N23]. split; [etrans; eauto|].
  intros n ds H3 H1. destruct (o2 !! n) as [ds2|] eqn:H2.
  - pose proof (lookup_weaken _ _ _ _ H2 S23) as H3'.
    rewrite H3 in H3'. injection H3' as ->.
    destruct (N12 n ds2 H2 H1) as [Hr Hd]. split; [exact Hr|].
    intros d Hin. destruct (Hd d Hin) as [x Hx].
    exists x. eapply lookup_weaken; eauto.
  - now apply N23.
Qed.

Lemma visit_all_ok (visit : string -> gmap string (list string) -> graph_result) :
  (forall name out, walk_ok [name] out (visit name out)) ->
  forall names out, walk_ok names out (visit_all visit names out).
Proof.
  intros Hvisit. induction names as [|n names IH]; intros out; simpl.
  - split; [apply extends_refl|]. intros n H. inversion H.
  - pose proof (Hvisit n out) as Hn. destruct (visit n out) as [out1| |]; try exact Hn.
    destruct Hn as [He1 Hin1]. specialize (IH out1).
    destruct (visit_all visit names out1) as [out'| |]; try exact IH.
    destruct IH as [He2 Hin2]. split; [eapply extends_trans; eauto|].
    intros x [->|Hx]%elem_of_cons; [|now apply Hin2].
    destruct (Hin1 n) as [ds Hds]; [apply elem_of_cons; now left|].
    exists ds. eapply lookup_weaken; [exact Hds|apply He2].
Qed.

Lemma buildGraph_ok fuel :
  forall name out, walk_ok [name] out (buildGraph fuel metas ctrl name out).
Proof.
  induction fuel as [|fuel IH]; intros name out; simpl; [exact I|].
  destruct (out !! name) as [ds|] eqn:Hout.
  - split; [apply extends_refl|].
    intros n [->|H]%elem_of_cons; [eauto|inversion H].
  - destruct (resolve metas ctrl name) as [deps|] eqn:Hres; [|simpl; eauto].
    pose proof (visit_all_ok _ IH deps (<[name := deps]> out)) as Hw.
    destruct (visit_all _ deps _) as [out'| |]; try exact Hw.
    destruct Hw as [[Hsub Hnew] Hdeps].
    assert (out' !! name = Some deps) as Hname.
    { eapply lookup_weaken; [apply lookup_insert_eq|exact Hsub]. }
    split; [split|].
    + etrans; [|exact Hsub]. now apply insert_subseteq.
    + intros n ds Hn Hnone. destruct (decide (n = name)) as [->|Hne].
      * rewrite Hname in Hn. injection Hn as <-. split; [exact Hres|exact Hdeps].
      * apply Hnew; [exact Hn|]. now rewrite lookup_insert_ne.
    + intros n [->|H]%elem_of_cons; [eauto|inversion H].
Qed.

(** Memoisation: a walk that meets a key of the output map stops there. *)
Lemma buildGraph_memo fuel name out ds :
  out !! name = Some ds -> buildGraph (S fuel) metas ctrl name out = GraphOk out.
Proof. intros H. simpl. now rewrite H. Qed.

Lemma unexplored_insert name deps out :
  name ∈ known -> out !! name = None ->
  unexplored (<[name := deps]> out) < unexplored out.
Proof.
  intros Hk Hnone. unfold unexplored. apply subset_size.
  apply not_elem_of_dom in Hnone. rewrite dom_insert_L. split.
  - intros x [Hx Hn]%elem_of_difference. apply elem_of_difference.
    split; [exact Hx|]. intros Hd. apply Hn. now apply elem_of_union_r.
  - intros Hsub. assert (name ∈ known ∖ ({[name]} ∪ dom out)) as Hin.
    { apply Hsub. apply elem_of_difference. split; assumption. }
    apply elem_of_difference in Hin as [_ Hn].
    apply Hn. now apply elem_of_union_l, elem_of_singleton.
Qed.

Lemma unexplored_mono out out' : out ⊆ out' -> unexplored out' <= unexplored out.
Proof.
  intros Hsub. unfold unexplored. apply subseteq_size.
  apply subseteq_dom in Hsub.
  intros x [Hx Hn]%elem_of_difference. apply elem_of_difference.
  split; [exact Hx|]. intros Hd. apply Hn, Hsub, Hd.
Qed.

Lemma visit_all_fuel (visit : string -> gmap string (list string) -> graph_result) bound :
  (forall name out, walk_ok [name] out (visit name out)) ->
  (forall name out, unexplored out < bound -> visit name out <> GraphFuel) ->
  forall names out, unexplored out < bound -> visit_all visit names out <> GraphFuel.
Proof.
  intros Hok Hvisit. induction names as [|n names IH]; intros out Hlt; simpl; [discriminate|].
  pose proof (Hok n out) as Hn. pose proof (Hvisit n out Hlt) as Hf.
  destruct (visit n out) as [out1| |]; [|discriminate|contradiction].
  destruct Hn as [[Hsub _] _]. apply IH.
  pose proof (unexplored_mono out out1 Hsub). lia.
Qed.

(** Enough fuel: a walk with more fuel than unexplored names comes back
    with a map or an error. *)
Lemma buildGraph_fuel fuel :
  forall name out, unexplored out < fuel -> buildGraph fuel metas ctrl name out <> GraphFuel.
Proof.
  induction fuel as [|fuel IH]; intros name out Hlt; [lia|]. simpl.
  destruct (out !! name) as [ds|] eqn:Hout; [discriminate|].
  destruct (resolve metas ctrl name) as [deps|] eqn:Hres; [|discriminate].
  apply (visit_all_fuel _ fuel (buildGraph_ok fuel) IH).
  pose proof (unexplored_insert name deps out (resolve_known _ _ Hres) Hout). lia.
Qed.

Lemma Graph_of_unfold moduleNames :
  Graph_of metas ctrl moduleNames
  = visit_all (buildGraph (graph_fuel metas ctrl) metas ctrl) (requested moduleNames) ∅.
Proof. unfold Graph_of, requested. now destruct moduleNames. Qed.

Lemma Graph_of_ok moduleNames :
  walk_ok (requested moduleNames) ∅ (Graph_of metas ctrl moduleNames)
  /\ Graph_of metas ctrl moduleNames <> GraphFuel.
Proof.
  rewrite Graph_of_unfold. split.
  - apply visit_all_ok, buildGraph_ok.
  - apply (visit_all_fuel _ (graph_fuel metas ctrl) (buildGraph_ok _) (buildGraph_fuel _)).
    unfold unexplored, graph_fuel. rewrite dom_empty_L, difference_empty_L.
    fold known. lia.
Qed.

Lemma Graph_of_reachable moduleNames out n :
  Graph_of metas ctrl moduleNames = GraphOk out ->
  reachable (requested moduleNames) n ->
  exists ds, out !! n = Some ds /\ resolve metas ctrl n = Some ds.
Proof.
  intros HG. destruct (Graph_of_ok moduleNames) as [Hok _]. rewrite HG in Hok.
  destruct Hok as [[_ Hnew] Hreq].
  induction 1 as [n Hin|n deps d _ (ds & Hn & Hr) Hres Hd].
  - destruct (Hreq n Hin) as [ds Hds]. exists ds. split; [exact Hds|].
    apply (Hnew n ds Hds), lookup_empty.
  - rewrite Hres in Hr. injection Hr as <-.
    destruct (Hnew n deps Hn (lookup_empty _)) as [_ Hclosed].
    destruct (Hclosed d Hd) as [dsd Hdsd]. exists dsd. split; [exact Hdsd|].
    apply (Hnew d dsd Hdsd), lookup_empty.
Qed.

End Walk.

(** C5.  Graph comes back with a map or an error.  Its map has every
    requested name as a key; the entry of a key is the dependency list of
    the local meta of that name if there is one and the imports of its
    controller schema otherwise; and every name in an entry is a key.  It
    is an error, naming a name that is in neither map, as soon as a
    requested name or a dependency reached from one is in neither map.  A
    walk that meets a key of the output map leaves the map as it is.  In
    scenario S1, Graph("a") is {a:[b], b:[builtin], builtin:[]}. *)
Theorem Graph_resolves
    (metas : gmap string moduleMeta) (ctrl : gmap string SchemaModule)
    (moduleNames : list string) :
  Graph_of metas ctrl moduleNames <> GraphFuel
  /\ (forall out,
        Graph_of metas ctrl moduleNames = GraphOk out ->
        (forall n, n ∈ requested metas moduleNames -> is_Some (out !! n))
        /\ forall n ds,
             out !! n = Some ds ->
             ((exists meta, metas !! n = Some meta /\ ds = Dependencies (module meta))
              \/ (metas !! n = None
                  /\ exists sch, ctrl !! n = Some sch /\ ds = sm_Imports sch))
             /\ forall d, d ∈ ds -> is_Some (out !! d))
  /\ (forall n,
        reachable metas ctrl (requested metas moduleNames) n ->
        metas !! n = None -> ctrl !! n = None ->
        exists x, Graph_of metas ctrl moduleNames = GraphErr (ErrModuleNotFound x)
                  /\ metas !! x = None /\ ctrl !! x = None)
  /\ (forall fuel name out ds,
        out !! name = Some ds ->
        buildGraph (S fuel) metas ctrl name out = GraphOk out)
  /\ Graph_of S1_metas S1_ctrl ["a"] = GraphOk S1_graph.
Proof.
  destruct (Graph_of_ok metas ctrl moduleNames) as [Hok Hfuel].
  split; [exact Hfuel|]. split; [|split; [|split]].
  - intros out HG. rewrite HG in Hok. destruct Hok as [[_ Hnew] Hreq].
    split; [exact Hreq|]. intros n ds Hn.
    destruct (Hnew n ds Hn (lookup_empty _)) as [Hres Hclosed].
    split; [now apply resolve_prefers_local|exact Hclosed].
  - intros n Hreach Hm Hc.
    destruct (Graph_of metas ctrl moduleNames) as [out|err|] eqn:HG.
    + destruct (Graph_of_reachable metas ctrl moduleNames out n HG Hreach)
        as (ds & _ & Hres).
      unfold resolve in Hres. rewrite Hm, Hc in Hres. discriminate.
    + destruct Hok as (x & -> & Hx). exists x. split; [reflexivity|].
      unfold resolve in Hx. destruct (metas !! x); [discriminate|].
      destruct (ctrl !! x); [discriminate|]. auto.
    + contradiction.
  - intros fuel name out ds H. exact (buildGraph_memo metas ctrl fuel name out ds H).
  - vm_compute. reflexivity.
Qed.

(** Scenario S1 with a second request for "c", which nobody knows: the
    map of S1 for "a" alone, an error with "c". *)
Lemma Graph_resolves_witness :
  (is_Some (S1_graph !! "a")
   /\ forall d, d ∈ ["b"] -> is_Some (S1_graph !! d))
  /\ exists x, Graph_of S1_metas S1_ctrl ["a"; "c"] = GraphErr (ErrModuleNotFound x)
               /\ S1_metas !! x = None /\ S1_ctrl !! x = None.
Proof.
  split.
  - destruct (Graph_resolves S1_metas S1_ctrl ["a"]) as (_ & Hok & _ & _ & HS1).
    destruct (Hok S1_graph HS1) as [Hreq Hent]. split.
    + apply Hreq. apply elem_of_cons. now left.
    + apply (proj2 (Hent "a" ["b"] eq_refl)).
  - destruct (Graph_resolves S1_metas S1_ctrl ["a"; "c"]) as (_ & _ & Herr & _).
    apply (Herr "c"); [|reflexivity|reflexivity].
    apply reach_requested. apply elem_of_cons. right. apply elem_of_cons. now left.
Defined.

End GraphFacts.

Module BuildFacts.
Import BuildEngine BuildSpec.

(** *** The engine monad *)

Lemma bind_Done {A B} (m : M A) (k : A -> M B) e r e' :
  (m ≫= k) e = Done r e' <-> exists a e1, m e = Done a e1 /\ k a e1 = Done r e'.
Proof.
  unfold mbind, M_bind. split.
  - destruct (m e) as [a e1|]; [eauto|discriminate].
  - intros (a & e1 & -> & H). exact H.
Qed.

Lemma ret_Done {A} (a r : A) e e' : (mret a : M A) e = Done r e' <-> a = r /\ e = e'.
Proof.
  unfold mret, M_ret. split; [intros [= <- <-]; auto|intros [-> ->]; reflexivity].
Qed.

Lemma gets_Done {A} (f : Engine -> A) e r e' : gets f e = Done r e' <-> f e = r /\ e = e'.
Proof. unfold gets. split; [intros [= <- <-]; auto|intros [-> ->]; reflexivity]. Qed.

Lemma modify_Done (f : Engine -> Engine) e r e' : modify f e = Done r e' <-> f e = e'.
Proof.
  unfold modify. split; [now intros [= <- <-]|intros ->; now destruct r].
Qed.

Lemma ask_Done {A} (f : nat -> A) e r e' :
  ask f e = Done r e' <-> f (ticks e) = r /\ with_tick e = e'.
Proof. unfold ask. split; [intros [= <- <-]; auto|intros [-> ->]; reflexivity]. Qed.

(** Using an equation [input = output]: the output goes. *)
Ltac use_eq H :=
  lazymatch type of H with
  | ?l = ?r =>
      tryif is_var r then subst r
      else tryif is_var l then subst l
      else (injection H as H; try use_eq H)
  end.

(** Taking a run apart along its binds. *)
Ltac run_inv H :=
  lazymatch type of H with
  | (_ ≫= _) _ = Done _ _ =>
      let a := fresh "a" in
      let e1 := fresh "e" in
      let H1 := fresh "Hrun" in
      let H2 := fresh "Hrun" in
      apply bind_Done in H as (a & e1 & H1 & H2);
      run_inv H1; run_inv H2
  | @mret _ _ _ _ _ = Done _ _ =>
      let Ha := fresh in let He := fresh in
      apply ret_Done in H as [Ha He]; use_eq He; use_eq Ha
  | gets _ _ = Done _ _ =>
      let Ha := fresh in let He := fresh in
      apply gets_Done in H as [Ha He]; use_eq He; use_eq Ha
  | modify _ _ = Done _ _ => apply modify_Done in H; use_eq H
  | emit _ _ = Done _ _ => unfold emit in H; apply modify_Done in H; use_eq H
  | ask _ _ = Done _ _ =>
      let Ha := fresh in let He := fresh in
      apply ask_Done in H as [Ha He]; use_eq He; use_eq Ha
  | Load_moduleMeta _ _ = Done _ _ =>
      let Ha := fresh in let He := fresh in
      unfold Load_moduleMeta in H; apply gets_Done in H as [Ha He]; use_eq He; use_eq Ha
  | Store_moduleMeta _ _ _ = Done _ _ =>
      unfold Store_moduleMeta in H; apply modify_Done in H; use_eq H
  | abort _ = Done _ _ => discriminate H
  | _ => idtac
  end.

Lemma for_each_inv {A S R} (body : A -> S -> M (S + R)) (I : S -> Engine -> Prop)
    (Q : R -> Engine -> Prop) (xs : list A) :
  (forall x s e r e', x ∈ xs -> I s e -> body x s e = Done r e' ->
                      match r with inl s' => I s' e' | inr out => Q out e' end) ->
  forall s e r e',
    I s e -> for_each body xs s e = Done r e' ->
    match r with inl s' => I s' e' | inr out => Q out e' end.
Proof.
  induction xs as [|x xs IH]; intros Hbody s e r e' HI Hrun; simpl in Hrun.
  - run_inv Hrun. exact HI.
  - apply bind_Done in Hrun as (r1 & e1 & H1 & H2).
    assert (x ∈ x :: xs) as Hx by (apply elem_of_cons; now left).
    pose proof (Hbody x s e r1 e1 Hx HI H1) as Hstep.
    destruct r1 as [s1|out].
    + eapply IH; [|exact Hstep|exact H2].
      intros y s0 e0 r0 e0' Hy. apply Hbody. apply elem_of_cons. now right.
    + run_inv H2. exact Hstep.
Qed.

(** *** build reads the metas and leaves them as they are *)

Lemma gatherSchemas_pure fuel :
  forall moduleSchemas m out e r e',
    gatherSchemas fuel moduleSchemas m out e = Done r e' -> e' = e.
Proof.
  induction fuel as [|fuel IH]; intros moduleSchemas m out e r e' Hrun; simpl in Hrun.
  - discriminate.
  - apply bind_Done in Hrun as (latest & e1 & H1 & H2). run_inv H1.
    eapply (for_each_inv _ (fun _ e0 => e0 = e) (fun _ e0 => e0 = e)) in H2;
      [now destruct r| |reflexivity].
    intros dep s e0 r0 e0' _ -> Hb.
    destruct (decide (dep <> "builtin")).
    + apply bind_Done in Hb as (dm & e2 & Hb1 & Hb2).
      apply gets_Done in Hb1 as [_ <-].
      destruct dm as [dm|].
      * apply IH in Hb2. subst. now destruct r0.
      * run_inv Hb2. reflexivity.
    + run_inv Hb. reflexivity.
Qed.

Lemma build_metas W moduleName builtModules e r e' :
  build W moduleName builtModules e = Done r e' -> moduleMetas e' = moduleMetas e.
Proof.
  unfold build. intros Hrun.
  apply bind_Done in Hrun as (meta & e1 & H1 & H2).
  apply gets_Done in H1 as [_ <-].
  destruct meta as [meta|]; [|run_inv H2; reflexivity].
  apply bind_Done in H2 as (n & e1 & H1 & H2). run_inv H1.
  apply bind_Done in H2 as (combined & e1 & H1 & H2).
  apply gatherSchemas_pure in H1. subst e1.
  destruct combined as [combined|err]; [|run_inv H2; reflexivity].
  apply bind_Done in H2 as (l & e1 & H1 & H2).
  apply gets_Done in H1 as [_ <-].
  apply bind_Done in H2 as (u & e1 & H1 & H2).
  assert (moduleMetas e1 = moduleMetas e) as Hwhen.
  { unfold when in H1. destruct l; run_inv H1; reflexivity. }
  apply bind_Done in H2 as (u2 & e2 & H3 & H2). run_inv H3.
  apply bind_Done in H2 as (berr & e3 & H3 & H2).
  apply ask_Done in H3 as [_ <-].
  destruct berr as [berr|]; [run_inv H2; exact Hwhen|].
  apply bind_Done in H2 as (u3 & e3 & H3 & H2). run_inv H3.
  apply bind_Done in H2 as (sch & e3 & H3 & H2).
  apply ask_Done in H3 as [_ <-].
  destruct sch; run_inv H2; exact Hwhen.
Qed.

(** *** The callbacks of the engine *)

Lemma deployCallback_quiet W replicas waitForDeployOnline :
  quiet (Some (deployCallback W replicas waitForDeployOnline)).
Proof.
  intros m e r e' Hrun. unfold deployCallback in Hrun. run_inv Hrun. split; reflexivity.
Qed.

Lemma engine_callback_quiet W callback : engine_callback W callback -> quiet callback.
Proof.
  intros [->|(r & w & ->)]; [exact I|apply deployCallback_quiet].
Qed.

(** *** Whose error it is *)

Section Attribution.
Context (W : World).

Local Abbreviation skipped := (BuildSpec.skipped).
Local Abbreviation build_start := (BuildSpec.build_start W).
Local Abbreviation build_error_kind := (BuildSpec.build_error_kind W).
Local Abbreviation worker_fact := (BuildSpec.worker_fact W).
Local Abbreviation group_workers := (BuildSpec.group_workers W).
Local Abbreviation topology_workers := (BuildSpec.topology_workers W).
Local Abbreviation preparation_failed := (BuildSpec.preparation_failed W).

Lemma missing_dependency_Some builtModules deps :
  (exists dep, dep ∈ deps /\ builtModules !! dep = None) ->
  exists dep, missing_dependency builtModules deps = Some dep
              /\ dep ∈ deps /\ builtModules !! dep = None.
Proof.
  intros (d & Hd & Hnone). unfold missing_dependency.
  destruct (List.find _ deps) as [dep|] eqn:Hfind.
  - apply List.find_some in Hfind as [Hin Hb]. exists dep.
    split; [reflexivity|]. split; [now apply list_elem_of_In|].
    now apply bool_decide_eq_true in Hb.
  - apply list_elem_of_In in Hd.
    pose proof (List.find_none _ _ Hfind d Hd) as Hb. simpl in Hb.
    apply bool_decide_eq_false in Hb. contradiction.
Qed.

(** The skip: a module that must be built and misses a dependency in the
    built map gets a warning and nothing else. *)
Lemma tryBuild_skip mustBuild moduleName builtModules callback e meta :
  mustBuild_at mustBuild moduleName = true ->
  moduleMetas e !! moduleName = Some meta ->
  (exists dep, dep ∈ Dependencies (module meta) /\ builtModules !! dep = None) ->
  exists dep,
    dep ∈ Dependencies (module meta) /\ builtModules !! dep = None
    /\ tryBuild W mustBuild moduleName builtModules callback e
       = Done ([], None) (with_event (Warnf_build_skipped moduleName dep) e).
Proof.
  intros Hmust Hmeta Hmiss.
  destruct (missing_dependency_Some _ _ Hmiss) as (dep & Hfind & Hin & Hnone).
  exists dep. split; [exact Hin|]. split; [exact Hnone|].
  unfold tryBuild. rewrite Hmust. simpl.
  unfold mbind, M_bind, Load_moduleMeta, gets. rewrite Hmeta, Hfind. reflexivity.
Qed.

Lemma gatherSchemas_no_error fuel :
  forall moduleSchemas m out e r e',
    gatherSchemas fuel moduleSchemas m out e = Done r e' -> exists out', r = inl out'.
Proof.
  induction fuel as [|fuel IH]; intros moduleSchemas m out e r e' Hrun; simpl in Hrun.
  - discriminate.
  - apply bind_Done in Hrun as (latest & e1 & H1 & H2).
    apply gets_Done in H1 as [_ <-].
    eapply (for_each_inv _ (fun _ _ => True) (fun (_ : error) _ => False)) in H2;
      [destruct r; [eauto|contradiction]| |exact I].
    intros dep s e0 r0 e0' _ _ Hb.
    destruct (decide (dep <> "builtin")).
    + apply bind_Done in Hb as (dm & e2 & Hb1 & Hb2).
      destruct dm as [dm|].
      * apply IH in Hb2 as [out' ->]. exact I.
      * run_inv Hb2. exact I.
    + run_inv Hb. exact I.
Qed.

(** The errors of [build]. *)
Lemma build_error_kinds moduleName builtModules e r e' err :
  build W moduleName builtModules e = Done r e' -> r.2 = Some err ->
  build_error_kind e moduleName err.
Proof.
  unfold build, BuildSpec.build_error_kind. intros Hrun Herr.
  apply bind_Done in Hrun as (meta & e1 & H1 & H2).
  apply gets_Done in H1 as [Hmeta <-]. rewrite Hmeta.
  destruct meta as [meta|].
  2:{ run_inv H2. simpl in Herr. now injection Herr as <-. }
  apply bind_Done in H2 as (n & e1 & H1 & H2). apply gets_Done in H1 as [_ <-].
  apply bind_Done in H2 as (combined & e1 & H1 & H2).
  apply gatherSchemas_no_error in H1 as [out' ->].
  apply bind_Done in H2 as (l & e2 & H1 & H2). apply gets_Done in H1 as [_ <-].
  apply bind_Done in H2 as (u & e2 & _ & H2).
  apply bind_Done in H2 as (u2 & e3 & _ & H2).
  apply bind_Done in H2 as (berr & e4 & H3 & H2).
  apply ask_Done in H3 as [Hb _].
  destruct berr as [berr|].
  { run_inv H2. simpl in Herr. injection Herr as <-. left. eauto. }
  apply bind_Done in H2 as (u3 & e5 & _ & H2).
  apply bind_Done in H2 as (sch & e6 & H3 & H2).
  apply ask_Done in H3 as [Hs _].
  destruct sch as [sch|inner]; run_inv H2; simpl in Herr; [discriminate|].
  injection Herr as <-. right. eauto.
Qed.

(** A worker: it is skipped with nothing but the warning, or what it
    returns as its error is the error of the build of its module. *)
Lemma tryBuild_worker mustBuild moduleName builtModules callback e r e' :
  quiet callback -> metas_cover mustBuild e ->
  tryBuild W mustBuild moduleName builtModules callback e = Done r e' ->
  (forall n, is_Some (moduleMetas e !! n) -> is_Some (moduleMetas e' !! n))
  /\ worker_fact mustBuild (mkWorker moduleName builtModules e r e').
Proof.
  intros Hq Hcover Hrun.
  assert (Hskip: skipped mustBuild (mkWorker moduleName builtModules e r e') ->
                 r = ([], None)
                 /\ exists dep, e' = with_event (Warnf_build_skipped moduleName dep) e).
  { intros (Hmust & meta & dep & Hmeta & Hdep & Hnone). simpl in *.
    destruct (tryBuild_skip mustBuild moduleName builtModules callback e meta Hmust Hmeta)
      as (dep' & _ & _ & Heq); [eauto|].
    rewrite Heq in Hrun. injection Hrun as <- <-. eauto. }
  assert (Hnot: forall err, r.2 = Some err ->
                            ~ skipped mustBuild (mkWorker moduleName builtModules e r e')).
  { intros err Herr Hs. destruct (Hskip Hs) as [-> _]. discriminate. }
  unfold BuildSpec.worker_fact, BuildSpec.build_start. cbn [w_name w_built w_before w_result w_after].
  unfold tryBuild in Hrun.
  destruct (mustBuild_at mustBuild moduleName) eqn:Hmust; simpl in Hrun.
  - apply bind_Done in Hrun as (meta & e1 & H1 & H2).
    apply gets_Done in H1 as [Hmeta <-]. rewrite Hmeta.
    destruct meta as [meta|].
    2:{ destruct (Hcover moduleName Hmust) as [m Hm]. congruence. }
    destruct (missing_dependency builtModules (Dependencies (module meta))) as [dep|] eqn:Hmiss.
    + run_inv H2. split; [auto|]. split; [exact Hskip|]. discriminate.
    + apply bind_Done in H2 as (now & e1 & H1 & H2).
      apply ask_Done in H1 as [<- <-].
      apply bind_Done in H2 as (u & e1 & H1 & H2).
      apply modify_Done in H1. subst e1.
      apply bind_Done in H2 as (r0 & e1 & Hbuild & H2).
      pose proof (build_metas _ _ _ _ _ _ Hbuild) as Hm1.
      assert (grow: forall n, is_Some (moduleMetas e !! n) -> is_Some (moduleMetas e1 !! n)).
      { intros n Hn. rewrite Hm1. simpl.
        destruct (decide (moduleName = n)) as [<-|Hne];
          [rewrite lookup_insert_eq; eauto|now rewrite lookup_insert_ne]. }
      destruct (r0.2) as [err0|] eqn:Hr0.
      * run_inv H2. split; [exact grow|]. split; [exact Hskip|].
        intros err Herr. split; [eapply Hnot; eauto|]. split; [exact Hbuild|].
        eapply build_error_kinds; eauto.
      * destruct callback as [f|].
        -- apply bind_Done in H2 as (cerr & e2 & Hcb & H2).
           destruct (Hq _ _ _ _ Hcb) as [-> Hm2]. run_inv H2.
           split; [intros n Hn; rewrite Hm2; now apply grow|].
           split; [exact Hskip|]. discriminate.
        -- run_inv H2. split; [exact grow|]. split; [exact Hskip|].
           intros err Herr. congruence.
  - unfold mustSchema in Hrun.
    apply bind_Done in Hrun as (sch & e1 & H1 & H2).
    apply gets_Done in H1 as [_ <-].
    destruct sch as [sch|].
    + run_inv H2. split; [auto|]. split; [exact Hskip|]. discriminate.
    + pose proof (build_metas _ _ _ _ _ _ H2) as Hm1. split.
      * intros n Hn. now rewrite Hm1.
      * split; [exact Hskip|]. intros err Herr. split; [eapply Hnot; eauto|].
        split; [exact H2|]. eapply build_error_kinds; eauto.
Qed.

Lemma metas_cover_grow mustBuild e e' :
  (forall n, is_Some (moduleMetas e !! n) -> is_Some (moduleMetas e' !! n)) ->
  metas_cover mustBuild e -> metas_cover mustBuild e'.
Proof. intros Hgrow Hc n Hn. apply Hgrow, Hc, Hn. Qed.

Lemma worker_schemas_snoc ws w :
  worker_schemas (ws ++ [w]) = worker_schemas ws ++ (w_result w).1.
Proof.
  unfold worker_schemas. rewrite fmap_app, concat_app. simpl. now rewrite app_nil_r.
Qed.

Lemma worker_errors_cons w ws :
  worker_errors (w :: ws)
  = (if (w_result w).2 is Some err then [err] else []) ++ worker_errors ws.
Proof. unfold worker_errors. simpl. now destruct ((w_result w).2). Qed.

Lemma worker_schemas_cons w ws :
  worker_schemas (w :: ws) = (w_result w).1 ++ worker_schemas ws.
Proof. reflexivity. Qed.

(** The run of a group is the run of its workers: what it collects is
    what they published and returned. *)
Lemma buildGroupOf_workers mustBuild builtModules callback pending group :
  quiet callback ->
  forall acc e r e',
    metas_cover mustBuild e ->
    for_each (R := error)
      (fun moduleName (acc : list SchemaModule * list error) =>
         r ← tryBuild W mustBuild moduleName builtModules callback;
         match r.2 with
         | Some err =>
             if decide (errCh_capacity <= pending + length acc.2) then abort
             else mret (inl (acc.1 ++ r.1, acc.2 ++ [err]))
         | None => mret (inl (acc.1 ++ r.1, acc.2))
         end)
      group acc e = Done r e' ->
    exists ws,
      r = inl (acc.1 ++ worker_schemas ws, acc.2 ++ worker_errors ws)
      /\ group_workers mustBuild callback builtModules group e ws e'
      /\ Forall (worker_fact mustBuild) ws
      /\ metas_cover mustBuild e'.
Proof.
  intros Hq. induction group as [|name group IH]; intros acc e r e' Hcover Hrun.
  - simpl in Hrun. apply ret_Done in Hrun as [<- <-]. exists [].
    unfold worker_schemas, worker_errors. simpl. rewrite !app_nil_r.
    destruct acc. repeat split; auto.
  - cbn [for_each] in Hrun.
    apply bind_Done in Hrun as (r1 & e1 & Hbody & Hrest).
    apply bind_Done in Hbody as (rt & e2 & Htry & Hret).
    destruct (tryBuild_worker _ _ _ _ _ _ _ Hq Hcover Htry) as [Hgrow Hfact].
    assert (exists acc1,
               r1 = inl acc1 /\ e1 = e2
               /\ acc1 = (acc.1 ++ rt.1,
                          acc.2 ++ (if rt.2 is Some err then [err] else []))) as
        (acc1 & -> & -> & Hacc1).
    { destruct (rt.2) as [err0|].
      - destruct (decide (errCh_capacity <= pending + length acc.2)); [discriminate|].
        apply ret_Done in Hret as [<- <-]. eauto.
      - apply ret_Done in Hret as [<- <-]. rewrite app_nil_r. eauto. }
    destruct (IH acc1 e2 r e' (metas_cover_grow _ _ _ Hgrow Hcover) Hrest)
      as (ws & -> & Hws & Hfacts & Hcover').
    exists (mkWorker name builtModules e rt e2 :: ws).
    rewrite worker_schemas_cons, worker_errors_cons. cbn [w_result].
    subst acc1. cbn [fst snd]. rewrite <- !app_assoc.
    split; [reflexivity|]. split; [|split; [constructor; assumption|exact Hcover']].
    simpl. repeat split; auto.
Qed.

Lemma worker_errors_app ws ws' :
  worker_errors (ws ++ ws') = worker_errors ws ++ worker_errors ws'.
Proof. apply omap_app. Qed.

(** The run of the groups is the run of their workers. *)
Lemma buildGroups_workers mustBuild callback topology :
  quiet callback ->
  forall acc e r e',
    metas_cover mustBuild e ->
    for_each (R := error)
      (fun group (acc : gmap string SchemaModule * list error) =>
         r ← buildGroupOf W mustBuild acc.1 callback (length acc.2) group;
         match r with
         | inl (schemas, errs) => mret (inl (collect schemas acc.1, acc.2 ++ errs))
         | inr err => mret (inr err)
         end)
      topology acc e = Done r e' ->
    exists ws builtModules,
      r = inl (builtModules, acc.2 ++ worker_errors ws)
      /\ topology_workers mustBuild callback topology acc.1 e ws e'
      /\ Forall (worker_fact mustBuild) ws.
Proof.
  intros Hq. induction topology as [|group topology IH]; intros acc e r e' Hcover Hrun.
  - simpl in Hrun. apply ret_Done in Hrun as [<- <-]. exists [], acc.1.
    unfold worker_errors. simpl. rewrite app_nil_r. destruct acc. repeat split; auto.
  - cbn [for_each] in Hrun.
    apply bind_Done in Hrun as (r1 & e1 & Hbody & Hrest).
    apply bind_Done in Hbody as (rg & e2 & Hgroup & Hret).
    unfold buildGroupOf in Hgroup.
    destruct (buildGroupOf_workers _ _ _ _ _ Hq _ _ _ _ Hcover Hgroup)
      as (here & -> & Hhere & Hfacts & Hcover2).
    cbn [fst snd] in Hret. rewrite !app_nil_l in Hret.
    apply ret_Done in Hret as [<- <-].
    destruct (IH _ e2 r e' Hcover2 Hrest) as (later & built' & -> & Hlater & Hfacts').
    cbn [fst snd] in *.
    exists (here ++ later), built'. rewrite worker_errors_app, app_assoc.
    split; [reflexivity|]. split; [|now apply Forall_app].
    simpl. exists here, later, e2. auto.
Qed.

(** After the first loop every module that must be built has a meta. *)
Lemma updateAll_cover moduleNames e r e' :
  updateAll W moduleNames e = Done r e' ->
  match r with
  | inl mustBuild => metas_cover mustBuild e'
  | inr _ => True
  end.
Proof.
  intros Hrun. unfold updateAll in Hrun.
  eapply (for_each_inv _ (fun mb e0 => metas_cover mb e0) (fun _ _ => True)) in Hrun.
  - exact Hrun.
  - intros name mb e0 r0 e0' _ Hc Hbody.
    apply bind_Done in Hbody as (meta & e1 & H1 & H2).
    apply gets_Done in H1 as [_ <-].
    destruct meta as [meta|]; [|run_inv H2; exact I].
    apply bind_Done in H2 as (u & e1 & H1 & H2). apply modify_Done in H1. subst e1.
    apply bind_Done in H2 as (upd & e1 & H1 & H2). apply ask_Done in H1 as [_ <-].
    destruct upd as [m|err]; [|run_inv H2; exact I].
    run_inv H2. intros n Hn. simpl.
    destruct (decide (name = n)) as [<-|Hne]; [rewrite lookup_insert_eq; eauto|].
    rewrite lookup_insert_ne by exact Hne.
    unfold mustBuild_at in Hn. rewrite lookup_insert_ne in Hn by exact Hne.
    apply (Hc n Hn).
  - intros n Hn. unfold mustBuild_at in Hn. now rewrite lookup_empty in Hn.
Qed.

(** A build stops in its preparation, or it is the run of the workers of
    the topology of its graph, and returns the join of their errors. *)
Lemma buildWithCallback_workers callback moduleNames e result e' :
  quiet callback ->
  buildWithCallback W callback moduleNames e = Done result e' ->
  (exists err, result = Some err /\ preparation_failed moduleNames e err)
  \/ exists mustBuild e1 graph topology ws,
       updateAll W (requested_names e moduleNames) e = Done (inl mustBuild) e1
       /\ Graph_of (moduleMetas e1) (controllerSchema e1) (requested_names e moduleNames)
          = GraphOk graph
       /\ TopologicalSort W graph = inl topology
       /\ topology_workers mustBuild callback topology {[ "builtin" := Builtins W ]}
            e1 ws e'
       /\ result = joined (worker_errors ws)
       /\ Forall (worker_fact mustBuild) ws.
Proof.
  intros Hq Hrun. unfold buildWithCallback in Hrun.
  apply bind_Done in Hrun as (names & e1 & Hnames & Hrun).
  assert (names = requested_names e moduleNames /\ e1 = e) as [-> ->].
  { unfold requested_names. destruct moduleNames.
    - unfold Modules in Hnames. apply gets_Done in Hnames as [<- <-]. auto.
    - apply ret_Done in Hnames as [<- <-]. auto. }
  apply bind_Done in Hrun as (mb & e1 & Hupd & Hrun).
  pose proof (updateAll_cover _ _ _ _ Hupd) as Hcover.
  destruct mb as [mustBuild|err].
  2:{ run_inv Hrun. left. eexists. split; [reflexivity|]. left. eauto. }
  apply bind_Done in Hrun as (graph & e2 & Hgraph & Hrun).
  unfold Graph in Hgraph. apply gets_Done in Hgraph as [Hgraph <-].
  destruct graph as [graph|err|].
  3:{ discriminate Hrun. }
  2:{ run_inv Hrun. left. eexists. split; [reflexivity|]. right. eauto 6. }
  destruct (TopologicalSort W graph) as [topology|err] eqn:Hsort.
  2:{ run_inv Hrun. left. eexists. split; [reflexivity|]. right. eauto 8. }
  apply bind_Done in Hrun as (rg & e2 & Hgroups & Hrun).
  unfold buildGroups in Hgroups.
  destruct (buildGroups_workers _ _ _ Hq _ _ _ _ Hcover Hgroups)
    as (ws & built' & -> & Hws & Hfacts).
  cbn [fst snd] in *. rewrite app_nil_l in Hrun.
  right. exists mustBuild, e1, graph, topology, ws.
  assert (result = joined (worker_errors ws) /\ e' = e2) as [-> ->].
  { unfold joined. destruct (worker_errors ws); apply ret_Done in Hrun as [<- <-]; auto. }
  auto 10.
Qed.

End Attribution.

Lemma S9_run : buildWithCallback S9_world None [] S9_engine = Done S9_result S9_final.
Proof. vm_compute. reflexivity. Qed.

Lemma S9_outcome :
  S9_result = Some (ErrJoin [ErrExternal "compile error"])
  /\ Warnf_build_skipped "a" "b" ∈ trace S9_final.
Proof.
  split; [vm_compute; reflexivity|].
  vm_compute. repeat (first [apply list_elem_of_here|apply list_elem_of_further]).
Qed.

(** C9.  A module that must be built and has a dependency that is not in
    the built map is skipped: [tryBuild] logs the warning, publishes no
    schema, returns no error and changes nothing else.  A build with
    either callback of the engine returns an error of its preparation, or
    it is the run of one worker for each module of each group of the
    topology of its graph, on the must-build set of its first loop and
    the built map its groups accumulate, and it returns the join of the
    errors these workers returned, in order.  A worker that was skipped
    returned none; a worker that returned one was not skipped, and its
    error is the one [build] returned for its module: the module is not
    local, or its compilation failed or its schema could not be
    loaded. *)
Theorem skipped_dependents_contribute_no_error (W : World) :
  (forall mustBuild moduleName builtModules callback e meta,
      mustBuild_at mustBuild moduleName = true ->
      moduleMetas e !! moduleName = Some meta ->
      (exists dep, dep ∈ Dependencies (module meta) /\ builtModules !! dep = None) ->
      exists dep,
        dep ∈ Dependencies (module meta) /\ builtModules !! dep = None
        /\ tryBuild W mustBuild moduleName builtModules callback e
           = Done ([], None) (with_event (Warnf_build_skipped moduleName dep) e))
  /\ (forall callback moduleNames e result e',
        engine_callback W callback ->
        buildWithCallback W callback moduleNames e = Done result e' ->
        (exists err, result = Some err /\ preparation_failed W moduleNames e err)
        \/ exists mustBuild e1 graph topology ws,
             updateAll W (requested_names e moduleNames) e = Done (inl mustBuild) e1
             /\ Graph_of (moduleMetas e1) (controllerSchema e1)
                  (requested_names e moduleNames) = GraphOk graph
             /\ TopologicalSort W graph = inl topology
             /\ topology_workers W mustBuild callback topology
                  {[ "builtin" := Builtins W ]} e1 ws e'
             /\ result = joined (worker_errors ws)
             /\ forall w,
                  w ∈ ws ->
                  (skipped mustBuild w ->
                   w_result w = ([], None)
                   /\ exists dep,
                        w_after w
                        = with_event (Warnf_build_skipped (w_name w) dep) (w_before w))
                  /\ forall err,
                       (w_result w).2 = Some err ->
                       ~ skipped mustBuild w
                       /\ build W (w_name w) (w_built w) (build_start W mustBuild w)
                          = Done (w_result w) (w_after w)
                       /\ build_error_kind W (build_start W mustBuild w) (w_name w) err).
Proof.
  split.
  - apply tryBuild_skip.
  - intros callback moduleNames e result e' Hcb Hrun.
    destruct (buildWithCallback_workers W callback moduleNames e result e'
                (engine_callback_quiet W callback Hcb) Hrun)
      as [Hprep|(mustBuild & e1 & graph & topology & ws & Hupd & Hgraph & Hsort & Hws
                 & Hres & Hfacts)]; [now left|].
    right. exists mustBuild, e1, graph, topology, ws.
    do 5 (split; [assumption|]).
    intros w Hw. exact (proj1 (Forall_forall _ _) Hfacts w Hw).
Qed.

(** In the failing build of S1, a is skipped with a warning for b, and
    the build returns the join of the one error of b. *)
Lemma skipped_dependents_contribute_no_error_witness :
  (exists dep,
      dep ∈ ["b"] /\ S9_built !! dep = None
      /\ tryBuild S9_world S9_mustBuild "a" S9_built None S9_engine
         = Done ([], None) (with_event (Warnf_build_skipped "a" dep) S9_engine))
  /\ ((exists err, S9_result = Some err /\ preparation_failed S9_world [] S9_engine err)
      \/ exists mustBuild e1 graph topology ws,
           updateAll S9_world (requested_names S9_engine []) S9_engine
           = Done (inl mustBuild) e1
           /\ Graph_of (moduleMetas e1) (controllerSchema e1)
                (requested_names S9_engine []) = GraphOk graph
           /\ TopologicalSort S9_world graph = inl topology
           /\ topology_workers S9_world mustBuild None topology
                {[ "builtin" := Builtins S9_world ]} e1 ws S9_final
           /\ S9_result = joined (worker_errors ws)
           /\ forall w,
                w ∈ ws ->
                (skipped mustBuild w ->
                 w_result w = ([], None)
                 /\ exists dep,
                      w_after w
                      = with_event (Warnf_build_skipped (w_name w) dep) (w_before w))
                /\ forall err,
                     (w_result w).2 = Some err ->
                     ~ skipped mustBuild w
                     /\ build S9_world (w_name w) (w_built w)
                          (build_start S9_world mustBuild w)
                        = Done (w_result w) (w_after w)
                     /\ build_error_kind S9_world (build_start S9_world mustBuild w)
                          (w_name w) err).
Proof.
  destruct (skipped_dependents_contribute_no_error S9_world) as [Hskip Hjoin]. split.
  - apply (Hskip S9_mustBuild "a" S9_built None S9_engine (mkModuleMeta GraphSpec.S1_a 0)).
    + reflexivity.
    + reflexivity.
    + exists "b". split; [apply elem_of_cons; now left|reflexivity].
  - apply (Hjoin None [] S9_engine S9_result S9_final).
    + now left.
    + exact S9_run.
Defined.

End BuildFacts.

Module DevLoopFacts.
Import BuildEngine BuildSpec BuildFacts DevLoopSpec.

Section Loop.
Context (W : World).

Local Abbreviation buildAndDeployThen := (DevLoopSpec.buildAndDeployThen W).
Local Abbreviation rebuildDependents := (DevLoopSpec.rebuildDependents W).

(** C6.  For a module with a local meta, a module-changed event whose
    time is before the last build start of the meta is dropped: the loop
    state and the engine stay as they are but for the debug line, so
    nothing is built or deployed.  An event at or after that time runs
    BuildAndDeploy for that one module. *)
Theorem stale_module_change_is_dropped
    (m : Module) (Time : Z) (s : loopState) (e : Engine) (meta : moduleMeta) :
  moduleMetas e !! cfg_Module (Config m) = Some meta ->
  ((Time < lastBuildStartTime meta)%Z ->
   onWatchEvent W (WatchEventModuleChanged m Time) s e
   = Done s (with_event (Debugf_skipping_stale Time (lastBuildStartTime meta)) e))
  /\ ((lastBuildStartTime meta <= Time)%Z ->
      onWatchEvent W (WatchEventModuleChanged m Time) s e
      = buildAndDeployThen [cfg_Module (Config m)]
          (Errorf_build_and_deploy_failed (cfg_Module (Config m))) s e).
Proof.
  intros Hmeta. unfold onWatchEvent.
  change ((Load_moduleMeta (cfg_Module (Config m)) ≫= ?k) e)
    with (k (moduleMetas e !! cfg_Module (Config m)) e).
  rewrite Hmeta. unfold Before. split; intros Hcmp.
  - apply Z.ltb_lt in Hcmp. rewrite Hcmp. reflexivity.
  - apply Z.ltb_ge in Hcmp. rewrite Hcmp. reflexivity.
Qed.

(** C10.  A module-added event for a name that has a local meta changes
    nothing: the metas, the loop state and the trace stay as they are.
    For a new name the event stores a meta for the module and runs
    BuildAndDeploy for that one module. *)
Theorem known_module_added_is_ignored (m : Module) (s : loopState) (e : Engine) :
  (is_Some (moduleMetas e !! cfg_Module (Config m)) ->
   onWatchEvent W (WatchEventModuleAdded m) s e = Done s e)
  /\ (moduleMetas e !! cfg_Module (Config m) = None ->
      onWatchEvent W (WatchEventModuleAdded m) s e
      = buildAndDeployThen [cfg_Module (Config m)]
          (Errorf_deploy_failed (cfg_Module (Config m))) s
          (with_moduleMetas
             (insert (cfg_Module (Config m)) {| module := m; lastBuildStartTime := 0 |}) e)).
Proof.
  unfold onWatchEvent.
  change ((Load_moduleMeta (cfg_Module (Config m)) ≫= ?k) e)
    with (k (moduleMetas e !! cfg_Module (Config m)) e).
  split.
  - intros [meta ->]. reflexivity.
  - intros ->. reflexivity.
Qed.

(** The local modules that list [moduleName] among their dependencies,
    each once. *)
Lemma dependentModuleNames_spec (metas : gmap string moduleMeta) (moduleName n : string) :
  n ∈ dependentModuleNames metas moduleName
  <-> exists meta, metas !! n = Some meta /\ moduleName ∈ Dependencies (module meta).
Proof.
  unfold dependentModuleNames. rewrite list_elem_of_fmap. split.
  - intros ([k meta] & -> & Hin). apply list_elem_of_filter in Hin as [Hdep Hin].
    apply elem_of_map_to_list in Hin. exists meta. split; [exact Hin|].
    simpl in Hdep. unfold depends_on in Hdep.
    apply existsb_exists in Hdep as (d & Hd & Heq).
    apply String.eqb_eq in Heq. subst d. now apply list_elem_of_In.
  - intros (meta & Hn & Hdep). exists (n, meta). split; [reflexivity|].
    apply list_elem_of_filter. split; [|now apply elem_of_map_to_list].
    simpl. unfold depends_on. apply existsb_exists. exists moduleName.
    split; [now apply list_elem_of_In|apply String.eqb_refl].
Qed.

Lemma dependentModuleNames_NoDup (metas : gmap string moduleMeta) (moduleName : string) :
  NoDup (dependentModuleNames metas moduleName).
Proof.
  unfold dependentModuleNames.
  eapply sublist_NoDup; [apply (NoDup_fst_map_to_list metas)|].
  apply fmap_sublist, sublist_filter.
Qed.

Lemma afterBuildAndDeploy_hashes failed err s e s' e' :
  afterBuildAndDeploy failed err s e = Done s' e' -> moduleHashes s' = moduleHashes s.
Proof.
  unfold afterBuildAndDeploy. intros Hrun. destruct err as [err|].
  - apply bind_Done in Hrun as (u & e1 & _ & Hrun).
    apply bind_Done in Hrun as (u2 & e2 & _ & Hrun).
    apply ret_Done in Hrun as [<- _]. reflexivity.
  - apply ret_Done in Hrun as [<- _]. reflexivity.
Qed.

Lemma onSchemaChange_changed (sch : SchemaModule) (s : loopState) (e : Engine) :
  onSchemaChange W (mkSchemaChange DEPLOYMENT_CHANGED (Some sch)) s e
  = if bytes_Equal (sha256_Sum W (sm_String sch)) (moduleHash_at s (sm_Name sch))
    then Done s (with_event (Tracef_schema_unchanged (sm_Name sch)) e)
    else rebuildDependents sch s e.
Proof.
  unfold onSchemaChange, rebuildDependents. simpl.
  destruct (bytes_Equal _ _); [reflexivity|].
  unfold getDependentModuleNames.
  change ((gets ?f ≫= ?k) e) with (k (f e) e).
  destruct (dependentModuleNames (moduleMetas e) (sm_Name sch)); reflexivity.
Qed.

(** C7.  A CHANGED event whose schema hashes to the stored hash of its
    module is ignored: nothing but a trace line, no build.  If the hash
    differs, it is stored, and BuildAndDeploy runs on the local modules
    that list the changed module among their dependencies, each once, if
    there are any.  After either, the same schema for the same module is
    ignored. *)
Theorem unchanged_schema_is_ignored (sch : SchemaModule) (s : loopState) (e : Engine) :
  (sha256_Sum W (sm_String sch) = moduleHash_at s (sm_Name sch) ->
   onSchemaChange W (mkSchemaChange DEPLOYMENT_CHANGED (Some sch)) s e
   = Done s (with_event (Tracef_schema_unchanged (sm_Name sch)) e))
  /\ (sha256_Sum W (sm_String sch) <> moduleHash_at s (sm_Name sch) ->
      onSchemaChange W (mkSchemaChange DEPLOYMENT_CHANGED (Some sch)) s e
      = rebuildDependents sch s e
      /\ NoDup (dependentModuleNames (moduleMetas e) (sm_Name sch))
      /\ forall n,
           n ∈ dependentModuleNames (moduleMetas e) (sm_Name sch)
           <-> exists meta, moduleMetas e !! n = Some meta
                            /\ sm_Name sch ∈ Dependencies (module meta))
  /\ (forall s' e' e2,
        onSchemaChange W (mkSchemaChange DEPLOYMENT_CHANGED (Some sch)) s e = Done s' e' ->
        moduleHash_at s' (sm_Name sch) = sha256_Sum W (sm_String sch)
        /\ onSchemaChange W (mkSchemaChange DEPLOYMENT_CHANGED (Some sch)) s' e2
           = Done s' (with_event (Tracef_schema_unchanged (sm_Name sch)) e2)).
Proof.
  split; [|split].
  - intros Heq. rewrite onSchemaChange_changed.
    unfold bytes_Equal. rewrite Heq, String.eqb_refl. reflexivity.
  - intros Hne. rewrite onSchemaChange_changed.
    unfold bytes_Equal. apply String.eqb_neq in Hne. rewrite Hne.
    split; [reflexivity|]. split.
    + apply dependentModuleNames_NoDup.
    + intros n. apply dependentModuleNames_spec.
  - intros s' e' e2 Hrun.
    assert (moduleHash_at s' (sm_Name sch) = sha256_Sum W (sm_String sch)) as Hstored.
    { rewrite onSchemaChange_changed in Hrun. unfold bytes_Equal in Hrun.
      destruct (String.eqb_spec (sha256_Sum W (sm_String sch))
                                (moduleHash_at s (sm_Name sch))) as [Heq|Hne].
      - injection Hrun as <- _. now rewrite Heq.
      - unfold rebuildDependents in Hrun.
        assert (moduleHashes s'
                = moduleHashes (set_moduleHash (sm_Name sch)
                                  (sha256_Sum W (sm_String sch)) s)) as Hh.
        { destruct (dependentModuleNames (moduleMetas e) (sm_Name sch)).
          - now injection Hrun as <- _.
          - unfold buildAndDeployThen in Hrun.
            apply bind_Done in Hrun as (err & e1 & _ & Hrun).
            now apply afterBuildAndDeploy_hashes in Hrun. }
        unfold moduleHash_at. rewrite Hh. simpl. now rewrite lookup_insert_eq. }
    split; [exact Hstored|].
    rewrite onSchemaChange_changed. unfold bytes_Equal.
    now rewrite Hstored, String.eqb_refl.
Qed.

(** A change of another type than CHANGED is not looked at. *)
Lemma other_change_types_are_ignored (change : schemaChange) (s : loopState) (e : Engine) :
  ChangeType change <> DEPLOYMENT_CHANGED -> onSchemaChange W change s e = Done s e.
Proof.
  intros Hne. unfold onSchemaChange. now rewrite bool_decide_eq_false_2.
Qed.

End Loop.

(** In S1 after a build of a that started at 5, a change of a at time 3
    is dropped and a change at time 5 is built. *)
Lemma stale_module_change_is_dropped_witness :
  onWatchEvent S1_world (WatchEventModuleChanged GraphSpec.S1_a 3) S1_loop S1_engine
  = Done S1_loop (with_event (Debugf_skipping_stale 3 5) S1_engine)
  /\ onWatchEvent S1_world (WatchEventModuleChanged GraphSpec.S1_a 5) S1_loop S1_engine
     = buildAndDeployThen S1_world ["a"] (Errorf_build_and_deploy_failed "a")
         S1_loop S1_engine.
Proof.
  pose proof (stale_module_change_is_dropped S1_world GraphSpec.S1_a 3 S1_loop S1_engine
                (mkModuleMeta GraphSpec.S1_a 5) eq_refl) as [Hstale _].
  pose proof (stale_module_change_is_dropped S1_world GraphSpec.S1_a 5 S1_loop S1_engine
                (mkModuleMeta GraphSpec.S1_a 5) eq_refl) as [_ Hfresh].
  split; [apply Hstale; reflexivity|apply Hfresh; discriminate].
Defined.

(** The build that the fresh event of the witness above runs: a is
    compiled (b comes from a build too, not being on the controller) and
    deployed, and the loop notes the update. *)
Lemma fresh_module_change_builds :
  exists e',
    onWatchEvent S1_world (WatchEventModuleChanged GraphSpec.S1_a 5) S1_loop S1_engine
    = Done (set_didUpdateDeployments true S1_loop) e'
    /\ Call_Build GraphSpec.S1_a ∈ trace e'
    /\ Call_Deploy GraphSpec.S1_a 1 true ∈ trace e'.
Proof.
  eexists. split; [vm_compute; reflexivity|].
  split; vm_compute; repeat (first [apply list_elem_of_here|apply list_elem_of_further]).
Qed.

(** In S1 an added event for a is ignored, and one for the new module c
    stores its meta and builds it. *)
Lemma known_module_added_is_ignored_witness :
  onWatchEvent S1_world (WatchEventModuleAdded GraphSpec.S1_a) S1_loop S1_engine
  = Done S1_loop S1_engine
  /\ onWatchEvent S1_world (WatchEventModuleAdded S1_c) S1_loop S1_engine
     = buildAndDeployThen S1_world ["c"] (Errorf_deploy_failed "c") S1_loop
         (with_moduleMetas (insert "c" {| module := S1_c; lastBuildStartTime := 0 |})
                           S1_engine).
Proof.
  split.
  - apply (proj1 (known_module_added_is_ignored S1_world GraphSpec.S1_a S1_loop S1_engine)).
    exists (mkModuleMeta GraphSpec.S1_a 5). reflexivity.
  - apply (proj2 (known_module_added_is_ignored S1_world S1_c S1_loop S1_engine)).
    reflexivity.
Defined.

(** In S1 the first CHANGED event for b stores the hash and rebuilds a,
    the one module that depends on b; the same event again is ignored. *)
Lemma unchanged_schema_is_ignored_witness :
  (onSchemaChange S1_world (mkSchemaChange DEPLOYMENT_CHANGED (Some S1_b_schema))
     S1_loop S1_engine
   = rebuildDependents S1_world S1_b_schema S1_loop S1_engine
   /\ dependentModuleNames (moduleMetas S1_engine) "b" = ["a"])
  /\ forall e2,
       onSchemaChange S1_world (mkSchemaChange DEPLOYMENT_CHANGED (Some S1_b_schema))
         (set_moduleHash "b" "sha256:module b { }" S1_loop) e2
       = Done (set_moduleHash "b" "sha256:module b { }" S1_loop)
              (with_event (Tracef_schema_unchanged "b") e2).
Proof.
  split.
  - split; [|vm_compute; reflexivity].
    apply (proj1 (proj2 (unchanged_schema_is_ignored S1_world S1_b_schema S1_loop S1_engine))).
    discriminate.
  - intros e2.
    apply (proj1 (unchanged_schema_is_ignored S1_world S1_b_schema
                    (set_moduleHash "b" "sha256:module b { }" S1_loop) e2)).
    reflexivity.
Defined.

End DevLoopFacts.

(* ===================================================================== *)
(** * Further properties                                                  *)
(* ===================================================================== *)

Module DalErrsMoreFacts.
Import GoStrings DalErrs DalErrsSpec DalErrsFacts ConfigDal ConfigDalSpec.

Lemma errors_Is_kind_not_pg err k :
  is_kind k -> errors_Is err k = true -> errors_As_PgError err = None.
Proof.
  intros Hk. apply errors_Is_leaf_not_pg; destruct Hk as [-> | [-> | ->]]; discriminate.
Qed.

(** A chain ends in one leaf: one that ends in a kind does not end in a
    "no rows" sentinel. *)
Lemma errors_Is_leaves err a b :
  (forall p e, a <> Errorf p e) -> (forall p e, b <> Errorf p e) -> a <> b ->
  errors_Is err a = true -> errors_Is err b = false.
Proof.
  intros Ha Hb Hab. induction err as [| | | | |pe|p inner IH|msg];
    cbn [errors_Is]; intros H;
    repeat match goal with
           | H : context [decide ?P] |- _ => destruct (decide P); subst
           | |- context [decide ?P] => destruct (decide P); subst
           end; try congruence; try discriminate; auto.
Qed.

Lemma kind_not_IsNotFound err k :
  is_kind k -> errors_Is err k = true -> IsNotFound err = false.
Proof.
  intros Hk H. unfold IsNotFound.
  rewrite (errors_Is_leaves err k SqlErrNoRows), (errors_Is_leaves err k PgxErrNoRows);
    auto; destruct Hk as [-> | [-> | ->]]; discriminate.
Qed.

Lemma pg_not_IsNotFound err pe : errors_As_PgError err = Some pe -> IsNotFound err = false.
Proof.
  intros Has. destruct (IsNotFound err) eqn:H; [|reflexivity].
  apply IsNotFound_not_pg in H. congruence.
Qed.

(** X1.  An error that already is of one of the three kinds, however it
    is wrapped, passes through [TranslatePGError] unchanged; so
    translating a second time changes nothing. *)
Theorem TranslatePGError_idempotent :
  (forall err k, is_kind k -> errors_Is err k = true ->
                 TranslatePGError (Some err) = Some err)
  /\ forall err, TranslatePGError (TranslatePGError err) = TranslatePGError err.
Proof.
  assert (forall err k, is_kind k -> errors_Is err k = true ->
                        TranslatePGError (Some err) = Some err) as Hkind.
  { intros err k Hk H. unfold TranslatePGError.
    now rewrite (errors_Is_kind_not_pg err k Hk H), (kind_not_IsNotFound err k Hk H). }
  split; [exact Hkind|].
  intros [err|]; [|reflexivity].
  assert (forall p k, is_kind k ->
            TranslatePGError (Some (Errorf p k)) = Some (Errorf p k)) as Hwrap.
  { intros p k Hk. apply (Hkind _ k Hk).
    cbn [errors_Is]. rewrite decide_False by (destruct Hk as [-> | [-> | ->]]; discriminate).
    destruct Hk as [-> | [-> | ->]]; reflexivity. }
  unfold TranslatePGError at 2 3.
  destruct (errors_As_PgError err) as [pe|] eqn:Has.
  - destruct (String.eqb (Code pe) ForeignKeyViolation) eqn:H1;
      [apply Hwrap; unfold is_kind; auto|].
    destruct (String.eqb (Code pe) UniqueViolation) eqn:H2;
      [apply Hwrap; unfold is_kind; auto|].
    destruct (_ || _) eqn:H3; [apply Hwrap; unfold is_kind; auto|].
    unfold TranslatePGError. now rewrite Has, H1, H2, H3.
  - destruct (IsNotFound err) eqn:Hnf; [reflexivity|].
    unfold TranslatePGError. now rewrite Has, Hnf.
Qed.

(** A schema error wrapped twice by its callers, as StartFSMTransition
    wraps a conflict. *)
Lemma TranslatePGError_idempotent_witness :
  TranslatePGError (Some (Errorf "verb" (Errorf "transition already executing" ErrConflict)))
  = Some (Errorf "verb" (Errorf "transition already executing" ErrConflict)).
Proof.
  apply (proj1 TranslatePGError_idempotent _ ErrConflict).
  - right. left. reflexivity.
  - reflexivity.
Defined.

Lemma TranslatePGError_not_no_rows (err : option error) e :
  TranslatePGError err = Some e -> IsNotFound e = false.
Proof.
  revert e. destruct err as [err|]; [|discriminate]. unfold TranslatePGError.
  destruct (errors_As_PgError err) as [pe|] eqn:Has.
  - destruct (String.eqb (Code pe) ForeignKeyViolation); [now intros e [= <-]|].
    destruct (String.eqb (Code pe) UniqueViolation); [now intros e [= <-]|].
    destruct (_ || _); [now intros e [= <-]|].
    intros e [= <-]. eapply pg_not_IsNotFound; eauto.
  - destruct (IsNotFound err) eqn:Hnf; intros e [= <-]; [reflexivity|exact Hnf].
Qed.

(** X2.  What [TranslatePGError] returns is nil exactly for nil, and is
    never one of the "no rows" errors of the drivers: callers need not
    know them. *)
Theorem TranslatePGError_hides_no_rows (err : option error) :
  (TranslatePGError err = None <-> err = None)
  /\ forall e, TranslatePGError err = Some e -> IsNotFound e = false.
Proof.
  split.
  - destruct err as [err|]; [|tauto]. unfold TranslatePGError.
    split; [|discriminate].
    destruct (errors_As_PgError err);
      repeat match goal with |- context [if ?b then _ else _] => destruct b end;
      discriminate.
  - apply TranslatePGError_not_no_rows.
Qed.

(** The "no rows" error of pgx, wrapped by a query helper, comes out as
    [ErrNotFound]. *)
Lemma TranslatePGError_hides_no_rows_witness :
  IsNotFound ErrNotFound = false.
Proof.
  apply (proj2 (TranslatePGError_hides_no_rows (Some (Errorf "query" PgxErrNoRows)))).
  reflexivity.
Defined.

Section Config.
Context {S : Type} (db : DBI S).

(** X3.  The configuration DAL returns no value with an error, and never
    a "no rows" error of the driver: when the query for a configuration
    finds no row the error is [ErrNotFound], and when a write breaks a
    unique constraint it is of the kind [ErrConflict]. *)
Theorem configuration_errors_are_translated
    (module : option string) (name value : string) (s : S) :
  (forall s1 b e,
      GetModuleConfiguration db module name s = (s1, (b, Some e)) ->
      b = "" /\ IsNotFound e = false)
  /\ (forall s1 b qerr,
        db_GetModuleConfiguration db module name s = (s1, (b, Some qerr)) ->
        IsNotFound qerr = true ->
        GetModuleConfiguration db module name s = (s1, ("", Some ErrNotFound)))
  /\ (forall s1 qerr pe,
        db_SetModuleConfiguration db module name value s = (s1, Some qerr) ->
        errors_As_PgError qerr = Some pe -> Code pe = UniqueViolation ->
        exists e, SetModuleConfiguration db module name value s = (s1, Some e)
                  /\ errors_Is e ErrConflict = true)
  /\ (forall s1 e,
        UnsetModuleConfiguration db module name s = (s1, Some e) -> IsNotFound e = false)
  /\ (forall s1 l e,
        ListModuleConfiguration db s = (s1, (l, Some e)) ->
        l = [] /\ IsNotFound e = false).
Proof.
  split; [|split; [|split; [|split]]].
  - intros s1 b e. unfold GetModuleConfiguration.
    destruct (db_GetModuleConfiguration db module name s) as [s2 [b2 [qerr|]]];
      [|discriminate].
    intros [= <- <- H]. split; [reflexivity|].
    now apply (TranslatePGError_not_no_rows (Some qerr)).
  - intros s1 b qerr Hq Hnf. unfold GetModuleConfiguration. rewrite Hq.
    unfold TranslatePGError. now rewrite (IsNotFound_not_pg qerr Hnf), Hnf.
  - intros s1 qerr pe Hq Has Hc. unfold SetModuleConfiguration. rewrite Hq.
    unfold TranslatePGError. rewrite Has, Hc. simpl. eexists. split; reflexivity.
  - intros s1 e. unfold UnsetModuleConfiguration.
    destruct (db_UnsetModuleConfiguration db module name s) as [s2 qerr].
    intros [= <- H]. now apply (TranslatePGError_not_no_rows qerr).
  - intros s1 l e. unfold ListModuleConfiguration.
    destruct (db_ListModuleConfiguration db s) as [s2 [l2 [qerr|]]]; [|discriminate].
    intros [= <- <- H]. split; [reflexivity|].
    now apply (TranslatePGError_not_no_rows (Some qerr)).
Qed.

End Config.

(** The configuration of a database with the one entry "timeout" of
    module "echo": other names are not found, and a second insert of the
    entry is a unique violation. *)
Lemma configuration_errors_are_translated_witness :
  GetModuleConfiguration one_entry_db (Some "echo") "retries" tt
  = (tt, ("", Some ErrNotFound))
  /\ exists e, SetModuleConfiguration one_entry_db (Some "echo") "timeout" "5" tt
               = (tt, Some e)
               /\ errors_Is e ErrConflict = true.
Proof.
  destruct (configuration_errors_are_translated one_entry_db (Some "echo") "retries" "5" tt)
    as (_ & Hget & _).
  destruct (configuration_errors_are_translated one_entry_db (Some "echo") "timeout" "5" tt)
    as (_ & _ & Hset & _).
  split.
  - apply (Hget tt "" PgxErrNoRows); reflexivity.
  - apply (Hset tt (PgErr one_entry_violation) one_entry_violation); reflexivity.
Defined.

End DalErrsMoreFacts.

Module GraphMoreFacts.
Import BuildEngine GraphSpec GraphFacts GraphMoreSpec.

Section Closure.
Context (metas : gmap string moduleMeta) (ctrl : gmap string SchemaModule).

Local Abbreviation reachable := (GraphSpec.reachable metas ctrl).
Local Abbreviation requested := (GraphSpec.requested metas).

Lemma reachable_mono names names' n :
  (forall x, x ∈ names -> reachable names' x) -> reachable names n -> reachable names' n.
Proof.
  intros Hsub. induction 1 as [n Hin|n deps d _ IH Hres Hd]; [auto|].
  eapply reach_dependency; eauto.
Qed.

Section Within.
(** A set of names closed under dependencies. *)
Context (R : string -> Prop).
Hypothesis R_closed :
  forall n deps d, R n -> resolve metas ctrl n = Some deps -> d ∈ deps -> R d.

Local Abbreviation within out := (forall n : string, is_Some (out !! n) -> R n).
Local Abbreviation stays r :=
  (match r with
   | GraphOk out' => within out'
   | GraphErr err =>
       exists x, err = ErrModuleNotFound x /\ R x /\ resolve metas ctrl x = None
   | GraphFuel => True
   end).

Lemma visit_all_within (visit : string -> gmap string (list string) -> graph_result) :
  (forall name out, R name -> within out -> stays (visit name out)) ->
  forall names out,
    (forall n, n ∈ names -> R n) -> within out -> stays (visit_all visit names out).
Proof.
  intros Hvisit. induction names as [|n names IH]; intros out Hnames Hout; simpl.
  - exact Hout.
  - assert (R n) as Hn by (apply Hnames, elem_of_cons; now left).
    pose proof (Hvisit n out Hn Hout) as H1.
    destruct (visit n out) as [out1|err|]; [|exact H1|exact I].
    apply IH; [|exact H1]. intros x Hx. apply Hnames, elem_of_cons. now right.
Qed.

(** A walk from a name of the set adds names of the set only, and an
    error names one of them. *)
Lemma buildGraph_within fuel :
  forall name out, R name -> within out -> stays (buildGraph fuel metas ctrl name out).
Proof.
  induction fuel as [|fuel IH]; intros name out Hname Hout; simpl; [exact I|].
  destruct (out !! name) as [ds|] eqn:Hlook; [exact Hout|].
  destruct (resolve metas ctrl name) as [deps|] eqn:Hres; [|simpl; eauto].
  apply (visit_all_within _ IH).
  - intros d Hd. eapply R_closed; eauto.
  - intros n Hn. destruct (decide (name = n)) as [<-|Hne]; [exact Hname|].
    rewrite lookup_insert_ne in Hn by exact Hne. now apply Hout.
Qed.

End Within.

Lemma Graph_of_within moduleNames :
  match Graph_of metas ctrl moduleNames with
  | GraphOk out => forall n, is_Some (out !! n) -> reachable (requested moduleNames) n
  | GraphErr err =>
      exists x, err = ErrModuleNotFound x /\ reachable (requested moduleNames) x
                /\ resolve metas ctrl x = None
  | GraphFuel => True
  end.
Proof.
  rewrite Graph_of_unfold.
  apply (visit_all_within (reachable (requested moduleNames))).
  - intros name out. apply buildGraph_within. intros n deps d. apply reach_dependency.
  - intros n. apply reach_requested.
  - intros n [ds Hn]. now rewrite lookup_empty in Hn.
Qed.

(** The map of Graph, entry by entry. *)
Lemma Graph_of_exact moduleNames out n ds :
  Graph_of metas ctrl moduleNames = GraphOk out ->
  out !! n = Some ds <->
  reachable (requested moduleNames) n /\ resolve metas ctrl n = Some ds.
Proof.
  intros HG. split.
  - intros Hn. pose proof (Graph_of_within moduleNames) as Hw. rewrite HG in Hw.
    assert (reachable (requested moduleNames) n) as Hr by (apply Hw; eauto).
    split; [exact Hr|].
    destruct (Graph_of_reachable metas ctrl moduleNames out n HG Hr) as (ds' & H1 & H2).
    congruence.
  - intros [Hr Hres].
    destruct (Graph_of_reachable metas ctrl moduleNames out n HG Hr) as (ds' & H1 & H2).
    congruence.
Qed.

Lemma resolve_None x :
  resolve metas ctrl x = None <-> metas !! x = None /\ ctrl !! x = None.
Proof.
  unfold resolve. destruct (metas !! x); [split; [discriminate|intros [? _]; discriminate]|].
  destruct (ctrl !! x); [split; [discriminate|intros [_ ?]; discriminate]|].
  split; auto.
Qed.

Lemma Graph_of_succeeds moduleNames :
  (exists out, Graph_of metas ctrl moduleNames = GraphOk out) <->
  forall n, reachable (requested moduleNames) n -> is_Some (resolve metas ctrl n).
Proof.
  split.
  - intros [out HG] n Hr.
    destruct (Graph_of_reachable metas ctrl moduleNames out n HG Hr) as (ds & _ & H).
    eauto.
  - intros Hall. pose proof (Graph_of_within moduleNames) as Hw.
    destruct (Graph_of_ok metas ctrl moduleNames) as [_ Hfuel].
    destruct (Graph_of metas ctrl moduleNames) as [out|err|]; [eauto| |contradiction].
    destruct Hw as (x & _ & Hr & Hres). destruct (Hall x Hr) as [ds Hds]. congruence.
Qed.

Lemma requested_same names names' :
  (forall n, n ∈ names <-> n ∈ names') ->
  forall n, n ∈ requested names <-> n ∈ requested names'.
Proof.
  intros Hsame. destruct names as [|a names], names' as [|b names']; simpl; auto.
  - exfalso. apply (not_elem_of_nil b), Hsame, elem_of_cons. now left.
  - exfalso. apply (not_elem_of_nil a), Hsame, elem_of_cons. now left.
Qed.

End Closure.

(** X4.  The map of Graph is the closure of the request under
    dependencies and nothing more: a name is a key exactly when the
    request reaches it, and its entry then is its resolved dependency
    list.  The module an error names is one the request reaches.  So
    Graph succeeds exactly when every reachable name is known; modules
    that depend on each other are no obstacle, and an unknown dependency
    of a module the request does not reach is none either. *)
Theorem Graph_is_reachable_closure
    (metas : gmap string moduleMeta) (ctrl : gmap string SchemaModule)
    (moduleNames : list string) :
  (forall out, Graph_of metas ctrl moduleNames = GraphOk out ->
     forall n ds,
       out !! n = Some ds <->
       reachable metas ctrl (requested metas moduleNames) n
       /\ resolve metas ctrl n = Some ds)
  /\ (forall err, Graph_of metas ctrl moduleNames = GraphErr err ->
        exists x, err = ErrModuleNotFound x
                  /\ reachable metas ctrl (requested metas moduleNames) x
                  /\ metas !! x = None /\ ctrl !! x = None)
  /\ ((exists out, Graph_of metas ctrl moduleNames = GraphOk out) <->
      forall n, reachable metas ctrl (requested metas moduleNames) n ->
                is_Some (resolve metas ctrl n)).
Proof.
  split; [|split].
  - intros out HG n ds. now apply Graph_of_exact.
  - intros err HG. pose proof (Graph_of_within metas ctrl moduleNames) as Hw.
    rewrite HG in Hw. destruct Hw as (x & -> & Hr & Hres).
    exists x. split; [reflexivity|]. split; [exact Hr|]. now apply resolve_None.
  - apply Graph_of_succeeds.
Qed.

(** Modules a and b depend on each other, and c, which is not asked for,
    depends on a module nobody knows: the graph of a has a, b and builtin
    and not c. *)
Lemma Graph_is_reachable_closure_witness :
  (reachable cyclic_metas S1_ctrl ["a"] "a"
   /\ resolve cyclic_metas S1_ctrl "a" = Some ["b"])
  /\ ~ reachable cyclic_metas S1_ctrl ["a"] "c".
Proof.
  destruct (Graph_is_reachable_closure cyclic_metas S1_ctrl ["a"]) as (Hexact & _ & _).
  assert (Graph_of cyclic_metas S1_ctrl ["a"] = GraphOk cyclic_graph) as HG
    by (vm_compute; reflexivity).
  split.
  - apply (Hexact cyclic_graph HG "a" ["b"]). reflexivity.
  - intros Hc.
    assert (cyclic_graph !! "c" = Some ["time"]) as H.
    { apply (Hexact cyclic_graph HG "c" ["time"]). split; [exact Hc|reflexivity]. }
    vm_compute in H. discriminate.
Defined.

(** X5.  The map of Graph does not depend on the order of the requested
    names nor on how often one is given. *)
Theorem Graph_order_independent
    (metas : gmap string moduleMeta) (ctrl : gmap string SchemaModule)
    (names names' : list string) (out : gmap string (list string)) :
  (forall n, n ∈ names <-> n ∈ names') ->
  Graph_of metas ctrl names = GraphOk out ->
  Graph_of metas ctrl names' = GraphOk out.
Proof.
  intros Hsame HG. pose proof (requested_same metas names names' Hsame) as Hreq.
  assert (forall n, reachable metas ctrl (requested metas names) n
                    <-> reachable metas ctrl (requested metas names') n) as Hreach.
  { intros n. split; apply reachable_mono; intros x Hx; apply reach_requested, Hreq, Hx. }
  destruct (proj2 (Graph_of_succeeds metas ctrl names')) as [out' HG'].
  { intros n Hn. apply (proj1 (Graph_of_succeeds metas ctrl names)); [eauto|].
    now apply Hreach. }
  rewrite HG'. f_equal. apply map_eq. intros n. apply option_eq. intros ds.
  rewrite (Graph_of_exact metas ctrl names' out' n ds HG').
  rewrite (Graph_of_exact metas ctrl names out n ds HG).
  now rewrite Hreach.
Qed.

Lemma Graph_order_independent_witness :
  Graph_of cyclic_metas S1_ctrl ["b"; "a"; "b"] = GraphOk cyclic_graph.
Proof.
  apply (Graph_order_independent cyclic_metas S1_ctrl ["a"; "b"]).
  - intros n. rewrite !elem_of_cons. tauto.
  - vm_compute. reflexivity.
Defined.

End GraphMoreFacts.

Module BuildMoreFacts.
Import BuildEngine BuildSpec BuildFacts BuildMoreSpec.

(** *** Relations every step keeps *)

Section Kept.
Context (R : Engine -> Engine -> Prop).
Hypothesis R_refl : forall e, R e e.
Hypothesis R_trans : forall e1 e2 e3, R e1 e2 -> R e2 e3 -> R e1 e3.

Lemma for_each_kept {A S T} (body : A -> S -> M (S + T)) (xs : list A) :
  (forall x s e r e', x ∈ xs -> body x s e = Done r e' -> R e e') ->
  forall s e r e', for_each body xs s e = Done r e' -> R e e'.
Proof.
  intros Hbody s e r e' Hrun.
  eapply (for_each_inv body (fun _ e0 => R e e0) (fun _ e0 => R e e0)) in Hrun.
  - now destruct r.
  - intros x s0 e0 r0 e0' Hx HR Hb.
    assert (R e e0') by (eapply R_trans; [exact HR|eapply Hbody; eauto]).
    now destruct r0.
  - apply R_refl.
Qed.

Section Building.
Context (W : World) (mustBuild : gmap string bool) (callback : option (buildCallback)).
Hypothesis tryBuild_kept :
  forall moduleName builtModules e r e',
    tryBuild W mustBuild moduleName builtModules callback e = Done r e' -> R e e'.

Lemma buildGroupOf_kept builtModules pending group e r e' :
  buildGroupOf W mustBuild builtModules callback pending group e = Done r e' -> R e e'.
Proof.
  unfold buildGroupOf. apply for_each_kept.
  intros name acc e0 r0 e0' _ Hb.
  apply bind_Done in Hb as (rt & e1 & Htry & Hret).
  apply tryBuild_kept in Htry.
  destruct (rt.2).
  - destruct (decide (errCh_capacity <= pending + length acc.2)); [discriminate|].
    run_inv Hret. exact Htry.
  - run_inv Hret. exact Htry.
Qed.

Lemma buildGroups_kept topology builtModules e r e' :
  buildGroups W mustBuild callback topology builtModules e = Done r e' -> R e e'.
Proof.
  unfold buildGroups. apply for_each_kept.
  intros group acc e0 r0 e0' _ Hb.
  apply bind_Done in Hb as (rg & e1 & Hg & Hret).
  apply buildGroupOf_kept in Hg.
  destruct rg as [[schemas errs]|err]; run_inv Hret; exact Hg.
Qed.

End Building.

End Kept.

(** *** What build does *)

Section Runs.
Context (W : World).

Ltac trace_eq :=
  simpl; rewrite <- ?app_assoc;
  first [reflexivity | symmetry; apply app_nil_r].

Lemma build_shape moduleName builtModules e r e' :
  build W moduleName builtModules e = Done r e' ->
  exists evs,
    trace e' = trace e ++ evs
    /\ moduleMetas e' = moduleMetas e /\ controllerSchema e' = controllerSchema e
    /\ modulesToBuild e' = modulesToBuild e /\ listener e' = listener e
    /\ buildGroupErr e' = buildGroupErr e
    /\ Forall (fun ev => emitted_by_build (listener e) ev = true) evs
    /\ (r.2 = None -> forall meta, moduleMetas e !! moduleName = Some meta ->
          Call_Build (module meta) ∈ evs
          /\ Call_ModuleFromProtoFile (schema_path (Config (module meta))) ∈ evs).
Proof.
  unfold build. intros Hrun.
  apply bind_Done in Hrun as (meta & e1 & H1 & H2).
  apply gets_Done in H1 as [Hmeta <-].
  destruct meta as [meta|].
  2:{ run_inv H2. exists []. split; [trace_eq|]. do 5 (split; [reflexivity|]). split; [constructor|discriminate]. }
  apply bind_Done in H2 as (n & e1 & H1 & H2). apply gets_Done in H1 as [_ <-].
  apply bind_Done in H2 as (combined & e1 & H1 & H2).
  apply gatherSchemas_pure in H1. subst e1.
  destruct combined as [combined|err].
  2:{ run_inv H2. exists []. split; [trace_eq|]. do 5 (split; [reflexivity|]). split; [constructor|discriminate]. }
  apply bind_Done in H2 as (l & e1 & H1 & H2). apply gets_Done in H1 as [Hl <-].
  apply bind_Done in H2 as (u & e1 & H1 & H2).
  assert (exists evs0, e1 = foldl (fun e ev => with_event ev e) e evs0
                       /\ Forall (fun ev => emitted_by_build (listener e) ev = true) evs0)
    as (evs0 & -> & Hevs0).
  { unfold when in H1. destruct l.
    - run_inv H1. exists [OnBuildStarted (module meta)]. split; [reflexivity|].
      repeat constructor. simpl. exact Hl.
    - run_inv H1. exists []. split; [reflexivity|constructor]. }
  assert (forall evs (e0 : Engine),
            trace (foldl (fun e ev => with_event ev e) e0 evs) = trace e0 ++ evs
            /\ moduleMetas (foldl (fun e ev => with_event ev e) e0 evs) = moduleMetas e0
            /\ controllerSchema (foldl (fun e ev => with_event ev e) e0 evs)
               = controllerSchema e0
            /\ modulesToBuild (foldl (fun e ev => with_event ev e) e0 evs)
               = modulesToBuild e0
            /\ listener (foldl (fun e ev => with_event ev e) e0 evs) = listener e0
            /\ buildGroupErr (foldl (fun e ev => with_event ev e) e0 evs)
               = buildGroupErr e0) as Hfold.
  { induction evs as [|ev evs IH]; intros e0; simpl.
    - rewrite app_nil_r. repeat split.
    - destruct (IH (with_event ev e0)) as (-> & -> & -> & -> & -> & ->).
      simpl. rewrite <- app_assoc. repeat split. }
  destruct (Hfold evs0 e) as (Ht & Hm & Hc & Hb & Hli & Hg).
  apply bind_Done in H2 as (u2 & e2 & H3 & H2). run_inv H3.
  apply bind_Done in H2 as (berr & e3 & H3 & H2).
  apply ask_Done in H3 as [_ <-].
  destruct berr as [berr|].
  - run_inv H2. exists (evs0 ++ [Call_Build (module meta)]).
    simpl. rewrite Ht, Hm, Hc, Hb, Hli, Hg, <- app_assoc.
    do 6 (split; [reflexivity|]). split; [|discriminate].
    apply Forall_app. split; [exact Hevs0|repeat constructor].
  - apply bind_Done in H2 as (u3 & e3 & H3 & H2). run_inv H3.
    apply bind_Done in H2 as (sch & e3 & H3 & H2).
    apply ask_Done in H3 as [_ <-].
    exists (evs0 ++ [Call_Build (module meta);
                     Call_ModuleFromProtoFile (schema_path (Config (module meta)))]).
    assert (Forall (fun ev => emitted_by_build (listener e) ev = true)
              (evs0 ++ [Call_Build (module meta);
                        Call_ModuleFromProtoFile (schema_path (Config (module meta)))]))
      as Hall by (apply Forall_app; split; [exact Hevs0|repeat constructor]).
    destruct sch as [sch|err]; run_inv H2; simpl;
      rewrite Ht, Hm, Hc, Hb, Hli, Hg, <- !app_assoc;
      (do 6 (split; [reflexivity|])); (split; [exact Hall|]); [|discriminate].
    intros _ meta' Hmeta'. rewrite Hmeta' in Hmeta. injection Hmeta as <-.
    split; apply elem_of_app; right; [now left|right; now left].
Qed.

(** *** The relations *)

Lemma build_run_refl e : build_run e e [].
Proof. unfold build_run. rewrite app_nil_r. auto. Qed.

Lemma build_run_trans e1 e2 e3 evs1 evs2 :
  build_run e1 e2 evs1 -> build_run e2 e3 evs2 -> build_run e1 e3 (evs1 ++ evs2).
Proof.
  intros (Ht1 & Hd1 & Hc1 & Hl1) (Ht2 & Hd2 & Hc2 & Hl2). unfold build_run.
  rewrite Ht2, Ht1, Hd2, Hd1, Hc2, Hc1, Hl2, Hl1, app_assoc. auto.
Qed.

Lemma only_builds_refl e : only_builds e e.
Proof. exists []. split; [apply build_run_refl|]. split; [constructor|auto]. Qed.

Lemma only_builds_trans e1 e2 e3 : only_builds e1 e2 -> only_builds e2 e3 -> only_builds e1 e3.
Proof.
  intros (evs1 & Hr1 & Hf1 & Hm1 & Hg1) (evs2 & Hr2 & Hf2 & Hm2 & Hg2).
  exists (evs1 ++ evs2). split; [eapply build_run_trans; eauto|].
  split; [|split; congruence].
  apply Forall_app. split; [exact Hf1|].
  destruct Hr1 as (_ & _ & _ & Hl). now rewrite <- Hl.
Qed.

Lemma deployed_app evs1 evs2 : deployed (evs1 ++ evs2) = deployed evs1 ++ deployed evs2.
Proof. apply omap_app. Qed.

Lemma not_deploy_built l ev m replicas waitForDeployOnline :
  emitted_by_build l ev = true -> ev <> Call_Deploy m replicas waitForDeployOnline.
Proof. intros H ->. discriminate. Qed.

Lemma deployed_quiet l evs :
  Forall (fun ev => emitted_by_build l ev = true) evs -> deployed evs = [].
Proof.
  induction 1 as [|ev evs Hev _ IH]; [reflexivity|].
  change (ev :: evs) with ([ev] ++ evs). rewrite deployed_app, IH.
  destruct ev; try discriminate; reflexivity.
Qed.

Lemma deploys_after_builds_app evs1 evs2 :
  deploys_after_builds evs1 -> deploys_after_builds evs2 ->
  deploys_after_builds (evs1 ++ evs2).
Proof.
  intros H1 H2 pre m replicas w post Heq.
  apply List.app_eq_app in Heq as (l & [[Ha Hb]|[Ha Hb]]).
  - destruct l as [|x l].
    + simpl in Hb. rewrite app_nil_r in Ha. subst pre.
      destruct (H2 [] m replicas w post (eq_sym Hb)) as [H _].
      now apply not_elem_of_nil in H.
    + injection Hb as <- Hb. exact (H1 pre m replicas w l Ha).
  - destruct (H2 l m replicas w post Hb) as [Hx Hy].
    subst pre. split; apply elem_of_app; now right.
Qed.

Lemma deploys_after_builds_quiet evs :
  Forall (fun ev => forall m replicas w, ev <> Call_Deploy m replicas w) evs ->
  deploys_after_builds evs.
Proof.
  intros Hall pre m replicas w post ->.
  apply Forall_app in Hall as [_ Hall]. inversion Hall as [|? ? Hd _]; subst.
  now destruct (Hd m replicas w).
Qed.

Lemma deploys_after_builds_built l evs :
  Forall (fun ev => emitted_by_build l ev = true) evs -> deploys_after_builds evs.
Proof.
  intros Hall. apply deploys_after_builds_quiet.
  eapply Forall_impl; [exact Hall|].
  intros ev Hev m replicas w. exact (not_deploy_built l ev m replicas w Hev).
Qed.

Lemma deploys_after_builds_snoc l evs m replicas w :
  Forall (fun ev => emitted_by_build l ev = true) evs ->
  Call_Build m ∈ evs -> Call_ModuleFromProtoFile (schema_path (Config m)) ∈ evs ->
  deploys_after_builds (evs ++ [Call_Deploy m replicas w]).
Proof.
  intros Hall Hb Hs pre m' replicas' w' post Heq.
  apply List.app_eq_app in Heq as (k & [[Ha Hk]|[Ha Hk]]).
  - destruct k as [|x k].
    + simpl in Hk. rewrite app_nil_r in Ha. subst pre.
      injection Hk as -> -> -> ->. auto.
    + injection Hk as <- Hk. subst evs.
      apply Forall_app in Hall as [_ Hall]. inversion Hall as [|? ? Hd _]; subst.
      discriminate.
  - destruct k as [|x k]; [|destruct k; discriminate].
    simpl in Hk. injection Hk as <- <- <- <-. rewrite app_nil_r in Ha. subst pre. auto.
Qed.

Lemma builds_then_deploys_refl replicas w e : builds_then_deploys replicas w e e.
Proof.
  exists []. split; [apply build_run_refl|]. split; [|split; [constructor|]].
  - apply deploys_after_builds_quiet. constructor.
  - intros n. simpl. destruct (decide (n ∈ [])) as [H|_]; [|reflexivity].
    now apply not_elem_of_nil in H.
Qed.

Lemma builds_then_deploys_trans replicas w e1 e2 e3 :
  builds_then_deploys replicas w e1 e2 -> builds_then_deploys replicas w e2 e3 ->
  builds_then_deploys replicas w e1 e3.
Proof.
  intros (evs1 & Hr1 & Hd1 & Ha1 & Hf1) (evs2 & Hr2 & Hd2 & Ha2 & Hf2).
  exists (evs1 ++ evs2). split; [eapply build_run_trans; eauto|].
  split; [now apply deploys_after_builds_app|]. split; [now apply Forall_app|].
  intros n. rewrite Hf2, Hf1, deployed_app.
  destruct (decide (n ∈ deployed evs2)) as [H2|H2].
  - rewrite decide_True by (apply elem_of_app; now right). reflexivity.
  - destruct (decide (n ∈ deployed evs1)) as [H1|H1].
    + rewrite decide_True by (apply elem_of_app; now left). reflexivity.
    + rewrite decide_False; [reflexivity|].
      intros [H|H]%elem_of_app; contradiction.
Qed.

Lemma only_builds_then_deploys replicas w e e' :
  only_builds e e' -> builds_then_deploys replicas w e e'.
Proof.
  intros (evs & Hr & Hf & Hm & _). exists evs. split; [exact Hr|].
  split; [eapply deploys_after_builds_built; eauto|]. split.
  - eapply Forall_impl; [exact Hf|]. intros ev Hev m r0 w0 ->. discriminate.
  - intros n. rewrite (deployed_quiet _ _ Hf), Hm.
    destruct (decide (n ∈ [])) as [H|_]; [|reflexivity].
    now apply not_elem_of_nil in H.
Qed.

(** *** What tryBuild does: it builds, and calls the callback of a module
    it has compiled and whose schema it has read *)

Lemma dom_insert_existing {A} (m : gmap string A) k v :
  is_Some (m !! k) -> dom (<[k := v]> m) = dom m.
Proof.
  intros H. apply elem_of_dom in H. rewrite dom_insert_L.
  apply set_eq. intros x. rewrite elem_of_union, elem_of_singleton.
  split; [intros [->|Hx]; assumption|auto].
Qed.

Lemma tryBuild_shape mustBuild moduleName builtModules callback e r e' :
  tryBuild W mustBuild moduleName builtModules callback e = Done r e' ->
  exists e1 evs,
    build_run e e1 evs
    /\ Forall (fun ev => emitted_by_build (listener e) ev = true) evs
    /\ modulesToBuild e1 = modulesToBuild e
    /\ buildGroupErr e1 = buildGroupErr e
    /\ (e' = e1
        \/ exists f m,
             callback = Some f /\ Call_Build m ∈ evs
             /\ Call_ModuleFromProtoFile (schema_path (Config m)) ∈ evs
             /\ f m e1 = Done r.2 e').
Proof.
  intros Hrun. unfold tryBuild in Hrun.
  destruct (mustBuild_at mustBuild moduleName) eqn:Hmust; simpl in Hrun.
  - apply bind_Done in Hrun as (meta & e1 & H1 & H2).
    apply gets_Done in H1 as [Hmeta <-].
    destruct meta as [meta|].
    2:{ run_inv H2. exists e, []. split; [apply build_run_refl|].
        split; [constructor|auto]. }
    destruct (missing_dependency builtModules (Dependencies (module meta))) as [dep|].
    { run_inv H2.
      exists (with_event (Warnf_build_skipped moduleName dep) e),
             [Warnf_build_skipped moduleName dep].
      split; [repeat split|]. split; [repeat constructor|auto]. }
    apply bind_Done in H2 as (now & e1 & H1 & H2).
    apply ask_Done in H1 as [_ <-].
    apply bind_Done in H2 as (u & e1 & H1 & H2).
    apply modify_Done in H1. subst e1.
    apply bind_Done in H2 as (r0 & e1 & Hbuild & H2).
    destruct (build_shape _ _ _ _ _ Hbuild)
      as (evs & Ht & Hm & Hc & Hb & Hl & Hg & Hall & Hok).
    simpl in Ht, Hm, Hc, Hb, Hl, Hg, Hall, Hok.
    assert (build_run e e1 evs) as Hr.
    { split; [exact Ht|]. split; [|auto]. rewrite Hm. apply dom_insert_existing. eauto. }
    exists e1, evs. split; [exact Hr|]. split; [exact Hall|]. split; [exact Hb|].
    split; [exact Hg|].
    destruct (r0.2) as [err0|] eqn:Hr0.
    + run_inv H2. now left.
    + destruct callback as [f|]; [|run_inv H2; now left].
      apply bind_Done in H2 as (cerr & e2 & Hcb & H2). run_inv H2.
      right. exists f, (module meta). split; [reflexivity|].
      destruct (Hok eq_refl _ (lookup_insert_eq _ _ _)) as [Hx Hy].
      split; [exact Hx|]. split; [exact Hy|exact Hcb].
  - unfold mustSchema in Hrun.
    apply bind_Done in Hrun as (sch & e1 & H1 & H2).
    apply gets_Done in H1 as [_ <-].
    destruct sch as [sch|].
    + run_inv H2. exists e, []. split; [apply build_run_refl|].
      split; [constructor|auto].
    + destruct (build_shape _ _ _ _ _ H2)
        as (evs & Ht & Hm & Hc & Hb & Hl & Hg & Hall & Hok).
      exists e', evs. split; [|auto]. split; [exact Ht|]. rewrite Hm. auto.
Qed.

Lemma tryBuild_only_builds mustBuild moduleName builtModules e r e' :
  tryBuild W mustBuild moduleName builtModules None e = Done r e' -> only_builds e e'.
Proof.
  intros Hrun. apply tryBuild_shape in Hrun
    as (e1 & evs & Hr & Hall & Hm & Hg & [->|(f & m & Hf & _)]); [|discriminate].
  exists evs. auto.
Qed.

Lemma tryBuild_builds_then_deploys replicas w mustBuild moduleName builtModules e r e' :
  tryBuild W mustBuild moduleName builtModules (Some (deployCallback W replicas w)) e
  = Done r e' ->
  builds_then_deploys replicas w e e'.
Proof.
  intros Hrun. apply tryBuild_shape in Hrun
    as (e1 & evs & Hr & Hall & Hm & Hg & [->|(f & m & Hf & Hx & Hy & Hcb)]).
  - apply only_builds_then_deploys. exists evs. auto.
  - assert (f = deployCallback W replicas w) as -> by congruence.
    destruct r as [schemas err]. unfold deployCallback in Hcb. simpl in Hcb. run_inv Hcb.
    exists (evs ++ [Call_Deploy m replicas w]).
    destruct Hr as (Ht & Hd & Hc & Hl). split.
    { split; [simpl; now rewrite Ht, app_assoc|]. simpl. auto. }
    split; [eapply deploys_after_builds_snoc; eauto|]. split.
    + apply Forall_app. split.
      * eapply Forall_impl; [exact Hall|]. intros ev Hev m0 r0 w0 ->. discriminate.
      * apply Forall_cons. split; [|constructor].
        intros m0 r0 w0 [= _ <- <-]. auto.
    + intros n. simpl. rewrite deployed_app, (deployed_quiet _ _ Hall). simpl.
      destruct (decide (n ∈ [cfg_Module (Config m)])) as [Hn|Hn].
      * apply list_elem_of_singleton in Hn as ->. apply lookup_insert_eq.
      * rewrite lookup_insert_ne; [now rewrite Hm|].
        intros <-. apply Hn. now left.
Qed.

(** *** The first loop of buildWithCallback always comes back, and does
    nothing but update dependencies *)

Lemma updateAll_run moduleNames e :
  exists r e' evs,
    updateAll W moduleNames e = Done r e'
    /\ build_run e e' evs /\ only_prepares evs
    /\ modulesToBuild e' = modulesToBuild e /\ buildGroupErr e' = buildGroupErr e
    /\ match r with
       | inl _ => forall n, n ∈ moduleNames -> is_Some (moduleMetas e !! n)
       | inr err =>
           (exists n, n ∈ moduleNames /\ moduleMetas e !! n = None
                      /\ err = ErrModuleNotFound n)
           \/ exists t m, UpdateDependencies W t m = inr err
       end.
Proof.
  unfold updateAll. generalize (∅ : gmap string bool). revert e.
  induction moduleNames as [|name names IH]; intros e mb.
  - exists (inl mb), e, []. split; [reflexivity|]. split; [apply build_run_refl|].
    split; [constructor|]. split; [reflexivity|]. split; [reflexivity|].
    intros n Hn. now apply not_elem_of_nil in Hn.
  - cbn [for_each].
    match goal with |- context [for_each ?b names] => set (body := b) end.
    unfold mbind at 1, M_bind at 1.
    unfold mbind at 1, M_bind at 1, Load_moduleMeta, gets.
    destruct (moduleMetas e !! name) as [meta|] eqn:Hmeta.
    2:{ exists (inr (ErrModuleNotFound name)), e, []. split; [reflexivity|].
        split; [apply build_run_refl|]. split; [constructor|].
        split; [reflexivity|]. split; [reflexivity|].
        left. exists name. split; [apply elem_of_cons; now left|auto]. }
    unfold mbind at 1, M_bind at 1, emit, modify.
    unfold mbind at 1, M_bind at 1, ask.
    destruct (UpdateDependencies W _ (module meta)) as [m|err] eqn:Hupd.
    2:{ eexists (inr err), _, [Call_UpdateDependencies (module meta)].
        split; [reflexivity|]. split; [repeat split|].
        split; [repeat constructor; eauto|]. split; [reflexivity|].
        split; [reflexivity|]. right. eauto. }
    unfold mbind at 1, M_bind at 1, Store_moduleMeta, modify, mret, M_ret.
    match goal with
    | |- context [for_each _ names ?mb1 ?e1] =>
        destruct (IH e1 mb1) as (r & e' & evs & Hrun & Hr & Hp & Hm & Hg & Hres)
    end.
    exists r, e', (Call_UpdateDependencies (module meta) :: evs).
    split; [exact Hrun|].
    assert (forall v, dom (<[name := v]> (moduleMetas e)) = dom (moduleMetas e)) as Hdom
      by (intros v; apply dom_insert_existing; eauto).
    destruct Hr as (Ht & Hd & Hc & Hl). simpl in Ht, Hd, Hc, Hl, Hm, Hg.
    split; [split; [rewrite Ht, <- app_assoc; reflexivity|]|].
    { rewrite Hd, Hdom. auto. }
    split; [constructor; eauto|]. split; [exact Hm|]. split; [exact Hg|].
    destruct r as [mb'|err'].
    + intros n [->|Hn]%elem_of_cons; [eauto|].
      apply Hres in Hn. simpl in Hn. apply elem_of_dom. apply elem_of_dom in Hn.
      now rewrite Hdom in Hn.
    + destruct Hres as [(n & Hn & Hnone & ->)|Hext]; [left|now right].
      exists n. split; [apply elem_of_cons; now right|]. split; [|reflexivity].
      simpl in Hnone. apply not_elem_of_dom. apply not_elem_of_dom in Hnone.
      now rewrite Hdom in Hnone.
Qed.

Lemma only_prepares_built l evs :
  only_prepares evs -> Forall (fun ev => emitted_by_build l ev = true) evs.
Proof.
  intros H. eapply Forall_impl; [exact H|]. now intros ev [m ->].
Qed.

Lemma requested_run moduleNames e r e1 :
  match moduleNames with
  | [] => Modules
  | _ => mret moduleNames
  end e = Done r e1 ->
  r = requested_names e moduleNames /\ e1 = e.
Proof.
  destruct moduleNames; intros H.
  - unfold Modules in H. apply gets_Done in H as [<- <-]. auto.
  - apply ret_Done in H as [<- <-]. auto.
Qed.

Lemma buildWithCallback_kept (R : Engine -> Engine -> Prop) callback moduleNames e r e' :
  (forall e, R e e) -> (forall e1 e2 e3, R e1 e2 -> R e2 e3 -> R e1 e3) ->
  (forall e e', only_builds e e' -> R e e') ->
  (forall mustBuild moduleName builtModules e r e',
     tryBuild W mustBuild moduleName builtModules callback e = Done r e' -> R e e') ->
  buildWithCallback W callback moduleNames e = Done r e' -> R e e'.
Proof.
  intros Hrefl Htrans Hob Htry Hrun. unfold buildWithCallback in Hrun.
  apply bind_Done in Hrun as (names & e1 & H1 & H2).
  apply requested_run in H1 as [-> ->].
  apply bind_Done in H2 as (mb & e1 & Hupd & H2).
  destruct (updateAll_run (requested_names e moduleNames) e)
    as (r1 & e1' & evs & Hupd' & Hr & Hp & Hm & Hg & _).
  rewrite Hupd in Hupd'. injection Hupd' as <- <-.
  assert (R e e1) as HR1.
  { apply Hob. exists evs. split; [exact Hr|]. split; [|auto].
    now apply only_prepares_built. }
  destruct mb as [mb|err]; [|run_inv H2; exact HR1].
  apply bind_Done in H2 as (graph & e2 & H3 & H2).
  unfold Graph in H3. apply gets_Done in H3 as [_ <-].
  destruct graph as [graph|err|]; [|run_inv H2; exact HR1|discriminate].
  destruct (TopologicalSort W graph) as [topology|err]; [|run_inv H2; exact HR1].
  apply bind_Done in H2 as (rg & e2 & Hgr & H2).
  apply (buildGroups_kept R Hrefl Htrans W mb callback (Htry mb)) in Hgr.
  assert (e' = e2) as ->.
  { destruct rg as [[built errs]|err]; [destruct errs|]; run_inv H2; reflexivity. }
  eapply Htrans; eauto.
Qed.

Lemma buildWithCallback_unknown callback moduleNames e n :
  n ∈ moduleNames -> moduleMetas e !! n = None ->
  exists err e' evs,
    buildWithCallback W callback moduleNames e = Done (Some err) e'
    /\ build_run e e' evs /\ only_prepares evs
    /\ modulesToBuild e' = modulesToBuild e /\ buildGroupErr e' = buildGroupErr e
    /\ ((exists n', n' ∈ moduleNames /\ moduleMetas e !! n' = None
                    /\ err = ErrModuleNotFound n')
        \/ exists t m, UpdateDependencies W t m = inr err).
Proof.
  intros Hn Hnone.
  destruct (updateAll_run moduleNames e) as (r & e' & evs & Hupd & Hr & Hp & Hm & Hg & Hres).
  destruct r as [mb|err].
  { destruct (Hres n Hn) as [meta Hmeta]. congruence. }
  exists err, e', evs. split; [|auto].
  unfold buildWithCallback. destruct moduleNames as [|x xs].
  { now apply not_elem_of_nil in Hn. }
  unfold mbind at 1, M_bind at 1, mret at 1, M_ret at 1.
  unfold mbind at 1, M_bind at 1. now rewrite Hupd.
Qed.

End Runs.

(** X6.  A build of the local modules without a callback, as Build runs
    it, compiles and does nothing else: it deploys nothing, terminates
    nothing and reports neither success nor failure, it tells the listener
    of a start only when there is one, it adds no local module and removes
    none, and it leaves the controller schema, the flags of the pending
    builds and the error of the deploy group as they are. *)
Theorem Build_only_builds (W : World) (moduleNames : list string) (e e' : Engine)
    (r : option error) :
  buildWithCallback W None moduleNames e = Done r e' -> only_builds e e'.
Proof.
  apply buildWithCallback_kept.
  - apply only_builds_refl.
  - apply only_builds_trans.
  - auto.
  - intros mb name built e0 r0 e0'. apply tryBuild_only_builds.
Qed.

(** The build of scenario S1 in which the compiler fails on b. *)
Lemma Build_only_builds_witness : only_builds S9_engine S9_final.
Proof.
  apply (Build_only_builds S9_world [] S9_engine S9_final S9_result).
  vm_compute. reflexivity.
Defined.

Lemma BuildAndDeploy_kept (W : World) (replicas : Z)
    (waitForDeployOnline : bool) (moduleNames : list string) (e e' : Engine)
    (r : option error) :
  BuildAndDeploy W replicas waitForDeployOnline moduleNames e = Done r e' ->
  builds_then_deploys replicas waitForDeployOnline e e'.
Proof.
  intros Hrun. unfold BuildAndDeploy in Hrun.
  apply bind_Done in Hrun as (names & e1 & H1 & H2).
  apply requested_run in H1 as [-> ->].
  apply bind_Done in H2 as (u & e1 & H1 & H2). apply modify_Done in H1. subst e1.
  apply bind_Done in H2 as (err & e1 & Hb & H2).
  apply (buildWithCallback_kept W (builds_then_deploys replicas waitForDeployOnline)) in Hb.
  2:{ apply builds_then_deploys_refl. }
  2:{ apply builds_then_deploys_trans. }
  2:{ apply only_builds_then_deploys. }
  2:{ intros mb name built e0 r0 e0'. apply tryBuild_builds_then_deploys. }
  assert (forall (e0 e2 : Engine) evs,
            trace e2 = trace e0 ++ evs -> moduleMetas e2 = moduleMetas e0 ->
            controllerSchema e2 = controllerSchema e0 -> listener e2 = listener e0 ->
            modulesToBuild e2 = modulesToBuild e0 ->
            Forall (fun ev => forall m r w, ev <> Call_Deploy m r w) evs ->
            builds_then_deploys replicas waitForDeployOnline e0 e2) as Hstep.
  { intros e0 e2 evs Ht Hm Hc Hl Hf Hall. exists evs.
    split; [split; [exact Ht|]; rewrite Hm; auto|].
    split; [now apply deploys_after_builds_quiet|]. split.
    - eapply Forall_impl; [exact Hall|]. intros ev Hev m r0 w0 ->. now destruct (Hev m r0 w0).
    - intros n. rewrite Hf.
      assert (deployed evs = []) as ->.
      { clear Ht. induction Hall as [|ev evs Hev _ IH]; [reflexivity|].
        change (ev :: evs) with ([ev] ++ evs). rewrite deployed_app, IH.
        destruct ev; try reflexivity. now destruct (Hev m replicas0 waitForDeployOnline0). }
      destruct (decide (n ∈ [])) as [H|_]; [|reflexivity].
      now apply not_elem_of_nil in H. }
  apply bind_Done in H2 as (u2 & e2 & H1 & H2). apply modify_Done in H1. subst e2.
  apply bind_Done in H2 as (buildErr & e2 & H1 & H2). apply gets_Done in H1 as [_ <-].
  apply bind_Done in H2 as (pending & e2 & H1 & H2). apply gets_Done in H1 as [_ <-].
  apply bind_Done in H2 as (u3 & e2 & H1 & H2). apply ret_Done in H2 as [_ <-].
  eapply builds_then_deploys_trans; [apply (Hstep e _ []); try reflexivity|].
  { simpl. now rewrite app_nil_r. }
  { constructor. }
  eapply builds_then_deploys_trans; [exact Hb|].
  destruct pending as [|p pending].
  - run_inv H1. apply (Hstep _ _ []); try reflexivity; [|constructor].
    simpl. now rewrite app_nil_r.
  - unfold emit in H1. apply modify_Done in H1. subst e2.
    apply (Hstep _ _ [Infof_waiting_to_build (p :: pending)]); try reflexivity.
    repeat constructor. discriminate.
Qed.

(** X7.  In a run of BuildAndDeploy the deploy of a module starts only
    after the module was compiled and its schema file read in this run,
    each deploy is asked for the replicas and the flag given, and the
    flag of a pending build is cleared for the modules whose deploy was
    started and for no other.  What it returns is the first error of its
    group of builds and deploys, which the engine keeps. *)
Theorem BuildAndDeploy_deploys_what_it_built (W : World) (replicas : Z)
    (waitForDeployOnline : bool) (moduleNames : list string) (e e' : Engine)
    (r : option error) :
  BuildAndDeploy W replicas waitForDeployOnline moduleNames e = Done r e' ->
  builds_then_deploys replicas waitForDeployOnline e e' /\ r = buildGroupErr e'.
Proof.
  intros Hrun. split; [eapply BuildAndDeploy_kept; eauto|].
  unfold BuildAndDeploy in Hrun.
  apply bind_Done in Hrun as (names & e1 & _ & H2).
  apply bind_Done in H2 as (u & e2 & _ & H2).
  apply bind_Done in H2 as (err & e3 & _ & H2).
  apply bind_Done in H2 as (u2 & e4 & _ & H2).
  apply bind_Done in H2 as (buildErr & e5 & H1 & H2). apply gets_Done in H1 as [<- <-].
  apply bind_Done in H2 as (pending & e5 & H1 & H2). apply gets_Done in H1 as [_ <-].
  apply bind_Done in H2 as (u3 & e5 & H1 & H2). apply ret_Done in H2 as [<- <-].
  destruct pending; [run_inv H1; reflexivity|].
  unfold emit in H1. apply modify_Done in H1. now subst e5.
Qed.

(** Scenario S1: everything is built and deployed. *)
Lemma BuildAndDeploy_deploys_what_it_built_witness :
  builds_then_deploys 1 true DevLoopSpec.S1_engine S1_deployed
  /\ None = buildGroupErr S1_deployed.
Proof.
  apply (BuildAndDeploy_deploys_what_it_built DevLoopSpec.S1_world 1 true []
           DevLoopSpec.S1_engine S1_deployed None).
  vm_compute. reflexivity.
Defined.

(** X8.  When one of the names given is not a local module, the build
    comes back with an error before anything is compiled or deployed: all
    it has done is update the dependencies of the names before it.  The
    error is that a module given was not found, or the error of an update
    that failed first.  So does BuildAndDeploy, which may add a line on
    the builds that are pending. *)
Theorem build_of_unknown_module_stops (W : World) (callback : option (buildCallback))
    (replicas : Z) (waitForDeployOnline : bool)
    (moduleNames : list string) (e : Engine) (n : string) :
  n ∈ moduleNames -> moduleMetas e !! n = None ->
  (exists err e' evs,
     buildWithCallback W callback moduleNames e = Done (Some err) e'
     /\ build_run e e' evs /\ only_prepares evs
     /\ modulesToBuild e' = modulesToBuild e
     /\ ((exists n', n' ∈ moduleNames /\ moduleMetas e !! n' = None
                     /\ err = ErrModuleNotFound n')
         \/ exists t m, UpdateDependencies W t m = inr err))
  /\ exists err e' evs,
       BuildAndDeploy W replicas waitForDeployOnline moduleNames e = Done (Some err) e'
       /\ build_run e e' evs
       /\ Forall (fun ev => (exists m, ev = Call_UpdateDependencies m)
                            \/ exists names, ev = Infof_waiting_to_build names) evs
       /\ modulesToBuild e' = modulesToBuild e
       /\ ((exists n', n' ∈ moduleNames /\ moduleMetas e !! n' = None
                       /\ err = ErrModuleNotFound n')
           \/ exists t m, UpdateDependencies W t m = inr err).
Proof.
  intros Hn Hnone. split.
  - destruct (buildWithCallback_unknown W callback moduleNames e n Hn Hnone)
      as (err & e' & evs & Hrun & Hr & Hp & Hm & Hg & Hwho).
    exists err, e', evs. auto.
  - destruct (buildWithCallback_unknown W
                (Some (deployCallback W replicas waitForDeployOnline)) moduleNames
                (with_buildGroupErr (fun _ => None) e) n Hn Hnone)
      as (err & e1 & evs & Hrun & Hr & Hp & Hm & Hg & Hwho).
    destruct Hr as (Ht & Hd & Hc & Hl). simpl in Ht, Hd, Hc, Hl, Hm, Hg, Hwho.
    exists err. unfold BuildAndDeploy. destruct moduleNames as [|x xs].
    { now apply not_elem_of_nil in Hn. }
    unfold mbind at 1, M_bind at 1, mret at 1, M_ret at 1.
    unfold mbind at 1, M_bind at 1, modify at 1.
    unfold mbind at 1, M_bind at 1. rewrite Hrun.
    unfold mbind at 1, M_bind at 1, modify at 1.
    unfold mbind at 1, M_bind at 1, gets at 1.
    unfold mbind at 1, M_bind at 1, gets at 1.
    cbn [buildGroupErr with_buildGroupErr modulesToBuild]. rewrite Hg, Hm.
    destruct ((filter (fun kv => kv.2 = true) (map_to_list (modulesToBuild e))).*1)
      as [|p pending].
    + eexists _, evs. split; [reflexivity|]. split; [repeat split; assumption|].
      split; [|auto]. eapply Forall_impl; [exact Hp|]. auto.
    + eexists _, (evs ++ [Infof_waiting_to_build (p :: pending)]).
      split; [reflexivity|]. split; [split; [simpl; now rewrite Ht, app_assoc|auto]|].
      split; [|auto]. apply Forall_app. split.
      * eapply Forall_impl; [exact Hp|]. auto.
      * apply Forall_cons. split; [right; eauto|constructor].
Qed.

(** Scenario S1, asked to build a and c: there is no module c. *)
Lemma build_of_unknown_module_stops_witness :
  exists err e' evs,
    BuildAndDeploy DevLoopSpec.S1_world 1 true ["a"; "c"] DevLoopSpec.S1_engine
    = Done (Some err) e'
    /\ build_run DevLoopSpec.S1_engine e' evs
    /\ Forall (fun ev => (exists m, ev = Call_UpdateDependencies m)
                         \/ exists names, ev = Infof_waiting_to_build names) evs
    /\ modulesToBuild e' = modulesToBuild DevLoopSpec.S1_engine
    /\ ((exists n', n' ∈ ["a"; "c"] /\ moduleMetas DevLoopSpec.S1_engine !! n' = None
                    /\ err = ErrModuleNotFound n')
        \/ exists t m, UpdateDependencies DevLoopSpec.S1_world t m = inr err).
Proof.
  apply (build_of_unknown_module_stops DevLoopSpec.S1_world None 1 true ["a"; "c"]
           DevLoopSpec.S1_engine "c").
  - apply elem_of_cons. right. apply elem_of_cons. now left.
  - reflexivity.
Defined.

End BuildMoreFacts.

Module DeployFacts.
Import BuildEngine EngineMore EngineMoreSpec GraphFacts BuildFacts.

Section Deploying.
Context (W : World) (replicas : Z) (waitForDeployOnline : bool).

Lemma same_but_trace_refl e : same_but_trace e e [].
Proof. unfold same_but_trace. rewrite app_nil_r. repeat split. Qed.

Lemma same_but_trace_trans e1 e2 e3 evs1 evs2 :
  same_but_trace e1 e2 evs1 -> same_but_trace e2 e3 evs2 ->
  same_but_trace e1 e3 (evs1 ++ evs2).
Proof.
  intros (Ht1 & Hm1 & Hc1 & Hb1 & Hl1 & Hg1) (Ht2 & Hm2 & Hc2 & Hb2 & Hl2 & Hg2).
  unfold same_but_trace.
  rewrite Ht2, Ht1, Hm2, Hm1, Hc2, Hc1, Hb2, Hb1, Hl2, Hl1, Hg2, Hg1, app_assoc.
  repeat split.
Qed.

Lemma deploy_of_local_same e e' evs ev :
  same_but_trace e e' evs ->
  deploy_of_local e' replicas waitForDeployOnline ev ->
  deploy_of_local e replicas waitForDeployOnline ev.
Proof.
  intros (_ & Hm & _) (name & meta & Hne & Hmeta & ->).
  exists name, meta. rewrite <- Hm. auto.
Qed.

(** One module: it is local and its deploy is started, or there is an
    error and nothing is done. *)
Lemma deployModule_run moduleName e :
  moduleName <> "builtin" ->
  exists r e' evs,
    deployModule W replicas waitForDeployOnline moduleName e = Done r e'
    /\ same_but_trace e e' evs
    /\ Forall (deploy_of_local e replicas waitForDeployOnline) evs
    /\ (r = None ->
        exists meta, moduleMetas e !! moduleName = Some meta
                     /\ Call_Deploy (module meta) replicas waitForDeployOnline ∈ evs).
Proof.
  intros Hne. unfold deployModule, mbind, M_bind, Load_moduleMeta, gets.
  destruct (moduleMetas e !! moduleName) as [meta|] eqn:Hmeta.
  - unfold emit, modify, ask.
    eexists _, _, [Call_Deploy (module meta) replicas waitForDeployOnline].
    split; [reflexivity|]. split; [repeat split|]. split.
    + apply Forall_cons. split; [|constructor]. exists moduleName, meta. auto.
    + intros _. exists meta. split; [reflexivity|]. now left.
  - exists (Some (ErrModuleNotFound moduleName)), e, [].
    split; [reflexivity|]. split; [apply same_but_trace_refl|].
    split; [constructor|discriminate].
Qed.

(** One group: every module of it but builtin is tried. *)
Lemma deployGroup_run group e :
  exists r e' evs,
    deployGroup W replicas waitForDeployOnline group e = Done r e'
    /\ same_but_trace e e' evs
    /\ Forall (deploy_of_local e replicas waitForDeployOnline) evs
    /\ (r = None -> all_deployed e replicas waitForDeployOnline [group] evs).
Proof.
  unfold deployGroup.
  match goal with |- context [for_each ?b group] => set (body := b) end.
  assert (forall first e,
            exists r e' evs,
              for_each body group first e = Done (inl r) e'
              /\ same_but_trace e e' evs
              /\ Forall (deploy_of_local e replicas waitForDeployOnline) evs
              /\ (r = None ->
                  first = None
                  /\ forall name, name ∈ group -> name <> "builtin" ->
                       exists meta,
                         moduleMetas e !! name = Some meta
                         /\ Call_Deploy (module meta) replicas waitForDeployOnline ∈ evs))
    as Hloop.
  { clear e. induction group as [|name names IH]; intros first e.
    - exists first, e, []. split; [reflexivity|]. split; [apply same_but_trace_refl|].
      split; [constructor|]. intros ->. split; [reflexivity|].
      intros n Hn. now apply not_elem_of_nil in Hn.
    - cbn [for_each]. unfold mbind at 1, M_bind at 1. unfold body at 1.
      destruct (String.eqb name "builtin") eqn:Hb.
      + apply String.eqb_eq in Hb. subst name.
        destruct (IH first e) as (r & e' & evs & Hrun & Hs & Hall & Hok).
        exists r, e', evs. split; [exact Hrun|]. split; [exact Hs|]. split; [exact Hall|].
        intros Hr. destruct (Hok Hr) as [Hf Hnames]. split; [exact Hf|].
        intros n [->|Hn]%elem_of_cons Hne; [contradiction|auto].
      + apply String.eqb_neq in Hb.
        destruct (deployModule_run name e Hb) as (r1 & e1 & evs1 & Hrun1 & Hs1 & Hall1 & Hok1).
        unfold mbind at 1, M_bind at 1. rewrite Hrun1.
        unfold mret at 1, M_ret at 1.
        destruct (IH (if first is Some _ then first else r1) e1)
          as (r & e' & evs & Hrun & Hs & Hall & Hok).
        exists r, e', (evs1 ++ evs). split; [exact Hrun|].
        split; [eapply same_but_trace_trans; eauto|]. split.
        * apply Forall_app. split; [exact Hall1|].
          eapply Forall_impl; [exact Hall|].
          intros ev. apply (deploy_of_local_same _ _ _ _ Hs1).
        * intros Hr. destruct (Hok Hr) as [Hf Hnames].
          destruct first as [err|]; [discriminate|]. split; [reflexivity|].
          intros n [->|Hn]%elem_of_cons Hne.
          -- destruct (Hok1 Hf) as (meta & Hmeta & Hin). exists meta.
             split; [exact Hmeta|]. apply elem_of_app. now left.
          -- destruct (Hnames n Hn Hne) as (meta & Hmeta & Hin). exists meta.
             destruct Hs1 as (_ & Hm1 & _). rewrite Hm1 in Hmeta.
             split; [exact Hmeta|]. apply elem_of_app. now right. }
  destruct (Hloop None e) as (r & e' & evs & Hrun & Hs & Hall & Hok).
  exists r, e', evs. unfold mbind, M_bind. rewrite Hrun.
  split; [reflexivity|]. split; [exact Hs|]. split; [exact Hall|].
  intros Hr group' name [->|Hg]%elem_of_cons Hn Hne.
  - now apply (proj2 (Hok Hr)).
  - now apply not_elem_of_nil in Hg.
Qed.

(** The groups, up to the first that fails. *)
Lemma deployGroups_run groups e :
  exists r e' evs,
    deployGroups W replicas waitForDeployOnline groups e = Done r e'
    /\ same_but_trace e e' evs
    /\ Forall (deploy_of_local e replicas waitForDeployOnline) evs
    /\ match r with
       | None => all_deployed e replicas waitForDeployOnline groups evs
       | Some err => exists inner, err = DeployFailed inner
       end.
Proof.
  unfold deployGroups.
  match goal with |- context [for_each ?b groups] => set (body := b) end.
  assert (forall e,
            exists (r : unit + DeployError) e' evs,
              for_each body groups tt e = Done r e'
              /\ same_but_trace e e' evs
              /\ Forall (deploy_of_local e replicas waitForDeployOnline) evs
              /\ match r with
                 | inl _ => all_deployed e replicas waitForDeployOnline groups evs
                 | inr err => exists inner, err = DeployFailed inner
                 end) as Hloop.
  { clear e. induction groups as [|group groups IH]; intros e.
    - exists (inl tt), e, []. split; [reflexivity|]. split; [apply same_but_trace_refl|].
      split; [constructor|]. intros g n Hg. now apply not_elem_of_nil in Hg.
    - cbn [for_each]. unfold mbind at 1, M_bind at 1. unfold body at 1.
      destruct (deployGroup_run group e) as (r1 & e1 & evs1 & Hrun1 & Hs1 & Hall1 & Hok1).
      unfold mbind at 1, M_bind at 1. rewrite Hrun1.
      destruct r1 as [err|].
      + exists (inr (DeployFailed err)), e1, evs1. split; [reflexivity|].
        split; [exact Hs1|]. split; [exact Hall1|]. eauto.
      + unfold mret at 1, M_ret at 1.
        destruct (IH e1) as (r & e' & evs & Hrun & Hs & Hall & Hok).
        exists r, e', (evs1 ++ evs). split; [exact Hrun|].
        split; [eapply same_but_trace_trans; eauto|]. split.
        * apply Forall_app. split; [exact Hall1|].
          eapply Forall_impl; [exact Hall|].
          intros ev. apply (deploy_of_local_same _ _ _ _ Hs1).
        * destruct r as [[]|err]; [|exact Hok].
          intros g n [->|Hg]%elem_of_cons Hn Hne.
          -- destruct (Hok1 eq_refl group n) as (meta & Hmeta & Hin); auto.
             { apply elem_of_cons. now left. }
             exists meta. split; [exact Hmeta|]. apply elem_of_app. now left.
          -- destruct (Hok g n Hg Hn Hne) as (meta & Hmeta & Hin). exists meta.
             destruct Hs1 as (_ & Hm1 & _). rewrite Hm1 in Hmeta.
             split; [exact Hmeta|]. apply elem_of_app. now right. }
  destruct (Hloop e) as (r & e' & evs & Hrun & Hs & Hall & Hok).
  unfold mbind, M_bind. rewrite Hrun.
  destruct r as [[]|err].
  - exists None, e', evs. auto.
  - exists (Some err), e', evs. auto.
Qed.

End Deploying.

(** X9.  Engine.Deploy always comes back.  It changes nothing in the
    engine; all it does to the outside is start deploys, each of a local
    module that is not builtin, with the replicas and the flag given, and
    log once that all modules are deployed, which it does exactly when it
    returns nil.  When it returns nil, every module of the sorted graph
    but builtin is local and its deploy was started: a module the graph
    has from the controller schema only makes Deploy fail.  Its errors
    are the error of Graph as it is, "topological sort failed" or "deploy
    failed". *)
Theorem Deploy_starts_local_modules (W : World) (replicas : Z)
    (waitForDeployOnline : bool) (e : Engine) :
  exists r e' evs,
    Deploy_all W replicas waitForDeployOnline e = Done r e'
    /\ same_but_trace e e' evs
    /\ Forall (fun ev => ev = Infof_all_deployed
                         \/ deploy_of_local e replicas waitForDeployOnline ev) evs
    /\ (Infof_all_deployed ∈ evs <-> r = None)
    /\ match r with
       | None =>
           exists graph groups,
             Graph_of (moduleMetas e) (controllerSchema e) (Modules_of (moduleMetas e))
             = GraphOk graph
             /\ TopologicalSort W graph = inl groups
             /\ all_deployed e replicas waitForDeployOnline groups evs
       | Some (GraphFailed err) =>
           Graph_of (moduleMetas e) (controllerSchema e) (Modules_of (moduleMetas e))
           = GraphErr err
       | Some (TopologicalSortFailed err) =>
           exists graph, TopologicalSort W graph = inr err
       | Some (DeployFailed err) => True
       end.
Proof.
  unfold Deploy_all, mbind, M_bind, Modules, Graph, gets.
  destruct (Graph_of_ok (moduleMetas e) (controllerSchema e) (Modules_of (moduleMetas e)))
    as [_ Hfuel].
  destruct (Graph_of _ _ _) as [graph|err|] eqn:HG; [| |contradiction].
  2:{ exists (Some (GraphFailed err)), e, []. split; [reflexivity|].
      split; [apply same_but_trace_refl|]. split; [constructor|].
      split; [|reflexivity]. split; [|discriminate].
      intros H. now apply not_elem_of_nil in H. }
  destruct (TopologicalSort W graph) as [groups|err] eqn:HT.
  2:{ exists (Some (TopologicalSortFailed err)), e, []. split; [reflexivity|].
      split; [apply same_but_trace_refl|]. split; [constructor|].
      split; [|eauto]. split; [|discriminate].
      intros H. now apply not_elem_of_nil in H. }
  destruct (deployGroups_run W replicas waitForDeployOnline groups e)
    as (r & e1 & evs & Hrun & Hs & Hall & Hok).
  unfold mbind, M_bind in Hrun. unfold mbind, M_bind. rewrite Hrun.
  assert (Infof_all_deployed ∉ evs) as Hnot.
  { intros Hin. rewrite Forall_forall in Hall.
    destruct (Hall _ Hin) as (name & meta & _ & _ & ?). discriminate. }
  destruct r as [err|].
  - exists (Some err), e1, evs. split; [reflexivity|]. split; [exact Hs|].
    split; [eapply Forall_impl; [exact Hall|]; auto|].
    split; [split; [contradiction|discriminate]|].
    destruct Hok as [inner ->]. exact I.
  - unfold emit, modify.
    exists None, (with_event Infof_all_deployed e1), (evs ++ [Infof_all_deployed]).
    split; [reflexivity|]. split.
    { destruct Hs as (Ht & Hm & Hc & Hb & Hl & Hg). unfold same_but_trace. simpl.
      rewrite Ht, app_assoc. repeat split; assumption. }
    split.
    { apply Forall_app. split; [eapply Forall_impl; [exact Hall|]; auto|].
      apply Forall_cons. split; [now left|constructor]. }
    split.
    { split; [reflexivity|]. intros _. apply elem_of_app. right. now left. }
    exists graph, groups. split; [reflexivity|]. split; [exact HT|].
    intros g n Hg Hn Hne. destruct (Hok g n Hg Hn Hne) as (meta & Hmeta & Hin).
    exists meta. split; [exact Hmeta|]. apply elem_of_app. now left.
Qed.

(** A local module c that depends on a module of the controller: Deploy
    does not return nil. *)
Lemma Deploy_starts_local_modules_witness :
  exists r e', Deploy_all S1_time_world 1 true S1_with_time = Done r e' /\ r <> None.
Proof.
  destruct (Deploy_starts_local_modules S1_time_world 1 true S1_with_time)
    as (r & e' & evs & Hrun & _ & _ & _ & Hok).
  exists r, e'. split; [exact Hrun|]. intros ->.
  destruct Hok as (graph & groups & _ & HT & Hall). injection HT as <-.
  destruct (Hall ["time"] "time") as (meta & Hmeta & _).
  - apply elem_of_cons. now left.
  - apply elem_of_cons. now left.
  - discriminate.
  - vm_compute in Hmeta. discriminate.
Defined.

End DeployFacts.

Module SyncFacts.
Import BuildEngine EngineMore SyncSpec GraphSpec GraphFacts GraphMoreFacts BuildFacts.

Lemma only_schema_changes_refl e : only_schema_changes e e.
Proof. repeat split. Qed.

Lemma only_schema_changes_trans e1 e2 e3 :
  only_schema_changes e1 e2 -> only_schema_changes e2 e3 -> only_schema_changes e1 e3.
Proof.
  intros (Hm1 & Hb1 & Hl1 & Hg1 & Hk1 & Ht1) (Hm2 & Hb2 & Hl2 & Hg2 & Hk2 & Ht2).
  unfold only_schema_changes. repeat split; congruence.
Qed.

(** One message of the stream. *)
Lemma schemaSync_run (msg : PullSchemaResponse) (e : Engine) :
  exists err changes e',
    schemaSync msg e = Done (err, changes) e'
    /\ only_schema_changes e e'
    /\ match err with
       | Some _ => changes = [] /\ e' = e
       | None =>
           match named_type msg with
           | None => changes = [] /\ e' = e
           | Some changeType =>
               exists c, changes = [c] /\ ChangeType c = changeType
                 /\ match changed_Module c with
                    | Some sch =>
                        changeType <> DEPLOYMENT_REMOVED
                        /\ controllerSchema e' = <[sm_Name sch := sch]> (controllerSchema e)
                    | None =>
                        changeType = DEPLOYMENT_REMOVED
                        /\ controllerSchema e'
                           = delete (ps_ModuleName msg) (controllerSchema e)
                    end
           end
       end.
Proof.
  unfold schemaSync, named_type.
  destruct (ps_ChangeType msg) as [[| |]|number] eqn:Hty;
    [destruct (ps_Schema msg) as [sch|err]| |destruct (ps_Schema msg) as [sch|err]|].
  all: unfold mbind, M_bind, modify, mret, M_ret.
  all: eexists _, _, _; (split; [reflexivity|]); (split; [repeat split|]).
  all: try (split; reflexivity).
  all: eexists; (split; [reflexivity|]); (split; [reflexivity|]); simpl.
  all: split; [try discriminate; try reflexivity|reflexivity].
Qed.

(** A change the loop does not drop is a changed schema. *)
Lemma published_change_is_safe (W : World) (c : schemaChange) (s : loopState) (e0 : Engine) :
  match changed_Module c with
  | Some _ => True
  | None => ChangeType c = DEPLOYMENT_REMOVED
  end ->
  (exists sch, c = {| ChangeType := DEPLOYMENT_CHANGED; changed_Module := Some sch |})
  \/ iteration W (OnSchemaChange c) s e0 = Done (Some s) e0.
Proof.
  intros Hc. destruct c as [ty [sch|]]; simpl in Hc.
  - destruct ty; [right|right|left; eauto];
      unfold iteration, onSchemaChange; simpl; reflexivity.
  - subst ty. right. unfold iteration, onSchemaChange. simpl. reflexivity.
Qed.

(** X10.  The handler of the schema sync, with a topic whose Publish
    returns, comes back for every stream of messages and changes nothing
    in the engine but the controller schema.  Every change it publishes
    is either a changed schema that carries its module, or one the dev
    loop drops at once, leaving the loop and the engine as they are: the
    loop never looks into the nil module of a removal, and a deployment
    that is added or removed at the controller starts no build.  Without
    an error the changes are, in order, one for each message whose change
    type is one of the three the engine names, and of that type; for a
    message of another change type nothing is published. *)
Theorem schema_sync_feeds_the_loop (W : World) (msgs : list PullSchemaResponse)
    (e : Engine) :
  exists err changes e',
    schemaSyncAll msgs e = Done (err, changes) e'
    /\ only_schema_changes e e'
    /\ (err = None -> ChangeType <$> changes = omap named_type msgs)
    /\ forall c s e0,
         c ∈ changes ->
         (exists sch, c = {| ChangeType := DEPLOYMENT_CHANGED; changed_Module := Some sch |})
         \/ iteration W (OnSchemaChange c) s e0 = Done (Some s) e0.
Proof.
  revert e. induction msgs as [|msg msgs IH]; intros e.
  - exists None, [], e. split; [reflexivity|]. split; [apply only_schema_changes_refl|].
    split; [reflexivity|]. intros c s e0 Hc. now apply not_elem_of_nil in Hc.
  - cbn [schemaSyncAll]. unfold mbind at 1, M_bind at 1.
    destruct (schemaSync_run msg e) as (err1 & ch1 & e1 & Hrun1 & Hs1 & Hres1).
    rewrite Hrun1. cbn [fst snd].
    destruct err1 as [err1|].
    + destruct Hres1 as [-> ->]. exists (Some err1), [], e.
      split; [reflexivity|]. split; [apply only_schema_changes_refl|].
      split; [discriminate|]. intros c s e0 Hc. now apply not_elem_of_nil in Hc.
    + destruct (IH e1) as (err & changes & e' & Hrun & Hs & Hlen & Hsafe).
      unfold mbind at 1, M_bind at 1. rewrite Hrun. cbn [fst snd].
      exists err, (ch1 ++ changes), e'. split; [reflexivity|].
      split; [eapply only_schema_changes_trans; eauto|].
      change (omap named_type (msg :: msgs))
        with (match named_type msg with
              | Some y => y :: omap named_type msgs
              | None => omap named_type msgs
              end).
      destruct (named_type msg) as [changeType|].
      * destruct Hres1 as (c1 & -> & Hty & Hmod). split.
        -- intros Herr. change ([c1] ++ changes) with (c1 :: changes).
           rewrite fmap_cons, Hty. f_equal. apply Hlen, Herr.
        -- intros c s e0 [Hc|Hc]%elem_of_app; [|now apply Hsafe].
           apply list_elem_of_singleton in Hc as ->.
           apply published_change_is_safe.
           destruct (changed_Module c1); [exact I|]. destruct Hmod as [Hrem _]. congruence.
      * destruct Hres1 as [-> ->]. split; [exact Hlen|]. exact Hsafe.
Qed.

(** In S1 the controller tells of a changed schema of b, of something of
    a change type without a name and of the removal of builtin: two
    changes are published, for the first and the last. *)
Lemma schema_sync_feeds_the_loop_witness :
  exists changes e',
    schemaSyncAll S1_stream DevLoopSpec.S1_engine = Done (None, changes) e'
    /\ ChangeType <$> changes = [DEPLOYMENT_CHANGED; DEPLOYMENT_REMOVED].
Proof.
  destruct (schema_sync_feeds_the_loop DevLoopSpec.S1_world S1_stream DevLoopSpec.S1_engine)
    as (err & changes & e' & Hrun & _ & Hlen & _).
  destruct err as [err|]; [vm_compute in Hrun; discriminate|].
  exists changes, e'. split; [exact Hrun|]. now apply Hlen.
Defined.

Section Graphs.
Context (metas : gmap string moduleMeta).

Lemma buildGraph_ext (ctrl ctrl' : gmap string SchemaModule) :
  (forall n, resolve metas ctrl n = resolve metas ctrl' n) ->
  forall fuel name out,
    buildGraph fuel metas ctrl name out = buildGraph fuel metas ctrl' name out.
Proof.
  intros Hres. induction fuel as [|fuel IH]; intros name out; [reflexivity|].
  simpl. destruct (out !! name); [reflexivity|]. rewrite Hres.
  destruct (resolve metas ctrl' name) as [deps|]; [|reflexivity].
  generalize (<[name := deps]> out). induction deps as [|d deps IHd]; intros o; simpl.
  - reflexivity.
  - rewrite IH. destruct (buildGraph fuel metas ctrl' d o); auto.
Qed.

Lemma visit_all_ext (f g : string -> gmap string (list string) -> graph_result) :
  (forall name out, f name out = g name out) ->
  forall names out, visit_all f names out = visit_all g names out.
Proof.
  intros H. induction names as [|n names IH]; intros out; simpl; [reflexivity|].
  rewrite H. destruct (g n out); auto.
Qed.

End Graphs.

(** X11.  Import stores the schema under its name in the controller
    schema and changes nothing else.  A schema that is imported for a
    module without a local module is what Graph resolves the module with
    from then on; a schema that is imported for a module that is local
    changes no graph: the dependencies of the local module win. *)
Theorem Import_is_shadowed_by_local (schema : SchemaModule) (e : Engine) :
  exists e',
    Import schema e = Done tt e'
    /\ only_schema_changes e e'
    /\ controllerSchema e' = <[sm_Name schema := schema]> (controllerSchema e)
    /\ (moduleMetas e !! sm_Name schema = None ->
        resolve (moduleMetas e') (controllerSchema e') (sm_Name schema)
        = Some (sm_Imports schema))
    /\ (is_Some (moduleMetas e !! sm_Name schema) ->
        forall moduleNames,
          Graph_of (moduleMetas e') (controllerSchema e') moduleNames
          = Graph_of (moduleMetas e) (controllerSchema e) moduleNames).
Proof.
  unfold Import, modify. eexists. split; [reflexivity|]. split; [repeat split|]. simpl.
  split; [reflexivity|]. split.
  - intros Hnone. unfold resolve. now rewrite Hnone, lookup_insert_eq.
  - intros [meta Hmeta] moduleNames.
    assert (forall n, resolve (moduleMetas e)
                        (<[sm_Name schema := schema]> (controllerSchema e)) n
                      = resolve (moduleMetas e) (controllerSchema e) n) as Hres.
    { intros n. unfold resolve. destruct (decide (n = sm_Name schema)) as [->|Hne].
      - now rewrite Hmeta.
      - now rewrite lookup_insert_ne by congruence. }
    rewrite !Graph_of_unfold.
    assert (graph_fuel (moduleMetas e) (<[sm_Name schema := schema]> (controllerSchema e))
            = graph_fuel (moduleMetas e) (controllerSchema e)) as ->.
    { unfold graph_fuel. f_equal. f_equal. rewrite dom_insert_L.
      assert (sm_Name schema ∈ dom (moduleMetas e)) as Hin by (apply elem_of_dom; eauto).
      apply set_eq. intros x. rewrite !elem_of_union, elem_of_singleton.
      split; [intros [?|[->|?]]; auto|intros [?|?]; auto]. }
    apply visit_all_ext. intros name out. now apply buildGraph_ext.
Qed.

(** In S1 a schema for b that imports a module nobody knows is imported:
    the graph of a is as before. *)
Lemma Import_is_shadowed_by_local_witness :
  exists e',
    Import S1_b_imported DevLoopSpec.S1_engine = Done tt e'
    /\ Graph_of (moduleMetas e') (controllerSchema e') ["a"] = GraphOk S1_graph.
Proof.
  destruct (Import_is_shadowed_by_local S1_b_imported DevLoopSpec.S1_engine)
    as (e' & Hrun & _ & _ & _ & Hsame).
  exists e'. split; [exact Hrun|]. rewrite Hsame.
  - vm_compute. reflexivity.
  - vm_compute. eauto.
Defined.

(** X12.  When the controller tells that the deployment of a module is
    gone, the module leaves the controller schema, and the dev loop is
    told nothing it acts on.  If the module is not local, every graph
    that is asked for a local module that depends on it fails from then
    on, with a module the request reaches and nobody knows. *)
Theorem removed_dependency_fails_graph (msg : PullSchemaResponse) (e : Engine)
    (n : string) (meta : moduleMeta) (moduleNames : list string) :
  ps_ChangeType msg = Named DEPLOYMENT_REMOVED ->
  moduleMetas e !! ps_ModuleName msg = None ->
  moduleMetas e !! n = Some meta ->
  ps_ModuleName msg ∈ Dependencies (module meta) ->
  n ∈ moduleNames ->
  exists e' y,
    schemaSync msg e
    = Done (None, [{| ChangeType := DEPLOYMENT_REMOVED; changed_Module := None |}]) e'
    /\ only_schema_changes e e'
    /\ controllerSchema e' !! ps_ModuleName msg = None
    /\ Graph_of (moduleMetas e') (controllerSchema e') moduleNames
       = GraphErr (ErrModuleNotFound y)
    /\ reachable (moduleMetas e') (controllerSchema e') moduleNames y
    /\ moduleMetas e' !! y = None /\ controllerSchema e' !! y = None.
Proof.
  intros Hty Hnone Hmeta Hdep Hn.
  exists (with_controllerSchema (delete (ps_ModuleName msg)) e).
  set (e' := with_controllerSchema (delete (ps_ModuleName msg)) e).
  assert (requested (moduleMetas e') moduleNames = moduleNames) as Hreq.
  { destruct moduleNames; [now apply not_elem_of_nil in Hn|reflexivity]. }
  pose proof (Graph_of_within (moduleMetas e') (controllerSchema e') moduleNames) as Hw.
  destruct (Graph_of_ok (moduleMetas e') (controllerSchema e') moduleNames) as [_ Hfuel].
  destruct (Graph_of (moduleMetas e') (controllerSchema e') moduleNames)
    as [out|err|] eqn:HG; [|clear Hfuel|contradiction].
  - exfalso.
    destruct (proj1 (Graph_of_succeeds (moduleMetas e') (controllerSchema e') moduleNames)
                (ex_intro _ out HG) (ps_ModuleName msg)) as [ds Hds].
    + rewrite Hreq. eapply reach_dependency; [apply reach_requested, Hn| |exact Hdep].
      unfold resolve. simpl. now rewrite Hmeta.
    + unfold resolve in Hds. simpl in Hds. rewrite Hnone, lookup_delete_eq in Hds.
      discriminate.
  - destruct Hw as (y & -> & Hy & Hres). exists y.
    split; [unfold schemaSync; now rewrite Hty|]. split; [repeat split|].
    split; [simpl; apply lookup_delete_eq|]. split; [reflexivity|].
    rewrite Hreq in Hy. split; [exact Hy|]. now apply resolve_None.
Qed.

(** In S1 the deployment of builtin is removed: the graph of a, which
    depends on b, which depends on builtin, fails. *)
Lemma removed_dependency_fails_graph_witness :
  exists e' y,
    schemaSync builtin_removed DevLoopSpec.S1_engine
    = Done (None, [{| ChangeType := DEPLOYMENT_REMOVED; changed_Module := None |}]) e'
    /\ only_schema_changes DevLoopSpec.S1_engine e'
    /\ controllerSchema e' !! "builtin" = None
    /\ Graph_of (moduleMetas e') (controllerSchema e') ["a"; "b"]
       = GraphErr (ErrModuleNotFound y)
    /\ reachable (moduleMetas e') (controllerSchema e') ["a"; "b"] y
    /\ moduleMetas e' !! y = None /\ controllerSchema e' !! y = None.
Proof.
  apply (removed_dependency_fails_graph builtin_removed DevLoopSpec.S1_engine "b"
           (mkModuleMeta S1_b 0)).
  - reflexivity.
  - reflexivity.
  - reflexivity.
  - apply elem_of_cons. now left.
  - apply elem_of_cons. right. apply elem_of_cons. now left.
Defined.

End SyncFacts.

Module LoopMoreFacts.
Import BuildEngine BuildSpec BuildFacts BuildMoreSpec BuildMoreFacts LoopMoreSpec DevLoopFacts.

Lemma loop_run_refl e : loop_run e e.
Proof.
  exists []. rewrite app_nil_r. do 3 (split; [reflexivity|]).
  split; [apply deploys_after_builds_quiet; constructor|]. split; [constructor|].
  intros n. simpl. destruct (decide (n ∈ [])) as [H|_]; [|reflexivity].
  now apply not_elem_of_nil in H.
Qed.

Lemma loop_run_trans e1 e2 e3 : loop_run e1 e2 -> loop_run e2 e3 -> loop_run e1 e3.
Proof.
  intros (evs1 & Ht1 & Hc1 & Hl1 & Hd1 & Ha1 & Hf1) (evs2 & Ht2 & Hc2 & Hl2 & Hd2 & Ha2 & Hf2).
  exists (evs1 ++ evs2). split; [now rewrite Ht2, Ht1, app_assoc|].
  split; [congruence|]. split; [congruence|].
  split; [now apply deploys_after_builds_app|]. split; [now apply Forall_app|].
  intros n. rewrite Hf2, Hf1, deployed_app.
  destruct (decide (n ∈ deployed evs2)) as [H2|H2].
  - rewrite decide_True by (apply elem_of_app; now right). reflexivity.
  - destruct (decide (n ∈ deployed evs1)) as [H1|H1].
    + rewrite decide_True by (apply elem_of_app; now left). reflexivity.
    + rewrite decide_False; [reflexivity|].
      intros [H|H]%elem_of_app; contradiction.
Qed.

Lemma builds_then_deploys_loop e e' : builds_then_deploys 1 true e e' -> loop_run e e'.
Proof.
  intros (evs & (Ht & _ & Hc & Hl) & Hd & Ha & Hf). exists evs. auto 10.
Qed.

(** A step that deploys nothing and leaves the flags alone. *)
Lemma loop_run_quiet e e' evs :
  trace e' = trace e ++ evs -> controllerSchema e' = controllerSchema e ->
  listener e' = listener e -> modulesToBuild e' = modulesToBuild e ->
  Forall (fun ev => forall m r w, ev <> Call_Deploy m r w) evs ->
  loop_run e e'.
Proof.
  intros Ht Hc Hl Hf Hall. exists evs. do 3 (split; [assumption|]).
  split; [now apply deploys_after_builds_quiet|]. split.
  - eapply Forall_impl; [exact Hall|]. intros ev Hev m r0 w0 ->. now destruct (Hev m r0 w0).
  - intros n. rewrite Hf.
    assert (deployed evs = []) as ->.
    { clear Ht. induction Hall as [|ev evs Hev _ IH]; [reflexivity|].
      change (ev :: evs) with ([ev] ++ evs). rewrite deployed_app, IH.
      destruct ev; try reflexivity. now destruct (Hev m replicas waitForDeployOnline). }
    destruct (decide (n ∈ [])) as [H|_]; [|reflexivity].
    now apply not_elem_of_nil in H.
Qed.

Ltac quiet_step evs :=
  apply (loop_run_quiet _ _ evs);
  [simpl; rewrite <- ?app_assoc; first [reflexivity | symmetry; apply app_nil_r]
  |reflexivity|reflexivity|reflexivity
  |repeat (apply Forall_cons; split; [discriminate|]); constructor].

Section Loop.
Context (W : World).

Lemma report_loop_run (err : error) e u e' :
  reportBuildFailed err e = Done u e' -> loop_run e e'.
Proof.
  unfold reportBuildFailed. intros H.
  apply bind_Done in H as (l & e1 & H1 & H2). apply gets_Done in H1 as [_ <-].
  unfold when in H2. destruct l; run_inv H2.
  - quiet_step [OnBuildFailed err].
  - apply loop_run_refl.
Qed.

Lemma reportSuccess_loop_run e u e' : reportSuccess e = Done u e' -> loop_run e e'.
Proof.
  unfold reportSuccess. intros H.
  apply bind_Done in H as (l & e1 & H1 & H2). apply gets_Done in H1 as [_ <-].
  unfold when in H2. destruct l; run_inv H2.
  - quiet_step [OnBuildSuccess].
  - apply loop_run_refl.
Qed.

Lemma afterBuildAndDeploy_loop_run (failed : error -> Event) err s e s' e' :
  (forall err m r w, failed err <> Call_Deploy m r w) ->
  afterBuildAndDeploy failed err s e = Done s' e' -> loop_run e e'.
Proof.
  intros Hfailed H. unfold afterBuildAndDeploy in H. destruct err as [err|].
  - apply bind_Done in H as (u & e1 & H1 & H2). apply report_loop_run in H1.
    apply bind_Done in H2 as (u2 & e2 & H2 & H3). apply ret_Done in H3 as [_ <-].
    unfold emit in H2. apply modify_Done in H2. subst e2.
    eapply loop_run_trans; [exact H1|].
    apply (loop_run_quiet _ _ [failed err]); try reflexivity.
    apply Forall_cons. split; [apply Hfailed|constructor].
  - apply ret_Done in H as [_ <-]. apply loop_run_refl.
Qed.

Lemma BuildAndDeploy_loop_run moduleNames e r e' :
  BuildAndDeploy W 1 true moduleNames e = Done r e' -> loop_run e e'.
Proof. intros H. eapply builds_then_deploys_loop, BuildAndDeploy_kept, H. Qed.

Lemma onWatchEvent_loop_run event s e s' e' :
  onWatchEvent W event s e = Done s' e' -> loop_run e e'.
Proof.
  intros H. destruct event as [m|m|m Time]; simpl in H.
  - apply bind_Done in H as (existing & e1 & H1 & H2). apply gets_Done in H1 as [_ <-].
    destruct existing; [apply ret_Done in H2 as [_ <-]; apply loop_run_refl|].
    apply bind_Done in H2 as (u & e1 & H1 & H2). apply modify_Done in H1. subst e1.
    apply bind_Done in H2 as (err & e1 & H1 & H2).
    apply BuildAndDeploy_loop_run in H1.
    apply afterBuildAndDeploy_loop_run in H2; [|discriminate].
    eapply loop_run_trans; [|eapply loop_run_trans; [exact H1|exact H2]].
    quiet_step (@nil Event).
  - apply bind_Done in H as (u & e1 & H1 & H2). unfold emit in H1.
    apply modify_Done in H1. subst e1.
    apply bind_Done in H2 as (err & e1 & H1 & H2). apply ask_Done in H1 as [_ <-].
    apply bind_Done in H2 as (s1 & e1 & H1 & H2).
    apply afterBuildAndDeploy_loop_run in H1; [|discriminate].
    apply bind_Done in H2 as (u2 & e2 & H2 & H3). apply ret_Done in H3 as [_ <-].
    apply modify_Done in H2. subst e2.
    eapply loop_run_trans; [|eapply loop_run_trans; [exact H1|]].
    + quiet_step [Call_terminateModuleDeployment (cfg_Module (Config m))].
    + quiet_step (@nil Event).
  - apply bind_Done in H as (meta & e1 & H1 & H2). apply gets_Done in H1 as [_ <-].
    destruct meta as [meta|].
    + destruct (Before Time (lastBuildStartTime meta)).
      * run_inv H2. quiet_step [Debugf_skipping_stale Time (lastBuildStartTime meta)].
      * apply bind_Done in H2 as (err & e1 & H1 & H2).
        apply BuildAndDeploy_loop_run in H1.
        apply afterBuildAndDeploy_loop_run in H2; [|discriminate].
        eapply loop_run_trans; eauto.
    + run_inv H2. quiet_step [Warnf_module_not_found (cfg_Module (Config m))].
Qed.

Lemma onSchemaChange_loop_run change s e s' e' :
  onSchemaChange W change s e = Done s' e' -> loop_run e e'.
Proof.
  intros H. unfold onSchemaChange in H.
  destruct (negb _); [apply ret_Done in H as [_ <-]; apply loop_run_refl|].
  destruct (changed_Module change) as [m|]; [|discriminate].
  unfold computeModuleHash in H.
  destruct (bytes_Equal _ _).
  - run_inv H. quiet_step [Tracef_schema_unchanged (sm_Name m)].
  - apply bind_Done in H as (deps & e1 & H1 & H2).
    unfold getDependentModuleNames in H1. apply gets_Done in H1 as [_ <-].
    destruct deps as [|d deps]; [apply ret_Done in H2 as [_ <-]; apply loop_run_refl|].
    apply bind_Done in H2 as (u & e1 & H1 & H2). unfold emit in H1.
    apply modify_Done in H1. subst e1.
    apply bind_Done in H2 as (err & e1 & H1 & H2).
    apply BuildAndDeploy_loop_run in H1.
    apply afterBuildAndDeploy_loop_run in H2; [|discriminate].
    eapply loop_run_trans; [|eapply loop_run_trans; [exact H1|exact H2]].
    quiet_step [Infof_schema_changed (sm_Name m) (d :: deps)].
Qed.

Lemma iteration_loop_run c s e r e' : iteration W c s e = Done r e' -> loop_run e e'.
Proof.
  intros H. destruct c as [| |event|change]; simpl in H.
  - apply ret_Done in H as [_ <-]. apply loop_run_refl.
  - destruct (didUpdateDeployments s); [|apply ret_Done in H as [_ <-]; apply loop_run_refl].
    apply bind_Done in H as (u & e1 & H1 & H2). unfold emit in H1.
    apply modify_Done in H1. subst e1.
    apply bind_Done in H2 as (u2 & e2 & H2 & H3). apply ret_Done in H3 as [_ <-].
    assert (loop_run (with_event Infof_all_deployed e) e2) as Hr.
    { unfold when in H2. destruct (negb (didError s)).
      - eapply reportSuccess_loop_run; eauto.
      - apply ret_Done in H2 as [_ <-]. apply loop_run_refl. }
    eapply loop_run_trans; [|exact Hr]. quiet_step [Infof_all_deployed].
  - apply bind_Done in H as (s1 & e1 & H1 & H2). apply ret_Done in H2 as [_ <-].
    eapply onWatchEvent_loop_run; eauto.
  - apply bind_Done in H as (s1 & e1 & H1 & H2). apply ret_Done in H2 as [_ <-].
    eapply onSchemaChange_loop_run; eauto.
Qed.

Lemma iterations_loop_run cs : forall s e s' e',
  iterations W cs s e = Done s' e' -> loop_run e e'.
Proof.
  induction cs as [|c cs IH]; intros s e s' e' H; simpl in H.
  - apply ret_Done in H as [_ <-]. apply loop_run_refl.
  - apply bind_Done in H as (r & e1 & H1 & H2). apply iteration_loop_run in H1.
    destruct r as [s1|].
    + eapply loop_run_trans; [exact H1|eapply IH; eauto].
    + apply ret_Done in H2 as [_ <-]. exact H1.
Qed.

(** The Range at the start of the loop leaves the engine as it is, and
    the hashes it gives hold, for every name, the hash of the schema its
    last visit of the name saw. *)
Lemma hashAll_run visited : forall hashes e,
  exists hashes',
    hashAll W visited hashes e = Done hashes' e
    /\ (forall name sch, last_visit visited name sch ->
          hashes' !! name = Some (sha256_Sum W (sm_String sch)))
    /\ forall name, name ∉ visited.*1 -> hashes' !! name = hashes !! name.
Proof.
  induction visited as [|[n0 s0] visited IH]; intros hashes e.
  - exists hashes. split; [reflexivity|]. split; [|auto].
    intros name sch (before & after & Heq & _). now destruct before.
  - cbn [hashAll]. unfold computeModuleHash.
    destruct (IH (<[n0 := sha256_Sum W (sm_String s0)]> hashes) e)
      as (hashes' & Hrun & Hlast & Hnot).
    exists hashes'. split; [exact Hrun|]. split.
    + intros name sch (before & after & Heq & Hafter).
      destruct before as [|x before]; simpl in Heq.
      * injection Heq as -> -> ->.
        rewrite (Hnot name Hafter). apply lookup_insert_eq.
      * injection Heq as _ Hrest. apply Hlast. exists before, after. auto.
    + intros name Hname. rewrite fmap_cons, not_elem_of_cons in Hname.
      destruct Hname as [Hne Hname]. simpl in Hne.
      rewrite (Hnot name Hname). now rewrite lookup_insert_ne by congruence.
Qed.

Lemma startLoop_loop_run visited e s e' :
  startLoop W visited e = Done s e' -> loop_run e e'.
Proof.
  intros H. unfold startLoop in H.
  apply bind_Done in H as (err & e1 & H1 & H2). apply BuildAndDeploy_loop_run in H1.
  apply bind_Done in H2 as (u & e2 & H2 & H3).
  apply bind_Done in H3 as (hashes & e3 & H3 & H4).
  destruct (hashAll_run visited ∅ e2) as (hashes' & Hh & _).
  rewrite Hh in H3. injection H3 as _ <-.
  apply ret_Done in H4 as [_ <-].
  eapply loop_run_trans; [exact H1|].
  destruct err as [err|].
  - apply bind_Done in H2 as (u2 & e3 & H2 & H3). unfold emit in H2.
    apply modify_Done in H2. subst e3. apply report_loop_run in H3.
    eapply loop_run_trans; [|exact H3]. quiet_step [Errorf_initial_deploy_failed err].
  - apply bind_Done in H2 as (u2 & e3 & H2 & H3). unfold emit in H2.
    apply modify_Done in H2. subst e3. apply reportSuccess_loop_run in H3.
    eapply loop_run_trans; [|exact H3]. quiet_step [Infof_all_deployed].
Qed.

End Loop.

(** X13.  Whatever the watcher, the controller and the timer send, a run
    of Dev never starts the deploy of a module it has not compiled and
    whose schema file it has not read before, starts every deploy with
    one replica and waits for it to be online, clears the flag of a
    pending build for the modules whose deploy it started and for no
    other, and leaves the controller schema to the schema sync. *)
Theorem dev_loop_deploys_what_it_built (W : World)
    (visited : list (string * SchemaModule)) (cs : list selectCase)
    (e e' : Engine) (s : loopState) :
  Dev W visited cs e = Done s e' -> loop_run e e'.
Proof.
  intros H. unfold Dev in H.
  apply bind_Done in H as (s0 & e0 & H1 & H2).
  eapply loop_run_trans.
  - eapply startLoop_loop_run; eauto.
  - eapply iterations_loop_run; eauto.
Qed.

Lemma dev_loop_deploys_what_it_built_witness :
  loop_run DevLoopSpec.S1_engine S1_session_engine.
Proof.
  apply (dev_loop_deploys_what_it_built DevLoopSpec.S1_world S1_visited S1_session
           DevLoopSpec.S1_engine S1_session_engine S1_session_state).
  vm_compute. reflexivity.
Defined.

(** X14.  A module-removed event always comes back and always forgets the
    module, whether its deployment could be terminated or not: the local
    module is gone and all others stay.  From then on the module is no
    dependent of anything, and a later change of its files gets a warning
    and no build.  The loop notes an update when the termination
    succeeded and an error when it failed; the stored hashes, the
    controller schema and the flags of the pending builds stay. *)
Theorem removed_module_is_forgotten (W : World) (m : Module) (s : loopState) (e : Engine) :
  exists s1 e1,
    onWatchEvent W (WatchEventModuleRemoved m) s e = Done s1 e1
    /\ moduleMetas e1 = delete (cfg_Module (Config m)) (moduleMetas e)
    /\ controllerSchema e1 = controllerSchema e
    /\ modulesToBuild e1 = modulesToBuild e
    /\ s1 = (if terminateModuleDeployment W (ticks e) (cfg_Module (Config m)) is Some _
             then set_didError true s else set_didUpdateDeployments true s)
    /\ (forall x, cfg_Module (Config m) ∉ dependentModuleNames (moduleMetas e1) x)
    /\ forall m' Time s2 e2,
         cfg_Module (Config m') = cfg_Module (Config m) ->
         moduleMetas e2 = moduleMetas e1 ->
         onWatchEvent W (WatchEventModuleChanged m' Time) s2 e2
         = Done s2 (with_event (Warnf_module_not_found (cfg_Module (Config m))) e2).
Proof.
  assert (forall e1 : Engine,
            moduleMetas e1 = delete (cfg_Module (Config m)) (moduleMetas e) ->
            (forall x, cfg_Module (Config m) ∉ dependentModuleNames (moduleMetas e1) x)
            /\ forall m' Time s2 e2,
                 cfg_Module (Config m') = cfg_Module (Config m) ->
                 moduleMetas e2 = moduleMetas e1 ->
                 onWatchEvent W (WatchEventModuleChanged m' Time) s2 e2
                 = Done s2 (with_event (Warnf_module_not_found (cfg_Module (Config m))) e2))
    as Hafter.
  { intros e1 Hm. split.
    - intros x Hin. apply dependentModuleNames_spec in Hin as (meta & Hmeta & _).
      rewrite Hm, lookup_delete_eq in Hmeta. discriminate.
    - intros m' Time s2 e2 Hname Hm2. unfold onWatchEvent.
      unfold mbind at 1, M_bind at 1, Load_moduleMeta, gets.
      now rewrite Hname, Hm2, Hm, lookup_delete_eq. }
  unfold onWatchEvent, mbind, M_bind, emit, modify, ask, afterBuildAndDeploy.
  cbn [ticks with_event].
  destruct (terminateModuleDeployment W (ticks e) (cfg_Module (Config m))) as [err|].
  - unfold mbind, M_bind, reportBuildFailed, mbind, M_bind, gets, when.
    destruct (listener _) eqn:Hl; unfold emit, modify, Delete_moduleMeta, modify, mret, M_ret;
      (eexists _, _; split; [reflexivity|]);
      (do 4 (split; [reflexivity|])); apply Hafter; reflexivity.
  - unfold mret, M_ret, Delete_moduleMeta, modify.
    eexists _, _. split; [reflexivity|]. do 4 (split; [reflexivity|]).
    apply Hafter. reflexivity.
Qed.

(** In S1 module b is removed: a, which depends on it, stays, and b is
    no dependent of builtin any more. *)
Lemma removed_module_is_forgotten_witness :
  exists s1 e1,
    onWatchEvent DevLoopSpec.S1_world (WatchEventModuleRemoved GraphSpec.S1_b)
      DevLoopSpec.S1_loop DevLoopSpec.S1_engine = Done s1 e1
    /\ moduleMetas e1 = delete "b" (moduleMetas DevLoopSpec.S1_engine)
    /\ "b" ∉ dependentModuleNames (moduleMetas e1) "builtin".
Proof.
  destruct (removed_module_is_forgotten DevLoopSpec.S1_world GraphSpec.S1_b
              DevLoopSpec.S1_loop DevLoopSpec.S1_engine)
    as (s1 & e1 & Hrun & Hm & _ & _ & _ & Hdep & _).
  exists s1, e1. split; [exact Hrun|]. split; [exact Hm|]. apply Hdep.
Defined.

Section Hashes.
Context (W : World).

Lemma onWatchEvent_hashes event s e s' e' :
  onWatchEvent W event s e = Done s' e' -> moduleHashes s' = moduleHashes s.
Proof.
  intros H. destruct event as [m|m|m Time]; simpl in H.
  - apply bind_Done in H as (existing & e1 & H1 & H2).
    destruct existing; [now apply ret_Done in H2 as [<- _]|].
    apply bind_Done in H2 as (u & e2 & _ & H2).
    apply bind_Done in H2 as (err & e3 & _ & H2).
    now apply afterBuildAndDeploy_hashes in H2.
  - apply bind_Done in H as (u & e1 & _ & H2).
    apply bind_Done in H2 as (err & e2 & _ & H2).
    apply bind_Done in H2 as (s1 & e3 & H1 & H2).
    apply afterBuildAndDeploy_hashes in H1.
    apply bind_Done in H2 as (u2 & e4 & _ & H2). now apply ret_Done in H2 as [<- _].
  - apply bind_Done in H as (meta & e1 & _ & H2).
    destruct meta as [meta|].
    + destruct (Before Time (lastBuildStartTime meta)).
      * apply bind_Done in H2 as (u & e2 & _ & H2). now apply ret_Done in H2 as [<- _].
      * apply bind_Done in H2 as (err & e2 & _ & H2).
        now apply afterBuildAndDeploy_hashes in H2.
    + apply bind_Done in H2 as (u & e2 & _ & H2). now apply ret_Done in H2 as [<- _].
Qed.

Lemma iteration_hashes c s e r e' :
  (forall change, c <> OnSchemaChange change) ->
  iteration W c s e = Done r e' ->
  match r with Some s1 => moduleHashes s1 = moduleHashes s | None => True end.
Proof.
  intros Hc H1. destruct c as [| |event|change]; simpl in H1.
  - now apply ret_Done in H1 as [<- _].
  - destruct (didUpdateDeployments s); [|now apply ret_Done in H1 as [<- _]].
    apply bind_Done in H1 as (u & e2 & _ & H1).
    apply bind_Done in H1 as (u2 & e3 & _ & H1). now apply ret_Done in H1 as [<- _].
  - apply bind_Done in H1 as (s1 & e2 & H1 & H3). apply ret_Done in H3 as [<- _].
    eapply onWatchEvent_hashes; eauto.
  - now destruct (Hc change).
Qed.

Lemma loop_reaches_hashes cs s s' :
  Forall (fun c => forall change, c <> OnSchemaChange change) cs ->
  loop_reaches W s cs s' -> moduleHashes s' = moduleHashes s.
Proof.
  intros Hcs Hloop. induction Hloop as [s|c cs s e e1 H1|c cs s e s1 e1 s2 H1 _ IH].
  - reflexivity.
  - reflexivity.
  - apply Forall_cons in Hcs as [Hc Hcs].
    rewrite (IH Hcs). exact (iteration_hashes c s e (Some s1) e1 Hc H1).
Qed.

(** A run of the loop on an engine of its own is one of the runs between
    other goroutines. *)
Lemma iterations_reaches cs : forall s e s' e',
  iterations W cs s e = Done s' e' -> loop_reaches W s cs s'.
Proof.
  induction cs as [|c cs IH]; intros s e s' e' H; simpl in H.
  - apply ret_Done in H as [<- _]. constructor.
  - apply bind_Done in H as (r & e1 & H1 & H2). destruct r as [s1|].
    + eapply reaches_step; [exact H1|eapply IH; eauto].
    + apply ret_Done in H2 as [<- _]. eapply reaches_return; eauto.
Qed.

End Hashes.

(** X15.  The loop starts with the hashes of the schemas its Range over
    the controller schema visited, whatever the schema sync stored
    meanwhile, and only the schema changes it takes change them.  So,
    through any watch events and timer ticks, each taken from the engine
    as the other goroutines left it, when the loop is told of a changed
    schema whose text is the one the Range saw last for that module, the
    change is dropped as unchanged: nothing is built, and the loop and
    the engine stay as they are but for the trace line. *)
Theorem known_schemas_are_unchanged_at_start (W : World)
    (visited : list (string * SchemaModule)) (cs : list selectCase)
    (e0 e1 : Engine) (hashes : gmap string string) (s : loopState)
    (sch sch0 : SchemaModule) :
  hashAll W visited ∅ e0 = Done hashes e1 ->
  last_visit visited (sm_Name sch) sch0 ->
  sm_String sch0 = sm_String sch ->
  Forall (fun c => forall change, c <> OnSchemaChange change) cs ->
  loop_reaches W
    {| moduleHashes := hashes; didUpdateDeployments := false; didError := false |} cs s ->
  e1 = e0
  /\ forall e2,
       onSchemaChange W {| ChangeType := DEPLOYMENT_CHANGED; changed_Module := Some sch |}
         s e2
       = Done s (with_event (Tracef_schema_unchanged (sm_Name sch)) e2).
Proof.
  intros Hrange Hlast Htext Hcs Hloop.
  destruct (hashAll_run W visited ∅ e0) as (hashes' & Hh & Hseen & _).
  rewrite Hh in Hrange. injection Hrange as -> ->. split; [reflexivity|].
  intros e2. apply (loop_reaches_hashes W cs _ _ Hcs) in Hloop. simpl in Hloop.
  rewrite onSchemaChange_changed.
  assert (moduleHash_at s (sm_Name sch) = sha256_Sum W (sm_String sch)) as ->.
  { unfold moduleHash_at. rewrite Hloop, (Hseen _ _ Hlast). simpl. now rewrite Htext. }
  unfold bytes_Equal. now rewrite String.eqb_refl.
Qed.

(** In S1 the Range visits the schema of builtin; the loop sees a change
    of a, a timer tick and the removal of b; then the controller tells of
    the schema of builtin again. *)
Lemma known_schemas_are_unchanged_at_start_witness :
  onSchemaChange DevLoopSpec.S1_world
    {| ChangeType := DEPLOYMENT_CHANGED; changed_Module := Some GraphSpec.S1_builtin |}
    S1_watch_state S1_started_engine
  = Done S1_watch_state
      (with_event (Tracef_schema_unchanged "builtin") S1_started_engine).
Proof.
  refine (proj2 (known_schemas_are_unchanged_at_start DevLoopSpec.S1_world S1_visited
                   S1_watch_session S1_started_engine S1_started_engine
                   (moduleHashes S1_started_state) S1_watch_state
                   GraphSpec.S1_builtin GraphSpec.S1_builtin _ _ _ _ _)
            S1_started_engine).
  - reflexivity.
  - exists [], []. split; [reflexivity|]. apply not_elem_of_nil.
  - reflexivity.
  - repeat (apply Forall_cons; split; [discriminate|]). constructor.
  - apply (iterations_reaches DevLoopSpec.S1_world S1_watch_session _ S1_started_engine
             S1_watch_state
             (match iterations DevLoopSpec.S1_world S1_watch_session S1_started_state
                      S1_started_engine with
              | Done _ e => e
              | Abort => S1_started_engine
              end)).
    vm_compute. reflexivity.
Defined.

End LoopMoreFacts.

Module SqlMoreFacts.
Import Sql SqlMore SqlMoreSpec SqlFacts.

(** What the two triggers make of a row. *)
Lemma runners_before_write_row module_of now OLD NEW :
  let row := runners_before_write module_of now OLD NEW in
  same_but_derived row NEW
  /\ r_module_name row = r_deployment_id NEW ≫= module_of
  /\ r_reservation_timeout row
     = match OLD, r_reservation_timeout NEW with
       | Some old, None =>
           if bool_decide (r_state old <> reserved /\ r_state NEW = reserved)
           then Some (now + two_minutes)%Z else None
       | _, timeout => timeout
       end.
Proof.
  unfold runners_before_write, runners_update_module_name, runners_set_reservation_timeout.
  destruct OLD as [old|].
  - simpl. unfold sql_neq, sql_eq. simpl.
    destruct (decide (r_state old = reserved)) as [Ho|Ho],
             (decide (r_state NEW = reserved)) as [Hn|Hn],
             (r_reservation_timeout NEW) as [x|] eqn:Ht; simpl;
      rewrite ?(bool_decide_eq_true_2 _ Ho), ?(bool_decide_eq_false_2 _ Ho),
              ?(bool_decide_eq_true_2 _ Hn), ?(bool_decide_eq_false_2 _ Hn); simpl;
      rewrite ?Ht;
      (split; [repeat split|]); (split; [reflexivity|]);
      try reflexivity;
      try (rewrite bool_decide_eq_false_2 by tauto; reflexivity);
      try (rewrite bool_decide_eq_true_2 by tauto; reflexivity).
  - change (sql_neq (r_state <$> None) (Some reserved)) with (@None bool).
    rewrite null_condition_not_taken. simpl.
    split; [repeat split|]. split; [reflexivity|]. now destruct (r_reservation_timeout NEW).
Qed.

Lemma runner_exec_rows module_of now w t r :
  r ∈ runner_exec module_of now w t ->
  r ∈ t \/ exists OLD NEW, r = runners_before_write module_of now OLD NEW
                           /\ match w, OLD with
                              | RunnerInsert N, None => NEW = N
                              | RunnerUpdate i set, Some old => t !! i = Some old /\ NEW = set old
                              | _, _ => False
                              end.
Proof.
  destruct w as [NEW|i set]; simpl.
  - unfold runners_insert. intros [Hin|Hin]%elem_of_app; [now left|].
    apply list_elem_of_singleton in Hin. right. exists None, NEW. auto.
  - unfold runners_update. destruct (t !! i) as [old|] eqn:Hold; [|now left].
    intros Hin. apply list_elem_of_lookup in Hin as [j Hj].
    destruct (decide (i = j)) as [<-|Hne].
    + rewrite list_lookup_insert_eq in Hj by (eapply lookup_lt_Some; eauto).
      injection Hj as <-. right. exists (Some old), (set old). auto.
    + rewrite list_lookup_insert_ne in Hj by exact Hne.
      left. eapply list_elem_of_lookup_2; eauto.
Qed.

(** X16.  Whatever a statement writes into module_name, the row that is
    stored has the name of the module of its deployment there, and NULL
    without a deployment: with the deployments as they are, the column
    follows deployment_id through every sequence of inserts and updates.
    The triggers leave every other column but reservation_timeout as the
    statement gave it. *)
Theorem runner_module_name_follows_deployment
    (module_of : Z -> option string) (ws : list (Z * runner_write)) (t : list runner) :
  module_name_follows module_of t ->
  module_name_follows module_of (runner_run module_of ws t)
  /\ forall now OLD NEW,
       same_but_derived (runners_before_write module_of now OLD NEW) NEW
       /\ r_module_name (runners_before_write module_of now OLD NEW)
          = r_deployment_id NEW ≫= module_of.
Proof.
  intros Ht. split.
  - revert t Ht. unfold runner_run.
    induction ws as [|[now w] ws IH]; intros t Ht; simpl; [exact Ht|].
    apply IH. intros r Hr.
    apply runner_exec_rows in Hr as [Hr|(OLD & NEW & -> & _)]; [now apply Ht|].
    pose proof (runners_before_write_row module_of now OLD NEW) as H. cbv zeta in H.
    destruct H as ((_ & _ & _ & _ & _ & _ & Hdep & _) & Hname & _).
    now rewrite Hname, Hdep.
  - intros now OLD NEW. pose proof (runners_before_write_row module_of now OLD NEW) as H.
    cbv zeta in H. tauto.
Qed.

(** An idle runner is inserted with a module name of its own and then
    reserved for deployment 7: the name is NULL first and "echo" then. *)
Lemma runner_module_name_follows_deployment_witness :
  module_name_follows echo_deployments
    (runner_run echo_deployments
       [(10%Z, RunnerInsert idle_runner); (20%Z, RunnerUpdate 0 reserve_for_echo)] []).
Proof.
  apply (runner_module_name_follows_deployment echo_deployments
           [(10%Z, RunnerInsert idle_runner); (20%Z, RunnerUpdate 0 reserve_for_echo)] []).
  intros r Hr. now apply not_elem_of_nil in Hr.
Defined.

(** X17.  The reservation trigger never overwrites a timeout a statement
    gives.  An update that takes a runner from another state into
    reserved without a timeout stores the time of the write plus two
    minutes.  So a table in which every reserved runner has a timeout
    stays so under every write but one that inserts a reserved runner
    without a timeout, or one that takes a reserved runner and leaves it
    reserved with a NULL timeout. *)
Theorem reservation_timeout_kept_by_updates
    (module_of : Z -> option string) (now : Z) (w : runner_write) (t : list runner) :
  (forall OLD NEW x,
     r_reservation_timeout NEW = Some x ->
     r_reservation_timeout (runners_before_write module_of now OLD NEW) = Some x)
  /\ (forall old NEW,
        r_state old <> reserved -> r_state NEW = reserved ->
        r_reservation_timeout NEW = None ->
        r_reservation_timeout (runners_before_write module_of now (Some old) NEW)
        = Some (now + two_minutes)%Z)
  /\ (reserved_has_timeout t -> keeps_timeout t w ->
      reserved_has_timeout (runner_exec module_of now w t)).
Proof.
  split; [|split].
  - intros OLD NEW x Hx.
    pose proof (runners_before_write_row module_of now OLD NEW) as H. cbv zeta in H.
    destruct H as (_ & _ & Ht). rewrite Ht, Hx. now destruct OLD.
  - intros old NEW Ho Hn Hnull.
    pose proof (runners_before_write_row module_of now (Some old) NEW) as H.
    cbv zeta in H. destruct H as (_ & _ & Ht).
    rewrite Ht, Hnull. now rewrite bool_decide_eq_true_2.
  - intros Hinv Hw r Hr Hres.
    apply runner_exec_rows in Hr as [Hr|(OLD & NEW & -> & Hrow)]; [now apply Hinv|].
    pose proof (runners_before_write_row module_of now OLD NEW) as H. cbv zeta in H.
    destruct H as (Hsame & _ & Ht).
    assert (r_state NEW = reserved) as Hn.
    { destruct Hsame as (_ & _ & _ & _ & Hs & _). now rewrite <- Hs. }
    rewrite Ht. destruct w as [N|i set], OLD as [old|]; try contradiction.
    + subst N. simpl in Hw. specialize (Hw Hn).
      destruct (r_reservation_timeout NEW); [discriminate|contradiction].
    + destruct Hrow as [Hold ->]. simpl in Hw.
      destruct (r_reservation_timeout (set old)) eqn:Hset; [discriminate|].
      destruct (decide (r_state old = reserved)) as [Ho|Ho].
      * now destruct (Hw old Hold Ho Hn).
      * now rewrite bool_decide_eq_true_2.
Qed.

(** The idle runner is reserved at time 20: its reservation runs out two
    minutes later. *)
Lemma reservation_timeout_kept_by_updates_witness :
  reserved_has_timeout
    (runner_exec echo_deployments 20 (RunnerUpdate 0 reserve_for_echo) [idle_runner]).
Proof.
  apply (reservation_timeout_kept_by_updates echo_deployments 20
           (RunnerUpdate 0 reserve_for_echo) [idle_runner]).
  - intros r [->|Hr]%elem_of_cons; [discriminate|]. now apply not_elem_of_nil in Hr.
  - intros OLD [= <-]. discriminate.
Defined.

End SqlMoreFacts.

Module FsmMoreFacts.
Import GoStrings DalErrs FsmDal FsmDalMore FsmDalSpec FsmMoreSpec DalErrsFacts FsmDalFacts.

(** *** The rows of fsm_instances *)

Lemma find_instance_None fsm key d :
  find_instance fsm key d = None <-> (fsm, key) ∉ instance_key <$> fsm_instances d.
Proof.
  unfold find_instance. induction (fsm_instances d) as [|i l IH]; simpl.
  - split; [intros _ H; now apply not_elem_of_nil in H|reflexivity].
  - unfold is_instance at 1. rewrite not_elem_of_cons.
    destruct (decide (fi_fsm i = fsm)) as [Hf|Hf]; simpl.
    + rewrite bool_decide_eq_true_2 by exact Hf. simpl.
      destruct (String.eqb (fi_key i) key) eqn:Hk.
      * apply String.eqb_eq in Hk. split; [discriminate|].
        intros [Hne _]. destruct Hne. unfold instance_key. now rewrite Hf, Hk.
      * apply String.eqb_neq in Hk. rewrite IH. split; [|tauto].
        intros H. split; [|exact H]. unfold instance_key. congruence.
    + rewrite bool_decide_eq_false_2 by exact Hf. simpl. rewrite IH. split; [|tauto].
      intros H. split; [|exact H]. unfold instance_key. congruence.
Qed.

Lemma replace_instance_keys fsm key f d :
  (forall i, instance_key (f i) = instance_key i) ->
  instance_key <$> fsm_instances (replace_instance fsm key f d)
  = instance_key <$> fsm_instances d.
Proof.
  intros Hf. unfold replace_instance. simpl. rewrite <- list_fmap_compose.
  apply list_fmap_ext. intros _ i _. simpl. destruct (is_instance fsm key i); auto.
Qed.

Lemma replace_instance_rows fsm key f d i' :
  i' ∈ fsm_instances (replace_instance fsm key f d) ->
  exists i, i ∈ fsm_instances d /\ (i' = i \/ i' = f i).
Proof.
  unfold replace_instance. simpl. intros (i & -> & Hi)%list_elem_of_fmap.
  exists i. split; [exact Hi|]. destruct (is_instance fsm key i); auto.
Qed.

Lemma consistent_replace fsm key f d :
  (forall i, instance_key (f i) = instance_key i) ->
  (forall i, fi_destination_state (f i) = None /\ fi_async_call_id (f i) = None) ->
  consistent d -> consistent (replace_instance fsm key f d).
Proof.
  intros Hkey Hidle [Hnd Hrows]. split.
  - now rewrite replace_instance_keys.
  - intros i' Hi'. apply replace_instance_rows in Hi' as (i & Hi & [->| ->]).
    + apply Hrows, Hi.
    + destruct (Hidle i) as [-> ->]. split; [tauto|discriminate].
Qed.

Lemma end_step_consistent (q : RefKey -> string -> db -> db * (fsm_instance + error))
    f fsm key d :
  (forall d, q fsm key d = match find_instance fsm key d with
                           | None => (d, inr PgxErrNoRows)
                           | Some i => (replace_instance fsm key f d, inl (f i))
                           end) ->
  (forall i, instance_key (f i) = instance_key i) ->
  (forall i, fi_destination_state (f i) = None /\ fi_async_call_id (f i) = None) ->
  consistent d -> consistent (q fsm key d).1.
Proof.
  intros Hq Hkey Hidle Hc. rewrite Hq. destruct (find_instance fsm key d); [|exact Hc].
  now apply consistent_replace.
Qed.

Lemma StartFSMTransition_consistent now fsm key dest request retry d :
  consistent d -> consistent (StartFSMTransition now fsm key dest request retry d).1.
Proof.
  intros [Hnd Hrows]. unfold StartFSMTransition, CreateAsyncCall.
  set (q := AsyncCalls.Enqueue _ _ _ _ _ _ _ (queue d)).
  assert (forall id, is_Some (AsyncCalls.async_calls (queue d) !! id) ->
                     is_Some (AsyncCalls.async_calls q.1 !! id)) as Hgrow.
  { intros id Hid. unfold q, AsyncCalls.Enqueue. simpl.
    destruct (decide (AsyncCalls.next_call_id (queue d) = id)) as [->|Hne];
      [rewrite lookup_insert_eq; eauto|now rewrite lookup_insert_ne]. }
  assert (is_Some (AsyncCalls.async_calls q.1 !! q.2)) as Hnew.
  { unfold q, AsyncCalls.Enqueue. simpl. rewrite lookup_insert_eq. eauto. }
  set (d1 := {| queue := q.1; fsm_instances := fsm_instances d;
                next_fsm_id := next_fsm_id d |}).
  assert (consistent d1) as Hc1.
  { split; [exact Hnd|]. intros i Hi. destruct (Hrows i Hi) as [Hiff Hfk].
    split; [exact Hiff|]. intros id Hid. apply Hgrow, Hfk, Hid. }
  unfold query_StartFSMTransition. cbn [p_Fsm p_Key p_DestinationState p_AsyncCallID].
  destruct (find_instance fsm key d1) as [i|] eqn:Hfind.
  - destruct (fi_destination_state i) eqn:Hdest.
    + simpl. exact Hc1.
    + simpl. split.
      * rewrite replace_instance_keys by reflexivity. exact Hnd.
      * intros i' Hi'. apply replace_instance_rows in Hi' as (i0 & Hi0 & [->| ->]).
        -- apply Hc1, Hi0.
        -- simpl. split; [split; discriminate|]. intros id [= <-]. exact Hnew.
  - simpl. split.
    + simpl. rewrite fmap_app. apply NoDup_app. split; [exact Hnd|]. split.
      * intros x Hx [->|H]%elem_of_cons; [|now apply not_elem_of_nil in H].
        apply find_instance_None in Hfind. now apply Hfind.
      * apply NoDup_singleton.
    + simpl. intros i' [Hi'|Hi']%elem_of_app.
      * apply Hc1, Hi'.
      * apply list_elem_of_singleton in Hi' as ->. simpl.
        split; [split; discriminate|]. intros id [= <-]. exact Hnew.
Qed.

Lemma fsm_step_consistent o d : consistent d -> consistent (fsm_step o d).1.
Proof.
  intros Hc. destruct o as [now fsm key dest request retry|fsm key|fsm key|fsm key]; simpl.
  - now apply StartFSMTransition_consistent.
  - unfold FinishFSMTransition.
    pose proof (end_step_consistent query_FinishFSMTransition finish_transition fsm key d)
      as H.
    destruct (query_FinishFSMTransition fsm key d) as [d1 [row|err]]; simpl in *;
      apply H; auto.
  - unfold FailFSMInstance.
    pose proof (end_step_consistent (query_EndFSMInstance failed) (end_instance failed)
                  fsm key d) as H.
    destruct (query_EndFSMInstance failed fsm key d) as [d1 [row|err]]; simpl in *;
      apply H; auto.
  - unfold SucceedFSMInstance.
    pose proof (end_step_consistent (query_EndFSMInstance completed)
                  (end_instance completed) fsm key d) as H.
    destruct (query_EndFSMInstance completed fsm key d) as [d1 [row|err]]; simpl in *;
      apply H; auto.
Qed.

(** X18.  With the queries as the specification has them, every sequence
    of starts, finishes, failures and successes keeps the tables of the
    state machines consistent: there is one row for a machine and a key,
    a row has an async call exactly when it has a destination state, and
    that call is a row of async_calls.  The empty database is
    consistent. *)
Theorem fsm_tables_stay_consistent (ops : list fsm_op) (d : db) :
  consistent empty_db /\ (consistent d -> consistent (fsm_run ops d)).
Proof.
  split.
  - split; [constructor|]. intros i Hi. now apply not_elem_of_nil in Hi.
  - revert d. unfold fsm_run. induction ops as [|o ops IH]; intros d Hc; simpl; [exact Hc|].
    apply IH. now apply fsm_step_consistent.
Qed.

Lemma fsm_tables_stay_consistent_witness : consistent (fsm_run S2_session empty_db).
Proof.
  destruct (fsm_tables_stay_consistent S2_session empty_db) as [Hempty Hrun].
  exact (Hrun Hempty).
Defined.

(** X19.  StartFSMTransition creates its async call before it looks at
    the instance and does not take it back: whether it returns nil or the
    conflict, the queue has one call more, pending, scheduled at once,
    for the destination state as verb, with the origin of the machine and
    the key, the retry count cut to 32 bits and the two backoffs.  When
    it returns nil the row of the instance has that call and the
    destination; when it returns an error the instance had a transition
    in flight and the rows of the instances are as before. *)
Theorem StartFSMTransition_always_enqueues
    (now : Z) (fsm : RefKey) (key : string) (dest : RefKey) (request : string)
    (retry : RetryParams) (d : db) :
  exists d' err,
    StartFSMTransition now fsm key dest request retry d = (d', err)
    /\ AsyncCalls.async_calls (queue d')
       = <[AsyncCalls.next_call_id (queue d) := fsm_call now fsm key dest request retry]>
           (AsyncCalls.async_calls (queue d))
    /\ AsyncCalls.next_call_id (queue d') = (AsyncCalls.next_call_id (queue d) + 1)%Z
    /\ AsyncCalls.leases (queue d') = AsyncCalls.leases (queue d)
    /\ match err with
       | None =>
           exists row, find_instance fsm key d' = Some row
                       /\ fi_async_call_id row = Some (AsyncCalls.next_call_id (queue d))
                       /\ fi_destination_state row = Some dest
       | Some e =>
           in_flight fsm key d /\ fsm_instances d' = fsm_instances d
           /\ errors_Is e ErrConflict = true
       end.
Proof.
  unfold StartFSMTransition.
  destruct (CreateAsyncCall_instances now
              {| p_Verb := dest; p_Origin := AsyncOriginFSM_String fsm key;
                 p_Request := request; p_RemainingAttempts := int32 (Count retry);
                 p_Backoff := MinBackoff retry; p_MaxBackoff := MaxBackoff retry |} d)
    as (d1 & id & Hcreate & Hsame).
  rewrite Hcreate. unfold CreateAsyncCall in Hcreate. injection Hcreate as <- <-.
  set (d1 := {| queue := _; fsm_instances := fsm_instances d; next_fsm_id := _ |}) in *.
  assert (find_instance fsm key d1 = find_instance fsm key d) as Hfind by reflexivity.
  destruct (find_instance fsm key d) as [i|] eqn:Hi.
  - destruct (fi_destination_state i) as [busy|] eqn:Hdest.
    + assert (in_flight fsm key d1) as Hfl.
      { exists i. split; [exact Hfind|]. now rewrite Hdest. }
      rewrite (query_StartFSMTransition_in_flight now fsm key dest _ d1 Hfl).
      eexists _, _. split; [reflexivity|]. do 3 (split; [reflexivity|]).
      split; [|split; reflexivity]. exists i. split; [exact Hi|]. now rewrite Hdest.
    + assert (idle_or_absent fsm key d1) as Hidle.
      { unfold idle_or_absent. now rewrite Hfind. }
      destruct (query_StartFSMTransition_idle now fsm key dest
                  (AsyncCalls.next_call_id (queue d)) d1 Hidle)
        as (d' & row & Hq & Hrow & Hd & Hc).
      change (AsyncCalls.Enqueue _ _ _ _ _ _ _ (queue d)).2
        with (AsyncCalls.next_call_id (queue d)).
      rewrite Hq. exists d', None. split; [reflexivity|].
      assert (queue d' = queue d1) as ->.
      { unfold query_StartFSMTransition in Hq. simpl in Hq. rewrite Hfind, Hdest in Hq.
        now injection Hq as <- _. }
      do 3 (split; [reflexivity|]). eauto.
  - assert (idle_or_absent fsm key d1) as Hidle.
    { unfold idle_or_absent. now rewrite Hfind. }
    destruct (query_StartFSMTransition_idle now fsm key dest
                (AsyncCalls.next_call_id (queue d)) d1 Hidle)
      as (d' & row & Hq & Hrow & Hd & Hc).
    change (AsyncCalls.Enqueue _ _ _ _ _ _ _ (queue d)).2
      with (AsyncCalls.next_call_id (queue d)).
    rewrite Hq. exists d', None. split; [reflexivity|].
    assert (queue d' = queue d1) as ->.
    { unfold query_StartFSMTransition in Hq. simpl in Hq. rewrite Hfind in Hq.
      now injection Hq as <- _. }
    do 3 (split; [reflexivity|]). eauto.
Qed.

(** The second start of scenario S2 is the conflict, and has left a
    second call in the queue. *)
Lemma StartFSMTransition_always_enqueues_witness :
  exists d' e,
    StartFSMTransition 1 S2_fsm "invoiceID" S2_ref "{}" (mkRetryParams 0 0 0) S2_first.1
    = (d', Some e)
    /\ size (AsyncCalls.async_calls (queue d')) = 2.
Proof.
  destruct (StartFSMTransition_always_enqueues 1 S2_fsm "invoiceID" S2_ref "{}"
              (mkRetryParams 0 0 0) S2_first.1) as (d' & err & Hrun & Hq & _).
  exists d'. vm_compute in Hrun. injection Hrun as <- <-.
  eexists. split; [reflexivity|]. vm_compute. reflexivity.
Defined.

Section Acquire.
Context {Lease : Type}.
Context (AcquireLease : string -> Z -> db -> db * (Lease + error)).
Context (GetFSMInstance : RefKey -> string -> db -> fsm_instance * option error).

(** X20.  AcquireFSMInstance writes nothing of its own: the database it
    leaves is the one the lease left.  When the lease is refused, the
    instance is not read and the error wraps the one of the lease, so
    that errors.Is finds the same kinds in it.  When the instance cannot
    be read for another reason than that there is none, that error is
    returned, translated, and no instance, though the lease is held.
    The instance that is returned has the lease, the machine and the key
    that were asked for and the states of the row; its status is that of
    the row, and running when there is no row. *)
Theorem AcquireFSMInstance_outcomes (fsm : RefKey) (instanceKey : string) (d : db) :
  let leaseKey := SystemKey "fsm_instance" [RefKey_String fsm; instanceKey] in
  exists d1, (AcquireFSMInstance AcquireLease GetFSMInstance fsm instanceKey d).1 = d1
    /\ (AcquireLease leaseKey five_seconds d).1 = d1
    /\ match (AcquireLease leaseKey five_seconds d).2 with
       | inr inner =>
           exists err,
             (AcquireFSMInstance AcquireLease GetFSMInstance fsm instanceKey d).2 = inr err
             /\ Error err = "failed to acquire FSM lease: " +:+ Error inner
             /\ forall k, DalErrsSpec.is_kind k -> errors_Is err k = errors_Is inner k
       | inl lease =>
           let row := (GetFSMInstance fsm instanceKey d1).1 in
           let instance (status : fsm_status) :=
             {| FSM_Lease := lease; FSM_FSM := fsm; FSM_Key := instanceKey;
                FSM_Status := status; FSM_CurrentState := fi_current_state row;
                FSM_DestinationState := fi_destination_state row |} in
           match (GetFSMInstance fsm instanceKey d1).2 with
           | None =>
               (AcquireFSMInstance AcquireLease GetFSMInstance fsm instanceKey d).2
               = inl (instance (fi_status row))
           | Some qerr =>
               if IsNotFound qerr
               then (AcquireFSMInstance AcquireLease GetFSMInstance fsm instanceKey d).2
                    = inl (instance running)
               else
                 (exists err,
                    (AcquireFSMInstance AcquireLease GetFSMInstance fsm instanceKey d).2
                    = inr err
                    /\ TranslatePGError (Some qerr) = Some err
                    /\ errors_Is err ErrNotFound = false)
                 \/ ((AcquireFSMInstance AcquireLease GetFSMInstance fsm instanceKey d).2
                     = inl (instance running)
                     /\ is_err (TranslatePGError (Some qerr)) ErrNotFound = true)
           end
       end.
Proof.
  intros leaseKey. unfold AcquireFSMInstance. fold leaseKey.
  destruct (AcquireLease leaseKey five_seconds d) as [d1 [lease|inner]]; cbn [fst snd].
  - exists d1.
    destruct (GetFSMInstance fsm instanceKey d1) as [row [qerr|]] eqn:Hget; cbn [fst snd].
    + destruct (IsNotFound qerr) eqn:Hnf.
      * assert (TranslatePGError (Some qerr) = Some ErrNotFound) as ->.
        { unfold TranslatePGError. now rewrite (IsNotFound_not_pg qerr Hnf), Hnf. }
        cbn [errors_Is negb]. rewrite decide_True by reflexivity. cbn [negb fst snd]. auto.
      * destruct (TranslatePGError (Some qerr)) as [err|] eqn:Htr.
        -- destruct (errors_Is err ErrNotFound) eqn:His; cbn [negb fst snd].
           ++ split; [reflexivity|]. split; [reflexivity|]. right. auto.
           ++ split; [reflexivity|]. split; [reflexivity|]. left. eauto.
        -- exfalso. unfold TranslatePGError in Htr.
           destruct (errors_As_PgError qerr);
             repeat match type of Htr with
                    | context [if ?b then _ else _] => destruct b
                    end; discriminate.
    + auto.
  - exists d1. split; [reflexivity|]. split; [reflexivity|].
    eexists. split; [reflexivity|]. split; [reflexivity|].
    intros k Hk. apply errors_Is_Errorf. destruct Hk as [-> | [-> | ->]]; discriminate.
Qed.

End Acquire.

(** With the instances of scenario S2 and every lease granted, an
    instance nobody has started reads as running in no state. *)
Lemma AcquireFSMInstance_outcomes_witness :
  (AcquireFSMInstance grant_lease query_GetFSMInstance S2_fsm "other" S2_first.1).2
  = inl {| FSM_Lease := "/system/fsm_instance/test.test/other";
           FSM_FSM := S2_fsm; FSM_Key := "other"; FSM_Status := running;
           FSM_CurrentState := None; FSM_DestinationState := None |}.
Proof.
  destruct (AcquireFSMInstance_outcomes grant_lease query_GetFSMInstance S2_fsm "other"
              S2_first.1) as (d1 & _ & Hd1 & Hout).
  cbn [fst snd grant_lease] in Hd1. subst d1. exact Hout.
Defined.

End FsmMoreFacts.

Module KotlinGenFacts.
Import KotlinGen KotlinGenSpec.

Lemma copy_nullable_twice t : copy_nullable (copy_nullable t) = copy_nullable t.
Proof. now destruct t. Qed.

Lemma isNullable_copy t : isNullable (copy_nullable t) = true.
Proof. now destruct t. Qed.

(** What getTypeClass returns for each field it goes by. *)
Lemma getTypeClass_variant type namespace t :
  getTypeClass type namespace = inl t ->
  match variant_of type with
  | VInt => t = ClassName "kotlin" "Long" false
  | VFloat => t = ClassName "kotlin" "Float" false
  | VString => t = ClassName "kotlin" "String" false
  | VBytes => t = ClassName "kotlin" "ByteArray" false
  | VBool => t = ClassName "kotlin" "Boolean" false
  | VTime => t = ClassName "java.time" "OffsetDateTime" false
  | VArray =>
      exists element,
        t = Parameterized (ClassName "kotlin.collections" "ArrayList" false) [element] false
  | VMap =>
      exists key value,
        t = Parameterized (ClassName "kotlin.collections" "Map" false) [key; value] false
  | VDataRef => exists package name, t = ClassName package name false
  | VOptional => isNullable t = true
  | VUnknown => False
  end.
Proof.
  destruct type as [a b c d e f arr m r o]. simpl.
  destruct a; [now intros [= <-]|]. destruct b; [now intros [= <-]|].
  destruct c; [now intros [= <-]|]. destruct d; [now intros [= <-]|].
  destruct e; [now intros [= <-]|]. destruct f; [now intros [= <-]|].
  destruct arr as [[element|]|]; [| discriminate |].
  { destruct (getTypeClass element namespace); [|discriminate]. intros [= <-]. eauto. }
  destruct m as [[[key|] [value|]]|]; try discriminate.
  { destruct (getTypeClass key namespace); [|discriminate].
    destruct (getTypeClass value namespace); [|discriminate]. intros [= <-]. eauto. }
  destruct r as [ref|]; [intros [= <-]; eauto|].
  destruct o as [[wrapped|]|]; try discriminate.
  destruct (getTypeClass wrapped namespace); [|discriminate].
  intros [= <-]. apply isNullable_copy.
Qed.

Lemma getTypeClass_supported namespace :
  forall type, supported type -> exists t, getTypeClass type namespace = inl t.
Proof.
  induction 1 as [type Hleaf|a b c d e f element m r o Hv _ [te Hte]
                 |a b c d e f arr key value r o Hv _ [tk Htk] _ [tv Htv]
                 |a b c d e f arr m r wrapped Hv _ [tw Htw]].
  - destruct type as [a b c d e f arr m r o]. simpl in *.
    destruct a, b, c, d, e, f; eauto;
      destruct arr; [intuition discriminate|];
      destruct m; [intuition discriminate|];
      destruct r; [eauto|]; destruct o; intuition discriminate.
  - simpl in *. destruct a, b, c, d, e, f; try discriminate. rewrite Hte. eauto.
  - simpl in *. destruct a, b, c, d, e, f; try discriminate.
    destruct arr; [discriminate|]. rewrite Htk, Htv. eauto.
  - simpl in *. destruct a, b, c, d, e, f; try discriminate.
    destruct arr; [discriminate|]. destruct m; [discriminate|].
    destruct r; [discriminate|]. rewrite Htw. eauto.
Qed.

Lemma supported_getTypeClass namespace :
  forall type t, getTypeClass type namespace = inl t -> supported type.
Proof.
  fix IH 1. intros [a b c d e f arr m r o] t. simpl.
  destruct a; [intros _; apply supported_leaf; simpl; auto|].
  destruct b; [intros _; apply supported_leaf; simpl; auto|].
  destruct c; [intros _; apply supported_leaf; simpl; auto|].
  destruct d; [intros _; apply supported_leaf; simpl; auto|].
  destruct e; [intros _; apply supported_leaf; simpl; auto 10|].
  destruct f; [intros _; apply supported_leaf; simpl; auto 10|].
  destruct arr as [[element|]|]; [| discriminate |].
  { destruct (getTypeClass element namespace) as [te|] eqn:He; [|discriminate].
    intros _. apply supported_array; [reflexivity|]. exact (IH element te He). }
  destruct m as [[[key|] [value|]]|]; try discriminate.
  { destruct (getTypeClass key namespace) as [tk|] eqn:Hk; [|discriminate].
    destruct (getTypeClass value namespace) as [tv|] eqn:Hv; [|discriminate].
    intros _. apply supported_map; [reflexivity| |].
    - exact (IH key tk Hk).
    - exact (IH value tv Hv). }
  destruct r as [ref|]; [intros _; apply supported_leaf; simpl; auto 10|].
  destruct o as [[wrapped|]|]; try discriminate.
  destruct (getTypeClass wrapped namespace) as [tw|] eqn:Hw; [|discriminate].
  intros _. apply supported_optional; [reflexivity|]. exact (IH wrapped tw Hw).
Qed.

(** X21.  getTypeClass returns a class exactly for the supported types,
    whatever the namespace, and throws for every other.  The class is
    nullable exactly when the type is an optional; it is the class of
    the scalar, an ArrayList of one argument for an array, a Map of two
    for a map.  An optional of an optional has the class of the
    optional. *)
Theorem getTypeClass_supports (type : SchemaType) (namespace : string) :
  ((exists t, getTypeClass type namespace = inl t) <-> supported type)
  /\ (forall t, getTypeClass type namespace = inl t ->
        (isNullable t = true <-> variant_of type = VOptional)
        /\ match variant_of type with
           | VInt => t = ClassName "kotlin" "Long" false
           | VFloat => t = ClassName "kotlin" "Float" false
           | VString => t = ClassName "kotlin" "String" false
           | VBytes => t = ClassName "kotlin" "ByteArray" false
           | VBool => t = ClassName "kotlin" "Boolean" false
           | VTime => t = ClassName "java.time" "OffsetDateTime" false
           | VArray =>
               exists element,
                 t = Parameterized (ClassName "kotlin.collections" "ArrayList" false)
                       [element] false
           | VMap =>
               exists key value,
                 t = Parameterized (ClassName "kotlin.collections" "Map" false)
                       [key; value] false
           | VDataRef => exists package name, t = ClassName package name false
           | VOptional => isNullable t = true
           | VUnknown => False
           end)
  /\ getTypeClass (type_optional (type_optional type)) namespace
     = getTypeClass (type_optional type) namespace.
Proof.
  split; [|split].
  - split.
    + intros [t Ht]. eapply supported_getTypeClass; eauto.
    + apply getTypeClass_supported.
  - intros t Ht. pose proof (getTypeClass_variant type namespace t Ht) as Hv.
    split; [|exact Hv].
    destruct (variant_of type); try (destruct Hv as (? & ? & ->) || destruct Hv as (? & ->)
                                     || subst t); simpl;
      try (split; [discriminate|discriminate]); try contradiction.
    split; auto.
  - simpl. destruct (getTypeClass type namespace) as [t|ex]; [|reflexivity].
    now rewrite copy_nullable_twice.
Qed.

(** An optional array of strings is a nullable ArrayList<String>; an
    array whose element type is not set has no class. *)
Lemma getTypeClass_supports_witness :
  supported (type_optional (type_array type_string))
  /\ ~ supported (type_array no_type).
Proof.
  split.
  - apply (proj1 (getTypeClass_supports (type_optional (type_array type_string)) "ftl.echo")).
    eexists. vm_compute. reflexivity.
  - intros H.
    apply (proj1 (getTypeClass_supports (type_array no_type) "ftl.echo")) in H as [t Ht].
    vm_compute in Ht. discriminate.
Defined.

(** *** buildDataClass *)

Section Poet.
Context (CodeBlock_of : string -> thrown string).

Local Abbreviation refused := (KotlinGenSpec.refused CodeBlock_of).
Local Abbreviation mirrored := (KotlinGenSpec.mirrored CodeBlock_of).
Local Abbreviation addField := (KotlinGen.addField CodeBlock_of).
Local Abbreviation addFields := (KotlinGen.addFields CodeBlock_of).
Local Abbreviation addEmpty := (KotlinGen.addEmpty CodeBlock_of).
Local Abbreviation addKdoc := (KotlinGen.addKdoc CodeBlock_of).
Local Abbreviation buildDataClass := (KotlinGen.buildDataClass CodeBlock_of).

Lemma nullable_optional it namespace t :
  getTypeClass it namespace = inl t -> isNullable t = true ->
  exists o, t_optional_of it = Some o.
Proof.
  intros Ht Hnull. pose proof (getTypeClass_variant it namespace t Ht) as Hv.
  destruct it as [a b c d e f arr m r o]. simpl in *.
  destruct a, b, c, d, e, f;
    try (subst t; discriminate);
    destruct arr; try (destruct Hv as (? & ->); discriminate);
    destruct m; try (destruct Hv as (? & ? & ->); discriminate);
    destruct r; try (destruct Hv as (? & ? & ->); discriminate);
    destruct o; [eauto|contradiction].
Qed.

(** One field: what it adds. *)
Lemma addField_spec namespace field ts ts' :
  addField namespace field ts = inl ts' ->
  mirrored ts ->
  mirrored ts'
  /\ ts_name ts' = ts_name ts
  /\ param_name <$> ts_parameters ts'
     = (param_name <$> ts_parameters ts)
       ++ (if f_type field is Some _ then [f_name field] else []).
Proof.
  unfold KotlinGen.addField, KotlinGen.addKdoc, KotlinGen.defaultValue_of.
  intros Hadd (Hn & Ht & Hi & Hd).
  destruct (CodeBlock_of (joinLines (f_comments field))) as [doc|]; [|discriminate].
  cbn [ts_name ts_kdoc ts_parameters ts_properties] in Hadd.
  destruct (f_type field) as [it|].
  2:{ injection Hadd as <-. unfold KotlinGenSpec.mirrored.
      cbn [ts_name ts_kdoc ts_parameters ts_properties]. rewrite app_nil_r.
      repeat split; assumption. }
  destruct (getTypeClass it namespace) as [t|] eqn:Htc; [|discriminate].
  assert (exists defaultValue,
             (isNullable t = true ->
              exists block, CodeBlock_of "null" = inl block /\ defaultValue = Some block)
             /\ match CodeBlock_of (f_name field) with
                | inr ex => inr ex
                | inl initializer =>
                    inl {| ts_name := ts_name ts; ts_kdoc := ts_kdoc ts +:+ doc;
                           ts_parameters :=
                             ts_parameters ts
                             ++ [{| param_name := f_name field; param_type := t;
                                    param_defaultValue := defaultValue |}];
                           ts_properties :=
                             ts_properties ts
                             ++ [{| prop_name := f_name field; prop_type := t;
                                    prop_initializer := initializer |}] |}
                end = inl ts') as (defaultValue & Hdefault & Hrest).
  { destruct (t_optional_of it) as [o|] eqn:Ho.
    - destruct (CodeBlock_of "null") as [block|]; [|discriminate]. eauto.
    - exists None. split; [|exact Hadd]. intros Hnull.
      destruct (nullable_optional it namespace t Htc Hnull) as [o Ho']. congruence. }
  clear Hadd.
  destruct (CodeBlock_of (f_name field)) as [initializer|] eqn:Hinit; [|discriminate].
  injection Hrest as <-. unfold KotlinGenSpec.mirrored.
  cbn [ts_name ts_kdoc ts_parameters ts_properties]. rewrite !fmap_app, Hn, Ht.
  repeat split; try reflexivity.
  - apply Forall_app. split; [exact Hi|]. now repeat constructor.
  - apply Forall_app. split; [exact Hd|]. now repeat constructor.
Qed.

(** What the loop over the fields keeps and adds. *)
Lemma addFields_spec namespace fields :
  forall ts ts',
    addFields namespace fields ts = inl ts' ->
    mirrored ts ->
    mirrored ts'
    /\ ts_name ts' = ts_name ts
    /\ param_name <$> ts_parameters ts'
       = (param_name <$> ts_parameters ts)
         ++ (f_name <$> filter (fun field => is_Some (f_type field)) fields).
Proof.
  induction fields as [|field fields IH]; intros ts ts'; cbn [KotlinGen.addFields].
  - intros [= <-] Hm. rewrite app_nil_r. auto.
  - destruct (addField namespace field ts) as [ts1|ex] eqn:Hadd; [|discriminate].
    intros Hrest Hm.
    destruct (addField_spec namespace field ts ts1 Hadd Hm) as (Hm1 & Hname1 & Hp1).
    destruct (IH ts1 ts' Hrest Hm1) as (Hm' & Hname' & Hp').
    split; [exact Hm'|]. split; [congruence|]. rewrite Hp', Hp1, <- app_assoc. f_equal.
    destruct (f_type field) as [it|] eqn:Hty.
    + rewrite filter_cons_True by (rewrite Hty; eauto). reflexivity.
    + rewrite filter_cons_False by (rewrite Hty; now intros [? ?]). reflexivity.
Qed.

(** One field throws for a format KotlinPoet refuses or for a type
    without a class. *)
Lemma addField_throws namespace field ts :
  (exists ex, addField namespace field ts = inr ex) <->
  (exists format, format ∈ field_formats field /\ refused format)
  \/ exists it, f_type field = Some it /\ ~ supported it.
Proof.
  unfold KotlinGen.addField, KotlinGen.addKdoc, KotlinGen.defaultValue_of, field_formats,
    KotlinGenSpec.refused.
  destruct (CodeBlock_of (joinLines (f_comments field))) as [doc|ex] eqn:Hdoc.
  2:{ split; [|eauto]. intros _. left. eexists. split; [apply elem_of_cons; now left|eauto]. }
  destruct (f_type field) as [it|] eqn:Hty.
  2:{ split; [intros [? ?]; discriminate|].
      intros [(format & Hin & ex & Hex)|(it & ? & _)]; [|discriminate].
      apply list_elem_of_singleton in Hin as ->. congruence. }
  destruct (getTypeClass it namespace) as [t|ex] eqn:Htc.
  2:{ split; [|eauto]. intros _. right. exists it. split; [reflexivity|]. intros Hs.
      destruct (getTypeClass_supported namespace it Hs) as [t Ht]. congruence. }
  assert (supported it) as Hs by (eapply supported_getTypeClass; eauto).
  destruct (t_optional_of it) as [o|];
    [destruct (CodeBlock_of "null") as [block|ex] eqn:Hnull|];
    try destruct (CodeBlock_of (f_name field)) as [initializer|ex'] eqn:Hinit.
  all: split;
    [try (intros [? ?]; discriminate); intros _; left;
     eexists; (split; [|eexists; eassumption]);
     repeat first [apply list_elem_of_here|apply list_elem_of_further]
    |try (intros _; eexists; reflexivity)].
  all: intros [(format & Hin & ex0 & Hex)|(it' & [= <-] & Hns)]; [|contradiction].
  all: simpl in Hin; repeat (apply elem_of_cons in Hin as [->|Hin]); try congruence.
  all: now apply not_elem_of_nil in Hin.
Qed.

Lemma addFields_throws namespace fields :
  forall ts,
    (exists ex, addFields namespace fields ts = inr ex) <->
    (exists format, format ∈ concat (field_formats <$> fields) /\ refused format)
    \/ exists field it, field ∈ fields /\ f_type field = Some it /\ ~ supported it.
Proof.
  induction fields as [|field fields IH]; intros ts; cbn [KotlinGen.addFields].
  - split; [intros [ex ?]; discriminate|].
    intros [(format & Hin & _)|(field & it & Hin & _)]; now apply not_elem_of_nil in Hin.
  - rewrite fmap_cons. cbn [concat].
    destruct (addField namespace field ts) as [ts1|ex] eqn:Hadd.
    + rewrite IH.
      assert (~ exists ex, addField namespace field ts = inr ex) as Hno
          by (rewrite Hadd; intros [? ?]; discriminate).
      rewrite addField_throws in Hno. split.
      * intros [(format & Hin & Href)|(f0 & it0 & Hin & H)].
        -- left. exists format. split; [apply elem_of_app; now right|exact Href].
        -- right. exists f0, it0. split; [apply elem_of_cons; now right|exact H].
      * intros [(format & [Hin|Hin]%elem_of_app & Href)
               |(f0 & it0 & [->|Hin]%elem_of_cons & H)].
        -- exfalso. apply Hno. left. eauto.
        -- left. eauto.
        -- exfalso. apply Hno. right. eauto.
        -- right. eauto.
    + split; [|eauto]. intros _.
      destruct (proj1 (addField_throws namespace field ts)) as
          [(format & Hin & Href)|(it & Hty & Hns)]; [eauto| |].
      * left. exists format. split; [apply elem_of_app; now left|exact Href].
      * right. exists field, it. split; [apply elem_of_cons; now left|auto].
Qed.

(** X22.  buildDataClass throws exactly when KotlinPoet refuses one of
    the formats the generator hands it, which are the comments of the
    type and of its fields, the names of the fields that have a type,
    null for an optional one, and Unit and _empty for a type without
    fields, or when a field has a type that is not supported.  So a
    comment that KotlinPoet refuses as a format stops the generator,
    whatever the types of the fields.  The class it builds has the name
    of the data type; its properties are its constructor parameters, by
    name and type and in order, each initialised with the block of its
    name; a parameter of a nullable type has the block of null for its
    default.  A type without fields gets the one parameter _empty of
    type Unit; with fields the parameters are the fields that have a
    type, in order, so that there is none when no field has one. *)
Theorem buildDataClass_parameters (type : Data) (namespace : string) :
  ((exists ex, buildDataClass type namespace = inr ex) <->
   (exists format, format ∈ data_formats type /\ refused format)
   \/ exists field it, field ∈ data_fields type /\ f_type field = Some it /\ ~ supported it)
  /\ (refused (joinLines (data_comments type)) ->
      exists ex, buildDataClass type namespace = inr ex)
  /\ forall ts,
       buildDataClass type namespace = inl ts ->
       ts_name ts = data_name type
       /\ prop_name <$> ts_properties ts = param_name <$> ts_parameters ts
       /\ prop_type <$> ts_properties ts = param_type <$> ts_parameters ts
       /\ Forall (fun q => CodeBlock_of (prop_name q) = inl (prop_initializer q))
            (ts_properties ts)
       /\ Forall (fun p => isNullable (param_type p) = true ->
                           exists block, CodeBlock_of "null" = inl block
                                         /\ param_defaultValue p = Some block)
            (ts_parameters ts)
       /\ (data_fields type = [] ->
           param_name <$> ts_parameters ts = ["_empty"]
           /\ param_type <$> ts_parameters ts = [Unit_class])
       /\ (data_fields type <> [] ->
           param_name <$> ts_parameters ts
           = f_name <$> filter (fun field => is_Some (f_type field)) (data_fields type)).
Proof.
  assert (Hthrows:
    (exists ex, buildDataClass type namespace = inr ex) <->
    (exists format, format ∈ data_formats type /\ refused format)
    \/ exists field it,
         field ∈ data_fields type /\ f_type field = Some it /\ ~ supported it).
  { unfold KotlinGen.buildDataClass, KotlinGen.addKdoc, data_formats.
    destruct (CodeBlock_of (joinLines (data_comments type))) as [doc|ex] eqn:Hdoc.
    2:{ split; [|eauto]. intros _. left. eexists.
        split; [apply elem_of_cons; now left|]. eexists. exact Hdoc. }
    cbn [ts_name ts_kdoc ts_parameters ts_properties].
    set (builder := {| ts_name := data_name type; ts_kdoc := "" +:+ doc;
                       ts_parameters := []; ts_properties := [] |}).
    pose proof (addFields_throws namespace (data_fields type) builder) as Hfields.
    destruct (data_fields type) as [|field fields] eqn:Hf.
    - cbn [KotlinGen.addFields]. unfold KotlinGen.addEmpty. simpl.
      destruct (CodeBlock_of "Unit") as [u|ex] eqn:Hu;
        [destruct (CodeBlock_of "_empty") as [em|ex] eqn:Hem|].
      + split; [intros [? ?]; discriminate|].
        intros [(format & Hin & ex & Hex)|(field & it & Hin & _)];
          [|now apply not_elem_of_nil in Hin].
        repeat (apply elem_of_cons in Hin as [->|Hin]); try congruence.
        now apply not_elem_of_nil in Hin.
      + split; [|eauto]. intros _. left. exists "_empty".
        split; [|eexists; exact Hem].
        repeat first [apply list_elem_of_here|apply list_elem_of_further].
      + split; [|eauto]. intros _. left. exists "Unit".
        split; [|eexists; exact Hu].
        repeat first [apply list_elem_of_here|apply list_elem_of_further].
    - rewrite app_nil_r.
      destruct (addFields namespace (field :: fields) builder) as [ts|ex] eqn:Hadd.
      + split; [intros [? ?]; discriminate|]. intros H. exfalso.
        assert (~ exists ex, @inl TypeSpec string ts = inr ex) as Hno
            by (intros [? ?]; discriminate).
        apply Hno, Hfields. destruct H as [(format & Hin & Href)|H]; [|now right].
        apply elem_of_cons in Hin as [->|Hin]; [|left; eauto].
        destruct Href as [ex Hex]. congruence.
      + split; [|eauto]. intros _.
        destruct (proj1 Hfields) as [(format & Hin & Href)|H]; [eauto| |now right].
        left. exists format. split; [apply elem_of_cons; now right|exact Href]. }
  split; [exact Hthrows|]. split.
  { intros Href. apply Hthrows. left. eexists. split; [|exact Href].
    unfold data_formats. apply elem_of_cons. now left. }
  intros ts. unfold KotlinGen.buildDataClass, KotlinGen.addKdoc.
  destruct (CodeBlock_of (joinLines (data_comments type))) as [doc|]; [|discriminate].
  cbn [ts_name ts_kdoc ts_parameters ts_properties].
  set (builder := {| ts_name := data_name type; ts_kdoc := "" +:+ doc;
                     ts_parameters := []; ts_properties := [] |}).
  assert (mirrored builder) as Hm by (repeat split; constructor).
  destruct (addFields namespace (data_fields type) builder) as [ts0|ex] eqn:Hadd;
    [|discriminate].
  destruct (addFields_spec namespace _ _ _ Hadd Hm) as ((Hn & Ht & Hi & Hd) & Hname & Hp).
  simpl in Hname, Hp.
  destruct (data_fields type) as [|field fields] eqn:Hfields.
  - cbn [KotlinGen.addFields] in Hadd. injection Hadd as <-.
    unfold KotlinGen.addEmpty.
    destruct (CodeBlock_of "Unit") as [u|]; [|discriminate].
    destruct (CodeBlock_of "_empty") as [em|] eqn:Hem; [|discriminate].
    intros [= <-]. simpl.
    split; [reflexivity|]. split; [reflexivity|]. split; [reflexivity|].
    split; [now repeat constructor|]. split; [|split; [auto|congruence]].
    constructor; [discriminate|constructor].
  - intros [= <-].
    split; [exact Hname|]. split; [exact Hn|]. split; [exact Ht|].
    split; [exact Hi|]. split; [exact Hd|]. split; [discriminate|]. intros _.
    exact Hp.
Qed.

End Poet.

(** With a KotlinPoet that refuses a percent sign, EchoRequest gets its
    class, with the parameters name and tags; Discount, whose field is a
    string, gets none, for the percent sign of its comment. *)
Lemma buildDataClass_parameters_witness :
  (exists ts,
      buildDataClass plain_CodeBlock_of EchoRequest "ftl.echo" = inl ts
      /\ param_name <$> ts_parameters ts = ["name"; "tags"])
  /\ exists ex, buildDataClass plain_CodeBlock_of Discount "ftl.shop" = inr ex.
Proof.
  split.
  - destruct (buildDataClass plain_CodeBlock_of EchoRequest "ftl.echo") as [ts|ex] eqn:Hbuild.
    + exists ts. split; [reflexivity|].
      destruct (proj2 (proj2 (buildDataClass_parameters plain_CodeBlock_of
                                EchoRequest "ftl.echo")) ts Hbuild)
        as (_ & _ & _ & _ & _ & _ & Hnames).
      apply Hnames. discriminate.
    + vm_compute in Hbuild. discriminate.
  - apply (proj1 (proj2 (buildDataClass_parameters plain_CodeBlock_of Discount "ftl.shop"))).
    eexists. vm_compute. reflexivity.
Defined.

End KotlinGenFacts.

Module FtlCallFacts.
Import GoStrings GoStringsFacts DalErrs DalErrsFacts FtlCall FtlCallSpec.

Lemma append_assoc (a b c : string) : (a +:+ b) +:+ c = a +:+ (b +:+ c).
Proof.
  induction a as [|x a IH]; [reflexivity|].
  change (String x ((a +:+ b) +:+ c) = String x (a +:+ (b +:+ c))). f_equal. exact IH.
Qed.

Lemma HasPrefix_callee callee rest : HasPrefix (callee +:+ rest) callee = true.
Proof. apply HasPrefix_app. Qed.

Section Call.
Context {Req Resp Any : Type} (R : Runtime Req Resp Any).

(** X23.  However a call ends, it has asked the mock or the controller
    at most once, and the controller only for a verb of standard
    behaviour, with the callee and the marshalled request: a verb that
    is mocked never reaches the controller, and nothing is asked when
    the request cannot be marshalled.  When it returns an error, the
    message of the error starts with the callee, and the response is
    the zero value, but when the body of the controller's answer could
    not be decoded: then it is what the decoder left in it.  An error of
    marshalling, of the module context, of the mock, of the transport or
    of decoding is wrapped, so that errors.Is finds in the error what it
    finds in the cause.  It returns without an error only with the
    response the mock gave, of the right type, or the one decoded from
    the body of the controller's answer. *)
Theorem call_outcomes (callee : string) (req : Req) :
  let (effects, result) := call R callee req in
  at_most_one_effect effects
  /\ (forall verb body,
        Effect_client_Call verb body ∈ effects ->
        BehaviorForVerb R callee = inl StandardBehavior
        /\ verb = callee /\ Marshal R req = inl body)
  /\ (forall r, Effect_Mock r ∈ effects ->
                r = req /\ exists Mock, BehaviorForVerb R callee = inl (MockBehavior Mock))
  /\ match result with
     | Returns resp (Some err) =>
         (resp = zero R
          \/ exists reqData body cause,
               Marshal R req = inl reqData
               /\ client_Call R callee reqData = inl (CallResponse_Body body)
               /\ Unmarshal R body (zero R) = (resp, Some cause)
               /\ err = Errorf (callee +:+ ": failed to decode response") cause)
         /\ HasPrefix (Error err) (callee +:+ ": ") = true
         /\ ((exists prefix cause,
                err = Errorf prefix cause
                /\ (Marshal R req = inr cause
                    \/ BehaviorForVerb R callee = inr cause
                    \/ (exists Mock, BehaviorForVerb R callee = inl (MockBehavior Mock)
                                     /\ Mock req = inr cause)
                    \/ (exists body, client_Call R callee body = inr cause)
                    \/ (exists body, (Unmarshal R body (zero R)).2 = Some cause))
                /\ forall k, DalErrsSpec.is_kind k -> errors_Is err k = errors_Is cause k)
             \/ exists msg, err = Opaque msg)
     | Returns resp None =>
         (exists Mock any, BehaviorForVerb R callee = inl (MockBehavior Mock)
                           /\ Mock req = inl any /\ assertResp R any = Some resp)
         \/ (exists reqData body,
               BehaviorForVerb R callee = inl StandardBehavior
               /\ Marshal R req = inl reqData
               /\ client_Call R callee reqData = inl (CallResponse_Body body)
               /\ Unmarshal R body (zero R) = (resp, None))
     | Panics msg =>
         BehaviorForVerb R callee = inl DirectBehavior
         \/ (exists name, BehaviorForVerb R callee = inl (OtherBehavior name))
         \/ (exists reqData T, client_Call R callee reqData = inl (CallResponse_other T))
     end.
Proof.
  assert (forall prefix cause k,
            DalErrsSpec.is_kind k -> errors_Is (Errorf prefix cause) k = errors_Is cause k)
    as Hkind.
  { intros prefix cause k Hk. apply errors_Is_Errorf.
    destruct Hk as [-> | [-> | ->]]; discriminate. }
  assert (forall cause, HasPrefix (Error (Errorf callee cause)) (callee +:+ ": ") = true)
    as Hplain.
  { intros cause. simpl. rewrite <- append_assoc. apply HasPrefix_app. }
  assert (forall what cause,
            HasPrefix (Error (Errorf (callee +:+ ": " +:+ what) cause)) (callee +:+ ": ")
            = true) as Hwhat.
  { intros what cause. simpl. rewrite <- (append_assoc callee ": " what).
    rewrite append_assoc. apply HasPrefix_app. }
  assert (forall msg, HasPrefix (Error (Opaque (callee +:+ ": " +:+ msg))) (callee +:+ ": ")
                      = true) as Hmsg.
  { intros msg. simpl. rewrite <- append_assoc. apply HasPrefix_app. }
  unfold call, at_most_one_effect.
  destruct (Marshal R req) as [reqData|merr] eqn:Hmarshal.
  2:{ split; [simpl; lia|]. split; [intros v b H; now apply not_elem_of_nil in H|].
      split; [intros r H; now apply not_elem_of_nil in H|].
      split; [now left|]. split; [apply (Hwhat "failed to marshal request")|].
      left. eexists _, _. split; [reflexivity|]. split; [auto|apply Hkind]. }
  destruct (BehaviorForVerb R callee) as [[Mock| | |name]|berr] eqn:Hbehavior.
  - destruct (Mock req) as [any|err] eqn:Hmock.
    + destruct (assertResp R any) as [r|] eqn:Hassert.
      * split; [simpl; lia|].
        split; [intros v b [H|H]%elem_of_cons; [discriminate|now apply not_elem_of_nil in H]|].
        split.
        { intros r0 [[= ->]|H]%elem_of_cons; [eauto|now apply not_elem_of_nil in H]. }
        left. eauto.
      * split; [simpl; lia|].
        split; [intros v b [H|H]%elem_of_cons; [discriminate|now apply not_elem_of_nil in H]|].
        split.
        { intros r0 [[= ->]|H]%elem_of_cons; [eauto|now apply not_elem_of_nil in H]. }
        split; [now left|]. split; [|right; eauto].
        apply (Hmsg ("overridden verb had invalid response type " +:+ typeName R any
                     +:+ ", expected " +:+ TypeFor_Resp R)).
    + split; [simpl; lia|].
      split; [intros v b [H|H]%elem_of_cons; [discriminate|now apply not_elem_of_nil in H]|].
      split.
      { intros r0 [[= ->]|H]%elem_of_cons; [eauto|now apply not_elem_of_nil in H]. }
      split; [now left|]. split; [apply Hplain|].
      left. eexists _, _. split; [reflexivity|]. split; [|apply Hkind].
      right. right. left. eauto.
  - split; [simpl; lia|]. split; [intros v b H; now apply not_elem_of_nil in H|].
    split; [intros r H; now apply not_elem_of_nil in H|]. now left.
  - destruct (client_Call R callee reqData) as [[Message|Body|T]|cerr] eqn:Hcall;
      [|destruct (Unmarshal R Body (zero R)) as [resp [uerr|]] eqn:Hun| |];
      (split; [simpl; lia|]);
      (split; [intros v b [[= -> ->]|H]%elem_of_cons;
               [auto|now apply not_elem_of_nil in H]|]);
      (split; [intros r [H|H]%elem_of_cons;
               [discriminate|now apply not_elem_of_nil in H]|]).
    + split; [now left|]. split; [apply Hmsg|]. right. eauto.
    + split; [right; eauto 8|]. split; [apply (Hwhat "failed to decode response")|].
      left. eexists _, _. split; [reflexivity|]. split; [|apply Hkind].
      do 4 right. exists Body. now rewrite Hun.
    + right. eexists _, _. eauto.
    + right. right. eauto.
    + split; [now left|]. split; [apply (Hwhat "failed to call Verb")|].
      left. eexists _, _. split; [reflexivity|]. split; [|apply Hkind].
      do 3 right. left. eauto.
  - split; [simpl; lia|]. split; [intros v b H; now apply not_elem_of_nil in H|].
    split; [intros r H; now apply not_elem_of_nil in H|]. right. left. eauto.
  - split; [simpl; lia|]. split; [intros v b H; now apply not_elem_of_nil in H|].
    split; [intros r H; now apply not_elem_of_nil in H|].
    split; [now left|]. split; [apply Hplain|].
    left. eexists _, _. split; [reflexivity|]. split; [auto|apply Hkind].
Qed.

End Call.

(** The verb echo.echo is mocked by a function that returns a number where
    a string is due: the call returns an error and the controller is not
    asked. *)
Lemma call_outcomes_witness :
  at_most_one_effect (call echo_runtime "echo.echo" "hi").1
  /\ ~ exists verb body,
        Effect_client_Call verb body ∈ (call echo_runtime "echo.echo" "hi").1.
Proof.
  pose proof (call_outcomes echo_runtime "echo.echo" "hi") as H.
  destruct (call echo_runtime "echo.echo" "hi") as [effects result].
  destruct H as (Hone & Hcall & _). split; [exact Hone|].
  intros (verb & body & Hin). destruct (Hcall verb body Hin) as [Hb _].
  discriminate.
Defined.

End FtlCallFacts.

Module IngressFacts.
Import GoStrings GoStringsFacts KotlinGen FtlCallFacts.

Lemma concat_snoc (sep : string) (parts : list string) (s : string) :
  parts <> [] ->
  String.concat sep (parts ++ [s]) = String.concat sep parts +:+ sep +:+ s.
Proof.
  induction parts as [|x parts IH]; [congruence|]. intros _.
  destruct parts as [|y parts]; [reflexivity|].
  change (x +:+ sep +:+ String.concat sep ((y :: parts) ++ [s])
          = (x +:+ sep +:+ String.concat sep (y :: parts)) +:+ sep +:+ s).
  rewrite IH by discriminate. now rewrite !append_assoc.
Qed.

Lemma transformAll_snoc components c :
  transformAll (components ++ [c])
  = match transformAll components with
    | inr ex => inr ex
    | inl parts =>
        match componentString c with
        | inr ex => inr ex
        | inl s => inl (parts ++ [s])
        end
    end.
Proof.
  induction components as [|c0 components IH]; simpl.
  - now destruct (componentString c).
  - destruct (componentString c0); [|reflexivity]. rewrite IH.
    destruct (transformAll components); [|reflexivity].
    now destruct (componentString c).
Qed.

Lemma transformAll_length components parts :
  transformAll components = inl parts -> length parts = length components.
Proof.
  revert parts. induction components as [|c components IH]; intros parts; simpl.
  - now intros [= <-].
  - destruct (componentString c); [|discriminate].
    destruct (transformAll components) as [ps|]; [|discriminate].
    intros [= <-]. simpl. now rewrite (IH ps).
Qed.

(** X24.  ingressPathString throws exactly when a component is neither
    a literal nor a parameter.  The path of no component is "/"; every
    path starts with "/"; and a further component adds "/" and its text,
    or its name in braces, to the path of the components before it. *)
Theorem ingressPathString_paths (components : list IngressPathComponent) :
  ((exists ex, ingressPathString components = inr ex) <->
   exists c, c ∈ components /\ ingressPathLiteral c = None /\ ingressPathParameter c = None)
  /\ ingressPathString [] = inl "/"
  /\ (forall path, ingressPathString components = inl path -> HasPrefix path "/" = true)
  /\ forall path c s,
       components <> [] ->
       ingressPathString components = inl path -> componentString c = inl s ->
       ingressPathString (components ++ [c]) = inl (path +:+ "/" +:+ s).
Proof.
  split; [|split; [reflexivity|split]].
  - unfold ingressPathString. induction components as [|c components IH]; simpl.
    + split; [intros [ex ?]; discriminate|].
      intros (c & Hin & _). now apply not_elem_of_nil in Hin.
    + unfold componentString at 1.
      destruct (ingressPathLiteral c) as [text|] eqn:Hl;
        [|destruct (ingressPathParameter c) as [name|] eqn:Hp].
      * destruct (transformAll components) as [parts|ex].
        -- split; [intros [? ?]; discriminate|].
           intros (c0 & [->|Hin]%elem_of_cons & Hl0 & Hp0); [congruence|].
           destruct (proj2 IH) as [ex Hex]; [eauto|discriminate].
        -- split; [|eauto]. intros _. destruct (proj1 IH) as (c0 & Hin & H); [eauto|].
           exists c0. split; [apply elem_of_cons; now right|exact H].
      * destruct (transformAll components) as [parts|ex].
        -- split; [intros [? ?]; discriminate|].
           intros (c0 & [->|Hin]%elem_of_cons & Hl0 & Hp0); [congruence|].
           destruct (proj2 IH) as [ex Hex]; [eauto|discriminate].
        -- split; [|eauto]. intros _. destruct (proj1 IH) as (c0 & Hin & H); [eauto|].
           exists c0. split; [apply elem_of_cons; now right|exact H].
      * split; [|eauto]. intros _. exists c. split; [apply elem_of_cons; now left|auto].
  - intros path. unfold ingressPathString.
    destruct (transformAll components); [|discriminate]. intros [= <-]. apply HasPrefix_app.
  - intros path c s Hne. unfold ingressPathString. rewrite transformAll_snoc.
    destruct (transformAll components) as [parts|] eqn:Hparts; [|discriminate].
    intros [= <-] ->. f_equal. rewrite concat_snoc.
    + now rewrite !append_assoc.
    + intros ->. apply transformAll_length in Hparts. destruct components; [congruence|].
      discriminate.
Qed.

(** GET /users/{id}: the path of the literal users and the parameter
    id. *)
Lemma ingressPathString_paths_witness :
  ingressPathString [mkIngressPathComponent (Some "users") None;
                     mkIngressPathComponent None (Some "id")]
  = inl "/users/{id}".
Proof.
  apply (proj2 (proj2 (proj2 (ingressPathString_paths
                                [mkIngressPathComponent (Some "users") None])))
           "/users" (mkIngressPathComponent None (Some "id")) "{id}").
  - discriminate.
  - reflexivity.
  - reflexivity.
Defined.

End IngressFacts.

Module EngineNewFacts.
Import BuildEngine BuildFacts BuildMoreSpec BuildMoreFacts EngineNew EngineNewSpec.

Section New.
Context (W : World).

(** What the loop over the discovered modules keeps. *)
Lemma storeModules_flags modules e r e' :
  storeModules W modules e = Done r e' ->
  (forall n meta, moduleMetas e !! n = Some meta ->
     cfg_Module (Config (module meta)) = n /\ lastBuildStartTime meta = 0%Z) ->
  (forall n, modulesToBuild e !! n = Some true <-> is_Some (moduleMetas e !! n)) ->
  controllerSchema e' = controllerSchema e
  /\ (forall n meta, moduleMetas e' !! n = Some meta ->
        cfg_Module (Config (module meta)) = n /\ lastBuildStartTime meta = 0%Z)
  /\ forall n, modulesToBuild e' !! n = Some true <-> is_Some (moduleMetas e' !! n).
Proof.
  intros Hrun Hmeta Hflags. unfold storeModules in Hrun.
  apply bind_Done in Hrun as (r0 & e1 & Hloop & Hret).
  assert (e' = e1) as -> by (destruct r0; run_inv Hret; reflexivity).
  eapply (for_each_inv _
            (fun _ e0 =>
               controllerSchema e0 = controllerSchema e
               /\ (forall n meta, moduleMetas e0 !! n = Some meta ->
                     cfg_Module (Config (module meta)) = n /\ lastBuildStartTime meta = 0%Z)
               /\ forall n, modulesToBuild e0 !! n = Some true
                            <-> is_Some (moduleMetas e0 !! n))
            (fun _ e0 =>
               controllerSchema e0 = controllerSchema e
               /\ (forall n meta, moduleMetas e0 !! n = Some meta ->
                     cfg_Module (Config (module meta)) = n /\ lastBuildStartTime meta = 0%Z)
               /\ forall n, modulesToBuild e0 !! n = Some true
                            <-> is_Some (moduleMetas e0 !! n))) in Hloop.
  - now destruct r0.
  - intros m u e0 r1 e0' _ (Hc & Hm & Hf) Hbody.
    apply bind_Done in Hbody as (u1 & e2 & H1 & H2). unfold emit in H1.
    apply modify_Done in H1. subst e2.
    apply bind_Done in H2 as (upd & e2 & H1 & H2). apply ask_Done in H1 as [_ <-].
    destruct upd as [m'|err].
    + run_inv H2. simpl. split; [exact Hc|]. split.
      * intros n meta. destruct (decide (cfg_Module (Config m') = n)) as [<-|Hne].
        -- rewrite lookup_insert_eq. intros [= <-]. auto.
        -- rewrite lookup_insert_ne by exact Hne. apply Hm.
      * intros n. destruct (decide (cfg_Module (Config m') = n)) as [<-|Hne].
        -- rewrite !lookup_insert_eq. split; eauto.
        -- rewrite !lookup_insert_ne by exact Hne. apply Hf.
    + run_inv H2. simpl. auto.
  - auto.
Qed.

Lemma New_as_new has_listener discovered e :
  New W discovered (fresh has_listener) = Done None e -> as_new W e.
Proof.
  intros Hrun. unfold New in Hrun.
  apply bind_Done in Hrun as (u & e1 & H1 & H2). apply modify_Done in H1. subst e1.
  destruct discovered as [modules|err]; [|apply ret_Done in H2 as [? _]; discriminate].
  apply storeModules_flags in H2 as (Hc & Hm & Hf).
  - split; [|split; assumption]. rewrite Hc. simpl. apply insert_empty.
  - intros n meta Hn. simpl in Hn. now rewrite lookup_empty in Hn.
  - intros n. simpl. rewrite !lookup_empty. split; [discriminate|intros [? ?]; discriminate].
Qed.

End New.

(** X25.  New without a client leaves an engine whose controller schema
    holds builtin and nothing else, whose local modules are stored under
    the names of their configurations and were never built, and in which
    the modules flagged as pending are exactly the local modules.  After
    a BuildAndDeploy on that engine the modules flagged as pending are
    exactly the local modules whose deploy was not started. *)
Theorem new_engine_pending_builds (W : World) (has_listener : bool)
    (discovered : list Module + error) (e0 e' : Engine)
    (replicas : Z) (waitForDeployOnline : bool) (moduleNames : list string)
    (r : option error) :
  New W discovered (fresh has_listener) = Done None e0 ->
  BuildAndDeploy W replicas waitForDeployOnline moduleNames e0 = Done r e' ->
  as_new W e0
  /\ exists evs,
       trace e' = trace e0 ++ evs
       /\ forall n, modulesToBuild e' !! n = Some true
                    <-> is_Some (moduleMetas e' !! n) /\ n ∉ deployed evs.
Proof.
  intros Hnew Hrun. pose proof (New_as_new W _ _ _ Hnew) as Has.
  split; [exact Has|]. destruct Has as (_ & _ & Hflags).
  destruct (BuildAndDeploy_kept W _ _ _ _ _ _ Hrun) as (evs & (Ht & Hd & _) & _ & _ & Hf).
  exists evs. split; [exact Ht|]. intros n. rewrite Hf.
  assert (is_Some (moduleMetas e' !! n) <-> is_Some (moduleMetas e0 !! n)) as ->.
  { rewrite <- !elem_of_dom. now rewrite Hd. }
  destruct (decide (n ∈ deployed evs)) as [Hin|Hin].
  - split; [discriminate|]. intros [_ ?]. contradiction.
  - rewrite Hflags. tauto.
Qed.

(** S1: a and b are discovered; after b alone is built and deployed, a is
    pending and b is not. *)
Lemma new_engine_pending_builds_witness :
  as_new DevLoopSpec.S1_world S1_new
  /\ modulesToBuild S1_new_b_deployed !! "a" = Some true.
Proof.
  destruct (new_engine_pending_builds DevLoopSpec.S1_world false
              (inl [GraphSpec.S1_a; GraphSpec.S1_b]) S1_new S1_new_b_deployed
              1 true ["b"] None) as (Has & evs & Ht & Hf).
  - vm_compute. reflexivity.
  - vm_compute. reflexivity.
  - split; [exact Has|]. apply Hf. split; [vm_compute; eauto|].
    assert (evs = drop (length (trace S1_new)) (trace S1_new_b_deployed)) as ->
      by (rewrite Ht; symmetry; apply drop_app_length).
    assert (deployed (drop (length (trace S1_new)) (trace S1_new_b_deployed)) = ["b"])
      as -> by (vm_compute; reflexivity).
    intros [?|H]%elem_of_cons; [discriminate|now apply not_elem_of_nil in H].
Defined.

End EngineNewFacts.

Module GatherFacts.
Import BuildEngine BuildFacts GraphMoreSpec GatherSpec.

Lemma NoDup_keys_length {A} (m : gmap string A) (l : list string) :
  NoDup l -> (forall x, x ∈ l -> is_Some (m !! x)) -> length l <= size m.
Proof.
  intros Hnd Hin. rewrite <- length_map_to_list, <- (length_fmap fst).
  apply submseteq_length, NoDup_submseteq; [exact Hnd|].
  intros x Hx. destruct (Hin x Hx) as [a Ha].
  apply list_elem_of_fmap. exists (x, a). split; [reflexivity|].
  now apply elem_of_map_to_list.
Qed.

Section Gather.
Context (e : Engine) (moduleSchemas : gmap string SchemaModule).

Local Abbreviation metas := (moduleMetas e).
Local Abbreviation deps_of := (GatherSpec.deps_of (moduleMetas e)).
Local Abbreviation enters := (GatherSpec.enters (moduleMetas e)).
Local Abbreviation gathered := (GatherSpec.gathered (moduleMetas e)).

(** What a walk from [out] leaves: the names it has gathered hold what
    the built map has for them, and the others are as before. *)
Local Abbreviation walked G out out1 :=
  ((forall x : string, G x -> out1 !! x = Some (moduleSchemas !! x))
   /\ forall x : string, out1 !! x = out !! x \/ G x)
  (only parsing).

Lemma gathered_step n d x : enters n d -> gathered d x -> gathered n x.
Proof.
  intros Hnd [Hx|(y & Hy & Hx)]; right.
  - exists d. split; [now apply tc_once|exact Hx].
  - exists y. split; [eapply tc_l; eauto|exact Hx].
Qed.

Lemma gathered_inv n x :
  gathered n x -> x ∈ deps_of n \/ exists d, enters n d /\ gathered d x.
Proof.
  intros [Hx|(y & Hy & Hx)]; [now left|]. right.
  destruct Hy as [a y Hay|a d y Had Hdy].
  - exists y. split; [exact Hay|now left].
  - exists d. split; [exact Had|]. right. eauto.
Qed.

(** The loop over the dependencies of a module, given what the calls it
    makes do. *)
Lemma gather_loop fuel n :
  (forall d meta out0,
     enters n d -> metas !! d = Some meta ->
     exists out1,
       gatherSchemas fuel moduleSchemas (module meta) out0 e = Done (inl out1) e
       /\ walked (gathered d) out0 out1) ->
  forall deps out0,
    (forall d, d ∈ deps -> d ∈ deps_of n) ->
    exists out1,
      for_each
        (fun dep out =>
           let out := <[dep := moduleSchemas !! dep]> out in
           if decide (dep <> "builtin") then
             depModule ← Load_moduleMeta dep;
             match depModule with
             | Some depModule => gatherSchemas fuel moduleSchemas (module depModule) out
             | None => mret (inl out)
             end
           else mret (inl out))
        deps out0 e = Done (inl out1) e
      /\ walked (fun x => x ∈ deps \/ exists d, d ∈ deps /\ enters n d /\ gathered d x)
                out0 out1.
Proof.
  intros Hrec. induction deps as [|dep deps IH]; intros out0 Hdeps.
  - exists out0. split; [reflexivity|]. split.
    + intros x [Hx|(d & Hd & _)]; now apply not_elem_of_nil in Hx || now apply not_elem_of_nil in Hd.
    + now left.
  - cbn [for_each]. unfold mbind at 1, M_bind at 1.
    set (out_a := <[dep := moduleSchemas !! dep]> out0).
    assert (dep ∈ deps_of n) as Hdep by (apply Hdeps, elem_of_cons; now left).
    assert (exists out_b,
              (if decide (dep <> "builtin") then
                 depModule ← Load_moduleMeta dep;
                 match depModule with
                 | Some depModule =>
                     gatherSchemas fuel moduleSchemas (module depModule) out_a
                 | None => mret (inl out_a)
                 end
               else mret (inl out_a)) e = Done (inl out_b) e
              /\ (forall x, enters n dep -> gathered dep x ->
                            out_b !! x = Some (moduleSchemas !! x))
              /\ forall x, out_b !! x = out_a !! x \/ (enters n dep /\ gathered dep x))
      as (out_b & -> & Hb1 & Hb2).
    { destruct (decide (dep <> "builtin")) as [Hne|Heq].
      - unfold mbind, M_bind, Load_moduleMeta, gets.
        destruct (metas !! dep) as [meta|] eqn:Hmeta.
        + assert (enters n dep) as Hent by (split; [exact Hdep|split; [exact Hne|eauto]]).
          destruct (Hrec dep meta out_a Hent Hmeta) as (out_b & Hrun & H1 & H2).
          exists out_b. split; [exact Hrun|]. split; [intros x _; apply H1|].
          intros x. destruct (H2 x); auto.
        + exists out_a. split; [reflexivity|]. split; [|auto].
          intros x (_ & _ & [m Hm]). congruence.
      - exists out_a. split; [reflexivity|]. split; [|auto].
        intros x (_ & Hne & _). contradiction. }
    destruct (IH out_b) as (out1 & Hrun & H1 & H2).
    { intros d Hd. apply Hdeps, elem_of_cons. now right. }
    exists out1. split; [exact Hrun|]. split.
    + intros x HG.
      assert (out_b !! x = Some (moduleSchemas !! x) -> out1 !! x = Some (moduleSchemas !! x))
        as Hkeep.
      { intros Hx. destruct (H2 x) as [->|HG']; [exact Hx|now apply H1]. }
      destruct HG as [[->|Hx]%elem_of_cons|(d & [->|Hd]%elem_of_cons & Hent & Hg)].
      * apply Hkeep. destruct (Hb2 dep) as [->|[Hent Hg]].
        -- unfold out_a. apply lookup_insert_eq.
        -- now apply Hb1.
      * apply H1. now left.
      * apply Hkeep. now apply Hb1.
      * apply H1. right. eauto.
    + intros x. destruct (H2 x) as [->|[Hx|(d & Hd & Hent & Hg)]].
      * destruct (Hb2 x) as [->|[Hent Hg]].
        -- unfold out_a. destruct (decide (dep = x)) as [->|Hne].
           ++ right. left. apply elem_of_cons. now left.
           ++ left. now apply lookup_insert_ne.
        -- right. right. exists dep. split; [apply elem_of_cons; now left|auto].
      * right. left. apply elem_of_cons. now right.
      * right. right. exists d. split; [apply elem_of_cons; now right|auto].
Qed.

(** Enough fuel: with [stack] the modules the walk has gone through to
    come to [n], the fuel that is left is more than the local modules
    that are not on the stack. *)
Lemma gather_fuel :
  keyed metas -> acyclic metas ->
  forall fuel n meta stack out,
    metas !! n = Some meta ->
    NoDup (n :: stack) ->
    (forall x, x ∈ stack -> is_Some (metas !! x) /\ tc enters x n) ->
    size metas < fuel + length (n :: stack) ->
    exists out1,
      gatherSchemas fuel moduleSchemas (module meta) out e = Done (inl out1) e
      /\ walked (gathered n) out out1.
Proof.
  intros Hkeyed Hacyclic. induction fuel as [|fuel IH]; intros n meta stack out Hn Hnd Hstack Hfuel.
  - exfalso. assert (length (n :: stack) <= size metas) as Hlen.
    { apply NoDup_keys_length; [exact Hnd|].
      intros x [->|Hx]%elem_of_cons; [eauto|now apply Hstack]. }
    lia.
  - cbn [gatherSchemas]. unfold mbind at 1, M_bind at 1, Load_moduleMeta at 1, gets at 1.
    rewrite (Hkeyed n meta Hn), Hn.
    destruct (gather_loop fuel n) with (deps := Dependencies (module meta)) (out0 := out)
      as (out1 & Hrun & H1 & H2).
    + intros d meta_d out0 Hent Hd. apply (IH d meta_d (n :: stack) out0 Hd).
      * apply NoDup_cons. split; [|exact Hnd].
        intros [->|Hx]%elem_of_cons.
        -- apply (Hacyclic n). now apply tc_once.
        -- apply (Hacyclic d). eapply tc_r; [apply (Hstack d Hx)|exact Hent].
      * intros x [->|Hx]%elem_of_cons.
        -- split; [eauto|now apply tc_once].
        -- split; [apply (Hstack x Hx)|]. eapply tc_r; [apply (Hstack x Hx)|exact Hent].
      * simpl in *. lia.
    + intros d Hd. unfold GatherSpec.deps_of. now rewrite Hn.
    + exists out1. split; [exact Hrun|]. split.
      * intros x Hx. apply H1. apply gathered_inv in Hx as [Hx|(d & Hent & Hg)].
        -- left. unfold GatherSpec.deps_of in Hx. now rewrite Hn in Hx.
        -- right. exists d. split; [|auto]. destruct Hent as (Hd & _).
           unfold GatherSpec.deps_of in Hd. now rewrite Hn in Hd.
      * intros x. destruct (H2 x) as [->|[Hx|(d & Hd & Hent & Hg)]]; [now left| |].
        -- right. left. unfold GatherSpec.deps_of. now rewrite Hn.
        -- right. eapply gathered_step; eauto.
Qed.

End Gather.

(** X26.  When the local modules are stored under the names of their
    configurations and none depends on itself through local modules,
    gatherSchemas comes back within the bound build gives it, leaving the
    engine as it is.  The map it fills for a local module has an entry
    for each dependency of the module and of every local module, other
    than builtin, that it reaches through dependencies, and for no other
    name; the entry is what the built map has for the name, nil when it
    has nothing.  So build comes back for every module. *)
Theorem build_gathers_dependencies (W : World) (e : Engine)
    (builtModules : gmap string SchemaModule) (moduleName : string) :
  keyed (moduleMetas e) -> acyclic (moduleMetas e) ->
  (forall meta, moduleMetas e !! moduleName = Some meta ->
     exists combined,
       gatherSchemas (S (size (moduleMetas e))) builtModules (module meta) ∅ e
       = Done (inl combined) e
       /\ forall d,
            (gathered (moduleMetas e) moduleName d ->
             combined !! d = Some (builtModules !! d))
            /\ (is_Some (combined !! d) -> gathered (moduleMetas e) moduleName d))
  /\ exists r e', build W moduleName builtModules e = Done r e'.
Proof.
  intros Hkeyed Hacyclic.
  assert (forall meta, moduleMetas e !! moduleName = Some meta ->
            exists combined,
              gatherSchemas (S (size (moduleMetas e))) builtModules (module meta) ∅ e
              = Done (inl combined) e
              /\ forall d,
                   (gathered (moduleMetas e) moduleName d ->
                    combined !! d = Some (builtModules !! d))
                   /\ (is_Some (combined !! d) -> gathered (moduleMetas e) moduleName d))
    as Hgather.
  { intros meta Hmeta.
    destruct (gather_fuel e builtModules Hkeyed Hacyclic (S (size (moduleMetas e)))
                moduleName meta [] ∅ Hmeta) as (combined & Hrun & H1 & H2).
    - apply NoDup_singleton.
    - intros x Hx. now apply not_elem_of_nil in Hx.
    - simpl. lia.
    - exists combined. split; [exact Hrun|]. intros d. split; [apply H1|].
      intros [v Hv]. destruct (H2 d) as [Heq|Hg]; [|exact Hg].
      rewrite Hv, lookup_empty in Heq. discriminate. }
  split; [exact Hgather|].
  unfold build, mbind, M_bind, Load_moduleMeta, gets.
  destruct (moduleMetas e !! moduleName) as [meta|] eqn:Hmeta; [|eauto].
  destruct (Hgather meta eq_refl) as (combined & Hrun & _). rewrite Hrun.
  unfold when, emit, modify, ask, mret, M_ret.
  destruct (listener e);
    destruct (Build W _ combined (module meta));
    try destruct (ModuleFromProtoFile W _ _); eauto.
Qed.

(** Scenario S1: a depends on b and b on builtin, so no module depends
    on itself, and the build of a comes back. *)
Lemma build_gathers_dependencies_witness :
  exists r e',
    build DevLoopSpec.S1_world "a" BuildSpec.S9_built BuildSpec.S9_engine = Done r e'.
Proof.
  apply (build_gathers_dependencies DevLoopSpec.S1_world BuildSpec.S9_engine
           BuildSpec.S9_built "a").
  - intros n meta Hn. simpl in Hn.
    destruct (decide (n = "a")) as [->|Ha].
    { vm_compute in Hn. now injection Hn as <-. }
    destruct (decide (n = "b")) as [->|Hb].
    { vm_compute in Hn. now injection Hn as <-. }
    unfold GraphSpec.S1_metas in Hn.
    rewrite !lookup_insert_ne, lookup_empty in Hn by congruence. discriminate.
  - intros n Hcycle.
    assert (forall x y, tc (enters (moduleMetas BuildSpec.S9_engine)) x y ->
                        x = "a" /\ y = "b") as Hedges.
    { assert (forall x y, enters (moduleMetas BuildSpec.S9_engine) x y ->
                          x = "a" /\ y = "b") as Hone.
      { intros x y (Hin & Hne & Hloc). unfold GatherSpec.deps_of in Hin. simpl in *.
        unfold GraphSpec.S1_metas in *.
        destruct (decide (x = "a")) as [->|Ha].
        - split; [reflexivity|]. vm_compute in Hin.
          apply list_elem_of_singleton in Hin. exact Hin.
        - exfalso. rewrite lookup_insert_ne in Hin by congruence.
          destruct (decide (x = "b")) as [->|Hb].
          + vm_compute in Hin. apply list_elem_of_singleton in Hin. contradiction.
          + rewrite lookup_insert_ne, lookup_empty in Hin by congruence.
            now apply not_elem_of_nil in Hin. }
      intros x y Htc. induction Htc as [x y H|x y z H _ IH]; [now apply Hone|].
      destruct (Hone x y H) as [-> ->]. destruct IH as [? _]. discriminate. }
    destruct (Hedges n n Hcycle) as [-> ?]. discriminate.
Defined.

End GatherFacts.

